(* ===== verification/_CoqProject ===== *)
-Q . S2P
Prelude.v
RustStr.v
RustPath.v
Types.v
Parsers.v
Json.v
Serde.v
Launch.v
Errors.v
Lifecycles.v
Interfaces.v
Store.v
EventLog.v
LongPoll.v
LogSink.v
Prog.v
Platform.v
ProcessExit.v
MacOs.v
Paths.v
CliSpawn.v
Mounts.v
Docker.v
Server.v
Proto.v
Wire.v
Contracts.v
Generator.v
CliOutput.v
Client.v
CliFormat.v
Cli.v
Shim.v
Doctor.v
Kill.v
Mcp.v
Reconcile.v
Handler.v
Frames.v
Races.v
Isolation.v
Daemon.v
ServerSpec.v
EndToEnd.v
Session.v
Company.v
CliEndToEnd.v
