(* ===== verification/Prelude.v ===== *)
(** * runtime-matters: a verification library

    runtime-matters runs agent runtimes (Claude Code, Codex) for sessions. A daemon, rtmd,
    starts each runtime headless or in a tmux pane, on the host or in a Docker container,
    keeps the lifecycle of every session in SQLite and an ordered log of events on disk, and
    answers clients on a Unix socket. Between the daemon and a runtime runs a shim, a hidden
    command of the command line rtm. This library models the Rust code of the repository as
    executable definitions and proves what makes it correct. It follows the code: a file for
    each component, names and order of the steps as in the source.

    ** Conventions

    A [Result] is [result E A] with [?] as its bind; code that changes a state is [M W E A],
    a function from the state to the result and the state reached, also on errors. A task of
    the daemon is a [Prog] (Prog.v): a sequence of atomic actions on the shared state, an
    action being what runs between two points at which the task can be interleaved (one
    statement of the store, one append to the log, one use of a lock, one call of the
    system). [run] is the task alone, [upto] a task that a [select!] drops on its way,
    [among] the task with the steps of others in between, [pool_step] any number of tasks,
    [amid] one task of such a pool; [wp] and [quiet] are the rules for invariants, and
    families of them, that tasks keep. Unsigned integers are [N]
    and signed ones [Z], with their bounds written out where the code parses, adds or
    serialises them; strings and paths are their bytes. The operating system, the docker,
    tmux and which programs, SQLite, serde_json's parser, chrono, uuid and clap are classes or
    variables, with what the code relies on as the laws of the class; every class has a
    concrete instance, and every property with hypotheses a witness that runs it.

    ** Parts and files

    Foundations. Prelude.v: results, the state monad, its Hoare triples, tactics. RustStr.v
    and RustPath.v: the operations of the standard library on strings and paths. Types.v: the
    data of crates/rtm-core/src/types, isolation.rs, launcher.rs, capture.rs, admin.rs.
    Parsers.v: [Display] and [FromStr] of those types. Json.v, Serde.v and Wire.v: JSON
    values, one combinator for each serde attribute in use, the codec of every message, and
    the line framing of proto.rs. Proto.v: requests, responses and version.rs.

    Storage. Lifecycles.v: the state machine of types/lifecycle.rs and its transition
    relation. Interfaces.v: what the coordinators ask of a store and of an event log, as
    classes of operations with their laws. Store.v: crates/rtm-store over SQL tables, and its
    instance of the laws. EventLog.v and LongPoll.v: crates/rtm-daemon/src/event_log.rs, the
    durable log over a file system in which any call can fail, and the callers that wait in
    it; LogSink.v: their instance of the laws.

    The system below. Platform.v, ProcessExit.v and MacOs.v: crates/rtm-platform, the last
    its kernel queues and start times on macOS. Paths.v: crates/rtm-paths. Launch.v:
    environments, launch specifications and crates/rtm-launchers. Mounts.v and Docker.v:
    docker_mount_plan.rs, docker_argv.rs, docker_runtime.rs, docker_preflight.rs and the
    checks of spawn_preflight.rs.

    The daemon. Server.v: ServerState and its coordinators (server/state.rs, spawn.rs,
    termination.rs, watcher.rs, status.rs, events.rs). Doctor.v: doctor.rs. Kill.v:
    runtime_kill.rs. Contracts.v and Mcp.v: tool_contracts.rs, tools.toml and mcp_bridge.rs.
    Reconcile.v: reconcile.rs. Handler.v: handler.rs, backend.rs, the preflight and the
    launching half of shim_socket.rs; it composes all of these into the task of a connection.
    Frames.v: the tasks that leave every session alone. Races.v: all tasks together, and
    what an invariant of all of them has to survive. Isolation.v: the tasks of other
    sessions. Daemon.v: server/runner.rs and socket.rs around them.
    Errors.v: error.rs, the error codes of responses.

    Clients. Client.v: crates/rtm-client, the calls and the event watcher. CliOutput.v,
    CliFormat.v, CliSpawn.v and Cli.v: crates/rtm-cli, from parsed arguments to the bytes on
    each stream and the exit status. Shim.v: cli/shim.rs. EndToEnd.v and CliEndToEnd.v:
    clients and commands over connections to the daemon's tasks. Session.v: the shim over
    connections to the daemon whose spawn waits for it. Company.v: the calls of a session
    among the tasks of others. Generator.v: the build scripts of
    crates/rtm-cli and crates/rtm-core, and the files of src/generated.

    The operations of a component correspond to functions of the same name; a name that two
    components share, or that Rocq reserves, has a prefix ([store_get], [client_kill],
    [run_nudge]). A loop is a Fixpoint; its body is a definition of its own where a theorem
    is about it ([poll_runtime], [bridge_turn]).

    ** What the theorems show

    Concurrency: however tasks interleave, are dropped or fail, each session has at most one
    terminal event (Races.v, and over a daemon's whole life Daemon.v), and no task of another
    session touches what the daemon knows of a session (Isolation.v); a report of an exit
    can still be overwritten by the write of a spawn that is late, which Races.v shows.
    Session.v: what a whole session leaves, from the shim's first call to its last;
    Company.v: that it leaves the same while other sessions do anything in between.
    Coordinators (ServerSpec.v): a spawn is admitted exactly when it should be and begins
    entirely or not at all; reports of exits and losses and the sweep refine their
    specifications over the map of sessions and the history of events. Store.v: the
    statements implement a finite map under any failures; rows are read back exactly when the
    record is storable. EventLog.v: a crash at any call never tears or reorders the log (and
    one kind of failed write that makes it unreadable), retention, exactly-once delivery to a
    client that polls; LongPoll.v: no wake-up is lost, and each waiting caller is woken in
    any fair run. Kill.v: which signals are sent when, and that the polling ends. Mounts.v
    and Docker.v: what an accepted mount plan and an accepted image guarantee. Wire.v: every
    message is read back, and what is read can be written. EndToEnd.v: a remote call is the
    daemon's task; a watcher's batches partition the history; what is received can be stored.
    Handler.v: what a connection does and answers, a client that goes away included.
    Reconcile.v: what a sweep records, and that periodic sweeps come at their rhythm for as
    long as the daemon runs. Mcp.v: each line has its answer, and arguments that conform to a tool's schema are
    accepted. Shim.v: retries and the wait for the runtime. MacOs.v: which descriptors a
    watch leaves open and when it notifies. Generator.v: what a build writes, and that a
    second build changes nothing. Cli.v, CliSpawn.v and
    CliEndToEnd.v: what a command sends, prints and exits with. Flaws that the proofs met are
    theorems too ([compaction_failure_forgets], [torn_append_breaks_reopen],
    [long_poll_sync_failure_strands], [exit_report_overwritten], [late_ready_strands],
    [sweep_stops_at_probe_error], [lossy_working_directory], [cover_choice_depends_on_order], [kill_grace_overflow],
    [tool_results_conform], [socket_taken_over]).

    ** Fuel

    [wait_until] has one turn per 25 ms of the grace period and one more, enough on any clock
    that a sleep advances ([wait_until_total]). [removed_loop] needs 81 turns for its two
    seconds ([daemon_stop_total]). [advance_deadline] has a turn per interval up to now; with
    an interval of zero no fuel is enough ([advance_deadline_next]). The loops that wait for
    a process ([poll_loop], [watch_loop]) have a turn per 100 ms that it lives, for any
    lifetime ([wait_for_runtime_total], [process_exit_notified]). [run_stdio] has a turn per
    line, at most one more than the bytes of the input ([commands_report_daemon]).
    [redact_fuel] has the depth of the value ([redact_fuel_enough]). The fuel of the string
    functions of RustStr.v is the length of the string.

    ** Not modelled

    Parsing of the command line by clap and the help texts. The tasks that copy the output of
    a headless child into its log files: byte copying between descriptors. The Windows
    endpoints, which the source refuses. The texts of serde's, serde_json's and the standard
    library's parse errors, where a peer sees them only as a message: the model has a stand-in
    where the source passes one on. Variants of an enum given by number, which serde accepts
    in buffered values and no peer writes. Numbers beyond 64 bits and fractions are a
    constructor of JSON values without arithmetic. sqlx: connecting to SQLite and running the
    migrations are arguments of [LifecycleStore_open], which makes the calls around them.
    Paths that are not UTF-8 in a message: serde refuses to write them, and the codecs are
    given none. Tracing, panics on a broken pipe, and the order of a HashMap's keys. *)

From Stdlib Require Export ZifyN ZifyNat ZifyBool.
From stdpp Require Export base gmap strings list pretty sorting.
From stdpp Require Import options.

(** ** The [Result] type of the source and its two monads *)

Inductive result (E A : Type) : Type :=
| Ok (a : A)
| Err (e : E).
Arguments Ok {E A} a.
Arguments Err {E A} e.

#[export] Instance result_eq_dec {E A} `{EqDecision E, EqDecision A} : EqDecision (result E A).
Proof. solve_decision. Defined.

(** [?] on a [Result]: the first error is returned. *)
#[export] Instance result_ret E : MRet (result E) := λ A a, Ok a.
#[export] Instance result_bind E : MBind (result E) := λ A B f m,
  match m with Ok a => f a | Err e => Err e end.
#[export] Instance result_fmap E : FMap (result E) := λ A B f m,
  match m with Ok a => Ok (f a) | Err e => Err e end.

Definition map_err {E F A} (f : E → F) (m : result E A) : result F A :=
  match m with Ok a => Ok a | Err e => Err (f e) end.

Definition ok_or {E A} (e : E) (o : option A) : result E A :=
  match o with Some a => Ok a | None => Err e end.

(** [Result::ok]. *)
Definition ok {E A} (m : result E A) : option A :=
  match m with Ok a => Some a | Err _ => None end.

Definition is_ok {E A} (m : result E A) : bool :=
  match m with Ok _ => true | Err _ => false end.

(** [Option<Result<A>>::transpose]. *)
Definition transpose {E A} (o : option (result E A)) : result E (option A) :=
  match o with
  | None => Ok None
  | Some (Ok a) => Ok (Some a)
  | Some (Err e) => Err e
  end.

(** [iter.map(f).collect::<Result<Vec<_>>>()]: stops at the first error. *)
Fixpoint try_map {E A B} (f : A → result E B) (l : list A) : result E (list B) :=
  match l with
  | [] => Ok []
  | x :: l => y ← f x; ys ← try_map f l; Ok (y :: ys)
  end.

(** A loop [for x in l { body(x)?; }] without state. *)
Fixpoint try_iter {E A} (f : A → result E unit) (l : list A) : result E unit :=
  match l with
  | [] => Ok tt
  | x :: l => _ ← f x; try_iter f l
  end.

(** Code that mutates a shared state and may fail: the state reached before an
    error is kept, as in the source, where [?] undoes nothing. *)
Definition M (W E A : Type) : Type := W → result E A * W.

#[export] Instance M_ret W E : MRet (M W E) := λ A a w, (Ok a, w).
#[export] Instance M_bind W E : MBind (M W E) := λ A B f m w,
  match m w with
  | (Ok a, w') => f a w'
  | (Err e, w') => (Err e, w')
  end.

Definition lift {W E A} (r : result E A) : M W E A := λ w, (r, w).
Definition throw {W E A} (e : E) : M W E A := λ w, (Err e, w).
Definition gets {W E A} (f : W → A) : M W E A := λ w, (Ok (f w), w).
Definition modify {W E} (f : W → W) : M W E unit := λ w, (Ok tt, f w).
(** A [match] on the outcome of a call, the state being kept either way. *)
Definition attempt {W E A} (m : M W E A) : M W E (result E A) :=
  λ w, let '(r, w') := m w in (Ok r, w').
Definition when {W E} (b : bool) (m : M W E unit) : M W E unit :=
  if b then m else mret tt.

(** ** Machine integers: unsigned values are [N], signed ones [Z] *)

Definition u16_max : N := 65535.
Definition u32_max : N := 4294967295.
Definition u64_max : N := 18446744073709551615.
Definition i32_min : Z := -2147483648.
Definition i32_max : Z := 2147483647.
Definition i64_min : Z := -9223372036854775808.
Definition i64_max : Z := 9223372036854775807.

Definition u32_ok (n : N) : Prop := (n ≤ u32_max)%N.
Definition u64_ok (n : N) : Prop := (n ≤ u64_max)%N.
Definition i32_ok (z : Z) : Prop := (i32_min ≤ z ≤ i32_max)%Z.

Definition u64_saturating_add (a b : N) : N := N.min (a + b) u64_max.
(** [N.sub] is truncated, so it is [saturating_sub]. *)
Definition u64_saturating_sub (a b : N) : N := (a - b)%N.

(** ** Automation *)

Create HintDb rtm discriminated.

Lemma bind_Ok {E A B} (m : result E A) (f : A → result E B) b :
  m ≫= f = Ok b ↔ ∃ a, m = Ok a ∧ f a = Ok b.
Proof. destruct m; unfold mbind, result_bind; naive_solver. Qed.

Lemma ok_or_Ok {E A} (e : E) (o : option A) a : ok_or e o = Ok a ↔ o = Some a.
Proof. destruct o; simpl; naive_solver. Qed.

Lemma map_err_Ok {E F A} (f : E → F) (m : result E A) a : map_err f m = Ok a ↔ m = Ok a.
Proof. destruct m; simpl; naive_solver. Qed.

Lemma fmap_Ok {E A B} (f : A → B) (m : result E A) b :
  f <$> m = Ok b ↔ ∃ a, m = Ok a ∧ b = f a.
Proof. destruct m; unfold fmap, result_fmap; naive_solver. Qed.

(** Follow a successful run of the result monad in the hypotheses. *)
Ltac inv_result :=
  repeat match goal with
  | H : mret _ = Ok _ |- _ => injection H as H
  | H : _ ≫= _ = Ok _ |- _ =>
      let x := fresh "x" in let E := fresh "E" in apply bind_Ok in H as (x & E & H)
  | H : _ <$> _ = Ok _ |- _ =>
      let x := fresh "x" in let E := fresh "E" in apply fmap_Ok in H as (x & E & H)
  | H : ok_or _ _ = Ok _ |- _ => apply ok_or_Ok in H
  | H : map_err _ _ = Ok _ |- _ => apply map_err_Ok in H
  | _ => progress simplify_eq/=
  end.

(** Unfold the state monad's operations in the goal. *)
Ltac run_m :=
  unfold mbind, M_bind, mret, M_ret, lift, throw, gets, modify, attempt, when in *; simpl in *.

(** ** Hoare triples for the state and error monad

    [hoare P m Q R]: from a state with [P], [m] returns with [Q] or fails with [R]. *)

Definition hoare {W E A} (P : W → Prop) (m : M W E A) (Q : A → W → Prop) (R : E → W → Prop) : Prop :=
  ∀ w, P w → match m w with (Ok a, w') => Q a w' | (Err e, w') => R e w' end.

Section hoare.
Context {W E : Type}.

Lemma hoare_bind {A B} (P : W → Prop) (m : M W E A) (f : A → M W E B) Q R S :
  hoare P m Q R → (∀ a, hoare (Q a) (f a) S R) → hoare P (m ≫= f) S R.
Proof.
  intros Hm Hf w Hw. unfold mbind, M_bind. specialize (Hm w Hw).
  destruct (m w) as [[a|e] w']; [by apply Hf|done].
Qed.

Lemma hoare_ret {A} (P : W → Prop) (a : A) (Q : A → W → Prop) (R : E → W → Prop) :
  (∀ w, P w → Q a w) → hoare P (mret a) Q R.
Proof. intros H w Hw. by apply H. Qed.

Lemma hoare_throw {A} (P : W → Prop) (e : E) (Q : A → W → Prop) (R : E → W → Prop) :
  (∀ w, P w → R e w) → hoare P (throw e) Q R.
Proof. intros H w Hw. by apply H. Qed.

(** The first step fails with a condition of its own. *)
Lemma hoare_try {A B} (P : W → Prop) (m : M W E A) (f : A → M W E B) Q R S T :
  hoare P m Q T → (∀ e w, T e w → R e w) → (∀ a, hoare (Q a) (f a) S R) → hoare P (m ≫= f) S R.
Proof.
  intros Hm HT Hf w Hw. unfold mbind, M_bind. specialize (Hm w Hw).
  destruct (m w) as [[a|e] w']; [by apply Hf|auto].
Qed.

(** The first two steps together. *)
Lemma hoare_two {A B C} (P : W → Prop) (m1 : M W E A) (m2 : M W E B) (f : B → M W E C) Q R S :
  hoare P (_ ← m1; m2) Q R → (∀ b, hoare (Q b) (f b) S R) → hoare P (_ ← m1; m2 ≫= f) S R.
Proof.
  intros Hm Hf w Hw. specialize (Hm w Hw). revert Hm. unfold mbind, M_bind.
  destruct (m1 w) as [[a|e] w1]; [|done]. destruct (m2 w1) as [[b|e] w2]; [apply Hf|done].
Qed.

Lemma hoare_modify (P : W → Prop) (f : W → W) (Q : unit → W → Prop) (R : E → W → Prop) :
  (∀ w, P w → Q tt (f w)) → hoare P (modify f) Q R.
Proof. intros H w Hw. by apply H. Qed.

(** The value read is remembered. *)
Lemma hoare_gets {A B} (P : W → Prop) (f : W → A) (g : A → M W E B) Q R :
  (∀ a, hoare (λ w, P w ∧ f w = a) (g a) Q R) → hoare P (gets f ≫= g) Q R.
Proof. intros H w Hw. unfold mbind, M_bind, gets. by apply H. Qed.

Lemma hoare_lift {A B} (P : W → Prop) (r : result E A) (g : A → M W E B) Q R :
  (∀ a, r = Ok a → hoare P (g a) Q R) → (∀ e, r = Err e → ∀ w, P w → R e w) →
  hoare P (lift r ≫= g) Q R.
Proof. intros H1 H2 w Hw. unfold mbind, M_bind, lift. destruct r; [by apply H1|by apply (H2 e)]. Qed.

(** A fact that the precondition implies of the other variables. *)
Lemma hoare_pure {A} (φ : Prop) (P : W → Prop) (m : M W E A) Q R :
  (∀ w, P w → φ) → (φ → hoare P m Q R) → hoare P m Q R.
Proof. intros Hφ H w Hw. by apply (H (Hφ w Hw)). Qed.

Lemma hoare_conseq {A} (P P' : W → Prop) (m : M W E A) Q Q' R R' :
  hoare P' m Q' R' → (∀ w, P w → P' w) → (∀ a w, Q' a w → Q a w) → (∀ e w, R' e w → R e w) →
  hoare P m Q R.
Proof.
  intros H HP HQ HR w Hw. specialize (H w (HP w Hw)). destruct (m w) as [[a|e] w']; auto.
Qed.


Lemma hoare_true {A} (P : W → Prop) (m : M W E A) : hoare P m (λ _ _, True) (λ _ _, True).
Proof. intros w _. by destruct (m w) as [[]]. Qed.

(** [P] is invariant under the call, whatever its outcome. *)
Definition preserves {A} (P : W → Prop) (m : M W E A) : Prop := hoare P m (λ _, P) (λ _, P).

Lemma preserves_bind {A B} (P : W → Prop) (m : M W E A) (f : A → M W E B) :
  preserves P m → (∀ a, preserves P (f a)) → preserves P (m ≫= f).
Proof. intros Hm Hf. by eapply hoare_bind. Qed.

Lemma preserves_ret {A} (P : W → Prop) (a : A) : preserves P (mret a).
Proof. by apply hoare_ret. Qed.

Lemma preserves_throw {A} (P : W → Prop) (e : E) : preserves P (throw e : M W E A).
Proof. by apply hoare_throw. Qed.

Lemma preserves_lift {A} (P : W → Prop) (r : result E A) : preserves P (lift r).
Proof. intros w Hw. by destruct r. Qed.
End hoare.
#[export] Hint Resolve preserves_bind preserves_ret preserves_throw preserves_lift : rtm.

(** ** Generic lemmas *)

Section try_lemmas.
Context {E A B : Type}.

Lemma try_map_Ok (f : A → result E B) l ys :
  try_map f l = Ok ys ↔ Forall2 (λ x y, f x = Ok y) l ys.
Proof.
  revert ys. induction l as [|x l IH]; intros ys; simpl.
  - split; [intros [= <-]; constructor | by inversion 1].
  - split.
    + intros H. inv_result. constructor; [done|]. by apply IH.
    + inversion 1 as [|? y ? ys' Hx Hl]; subst. rewrite Hx. simpl.
      by rewrite (proj2 (IH _) Hl).
Qed.

Lemma try_map_length (f : A → result E B) l ys :
  try_map f l = Ok ys → length ys = length l.
Proof. intros H%try_map_Ok. symmetry. by eapply Forall2_length. Qed.

Lemma try_map_total (f : A → result E B) (g : A → B) l :
  (∀ x, x ∈ l → f x = Ok (g x)) → try_map f l = Ok (g <$> l).
Proof.
  induction l as [|x l IH]; intros Hf; simpl; [done|].
  rewrite Hf by set_solver. simpl. rewrite IH; [done|]. set_solver.
Qed.

Lemma try_iter_Ok (f : A → result E unit) l :
  try_iter f l = Ok tt ↔ Forall (λ x, f x = Ok tt) l.
Proof.
  induction l as [|x l IH]; simpl; [by split|].
  rewrite Forall_cons, <- IH. destruct (f x) as [[]|e]; simpl; naive_solver.
Qed.
End try_lemmas.

#[export] Hint Resolve Forall_nil_2 : rtm.
