(* ===== verification/RustStr.v ===== *)
(** * Rust string operations

    A [&str] or [String] of the source is its UTF-8 byte sequence, a [string].
    This file models the operations of the Rust standard library the program
    uses on strings ([strip_prefix], [split], [split_once], [rsplit_once],
    [trim], [parse::<u32>] and so on) and proves their round trips. *)

From Stdlib Require Import Ascii.
From S2P Require Import Prelude.
From stdpp Require Import options.

(** ** Searching and splitting *)

Fixpoint strip_prefix (p s : string) : option string :=
  match p, s with
  | EmptyString, _ => Some s
  | String a p', String b s' => if decide (a = b) then strip_prefix p' s' else None
  | String _ _, EmptyString => None
  end.

Definition starts_with (p s : string) : bool :=
  match strip_prefix p s with Some _ => true | None => false end.

(** [str::split(c)] for a one byte separator. *)
Fixpoint split_on (c : ascii) (s : string) : list string :=
  match s with
  | EmptyString => [EmptyString]
  | String a s' =>
      if decide (a = c) then EmptyString :: split_on c s'
      else match split_on c s' with
           | [] => [String a EmptyString]
           | w :: ws => String a w :: ws
           end
  end.

Fixpoint split_once (c : ascii) (s : string) : option (string * string) :=
  match s with
  | EmptyString => None
  | String a s' =>
      if decide (a = c) then Some (EmptyString, s')
      else '(l, r) ← split_once c s'; Some (String a l, r)
  end.

Fixpoint rsplit_once (c : ascii) (s : string) : option (string * string) :=
  match s with
  | EmptyString => None
  | String a s' =>
      match rsplit_once c s' with
      | Some (l, r) => Some (String a l, r)
      | None => if decide (a = c) then Some (EmptyString, s') else None
      end
  end.

(** [slice.join(sep)]. *)
Fixpoint join (sep : string) (l : list string) : string :=
  match l with
  | [] => ""
  | [w] => w
  | w :: ws => w +:+ sep +:+ join sep ws
  end.

(** [str::contains] for a string pattern. *)
Fixpoint contains (p s : string) : bool :=
  starts_with p s || match s with EmptyString => false | String _ s' => contains p s' end.

(** The bytes of a string. *)
Fixpoint bytes (s : string) : list ascii :=
  match s with EmptyString => [] | String a s => a :: bytes s end.

Fixpoint of_bytes (l : list ascii) : string :=
  match l with [] => EmptyString | a :: l => String a (of_bytes l) end.

(** ** Case and white space *)

Definition ascii_upper (a : ascii) : ascii :=
  let n := N_of_ascii a in
  if bool_decide (97 ≤ n ∧ n ≤ 122)%N then ascii_of_N (n - 32) else a.

Fixpoint to_ascii_uppercase (s : string) : string :=
  match s with EmptyString => EmptyString | String a s => String (ascii_upper a) (to_ascii_uppercase s) end.

(** [str::trim_start_matches(pat)] removes the pattern as often as it leads;
    the fuel is the length of the string and every round with a nonempty
    pattern shortens it. *)
Fixpoint trim_start_matches_fuel (fuel : nat) (p s : string) : string :=
  match fuel with
  | 0 => s
  | S fuel => match strip_prefix p s with
              | Some s' => trim_start_matches_fuel fuel p s'
              | None => s
              end
  end.
Definition trim_start_matches (p s : string) : string :=
  trim_start_matches_fuel (String.length s) p s.

(** The UTF-8 encodings of the characters with the Unicode property
    [White_Space], which [str::trim] removes. *)
Definition white_space : list (list N) :=
  [[9]; [10]; [11]; [12]; [13]; [32]; [194; 133]; [194; 160]; [225; 154; 128];
   [226; 128; 128]; [226; 128; 129]; [226; 128; 130]; [226; 128; 131]; [226; 128; 132];
   [226; 128; 133]; [226; 128; 134]; [226; 128; 135]; [226; 128; 136]; [226; 128; 137];
   [226; 128; 138]; [226; 128; 168]; [226; 128; 169]; [226; 128; 175]; [226; 129; 159];
   [227; 128; 128]]%N.

Definition ws_strings : list string := (λ l, of_bytes (ascii_of_N <$> l)) <$> white_space.
Definition ws_strings_rev : list string :=
  (λ l, of_bytes (reverse (ascii_of_N <$> l))) <$> white_space.

Fixpoint strip_any (ps : list string) (s : string) : option string :=
  match ps with
  | [] => None
  | p :: ps => match strip_prefix p s with Some s' => Some s' | None => strip_any ps s end
  end.

Fixpoint trim_with (fuel : nat) (ps : list string) (s : string) : string :=
  match fuel with
  | 0 => s
  | S fuel => match strip_any ps s with Some s' => trim_with fuel ps s' | None => s end
  end.

Definition trim_start (s : string) : string := trim_with (String.length s) ws_strings s.
Definition trim_end (s : string) : string :=
  String.rev (trim_with (String.length s) ws_strings_rev (String.rev s)).
Definition trim (s : string) : string := trim_end (trim_start s).

(** The order of [str], which is that of the bytes (and the [BINARY] collation of SQL). *)
Definition text_le (s t : string) : Prop := String.leb s t = true.
#[export] Instance text_le_dec s t : Decision (text_le s t).
Proof. unfold text_le. apply _. Defined.

(** [str::split_whitespace]: the maximal runs of other characters. *)
Fixpoint words_from (fuel : nat) (word s : string) : list string :=
  let done := if String.eqb word "" then [] else [word] in
  match fuel with
  | 0 => done
  | S fuel =>
      match strip_any ws_strings s with
      | Some s' => done ++ words_from fuel "" s'
      | None =>
          match s with
          | EmptyString => done
          | String a s' => words_from fuel (word +:+ String a "") s'
          end
      end
  end.
Definition split_whitespace (s : string) : list string := words_from (S (String.length s)) "" s.

(** [str::lines]. *)
Definition strip_cr (line : string) : string :=
  match String.rev line with
  | String "013"%char rest => String.rev rest
  | _ => line
  end.
Definition str_lines (s : string) : list string :=
  let parts := split_on "010"%char s in
  let complete := strip_cr <$> removelast parts in
  match List.last parts "" with
  | EmptyString => complete
  | rest => complete ++ [rest]
  end.

(** ** Decimal integers *)

Definition digit_value (a : ascii) : option N :=
  let n := N_of_ascii a in
  if bool_decide (48 ≤ n ∧ n ≤ 57)%N then Some (n - 48)%N else None.

Fixpoint parse_digits (acc : N) (s : string) : option N :=
  match s with
  | EmptyString => Some acc
  | String a s => d ← digit_value a; parse_digits (10 * acc + d) s
  end.

(** [str::parse] for an unsigned type with the given maximum: an optional
    plus sign, at least one digit, no overflow. *)
Definition parse_unsigned (max : N) (s : string) : option N :=
  let body := match s with String "+" s' => s' | _ => s end in
  match body with
  | EmptyString => None
  | _ => n ← parse_digits 0 body; if bool_decide (n ≤ max)%N then Some n else None
  end.
(** The text of the error of an unsigned parse, for inputs that do not parse. *)
Fixpoint digits_error (max acc : N) (s : string) : string :=
  match s with
  | EmptyString => ""
  | String a s =>
      match digit_value a with
      | None => "invalid digit found in string"
      | Some d =>
          if (max <? acc * 10 + d)%N then "number too large to fit in target type"
          else digits_error max (acc * 10 + d) s
      end
  end.
Definition parse_unsigned_error (max : N) (s : string) : string :=
  match s with
  | EmptyString => "cannot parse integer from empty string"
  | String a rest =>
      if decide (a = "+"%char ∧ rest ≠ "") then digits_error max 0 rest else digits_error max 0 s
  end.

Definition parse_u32 : string → option N := parse_unsigned u32_max.
Definition parse_u64 : string → option N := parse_unsigned u64_max.

(** [str::parse] for a signed type. *)
Definition parse_signed (min max : Z) (s : string) : option Z :=
  let '(neg, body) := match s with
                      | String "+" s' => (false, s')
                      | String "-" s' => (true, s')
                      | _ => (false, s)
                      end in
  match body with
  | EmptyString => None
  | _ => n ← parse_digits 0 body;
         let z := if (neg : bool) then (- Z.of_N n)%Z else Z.of_N n in
         if bool_decide (min ≤ z ≤ max)%Z then Some z else None
  end.
Definition parse_i64 : string → option Z := parse_signed i64_min i64_max.

(** [Display] of unsigned and signed integers. *)
Definition display_u (n : N) : string := pretty n.
Definition display_i (z : Z) : string := pretty z.

(** ** [to_string_lossy]

    Each maximal ill-formed prefix of a UTF-8 sequence is replaced by U+FFFD. *)
Definition in_range (lo hi : N) (b : option N) : bool :=
  match b with Some b => (lo <=? b)%N && (b <=? hi)%N | None => false end.

(** The range allowed for the second byte of a sequence, and its width. *)
Definition utf8_lead (b : N) : option (nat * (N * N)) :=
  if in_range 194 223 (Some b) then Some (2, (128, 191)%N)
  else if (b =? 224)%N then Some (3, (160, 191)%N)
  else if (b =? 237)%N then Some (3, (128, 159)%N)
  else if in_range 225 239 (Some b) then Some (3, (128, 191)%N)
  else if (b =? 240)%N then Some (4, (144, 191)%N)
  else if in_range 241 243 (Some b) then Some (4, (128, 191)%N)
  else if (b =? 244)%N then Some (4, (128, 143)%N)
  else None.

(** Number of continuation bytes present, at most [n]. *)
Fixpoint utf8_tail (n : nat) (l : list N) : nat :=
  match n, l with
  | S n, b :: l => if in_range 128 191 (Some b) then S (utf8_tail n l) else 0
  | _, _ => 0
  end.

(** Bytes of the first character or ill-formed prefix, and whether it is a character. *)
Definition utf8_step (l : list N) : bool * nat :=
  match l with
  | [] => (true, 0)
  | b :: l =>
      if (b <? 128)%N then (true, 1) else
      match utf8_lead b with
      | None => (false, 1)
      | Some (w, (lo, hi)) =>
          if in_range lo hi (head l) then
            let n := utf8_tail (w - 2) (tail l) in (bool_decide (n = w - 2), 2 + n)
          else (false, 1)
      end
  end.

Fixpoint lossy_fuel (fuel : nat) (l : list N) : list N :=
  match fuel, l with
  | S fuel, _ :: _ =>
      let '(valid, n) := utf8_step l in
      (if valid then take n l else [239; 191; 189]%N) ++ lossy_fuel fuel (drop n l)
  | _, _ => []
  end.

Definition to_string_lossy (s : string) : string :=
  let l := N_of_ascii <$> bytes s in of_bytes (ascii_of_N <$> lossy_fuel (length l) l).

(** The text is well formed. *)
Fixpoint utf8_valid_fuel (fuel : nat) (l : list N) : bool :=
  match fuel, l with
  | S fuel, _ :: _ => let '(valid, n) := utf8_step l in valid && utf8_valid_fuel fuel (drop n l)
  | _, _ => true
  end.
Definition utf8_valid (s : string) : bool :=
  let l := N_of_ascii <$> bytes s in utf8_valid_fuel (length l) l.

Example lossy_sample :
  to_string_lossy (of_bytes (ascii_of_N <$> [65; 255; 66; 226; 130; 67; 226; 130; 172]%N)) =
  of_bytes (ascii_of_N <$> [65; 239; 191; 189; 66; 239; 191; 189; 67; 226; 130; 172]%N).
Proof. reflexivity. Qed.

(** ** Lemmas: append, prefixes and bytes *)

Lemma str_app_cons a (s t : string) : String a s +:+ t = String a (s +:+ t).
Proof. done. Qed.

Lemma str_app_nil_l (s : string) : "" +:+ s = s.
Proof. done. Qed.

Lemma str_app_nil_r (s : string) : s +:+ "" = s.
Proof. induction s as [|a s IH]; [done|]. by rewrite str_app_cons, IH. Qed.

Lemma str_app_assoc (s t u : string) : (s +:+ t) +:+ u = s +:+ t +:+ u.
Proof. induction s as [|a s IH]; [done|]. by rewrite !str_app_cons, IH. Qed.

Lemma str_app_inv_l (s t u : string) : s +:+ t = s +:+ u → t = u.
Proof. apply (inj (String.app s)). Qed.

Lemma bytes_app s t : bytes (s +:+ t) = bytes s ++ bytes t.
Proof. induction s as [|a s IH]; [done|]. rewrite str_app_cons. simpl. by rewrite IH. Qed.

Lemma of_bytes_bytes s : of_bytes (bytes s) = s.
Proof. induction s; simpl; by f_equal. Qed.

Lemma bytes_of_bytes l : bytes (of_bytes l) = l.
Proof. induction l; simpl; by f_equal. Qed.

Lemma strip_prefix_app p s : strip_prefix p (p +:+ s) = Some s.
Proof.
  induction p as [|a p IH]; [done|]. rewrite str_app_cons. simpl. by rewrite decide_True.
Qed.

Lemma strip_prefix_Some p s r : strip_prefix p s = Some r ↔ s = p +:+ r.
Proof.
  split; [|intros ->; apply strip_prefix_app].
  revert s. induction p as [|a p IH]; intros s; simpl; [naive_solver|].
  destruct s as [|b s]; [done|]. case_decide; [subst|done].
  intros ->%IH. done.
Qed.

Lemma starts_with_true p s : starts_with p s = true ↔ ∃ r, s = p +:+ r.
Proof.
  unfold starts_with. destruct (strip_prefix p s) as [r|] eqn:E.
  - apply strip_prefix_Some in E. naive_solver.
  - split; [done|]. intros [r ->]. by rewrite strip_prefix_app in E.
Qed.

#[export] Hint Rewrite str_app_nil_r str_app_assoc bytes_app strip_prefix_app : rtm.

(** ** Lemmas: splitting *)

Lemma split_once_app c l r : c ∉ bytes l → split_once c (l +:+ String c r) = Some (l, r).
Proof.
  induction l as [|a l IH]; intros Hc.
  - simpl. by rewrite decide_True.
  - rewrite str_app_cons. simpl in *. rewrite decide_False by set_solver.
    rewrite IH by set_solver. done.
Qed.

Lemma split_once_Some c s l r :
  split_once c s = Some (l, r) ↔ s = l +:+ String c r ∧ c ∉ bytes l.
Proof.
  split; [|intros [-> ?]; by apply split_once_app].
  revert l. induction s as [|a s IH]; intros l; simpl; [done|].
  case_decide; subst; [intros [= <- <-]; split; [done|set_solver]|].
  destruct (split_once c s) as [[l' r']|]; simpl; [|done].
  intros [= <- <-]. destruct (IH l' eq_refl) as [-> ?]. split; [done|set_solver].
Qed.

Lemma rsplit_once_None c s : c ∉ bytes s → rsplit_once c s = None.
Proof.
  induction s as [|a s IH]; simpl; intros Hc; [done|].
  rewrite IH by set_solver. rewrite decide_False; [done|set_solver].
Qed.

Lemma rsplit_once_app c l r : c ∉ bytes r → rsplit_once c (l +:+ String c r) = Some (l, r).
Proof.
  intros Hc. induction l as [|a l IH].
  - simpl. rewrite rsplit_once_None by done. by rewrite decide_True.
  - rewrite str_app_cons. simpl. by rewrite IH.
Qed.

Lemma rsplit_once_Some c s l r :
  rsplit_once c s = Some (l, r) ↔ s = l +:+ String c r ∧ c ∉ bytes r.
Proof.
  split; [|intros [-> ?]; by apply rsplit_once_app].
  revert l. induction s as [|a s IH]; intros l; simpl; [done|].
  destruct (rsplit_once c s) as [[l' r']|] eqn:E.
  - intros [= <- <-]. destruct (IH l' eq_refl) as [-> ?]. done.
  - case_decide; [subst|done]. intros [= <- <-]. split; [done|].
    clear IH. induction s as [|b s IH]; simpl in *; [set_solver|].
    destruct (rsplit_once c s) as [[]|]; [done|]. case_decide; [done|]. set_solver.
Qed.

Lemma split_on_not_nil c s : split_on c s ≠ [].
Proof. destruct s as [|a s]; simpl; [done|]. case_decide; [done|]. by destruct (split_on c s). Qed.

Lemma split_on_no_sep c w : c ∉ bytes w → split_on c w = [w].
Proof.
  induction w as [|a w IH]; simpl; intros Hc; [done|].
  rewrite decide_False by set_solver. by rewrite IH by set_solver.
Qed.

Lemma split_on_app c w s : c ∉ bytes w → split_on c (w +:+ String c s) = w :: split_on c s.
Proof.
  induction w as [|a w IH]; intros Hc.
  - simpl. by rewrite decide_True.
  - rewrite str_app_cons. simpl in *. rewrite decide_False by set_solver.
    by rewrite IH by set_solver.
Qed.

Lemma join_split_on c s : join (String c "") (split_on c s) = s.
Proof.
  induction s as [|a s IH]; [done|]. simpl.
  pose proof (split_on_not_nil c s). case_decide; subst.
  - destruct (split_on c s) as [|w ws]; [done|]. simpl in *. by rewrite IH.
  - destruct (split_on c s) as [|w ws]; [done|].
    destruct ws as [|w' ws]; simpl in *; by rewrite <- IH.
Qed.

Lemma split_on_elems c s w : w ∈ split_on c s → c ∉ bytes w.
Proof.
  revert w. cut (Forall (λ w, c ∉ bytes w) (split_on c s)).
  { intros H w Hw. rewrite Forall_forall in H. by apply H. }
  induction s as [|a s IH]; simpl; [repeat constructor; apply not_elem_of_nil|].
  case_decide; subst; [constructor; [apply not_elem_of_nil|done]|].
  destruct (split_on c s) as [|w ws].
  - repeat constructor. simpl. set_solver.
  - apply Forall_cons in IH as [Hw Hws]. constructor; [|done]. simpl. set_solver.
Qed.

Lemma split_on_join c l :
  l ≠ [] → Forall (λ w, c ∉ bytes w) l → split_on c (join (String c "") l) = l.
Proof.
  intros Hne Hl. induction Hl as [|w l Hw Hl IH]; [done|].
  destruct l as [|w' l]; [by apply split_on_no_sep|].
  change (split_on c (w +:+ String c (join (String c "") (w' :: l))) = w :: w' :: l).
  rewrite split_on_app by done. by rewrite IH.
Qed.

(** ** Lemmas: decimal round trips *)

Lemma digit_value_char x : (x < 10)%N → digit_value (pretty_N_char x) = Some x.
Proof.
  intros Hx.
  assert (x = 0 ∨ x = 1 ∨ x = 2 ∨ x = 3 ∨ x = 4 ∨ x = 5 ∨ x = 6 ∨ x = 7 ∨ x = 8 ∨ x = 9)%N
    by lia. naive_solver.
Qed.

Lemma parse_digits_pretty_go n s :
  (0 < n)%N → parse_digits 0 (pretty_N_go n s) = parse_digits n s.
Proof.
  revert s. induction (N.lt_wf_0 n) as [n _ IH]; intros s Hn.
  rewrite pretty_N_go_step by done.
  assert (Hm : (n `mod` 10 < 10)%N) by (by apply N.mod_lt).
  destruct (decide (n `div` 10 = 0)%N) as [E|E].
  - rewrite E, pretty_N_go_0. simpl. rewrite digit_value_char by done. simpl.
    f_equal. pose proof (N.div_mod n 10). lia.
  - assert (n `div` 10 < n)%N by (apply N.div_lt; lia).
    rewrite IH by lia. simpl. rewrite digit_value_char by done. simpl.
    f_equal. pose proof (N.div_mod n 10). lia.
Qed.

Definition is_digit (a : ascii) : bool := match digit_value a with Some _ => true | None => false end.

Lemma pretty_go_digits n s :
  Forall (λ a, is_digit a = true) (bytes s) →
  Forall (λ a, is_digit a = true) (bytes (pretty_N_go n s)).
Proof.
  revert s. induction (N.lt_wf_0 n) as [n _ IH]; intros s Hs.
  destruct (decide (n = 0)%N) as [->|Hn]; [by rewrite pretty_N_go_0|].
  rewrite pretty_N_go_step by lia. apply IH; [apply N.div_lt; lia|].
  simpl. constructor; [|done]. unfold is_digit. rewrite digit_value_char; [done|].
  by apply N.mod_lt.
Qed.

Lemma display_u_digits n : Forall (λ a, is_digit a = true) (bytes (display_u n)).
Proof.
  unfold display_u, pretty, pretty_N. case_decide; [repeat constructor|].
  apply pretty_go_digits. constructor.
Qed.

(** A decimal numeral holds no byte that is not a digit. *)
Lemma display_u_no_sep c n : is_digit c = false → c ∉ bytes (display_u n).
Proof.
  intros Hc Hin. pose proof (display_u_digits n) as Hd. rewrite Forall_forall in Hd.
  specialize (Hd c Hin). congruence.
Qed.

Lemma parse_digits_display n : parse_digits 0 (display_u n) = Some n.
Proof.
  unfold display_u, pretty, pretty_N. case_decide; [by subst|].
  by rewrite parse_digits_pretty_go by lia.
Qed.

Lemma display_u_cons n : ∃ a s, display_u n = String a s ∧ is_digit a = true.
Proof.
  pose proof (display_u_digits n) as Hd. pose proof (parse_digits_display n) as Hp.
  destruct (display_u n) as [|a s] eqn:E; simpl in *.
  - exfalso. revert E. unfold display_u, pretty, pretty_N. case_decide; [done|].
    intros E. pose proof (parse_digits_pretty_go n "" ltac:(lia)) as H1.
    rewrite E in H1. simpl in H1. simplify_eq.
  - inversion Hd; subst. eauto.
Qed.

Lemma parse_unsigned_display max n :
  (n ≤ max)%N → parse_unsigned max (display_u n) = Some n.
Proof.
  intros Hn. unfold parse_unsigned. destruct (display_u_cons n) as (a & s & E & Ha).
  pose proof (parse_digits_display n) as Hp. rewrite E in *.
  assert (match String a s with String "+" s' => s' | _ => String a s end = String a s) as ->.
  { destruct a as [[] [] [] [] [] [] [] []]; try done; by vm_compute in Ha. }
  rewrite Hp. simpl. by rewrite bool_decide_eq_true_2.
Qed.

Lemma parse_unsigned_bound max s n : parse_unsigned max s = Some n → (n ≤ max)%N.
Proof.
  unfold parse_unsigned. set (body := match s with String "+" s' => s' | _ => s end).
  destruct body; [done|]. destruct (parse_digits _ _) as [m|]; simpl; [|done].
  case_bool_decide; naive_solver.
Qed.

#[export] Hint Resolve parse_unsigned_bound display_u_no_sep : rtm.

Lemma utf8_step_pos b l : 0 < (utf8_step (b :: l)).2.
Proof.
  unfold utf8_step. destruct (b <? 128)%N; simpl; [lia|].
  destruct (utf8_lead b) as [[w [lo hi]]|]; simpl; [|lia]. case_match; simpl; lia.
Qed.

Lemma lossy_fuel_valid fuel l :
  length l ≤ fuel → utf8_valid_fuel fuel l = true → lossy_fuel fuel l = l.
Proof.
  revert l. induction fuel as [|fuel IH]; intros [|b l] Hl; try done; [simpl in Hl; lia|].
  cbn [utf8_valid_fuel lossy_fuel]. pose proof (utf8_step_pos b l) as Hp.
  destruct (utf8_step (b :: l)) as [v n]. intros [-> Hv]%andb_prop.
  rewrite IH; [by rewrite take_drop| |done]. rewrite length_drop. simpl in *. lia.
Qed.

Lemma to_string_lossy_valid s : utf8_valid s = true → to_string_lossy s = s.
Proof.
  unfold utf8_valid, to_string_lossy. intros H. rewrite lossy_fuel_valid by done.
  rewrite <- list_fmap_compose. rewrite <- (of_bytes_bytes s) at 2. f_equal.
  rewrite <- (list_fmap_id (bytes s)) at 2. apply list_fmap_ext. intros _ a _. simpl.
  apply ascii_N_embedding.
Qed.

Lemma lossy_fuel_bytes fuel l b : b ∈ lossy_fuel fuel l → b ∈ l ∨ b ∈ [239; 191; 189]%N.
Proof.
  revert l. induction fuel as [|fuel IH]; intros [|b' l]; cbn [lossy_fuel]; try by intros ?%elem_of_nil.
  destruct (utf8_step (b' :: l)) as [v n]. intros [Hb|Hb]%elem_of_app.
  - destruct v; [left|by right]. by apply (subseteq_take n).
  - apply IH in Hb as [Hb|]; [left|by right]. by apply (subseteq_drop n).
Qed.

(** A text that reads as ASCII is what was read. *)
Lemma lossy_fuel_ascii fuel l :
  length l ≤ fuel → Forall (λ b, (b < 128)%N) (lossy_fuel fuel l) → lossy_fuel fuel l = l.
Proof.
  revert l. induction fuel as [|fuel IH]; intros [|b l] Hl; try done; [simpl in Hl; lia|].
  cbn [lossy_fuel]. pose proof (utf8_step_pos b l) as Hp. destruct (utf8_step (b :: l)) as [v n].
  intros [Hv Hf]%Forall_app. destruct v; [|by apply Forall_cons_1 in Hv as [? _]].
  rewrite IH; [by rewrite take_drop| |done]. rewrite length_drop. simpl in *. lia.
Qed.

Lemma to_string_lossy_no (c : ascii) s :
  (N_of_ascii c < 128)%N → c ∉ bytes s → c ∉ bytes (to_string_lossy s).
Proof.
  intros Hc Hs. unfold to_string_lossy. rewrite bytes_of_bytes.
  intros (b & -> & [Hb|Hb]%lossy_fuel_bytes)%list_elem_of_fmap.
  - apply list_elem_of_fmap in Hb as (a & -> & Ha). by rewrite ascii_N_embedding in Hs.
  - rewrite N_ascii_embedding in Hc by (revert b Hb Hc Hs; set_solver by lia). set_solver by lia.
Qed.

Lemma to_string_lossy_ascii s t :
  to_string_lossy s = t → Forall (λ c, (N_of_ascii c < 128)%N) (bytes t) → s = t.
Proof.
  intros <-. unfold to_string_lossy. set (l := N_of_ascii <$> bytes s). rewrite bytes_of_bytes, Forall_fmap.
  intros Hf. rewrite lossy_fuel_ascii; [|done|].
  - subst l. rewrite <- list_fmap_compose. rewrite <- (of_bytes_bytes s) at 1. f_equal.
    rewrite <- (list_fmap_id (bytes s)) at 1. apply list_fmap_ext. intros _ a _. simpl.
    by rewrite ascii_N_embedding.
  - rewrite Forall_forall in Hf |- *. intros b Hb. specialize (Hf b Hb). simpl in Hf.
    rewrite N_ascii_embedding in Hf; [done|]. apply lossy_fuel_bytes in Hb as [Hb|Hb].
    + apply list_elem_of_fmap in Hb as (a & -> & _). apply N_ascii_bounded.
    + set_solver by lia.
Qed.

(** ** Trimming *)

#[export] Instance bytes_inj : Inj (=) (=) bytes.
Proof. intros s t H. by rewrite <- (of_bytes_bytes s), H, of_bytes_bytes. Qed.

Lemma bytes_rev s : bytes (String.rev s) = reverse (bytes s).
Proof.
  unfold String.rev. cut (∀ t, bytes (String.rev_app s t) = reverse (bytes s) ++ bytes t).
  { intros H. by rewrite H, app_nil_r. }
  induction s as [|a s IH]; intros t; simpl; [done|].
  by rewrite IH, reverse_cons, <- app_assoc.
Qed.

Lemma rev_snoc s a : String.rev (s +:+ String a "") = String a (String.rev s).
Proof. apply bytes_inj. rewrite bytes_rev, bytes_app, reverse_app. simpl. by rewrite bytes_rev. Qed.

Lemma rev_involutive s : String.rev (String.rev s) = s.
Proof. apply bytes_inj. by rewrite !bytes_rev, reverse_involutive. Qed.

(** A byte that ends no white space character. *)
Definition visible (a : ascii) : bool := (32 <? N_of_ascii a)%N && (N_of_ascii a <? 127)%N.

Definition starts_other (a : ascii) (p : string) : bool :=
  match p with String b _ => negb (bool_decide (b = a)) | _ => false end.

Lemma strip_any_other ps a s : forallb (starts_other a) ps = true → strip_any ps (String a s) = None.
Proof.
  induction ps as [|p ps IH]; simpl; [done|].
  intros [Hp Hps]%andb_prop. destruct p as [|b p]; [done|]. simpl in *.
  apply negb_true_iff, bool_decide_eq_false in Hp. rewrite decide_False by done. auto.
Qed.

Lemma visible_strip_any a s : visible a = true → strip_any ws_strings_rev (String a s) = None.
Proof.
  assert (∀ a, forallb (starts_other a) ws_strings_rev || negb (visible a) = true) as H
    by (intros [[] [] [] [] [] [] [] []]; vm_compute; done).
  intros Hv. specialize (H a). rewrite Hv, orb_false_r in H. by apply strip_any_other.
Qed.

Lemma visible_not_space a s : visible a = true → strip_any ws_strings (String a s) = None.
Proof.
  assert (∀ a, forallb (starts_other a) ws_strings || negb (visible a) = true) as H
    by (intros [[] [] [] [] [] [] [] []]; vm_compute; done).
  intros Hv. specialize (H a). rewrite Hv, orb_false_r in H. by apply strip_any_other.
Qed.

Lemma trim_end_visible s a : visible a = true → trim_end (s +:+ String a "") = s +:+ String a "".
Proof.
  intros Ha. unfold trim_end. rewrite rev_snoc. destruct (String.length _) as [|n]; cbn [trim_with].
  - by rewrite <- rev_snoc, rev_involutive.
  - rewrite visible_strip_any by done. by rewrite <- rev_snoc, rev_involutive.
Qed.

Lemma trim_end_newline s a :
  visible a = true → trim_end ((s +:+ String a "") +:+ String "010" "") = s +:+ String a "".
Proof.
  intros Ha. unfold trim_end. rewrite rev_snoc.
  assert (String.length ((s +:+ String a "") +:+ String "010" "") =
          S (String.length (s +:+ String a ""))) as ->.
  { generalize (s +:+ String a ""). intros t. induction t as [|b t IH]; [done|].
    rewrite str_app_cons. simpl. by rewrite IH. }
  cbn [trim_with]. assert (∀ t, strip_any ws_strings_rev (String "010" t) = Some t) as -> by done.
  pose proof (trim_end_visible s a Ha) as H. unfold trim_end in H. apply H.
Qed.

(** ** Words *)

(** Visible ASCII characters, at least one. *)
Definition is_word (w : string) : Prop := w ≠ "" ∧ Forall (λ a, visible a = true) (bytes w).

Lemma words_from_word fuel word w s :
  Forall (λ a, visible a = true) (bytes w) → String.length w ≤ fuel →
  words_from fuel word (w +:+ s) = words_from (fuel - String.length w) (word +:+ w) s.
Proof.
  revert fuel word. induction w as [|a w IH]; intros fuel word Hw Hf; simpl in *.
  - rewrite str_app_nil_l, str_app_nil_r. by rewrite Nat.sub_0_r.
  - apply Forall_cons_1 in Hw as [Ha Hw]. destruct fuel as [|fuel]; [lia|].
    rewrite str_app_cons. cbn [words_from]. rewrite visible_not_space by done.
    rewrite IH by (done || lia). simpl. by rewrite str_app_assoc, str_app_cons, str_app_nil_l.
Qed.

Lemma length_app_str (s t : string) : String.length (s +:+ t) = String.length s + String.length t.
Proof. induction s as [|a s IH]; [done|]. rewrite str_app_cons. simpl. by rewrite IH. Qed.

(** Words separated by spaces, then a newline. *)
Lemma words_from_line fuel words :
  Forall is_word words → String.length (join " " words +:+ String "010" "") < fuel →
  words_from fuel "" (join " " words +:+ String "010" "") = words.
Proof.
  assert (∀ w n s, w ≠ "" → strip_any ws_strings s = Some "" →
            words_from (S (S n)) w s = [w]) as Hend.
  { intros w n s Hw Hs. cbn [words_from]. rewrite Hs. destruct (String.eqb_spec w ""); [done|].
    by destruct n. }
  intros Hw. revert fuel. induction Hw as [|w words [Hne Hv] Hws IH]; intros fuel Hf.
  - cbn [join] in *. destruct fuel as [|[|fuel]]; [simpl in Hf; lia..|]. cbn [words_from].
    change (strip_any ws_strings ("" +:+ String "010" "")) with (Some ""). simpl. by destruct fuel.
  - destruct words as [|w' words].
    + cbn [join] in *. rewrite length_app_str in Hf. simpl in Hf. rewrite words_from_word by (done || lia).
      rewrite str_app_nil_l. destruct (fuel - String.length w) as [|[|n]] eqn:E; [lia..|]. by apply Hend.
    + assert (join " " (w :: w' :: words) +:+ String "010" "" =
              w +:+ String " " (join " " (w' :: words) +:+ String "010" "")) as E.
      { change (join " " (w :: w' :: words)) with (w +:+ " " +:+ join " " (w' :: words)).
        by rewrite !str_app_assoc. }
      rewrite E in *. rewrite length_app_str in Hf. cbn [String.length] in Hf.
      rewrite words_from_word by (done || lia). rewrite str_app_nil_l.
      destruct (fuel - String.length w) as [|n] eqn:En; [lia|]. cbn [words_from].
      assert (∀ s, strip_any ws_strings (String " " s) = Some s) as -> by done.
      destruct (String.eqb_spec w ""); [done|]. rewrite IH; [done|]. lia.
Qed.

Lemma split_whitespace_line words :
  Forall is_word words → split_whitespace (join " " words +:+ String "010" "") = words.
Proof. intros Hw. apply words_from_line; [done|lia]. Qed.
