(* ===== verification/RustPath.v ===== *)
(** * Rust paths

    [Path] and [PathBuf] of the Rust standard library on Unix, for the
    operations the program uses: [components], comparison, [starts_with],
    [strip_prefix], [join], [parent], [file_name]. A path is its text; Rust
    compares two paths component by component, so [path_eq] is coarser than
    equality of the texts and the operations are proved [Proper] for it.

    The text of a path is its bytes, which need not be UTF-8; [to_string_lossy], which
    [display] prints too, is that of RustStr.v. *)

From Stdlib Require Import Ascii.
From S2P Require Import Prelude RustStr.
From stdpp Require Import options.

Inductive Component := RootDir | CurDir | ParentDir | Normal (name : string).

#[export] Instance Component_eq_dec : EqDecision Component.
Proof. solve_decision. Defined.

Definition sep : ascii := "/".

Definition is_absolute (p : string) : bool := starts_with "/" p.

(** One field between separators; empty fields and [.] give no component. *)
Definition component_of (part : string) : option Component :=
  if decide (part = "" ∨ part = ".") then None
  else if decide (part = "..") then Some ParentDir
  else Some (Normal part).

(** [Path::components]: a leading [.] of a relative path is kept. *)
Definition components (p : string) : list Component :=
  if is_absolute p then RootDir :: omap component_of (split_on sep p)
  else match split_on sep p with
       | first :: rest =>
           (if decide (first = ".") then [CurDir] else option_list (component_of first))
             ++ omap component_of rest
       | [] => []
       end.

(** [PathBuf == PathBuf]. *)
Definition path_eq (p q : string) : Prop := components p = components q.

#[export] Instance path_eq_dec p q : Decision (path_eq p q).
Proof. unfold path_eq. apply _. Defined.

#[export] Instance path_eq_equiv : Equivalence path_eq.
Proof. split; unfold path_eq; repeat intro; congruence. Qed.

(** [Path::strip_prefix], as the components that remain. *)
Fixpoint strip_components (base cs : list Component) : option (list Component) :=
  match base, cs with
  | [], _ => Some cs
  | b :: base, c :: cs => if decide (b = c) then strip_components base cs else None
  | _ :: _, [] => None
  end.

Definition path_strip_prefix (p base : string) : option (list Component) :=
  strip_components (components base) (components p).

(** [Path::starts_with]. *)
Definition path_starts_with (p base : string) : bool :=
  match path_strip_prefix p base with Some _ => true | None => false end.

Fixpoint ends_with_sep (p : string) : bool :=
  match p with
  | EmptyString => false
  | String a EmptyString => bool_decide (a = sep)
  | String _ p => ends_with_sep p
  end.

(** [Path::join], which is [PathBuf::push] on a copy. *)
Definition path_join (base p : string) : string :=
  if is_absolute p then p
  else if bool_decide (base = "") || ends_with_sep base then base +:+ p
  else base +:+ "/" +:+ p.

Definition component_text (c : Component) : string :=
  match c with RootDir => "/" | CurDir => "." | ParentDir => ".." | Normal n => n end.

(** A text with the given components. *)
Definition of_components (cs : list Component) : string :=
  match cs with
  | RootDir :: cs => "/" +:+ join "/" (component_text <$> cs)
  | _ => join "/" (component_text <$> cs)
  end.

(** [Path::parent], up to [path_eq]. *)
Definition parent (p : string) : option string :=
  match last (components p) with
  | None | Some RootDir => None
  | Some _ => Some (of_components (removelast (components p)))
  end.

(** [Path::file_name]. *)
Definition file_name (p : string) : option string :=
  match last (components p) with
  | Some (Normal n) => Some n
  | _ => None
  end.

Example components_normalise : components "/a//b/./c/" = [RootDir; Normal "a"; Normal "b"; Normal "c"].
Proof. reflexivity. Qed.
Example components_relative : components "./a/../b" = [CurDir; Normal "a"; ParentDir; Normal "b"].
Proof. reflexivity. Qed.
Example components_empty : components "" = [].
Proof. reflexivity. Qed.
Example parent_sample : parent "/home/a/.rtm/db.sqlite" = Some "/home/a/.rtm".
Proof. reflexivity. Qed.

(** ** Lemmas *)

Lemma strip_components_Some base cs r : strip_components base cs = Some r ↔ cs = base ++ r.
Proof.
  revert cs. induction base as [|b base IH]; intros cs; simpl; [naive_solver|].
  destruct cs as [|c cs]; [naive_solver|]. case_decide; subst; [rewrite IH|]; naive_solver.
Qed.

Lemma path_starts_with_true p base :
  path_starts_with p base = true ↔ ∃ r, components p = components base ++ r.
Proof.
  unfold path_starts_with, path_strip_prefix. destruct (strip_components _ _) as [r|] eqn:E.
  - apply strip_components_Some in E. naive_solver.
  - split; [done|]. intros [r Hr%strip_components_Some]. congruence.
Qed.

#[export] Instance path_starts_with_proper : Proper (path_eq ==> path_eq ==> eq) path_starts_with.
Proof. intros p p' Hp q q' Hq. unfold path_starts_with, path_strip_prefix. by rewrite Hp, Hq. Qed.

#[export] Instance path_strip_prefix_proper : Proper (path_eq ==> path_eq ==> eq) path_strip_prefix.
Proof. intros p p' Hp q q' Hq. unfold path_strip_prefix. by rewrite Hp, Hq. Qed.

#[export] Instance parent_proper : Proper (path_eq ==> eq) parent.
Proof. intros p p' Hp. unfold parent. by rewrite Hp. Qed.

#[export] Instance file_name_proper : Proper (path_eq ==> eq) file_name.
Proof. intros p p' Hp. unfold file_name. by rewrite Hp. Qed.

Lemma path_starts_with_refl p : path_starts_with p p = true.
Proof. apply path_starts_with_true. exists []. by rewrite app_nil_r. Qed.

Lemma path_starts_with_trans p q r :
  path_starts_with p q = true → path_starts_with q r = true → path_starts_with p r = true.
Proof.
  rewrite !path_starts_with_true. intros [s Hs] [t Ht]. exists (t ++ s).
  by rewrite Hs, Ht, app_assoc.
Qed.

(** Two prefixes of one path with equally many components are the same path. *)
Lemma path_prefixes_same_length p q r :
  path_starts_with p q = true → path_starts_with p r = true →
  length (components q) = length (components r) → path_eq q r.
Proof.
  rewrite !path_starts_with_true. intros [s Hs] [t Ht] Hlen. rewrite Hs in Ht.
  by apply app_inj_1 in Ht as [??].
Qed.

Lemma path_starts_with_antisymm p q :
  path_starts_with p q = true → path_starts_with q p = true → path_eq p q.
Proof.
  rewrite !path_starts_with_true. intros [s Hs] [t Ht].
  assert (length s = 0) as ->%nil_length_inv.
  { apply (f_equal length) in Hs, Ht. rewrite length_app in *. lia. }
  by rewrite app_nil_r in Hs.
Qed.

Lemma join_absolute base p : is_absolute p = true → path_join base p = p.
Proof. unfold path_join. by intros ->. Qed.

(** The components that a relative text contributes after a separator. *)
Definition tail_components (p : string) : list Component := omap component_of (split_on sep p).

Lemma split_on_app_sep c s t : split_on c (s +:+ String c t) = split_on c s ++ split_on c t.
Proof.
  induction s as [|a s IH].
  - rewrite str_app_nil_l. simpl. by rewrite decide_True.
  - rewrite str_app_cons. simpl. case_decide; [by rewrite IH|]. rewrite IH.
    destruct (split_on c s) eqn:E; [by apply split_on_not_nil in E|done].
Qed.

Lemma components_slash p q :
  p ≠ "" → components (p +:+ "/" +:+ q) = components p ++ tail_components q.
Proof.
  intros Hp. change (p +:+ "/" +:+ q) with (p +:+ String sep q). unfold components, is_absolute.
  destruct p as [|a p]; [done|]. rewrite str_app_cons, <- str_app_cons.
  assert (starts_with "/" (String a p +:+ String sep q) = starts_with "/" (String a p)) as ->.
  { rewrite str_app_cons. unfold starts_with. simpl. by case_decide. }
  rewrite split_on_app_sep, omap_app.
  destruct (starts_with "/" (String a p)); [done|].
  destruct (split_on sep (String a p)) as [|f r] eqn:E; [by apply split_on_not_nil in E|].
  simpl. rewrite omap_app. by rewrite app_assoc.
Qed.

Lemma components_root q : components ("/" +:+ q) = RootDir :: tail_components q.
Proof. reflexivity. Qed.

Lemma ends_with_sep_true p : ends_with_sep p = true → ∃ q, p = q +:+ "/".
Proof.
  induction p as [|a p IH]; [done|]. destruct p as [|b p].
  - simpl. intros ->%bool_decide_eq_true. by exists "".
  - intros H. destruct (IH H) as [q ->]. by exists (String a q).
Qed.

Lemma tail_components_relative p :
  is_absolute p = false → components p = tail_components p ∨
  ∃ cs, components p = CurDir :: cs ∧ tail_components p = cs.
Proof.
  unfold components, tail_components. intros ->.
  destruct (split_on sep p) as [|f r]; [by left|]. case_decide as Hd.
  - right. exists (omap component_of r). subst. split; [done|]. done.
  - left. simpl. by destruct (component_of f).
Qed.

(** [base.join(p)] of a relative [p] is below [base]. *)
Lemma components_join base p :
  is_absolute p = false → base ≠ "" →
  components (path_join base p) = components base ++ tail_components p.
Proof.
  intros Hp Hb. unfold path_join. rewrite Hp, bool_decide_eq_false_2 by done. simpl.
  destruct (ends_with_sep base) eqn:E; [|by apply components_slash].
  apply ends_with_sep_true in E as [q ->]. rewrite str_app_assoc.
  destruct (decide (q = "")) as [->|Hq]; [done|].
  rewrite components_slash by done. f_equal.
  rewrite <- (str_app_nil_r (q +:+ "/")), str_app_assoc, components_slash by done.
  unfold tail_components. simpl. by rewrite app_nil_r.
Qed.

Lemma join_starts_with base p :
  is_absolute p = false → path_starts_with (path_join base p) base = true.
Proof.
  intros Hp. apply path_starts_with_true. destruct (decide (base = "")) as [->|Hb].
  - by exists (components (path_join "" p)).
  - rewrite components_join by done. eauto.
Qed.

#[export] Hint Resolve path_starts_with_refl join_starts_with : rtm.
