(* ===== verification/Types.v ===== *)
(** * Protocol types (crates/rtm-core/src)

    The data of [types/*.rs], [isolation.rs], [launcher.rs], [capture.rs],
    [error.rs], [admin.rs] and [proto.rs]: one module per Rust type, so that
    [LifecycleState.Running] reads as [LifecycleState::Running] and
    [l.(Lifecycle.state)] as [l.state].

    Identifiers and times come from the [uuid] and [chrono] crates: a [Uuid] is
    its 128 bit value, a [DateTime] its nanoseconds since the epoch, and their
    text forms are the class [External]. *)

From S2P Require Import Prelude RustStr RustPath.
From stdpp Require Import options.

Record Uuid := mkUuid { uuid_bits : N }.

#[export] Instance Uuid_eq_dec : EqDecision Uuid.
Proof. solve_decision. Defined.
#[export] Program Instance Uuid_countable : Countable Uuid :=
  {| encode u := encode (uuid_bits u); decode p := mkUuid <$> decode p |}.
Next Obligation. intros [n]. by rewrite decode_encode. Qed.

Definition uuid_nil : Uuid := mkUuid 0.

Notation DateTime := Z (only parsing).

(** Text forms supplied by the [uuid] and [chrono] crates. *)
Class External := {
  uuid_to_string : Uuid → string;
  uuid_parse_str : string → result string Uuid;
  uuid_parse_to_string u : uuid_parse_str (uuid_to_string u) = Ok u;
  to_rfc3339 : DateTime → string;
  parse_from_rfc3339 : string → result string DateTime;
  parse_to_rfc3339 t : parse_from_rfc3339 (to_rfc3339 t) = Ok t;
}.

#[export] Instance uuid_to_string_inj `{External} : Inj (=) (=) uuid_to_string.
Proof.
  intros u v E. pose proof (uuid_parse_to_string u) as Hu. rewrite E, uuid_parse_to_string in Hu.
  congruence.
Qed.

(** ** runtime.rs *)

Module RuntimeKind.
Inductive RuntimeKind := Claude | Codex | Other (value : string).
#[export] Instance RuntimeKind_eq_dec : EqDecision RuntimeKind.
Proof. solve_decision. Defined.
End RuntimeKind.
Export (hints) RuntimeKind.
Notation RuntimeKind := RuntimeKind.RuntimeKind.

Module RuntimeSignal.
Inductive RuntimeSignal := Hup | Int | Term | Kill.
#[export] Instance RuntimeSignal_eq_dec : EqDecision RuntimeSignal.
Proof. solve_decision. Defined.
End RuntimeSignal.
Export (hints) RuntimeSignal.
Notation RuntimeSignal := RuntimeSignal.RuntimeSignal.

(** ** spawn.rs: tmux addresses and mounts *)

Module TmuxAddress.
Record TmuxAddress := mk { session : string; window : N; pane : N }.
#[export] Instance TmuxAddress_eq_dec : EqDecision TmuxAddress.
Proof. solve_decision. Defined.
End TmuxAddress.
Export (hints) TmuxAddress.
Notation TmuxAddress := TmuxAddress.TmuxAddress.

Module MountSpec.
Record MountSpec := mk { source : string; target : string; read_only : bool }.
#[export] Instance MountSpec_eq_dec : EqDecision MountSpec.
Proof. solve_decision. Defined.
End MountSpec.
Export (hints) MountSpec.
Notation MountSpec := MountSpec.MountSpec.

Module MountSpecParseError.
Inductive MountSpecParseError :=
| MissingSeparator | EmptySource | EmptyTarget | UnknownMode (mode : string) | MissingHome.
End MountSpecParseError.
Notation MountSpecParseError := MountSpecParseError.MountSpecParseError.

(** [HeadlessSpawnTarget] has no field and [TmuxSpawnTarget] only the address. *)
Module SpawnTarget.
Inductive SpawnTarget := Tmux (address : TmuxAddress) | Headless.
#[export] Instance SpawnTarget_eq_dec : EqDecision SpawnTarget.
Proof. solve_decision. Defined.
End SpawnTarget.
Export (hints) SpawnTarget.
Notation SpawnTarget := SpawnTarget.SpawnTarget.

Definition tmux_address (t : SpawnTarget) : option TmuxAddress :=
  match t with SpawnTarget.Tmux address => Some address | SpawnTarget.Headless => None end.

(** ** isolation.rs *)

Module IsolationProfile.
Record IsolationProfile := mk { name : option string }.
#[export] Instance IsolationProfile_eq_dec : EqDecision IsolationProfile.
Proof. solve_decision. Defined.
End IsolationProfile.
Export (hints) IsolationProfile.
Notation IsolationProfile := IsolationProfile.IsolationProfile.

Module IsolationPolicy.
Inductive IsolationPolicy := Host | Docker (profile : IsolationProfile).
#[export] Instance IsolationPolicy_eq_dec : EqDecision IsolationPolicy.
Proof. solve_decision. Defined.
End IsolationPolicy.
Export (hints) IsolationPolicy.
Notation IsolationPolicy := IsolationPolicy.IsolationPolicy.

Definition is_host (p : IsolationPolicy) : bool :=
  match p with IsolationPolicy.Host => true | _ => false end.

(** ** launcher.rs *)

Module LaunchEnv.
Record LaunchEnv := mk { key : string; value : string }.
#[export] Instance LaunchEnv_eq_dec : EqDecision LaunchEnv.
Proof. solve_decision. Defined.
End LaunchEnv.
Export (hints) LaunchEnv.
Notation LaunchEnv := LaunchEnv.LaunchEnv.

Module ShellResume.
Record ShellResume := mk { argv : list string; env : list LaunchEnv; cwd : string }.
#[export] Instance ShellResume_eq_dec : EqDecision ShellResume.
Proof. solve_decision. Defined.
End ShellResume.
Export (hints) ShellResume.
Notation ShellResume := ShellResume.ShellResume.

Module LaunchSpec.
Record LaunchSpec := mk {
  argv : list string; env : list LaunchEnv; cwd : string; shell_resume : option ShellResume }.
#[export] Instance LaunchSpec_eq_dec : EqDecision LaunchSpec.
Proof. solve_decision. Defined.
End LaunchSpec.
Export (hints) LaunchSpec.
Notation LaunchSpec := LaunchSpec.LaunchSpec.

Module LauncherError.
Inductive LauncherError :=
| NoLauncher (runtime_kind : string)
| EmptyArgv
| EmptyShellArgv
| EmptyEnv (runtime_kind : string)
| BinaryLookupFailed (binary message : string).
End LauncherError.
Notation LauncherError := LauncherError.LauncherError.

(** ** spawn.rs: requests *)

Module SpawnRequest.
Record SpawnRequest := mk {
  session_id : Uuid;
  runtime : RuntimeKind;
  isolation : IsolationPolicy;
  image : option string;
  env : list LaunchEnv;
  mounts : list MountSpec;
  cwd : string;
  target : SpawnTarget;
  force : bool;
  shell_resume : option ShellResume }.
#[export] Instance SpawnRequest_eq_dec : EqDecision SpawnRequest.
Proof. solve_decision. Defined.
End SpawnRequest.
Export (hints) SpawnRequest.
Notation SpawnRequest := SpawnRequest.SpawnRequest.

Module KillRequest.
Record KillRequest := mk { session_id : Uuid; signal : RuntimeSignal; grace_secs : N }.
End KillRequest.
Notation KillRequest := KillRequest.KillRequest.

(** ** capture.rs *)

Module LogsUnavailableReason.
Inductive LogsUnavailableReason :=
| TmuxTarget | CaptureDisabled | PaneUnavailable | PipeInUse | RecorderFailed.
#[export] Instance LogsUnavailableReason_eq_dec : EqDecision LogsUnavailableReason.
Proof. solve_decision. Defined.
End LogsUnavailableReason.
Export (hints) LogsUnavailableReason.
Notation LogsUnavailableReason := LogsUnavailableReason.LogsUnavailableReason.

Module LogAvailability.
Inductive LogAvailability :=
| Headless (stdout_path stderr_path : string)
| TmuxPaneSnapshot
| Unavailable (reason : LogsUnavailableReason).
#[export] Instance LogAvailability_eq_dec : EqDecision LogAvailability.
Proof. solve_decision. Defined.
End LogAvailability.
Export (hints) LogAvailability.
Notation LogAvailability := LogAvailability.LogAvailability.

Module CaptureRequest.
Record CaptureRequest := mk { session_id : Uuid; scrollback_lines : option N }.
End CaptureRequest.
Notation CaptureRequest := CaptureRequest.CaptureRequest.

Module PaneSnapshot.
Record PaneSnapshot := mk {
  content : string;
  captured_at_ms : N;
  scrollback_lines_requested : N;
  scrollback_lines_included : N;
  pane_history_lines : N }.
End PaneSnapshot.
Notation PaneSnapshot := PaneSnapshot.PaneSnapshot.

Module CaptureError.
Inductive CaptureError :=
| NotATmuxTarget | PaneUnavailable | SessionMissing | TmuxNotAvailable
| CapturePaneFailed (stderr : string).
End CaptureError.
Notation CaptureError := CaptureError.CaptureError.

Module CaptureResponse.
Inductive CaptureResponse := Captured (snapshot : PaneSnapshot) | Failed (error : CaptureError).
End CaptureResponse.
Notation CaptureResponse := CaptureResponse.CaptureResponse.

(** [CaptureResponse::into_result]. *)
Definition into_result (r : CaptureResponse) : result CaptureError PaneSnapshot :=
  match r with
  | CaptureResponse.Captured snapshot => Ok snapshot
  | CaptureResponse.Failed error => Err error
  end.

(** ** nudge.rs *)

Module NudgeRequest.
Record NudgeRequest := mk { session_id : Uuid; content : string }.
End NudgeRequest.
Notation NudgeRequest := NudgeRequest.NudgeRequest.

Module NudgeFailureReason.
Inductive NudgeFailureReason := HeadlessLifecycle | SessionEnded | TmuxPaneDead.
#[export] Instance NudgeFailureReason_eq_dec : EqDecision NudgeFailureReason.
Proof. solve_decision. Defined.
End NudgeFailureReason.
Export (hints) NudgeFailureReason.
Notation NudgeFailureReason := NudgeFailureReason.NudgeFailureReason.

Module NudgeOutcome.
Inductive NudgeOutcome :=
| Delivered | Unsupported (reason : NudgeFailureReason) | Failed (reason : NudgeFailureReason).
#[export] Instance NudgeOutcome_eq_dec : EqDecision NudgeOutcome.
Proof. solve_decision. Defined.
End NudgeOutcome.
Export (hints) NudgeOutcome.
Notation NudgeOutcome := NudgeOutcome.NudgeOutcome.

Module NudgeResponse.
Record NudgeResponse := mk { delivered : bool; outcome : NudgeOutcome }.
End NudgeResponse.
Notation NudgeResponse := NudgeResponse.NudgeResponse.

(** ** lifecycle.rs: data *)

Module RuntimeExit.
Record RuntimeExit := mk { code : option Z; signal : option Z }.
#[export] Instance RuntimeExit_eq_dec : EqDecision RuntimeExit.
Proof. solve_decision. Defined.
End RuntimeExit.
Export (hints) RuntimeExit.
Notation RuntimeExit := RuntimeExit.RuntimeExit.

Module LostEvidence.
Inductive LostEvidence := ShimDiedBeforeReport | PidNotAlive | PidReuseDetected.
#[export] Instance LostEvidence_eq_dec : EqDecision LostEvidence.
Proof. solve_decision. Defined.
End LostEvidence.
Export (hints) LostEvidence.
Notation LostEvidence := LostEvidence.LostEvidence.

Module TerminationEvidence.
Inductive TerminationEvidence := ShimExit | ProcessExit | Lost (evidence : LostEvidence).
#[export] Instance TerminationEvidence_eq_dec : EqDecision TerminationEvidence.
Proof. solve_decision. Defined.
End TerminationEvidence.
Export (hints) TerminationEvidence.
Notation TerminationEvidence := TerminationEvidence.TerminationEvidence.

Module LifecycleState.
Inductive LifecycleState :=
| Forking | Running | Exited (exit : RuntimeExit) | Lost (evidence : LostEvidence).
#[export] Instance LifecycleState_eq_dec : EqDecision LifecycleState.
Proof. solve_decision. Defined.
End LifecycleState.
Export (hints) LifecycleState.
Notation LifecycleState := LifecycleState.LifecycleState.

Module ShimReady.
Record ShimReady := mk {
  session_id : Uuid;
  shim_pid : N;
  runtime_pid : N;
  start_time : DateTime;
  tmux_pane : option TmuxAddress }.
End ShimReady.
Notation ShimReady := ShimReady.ShimReady.

Module ShimExit.
Record ShimExit := mk { session_id : Uuid; exit : RuntimeExit }.
End ShimExit.
Notation ShimExit := ShimExit.ShimExit.

Module Lifecycle.
Record Lifecycle := mk {
  session_id : Uuid;
  runtime : RuntimeKind;
  isolation : IsolationPolicy;
  state : LifecycleState;
  shim_pid : option N;
  runtime_pid : option N;
  start_time : option DateTime;
  tmux_pane : option TmuxAddress;
  log_availability : option LogAvailability }.
#[export] Instance Lifecycle_eq_dec : EqDecision Lifecycle.
Proof. solve_decision. Defined.
End Lifecycle.
Export (hints) Lifecycle.
Notation Lifecycle := Lifecycle.Lifecycle.

Module RuntimeEvent.
Inductive RuntimeEvent :=
| Running (session_id : Uuid) (runtime_pid : N) (start_time : DateTime)
| Terminated (session_id : Uuid) (exit_code signal : option Z) (evidence : TerminationEvidence)
| Lost (session_id : Uuid) (evidence : LostEvidence).
#[export] Instance RuntimeEvent_eq_dec : EqDecision RuntimeEvent.
Proof. solve_decision. Defined.
End RuntimeEvent.
Export (hints) RuntimeEvent.
Notation RuntimeEvent := RuntimeEvent.RuntimeEvent.

(** ** validate_target.rs *)

Module ValidateTargetOutcome.
Inductive ValidateTargetOutcome :=
| Valid
| InvalidTarget (message : string)
| TmuxPaneDead (address : TmuxAddress)
| UnsupportedTarget (target : string).
#[export] Instance ValidateTargetOutcome_eq_dec : EqDecision ValidateTargetOutcome.
Proof. solve_decision. Defined.
End ValidateTargetOutcome.
Export (hints) ValidateTargetOutcome.
Notation ValidateTargetOutcome := ValidateTargetOutcome.ValidateTargetOutcome.

Module ValidateTargetResponse.
Record ValidateTargetResponse := mk { valid : bool; outcome : ValidateTargetOutcome }.
#[export] Instance ValidateTargetResponse_eq_dec : EqDecision ValidateTargetResponse.
Proof. solve_decision. Defined.
End ValidateTargetResponse.
Export (hints) ValidateTargetResponse.
Notation ValidateTargetResponse := ValidateTargetResponse.ValidateTargetResponse.

(** ** error.rs *)

Module ErrorCode.
Inductive ErrorCode :=
| RuntimeUnavailable | SessionNotFound | TmuxPaneDead | HeadlessNudgeUnsupported
| LaunchFailed | InvalidTarget | DockerImageNotConfigured | UnsupportedIsolationPolicy
| SpawnConflict | ProtocolMismatch.
#[export] Instance ErrorCode_eq_dec : EqDecision ErrorCode.
Proof. solve_decision. Defined.
End ErrorCode.
Export (hints) ErrorCode.
Notation ErrorCode := ErrorCode.ErrorCode.

(** ** admin.rs *)

Module KillOutcome.
Inductive KillOutcome := Signalled | AlreadyExited.
#[export] Instance KillOutcome_eq_dec : EqDecision KillOutcome.
Proof. solve_decision. Defined.
End KillOutcome.
Export (hints) KillOutcome.
Notation KillOutcome := KillOutcome.KillOutcome.

Module KillByPidRequest.
Record KillByPidRequest := mk { pid : N; signal : Z; grace_secs : N }.
End KillByPidRequest.
Notation KillByPidRequest := KillByPidRequest.KillByPidRequest.

Module KillByPidResponse.
Record KillByPidResponse := mk {
  pid : N; signal : Z; killed_after_grace : bool; outcome : KillOutcome }.
End KillByPidResponse.
Notation KillByPidResponse := KillByPidResponse.KillByPidResponse.

Module StatusFilter.
Record StatusFilter := mk {
  session_id : option Uuid;
  session_ids : list Uuid;
  updated_since : option DateTime;
  runtime : option string;
  state : option string }.
End StatusFilter.
Notation StatusFilter := StatusFilter.StatusFilter.

(** [StatusFilter::empty]. *)
Definition StatusFilter_empty : StatusFilter := StatusFilter.mk None [] None None None.

(** [StatusFilter::requested_session_ids]. *)
Definition requested_session_ids (f : StatusFilter) : list Uuid :=
  let ids := f.(StatusFilter.session_ids) in
  match f.(StatusFilter.session_id) with
  | Some session_id => if decide (session_id ∈ ids) then ids else ids ++ [session_id]
  | None => ids
  end.

Module WatcherCounts.
Record WatcherCounts := mk { process_exit_watchers : nat; shim_sockets : nat; event_waiters : nat }.
End WatcherCounts.
Notation WatcherCounts := WatcherCounts.WatcherCounts.

Module LifecycleCounts.
Record LifecycleCounts := mk { forking : N; running : N; exited : N; lost : N }.
End LifecycleCounts.
Notation LifecycleCounts := LifecycleCounts.LifecycleCounts.

Module RecentLostEvent.
Record RecentLostEvent := mk {
  session_id : Uuid; evidence : LostEvidence; occurred_at : DateTime }.
End RecentLostEvent.
Notation RecentLostEvent := RecentLostEvent.RecentLostEvent.

Module MigrationState.
Record MigrationState := mk {
  applied : nat; total : nat; applied_descriptions : list string; pending_descriptions : list string }.
End MigrationState.
Notation MigrationState := MigrationState.MigrationState.

Module LifecycleLogAvailability.
Record LifecycleLogAvailability := mk {
  session_id : Uuid; log_availability : LogAvailability }.
End LifecycleLogAvailability.
Notation LifecycleLogAvailability := LifecycleLogAvailability.LifecycleLogAvailability.

Lemma requested_session_ids_elem (f : StatusFilter) u :
  u ∈ requested_session_ids f ↔
  u ∈ f.(StatusFilter.session_ids) ∨ f.(StatusFilter.session_id) = Some u.
Proof.
  unfold requested_session_ids. destruct (StatusFilter.session_id f) as [v|]; [|naive_solver].
  case_decide.
  - split; [by left|]. intros [?|[= ->]]; done.
  - rewrite elem_of_app, list_elem_of_singleton. naive_solver.
Qed.

(** ** A concrete instance of the external text forms: decimal digits

    Used where a statement is evaluated on a concrete input. *)

Lemma decimal_uuid_parse u :
  match parse_digits 0 (display_u (uuid_bits u)) with
  | Some n => Ok (mkUuid n)
  | None => Err (display_u (uuid_bits u))
  end = @Ok string _ u.
Proof. destruct u as [n]. simpl. by rewrite parse_digits_display. Qed.

Definition decimal_time (t : DateTime) : string :=
  if decide (t < 0)%Z then "-" +:+ display_u (Z.to_N (- t)) else display_u (Z.to_N t).

Definition decimal_parse_time (s : string) : result string DateTime :=
  match strip_prefix "-" s with
  | Some r => match parse_digits 0 r with Some n => Ok (- Z.of_N n)%Z | None => Err s end
  | None => match parse_digits 0 s with Some n => Ok (Z.of_N n) | None => Err s end
  end.

Lemma decimal_time_parse t : decimal_parse_time (decimal_time t) = Ok t.
Proof.
  unfold decimal_parse_time, decimal_time. destruct (decide (t < 0)%Z).
  - rewrite strip_prefix_app, parse_digits_display. f_equal. lia.
  - destruct (display_u_cons (Z.to_N t)) as (a & s & E & Ha).
    assert (strip_prefix "-" (display_u (Z.to_N t)) = None) as ->.
    { rewrite E. simpl. case_decide; [subst; discriminate|done]. }
    rewrite parse_digits_display. f_equal. lia.
Qed.

Definition decimal_external : External :=
  {| uuid_to_string u := display_u (uuid_bits u);
     uuid_parse_str s := match parse_digits 0 s with Some n => Ok (mkUuid n) | None => Err s end;
     uuid_parse_to_string := decimal_uuid_parse; parse_to_rfc3339 := decimal_time_parse |}.
