(* ===== verification/Parsers.v ===== *)
(** * Text forms (crates/rtm-core/src: types/spawn.rs, types/runtime.rs,
    types/validate_target.rs, isolation.rs, version.rs, error.rs, nudge.rs, capture.rs)

    [Display] is a [display_*] (or [*_as_str]) function, [FromStr] a [*_from_str] function
    into [result]. A parse error that wraps the rejected text ([TmuxAddressParseError(String)]
    and the like) is that text. The environment variable [HOME] is an argument. *)

From Stdlib Require Import Ascii.
From S2P Require Import Prelude RustStr RustPath Types.
From stdpp Require Import options.

(** ** types/spawn.rs *)

Definition display_TmuxAddress (a : TmuxAddress) : string :=
  a.(TmuxAddress.session) +:+ ":" +:+ display_u a.(TmuxAddress.window) +:+ "." +:+
  display_u a.(TmuxAddress.pane).

Definition TmuxAddress_from_str (value : string) : result string TmuxAddress :=
  '(session, pane_target) ← ok_or value (rsplit_once ":"%char value);
  '(window, pane) ← ok_or value (split_once "."%char pane_target);
  if String.eqb session "" then Err value else
  window ← ok_or value (parse_u32 window);
  pane ← ok_or value (parse_u32 pane);
  Ok (TmuxAddress.mk session window pane).

Definition SpawnTarget_from_str (value : string) : result string SpawnTarget :=
  if String.eqb value "headless" then Ok SpawnTarget.Headless else
  match strip_prefix "tmux:" value with
  | None => Err value
  | Some address =>
      address ← map_err (λ _, value) (TmuxAddress_from_str address);
      Ok (SpawnTarget.Tmux address)
  end.

Definition display_SpawnTargetParseError (value : string) : string :=
  "invalid spawn target " +:+ value +:+ "; expected headless or tmux:<session>:<window>.<pane>".

(** The text that [SpawnTarget_from_str] reads; the source has no [Display] for a target,
    its tests and the CLI write this form. *)
Definition target_text (t : SpawnTarget) : string :=
  match t with
  | SpawnTarget.Headless => "headless"
  | SpawnTarget.Tmux address => "tmux:" +:+ display_TmuxAddress address
  end.

Definition expand_mount_source (home : option string) (source : string)
    : result MountSpecParseError string :=
  if negb (starts_with "~" source) then Ok source else
  home ← ok_or MountSpecParseError.MissingHome home;
  if String.eqb source "~" then Ok home else
  let rest := match strip_prefix "~/" source with
              | Some rest => rest
              | None => String.substring 1 (String.length source - 1) source
              end in
  Ok (path_join home rest).

Definition MountSpec_from_str (home : option string) (value : string)
    : result MountSpecParseError MountSpec :=
  match split_on ":"%char value with
  | source :: target :: rest =>
      match rest with
      | _ :: extra :: _ => Err (MountSpecParseError.UnknownMode extra)
      | _ =>
          if String.eqb source "" then Err MountSpecParseError.EmptySource else
          if String.eqb target "" then Err MountSpecParseError.EmptyTarget else
          read_only ← match rest with
                      | [] => Ok true
                      | mode :: _ =>
                          if String.eqb mode "ro" then Ok true
                          else if String.eqb mode "rw" then Ok false
                          else Err (MountSpecParseError.UnknownMode mode)
                      end;
          source ← expand_mount_source home source;
          Ok (MountSpec.mk source target read_only)
      end
  | _ => Err MountSpecParseError.MissingSeparator
  end.

Definition display_MountSpecParseError (e : MountSpecParseError) : string :=
  match e with
  | MountSpecParseError.MissingSeparator =>
      "mount value is missing ':' between host source and container target"
  | MountSpecParseError.EmptySource => "mount host source cannot be empty"
  | MountSpecParseError.EmptyTarget => "mount container target cannot be empty"
  | MountSpecParseError.UnknownMode mode =>
      "unknown mount access mode " +:+ mode +:+ "; expected ro or rw"
  | MountSpecParseError.MissingHome => "mount source uses '~' but HOME is not set"
  end.

(** ** types/runtime.rs *)

Definition RuntimeKind_as_str (r : RuntimeKind) : string :=
  match r with
  | RuntimeKind.Claude => "claude"
  | RuntimeKind.Codex => "codex"
  | RuntimeKind.Other value => value
  end.

Definition RuntimeKind_from_str (value : string) : result string RuntimeKind :=
  if String.eqb value "" then Err value else
  if String.eqb value "claude" then Ok RuntimeKind.Claude else
  if String.eqb value "codex" then Ok RuntimeKind.Codex else
  Ok (RuntimeKind.Other value).

Definition RuntimeSignal_as_str (s : RuntimeSignal) : string :=
  match s with
  | RuntimeSignal.Hup => "HUP"
  | RuntimeSignal.Int => "INT"
  | RuntimeSignal.Term => "TERM"
  | RuntimeSignal.Kill => "KILL"
  end.

Definition RuntimeSignal_from_str (value : string) : result string RuntimeSignal :=
  let name := to_ascii_uppercase (trim_start_matches "SIG" value) in
  if String.eqb name "HUP" then Ok RuntimeSignal.Hup else
  if String.eqb name "INT" then Ok RuntimeSignal.Int else
  if String.eqb name "TERM" then Ok RuntimeSignal.Term else
  if String.eqb name "KILL" then Ok RuntimeSignal.Kill else
  Err name.

(** ** isolation.rs *)

Definition display_IsolationPolicy (p : IsolationPolicy) : string :=
  match p with
  | IsolationPolicy.Host => "host"
  | IsolationPolicy.Docker profile =>
      match profile.(IsolationProfile.name) with
      | Some name => "docker" +:+ ":" +:+ name
      | None => "docker"
      end
  end.

Definition parse_docker_profile (value : string) : result string IsolationPolicy :=
  match strip_prefix "docker:" value with
  | None => Err value
  | Some profile =>
      if String.eqb profile "" then Err value
      else Ok (IsolationPolicy.Docker (IsolationProfile.mk (Some profile)))
  end.

Definition IsolationPolicy_from_str (value : string) : result string IsolationPolicy :=
  if String.eqb value "host" then Ok IsolationPolicy.Host else
  if String.eqb value "docker" then Ok (IsolationPolicy.Docker (IsolationProfile.mk None)) else
  parse_docker_profile value.

(** ** types/validate_target.rs *)

Definition ValidateTargetResponse_valid : ValidateTargetResponse :=
  ValidateTargetResponse.mk true ValidateTargetOutcome.Valid.
Definition invalid_target (error : string) : ValidateTargetResponse :=
  ValidateTargetResponse.mk false
    (ValidateTargetOutcome.InvalidTarget (display_SpawnTargetParseError error)).
Definition tmux_pane_dead (address : TmuxAddress) : ValidateTargetResponse :=
  ValidateTargetResponse.mk false (ValidateTargetOutcome.TmuxPaneDead address).
Definition unsupported_target (target : string) : ValidateTargetResponse :=
  ValidateTargetResponse.mk false (ValidateTargetOutcome.UnsupportedTarget target).

Definition is_unsupported_target (target : string) : bool :=
  match split_once ":"%char target with
  | Some (mode, _) => negb (String.eqb mode "") && negb (String.eqb mode "tmux")
  | None => false
  end.

Definition from_target_parse_error (error : string) : ValidateTargetResponse :=
  if is_unsupported_target error then unsupported_target error else invalid_target error.

(** ** error.rs, nudge.rs, capture.rs *)

Definition ErrorCode_as_str (c : ErrorCode) : string :=
  match c with
  | ErrorCode.RuntimeUnavailable => "runtime_unavailable"
  | ErrorCode.SessionNotFound => "session_not_found"
  | ErrorCode.TmuxPaneDead => "tmux_pane_dead"
  | ErrorCode.HeadlessNudgeUnsupported => "headless_nudge_unsupported"
  | ErrorCode.LaunchFailed => "launch_failed"
  | ErrorCode.InvalidTarget => "invalid_target"
  | ErrorCode.DockerImageNotConfigured => "docker_image_not_configured"
  | ErrorCode.UnsupportedIsolationPolicy => "unsupported_isolation_policy"
  | ErrorCode.SpawnConflict => "spawn_conflict"
  | ErrorCode.ProtocolMismatch => "protocol_mismatch"
  end.

Definition NudgeFailureReason_as_str (r : NudgeFailureReason) : string :=
  match r with
  | NudgeFailureReason.HeadlessLifecycle => "headless_lifecycle"
  | NudgeFailureReason.SessionEnded => "session_ended"
  | NudgeFailureReason.TmuxPaneDead => "tmux_pane_dead"
  end.

Definition LogsUnavailableReason_as_str (r : LogsUnavailableReason) : string :=
  match r with
  | LogsUnavailableReason.TmuxTarget => "tmux_target"
  | LogsUnavailableReason.CaptureDisabled => "capture_disabled"
  | LogsUnavailableReason.PaneUnavailable => "pane_unavailable"
  | LogsUnavailableReason.PipeInUse => "pipe_in_use"
  | LogsUnavailableReason.RecorderFailed => "recorder_failed"
  end.

(** ** version.rs *)

Module RuntimeCapability.
Inductive RuntimeCapability :=
| StructuredProtocolErrors | HeadlessStdioLogPaths | StatusSessionSetFilter
| StatusUpdatedSinceFilter | TypedNudgeOutcomes | ValidateTargetPreflight | EventsCursor
| EventsLongPoll | TmuxPaneSnapshot | KillOutcomes | SpawnConflicts | SpawnRequestMounts.
#[export] Instance RuntimeCapability_eq_dec : EqDecision RuntimeCapability.
Proof. solve_decision. Defined.
End RuntimeCapability.
Export (hints) RuntimeCapability.
Notation RuntimeCapability := RuntimeCapability.RuntimeCapability.

Definition RUNTIME_PROTOCOL_VERSION : string := "0.6".

Definition RUNTIME_PROTOCOL_CAPABILITIES : list RuntimeCapability :=
  [RuntimeCapability.StructuredProtocolErrors; RuntimeCapability.HeadlessStdioLogPaths;
   RuntimeCapability.StatusSessionSetFilter; RuntimeCapability.StatusUpdatedSinceFilter;
   RuntimeCapability.TypedNudgeOutcomes; RuntimeCapability.ValidateTargetPreflight;
   RuntimeCapability.EventsCursor; RuntimeCapability.EventsLongPoll;
   RuntimeCapability.TmuxPaneSnapshot; RuntimeCapability.KillOutcomes;
   RuntimeCapability.SpawnConflicts; RuntimeCapability.SpawnRequestMounts].

Definition RuntimeCapability_as_str (c : RuntimeCapability) : string :=
  match c with
  | RuntimeCapability.StructuredProtocolErrors => "structured_protocol_errors"
  | RuntimeCapability.HeadlessStdioLogPaths => "headless_stdio_log_paths"
  | RuntimeCapability.StatusSessionSetFilter => "status_session_set_filter"
  | RuntimeCapability.StatusUpdatedSinceFilter => "status_updated_since_filter"
  | RuntimeCapability.TypedNudgeOutcomes => "typed_nudge_outcomes"
  | RuntimeCapability.ValidateTargetPreflight => "validate_target_preflight"
  | RuntimeCapability.EventsCursor => "events_cursor"
  | RuntimeCapability.EventsLongPoll => "events_long_poll"
  | RuntimeCapability.TmuxPaneSnapshot => "tmux_pane_snapshot"
  | RuntimeCapability.KillOutcomes => "kill_outcomes"
  | RuntimeCapability.SpawnConflicts => "spawn_conflicts"
  | RuntimeCapability.SpawnRequestMounts => "spawn_request_mounts"
  end.

Definition RuntimeCapability_from_str (value : string) : result string RuntimeCapability :=
  if String.eqb value "structured_protocol_errors" then Ok RuntimeCapability.StructuredProtocolErrors
  else if String.eqb value "headless_stdio_log_paths" then Ok RuntimeCapability.HeadlessStdioLogPaths
  else if String.eqb value "status_session_set_filter" then Ok RuntimeCapability.StatusSessionSetFilter
  else if String.eqb value "status_updated_since_filter" then Ok RuntimeCapability.StatusUpdatedSinceFilter
  else if String.eqb value "typed_nudge_outcomes" then Ok RuntimeCapability.TypedNudgeOutcomes
  else if String.eqb value "validate_target_preflight" then Ok RuntimeCapability.ValidateTargetPreflight
  else if String.eqb value "events_cursor" then Ok RuntimeCapability.EventsCursor
  else if String.eqb value "events_long_poll" then Ok RuntimeCapability.EventsLongPoll
  else if String.eqb value "tmux_pane_snapshot" then Ok RuntimeCapability.TmuxPaneSnapshot
  else if String.eqb value "kill_outcomes" then Ok RuntimeCapability.KillOutcomes
  else if String.eqb value "spawn_conflicts" then Ok RuntimeCapability.SpawnConflicts
  else if String.eqb value "spawn_request_mounts" then Ok RuntimeCapability.SpawnRequestMounts
  else Err ("unknown runtime capability " +:+ value).

Module VersionInfo.
Record VersionInfo := mk {
  version : string; git_sha : string; protocol_version : string;
  capabilities : list RuntimeCapability }.
End VersionInfo.
Notation VersionInfo := VersionInfo.VersionInfo.

Definition VersionInfo_new (version git_sha : string) : VersionInfo :=
  VersionInfo.mk version git_sha RUNTIME_PROTOCOL_VERSION RUNTIME_PROTOCOL_CAPABILITIES.

(** ** Lemmas *)

Lemma String_eqb_spec' s t : reflect (s = t) (String.eqb s t).
Proof. apply String.eqb_spec. Qed.

(** Case analysis on the string comparisons of a goal. *)
Ltac case_eqb :=
  repeat match goal with
  | |- context [String.eqb ?a ?b] => destruct (String_eqb_spec' a b); simplify_eq
  end.

Definition tmux_address_ok (a : TmuxAddress) : Prop :=
  a.(TmuxAddress.session) ≠ "" ∧ u32_ok a.(TmuxAddress.window) ∧ u32_ok a.(TmuxAddress.pane).

#[export] Instance tmux_address_ok_dec a : Decision (tmux_address_ok a).
Proof. unfold tmux_address_ok, u32_ok. apply _. Defined.

Lemma parse_u32_display n : u32_ok n → parse_u32 (display_u n) = Some n.
Proof. intros H. by apply parse_unsigned_display. Qed.

Lemma TmuxAddress_roundtrip a :
  tmux_address_ok a → TmuxAddress_from_str (display_TmuxAddress a) = Ok a.
Proof.
  destruct a as [s w p]. intros (Hs & Hw & Hp). simpl in *.
  unfold TmuxAddress_from_str, display_TmuxAddress. simpl.
  change (s +:+ ":" +:+ display_u w +:+ "." +:+ display_u p)
    with (s +:+ String ":" (display_u w +:+ String "." (display_u p))).
  rewrite rsplit_once_app; simpl.
  2: { rewrite bytes_app. intros [H|H]%elem_of_app; [by apply display_u_no_sep in H|].
       simpl in H. apply elem_of_cons in H as [?|H]; [done|]. by apply display_u_no_sep in H. }
  rewrite split_once_app by (by apply display_u_no_sep). simpl.
  case_eqb; rewrite ?parse_u32_display by done; simpl; by rewrite ?parse_u32_display.
Qed.

Lemma TmuxAddress_from_str_ok v a : TmuxAddress_from_str v = Ok a → tmux_address_ok a.
Proof.
  unfold TmuxAddress_from_str. intros H. inv_result. destruct x as [s pt]. inv_result.
  destruct x as [w p]. revert H. case_eqb; [done|]. intros H. inv_result.
  unfold tmux_address_ok; simpl. split_and!; [done| |]; by eapply parse_unsigned_bound.
Qed.

Lemma IsolationPolicy_roundtrip p :
  p ≠ IsolationPolicy.Docker (IsolationProfile.mk (Some "")) →
  IsolationPolicy_from_str (display_IsolationPolicy p) = Ok p.
Proof.
  destruct p as [|[[n|]]]; [done| |done]. intros Hn. simpl.
  unfold IsolationPolicy_from_str, parse_docker_profile.
  change ("docker" +:+ ":" +:+ n) with ("docker:" +:+ n).
  rewrite strip_prefix_app. simpl. case_eqb; done.
Qed.

Lemma RuntimeKind_roundtrip v r :
  RuntimeKind_from_str v = Ok r → RuntimeKind_as_str r = v.
Proof. unfold RuntimeKind_from_str. case_eqb; naive_solver. Qed.

Lemma RuntimeCapability_roundtrip c : RuntimeCapability_from_str (RuntimeCapability_as_str c) = Ok c.
Proof. by destruct c. Qed.

Lemma String_substring_full s : String.substring 0 (String.length s) s = s.
Proof. induction s as [|a s IH]; simpl; [done|]. by rewrite IH. Qed.

(** ** Properties *)

Definition target_ok (t : SpawnTarget) : Prop :=
  match t with SpawnTarget.Tmux a => tmux_address_ok a | SpawnTarget.Headless => True end.

Lemma target_text_parses t : target_ok t → SpawnTarget_from_str (target_text t) = Ok t.
Proof.
  destruct t as [a|]; [|done]. intros Ha. unfold SpawnTarget_from_str, target_text.
  case_eqb. rewrite strip_prefix_app.
  by rewrite TmuxAddress_roundtrip.
Qed.

Lemma target_parsed_ok v t : SpawnTarget_from_str v = Ok t → target_ok t.
Proof.
  unfold SpawnTarget_from_str. case_eqb; [by intros [= <-]|].
  destruct (strip_prefix "tmux:" v) as [a|]; [|done]. intros H. inv_result.
  by eapply TmuxAddress_from_str_ok.
Qed.

(** The text of a spawn target parses back to the target exactly when its tmux session
    name is not empty and its window and pane fit in 32 bits (the session name itself may
    contain colons and dots), and whatever text the parser accepts, the target it returns
    is one of those. *)
Theorem spawn_target_roundtrip v t :
  (SpawnTarget_from_str (target_text t) = Ok t ↔ target_ok t) ∧
  match SpawnTarget_from_str v with
  | Ok t' => target_ok t' ∧ SpawnTarget_from_str (target_text t') = Ok t'
  | Err e => e = v
  end.
Proof.
  split; [split; [apply target_parsed_ok|apply target_text_parses]|].
  destruct (SpawnTarget_from_str v) as [t'|e] eqn:E.
  - apply target_parsed_ok in E. split; [done|by apply target_text_parses].
  - revert E. unfold SpawnTarget_from_str. case_eqb; [done|].
    destruct (strip_prefix "tmux:" v) as [a|]; [|by intros [= ->]].
    destruct (TmuxAddress_from_str a); simpl; congruence.
Qed.

Definition mode_fields (mode : option bool) : list string :=
  match mode with None => [] | Some true => ["ro"] | Some false => ["rw"] end.

Lemma mode_no_colon mode : Forall (λ w, (":"%char : ascii) ∉ bytes w) (mode_fields mode).
Proof.
  destruct mode as [[]|]; repeat constructor; simpl; rewrite !not_elem_of_cons; repeat split; try done;
    apply not_elem_of_nil.
Qed.

(** A mount text is accepted exactly when it is HOST:CONTAINER with an optional third
    field ro or rw, both paths not empty, and the host path expandable; the container path
    is kept literally, and the mount is read only unless the mode is rw. *)
Theorem mount_spec_grammar home v m :
  MountSpec_from_str home v = Ok m ↔
  ∃ source mode,
    v = join ":" (source :: m.(MountSpec.target) :: mode_fields mode) ∧
    (":"%char : ascii) ∉ bytes source ∧ source ≠ "" ∧
    (":"%char : ascii) ∉ bytes m.(MountSpec.target) ∧ m.(MountSpec.target) ≠ "" ∧
    expand_mount_source home source = Ok m.(MountSpec.source) ∧
    m.(MountSpec.read_only) = match mode with Some b => b | None => true end.
Proof.
  split.
  - unfold MountSpec_from_str. pose proof (join_split_on ":" v) as Hj.
    pose proof (split_on_elems ":" v) as Hel.
    destruct (split_on ":" v) as [|s [|t rest]]; try done.
    intros H.
    assert ((":"%char : ascii) ∉ bytes s ∧ (":"%char : ascii) ∉ bytes t) as [Hs Ht]
      by (split; apply Hel; set_solver).
    destruct rest as [|mo [|? ?]]; [| |done]; revert H; case_eqb; try done;
      intros H; inv_result; simpl.
    + exists s, None. eauto 10.
    + exists s, (Some true). eauto 10.
    + exists s, (Some false). eauto 10.
  - destruct m as [ms mt mr]. intros (s & mode & -> & Hs & Hs0 & Ht & Ht0 & Hx & Hr).
    cbn [MountSpec.source MountSpec.target MountSpec.read_only] in *. unfold MountSpec_from_str.
    rewrite split_on_join; [|done|by repeat constructor; auto using mode_no_colon].
    destruct mode as [[]|]; cbn [mode_fields]; case_eqb; try done; cbn; by rewrite Hx.
Qed.

(** A host path that starts with a tilde is rejected without HOME, and otherwise
    expands below HOME (the text after [~/], or after a bare tilde, joined to it), unless
    what follows [~/] is itself absolute, as in [~//etc]: then the result is that absolute
    path, outside HOME. A path without a leading tilde is kept. *)
Theorem mount_source_expansion home rest :
  expand_mount_source None ("~" +:+ rest) = Err MountSpecParseError.MissingHome ∧
  expand_mount_source (Some home) "~" = Ok home ∧
  expand_mount_source (Some home) ("~/" +:+ rest) =
    Ok (if is_absolute rest then rest else path_join home rest) ∧
  (starts_with "/" rest = false → rest ≠ "" →
   expand_mount_source (Some home) ("~" +:+ rest) = Ok (path_join home rest)) ∧
  (is_absolute rest = false → path_starts_with (path_join home rest) home = true) ∧
  (starts_with "~" rest = false → expand_mount_source None rest = Ok rest).
Proof.
  unfold expand_mount_source.
  assert (∀ r, starts_with "~" ("~" +:+ r) = true) as Ht by (intros; by apply starts_with_true; eauto).
  split_and!.
  - by rewrite Ht.
  - done.
  - change ("~/" +:+ rest) with ("~" +:+ "/" +:+ rest). rewrite Ht. simpl.
    change ("~" +:+ "/" +:+ rest) with ("~/" +:+ rest).
    rewrite str_app_nil_l.
    destruct (is_absolute rest) eqn:E; [by rewrite join_absolute|done].
  - intros Hr Hne. rewrite Ht. destruct rest as [|a r]; [done|].
    change ("~" +:+ String a r) with (String "~" (String a r)).
    unfold starts_with in Hr. simpl in *. case_decide; [done|].
    by rewrite String_substring_full.
  - eauto with rtm.
  - intros Hr. by rewrite Hr.
Qed.

Lemma mount_source_expansion_witness :
  expand_mount_source (Some "/home/u") "~//etc" = Ok "/etc" ∧
  path_starts_with "/etc" "/home/u" = false ∧
  expand_mount_source (Some "/home/u") "~x" = Ok (path_join "/home/u" "x").
Proof.
  split; [reflexivity|split; [reflexivity|]].
  apply (mount_source_expansion "/home/u" "x"); [reflexivity|discriminate].
Defined.

(** An isolation policy prints to a text that parses back to it, except for the Docker
    policy with an empty profile name, whose text the parser rejects; and every text the
    parser accepts is the text of the policy it returns. *)
Theorem isolation_policy_roundtrip p v :
  (IsolationPolicy_from_str (display_IsolationPolicy p) = Ok p ↔
   p ≠ IsolationPolicy.Docker (IsolationProfile.mk (Some ""))) ∧
  (IsolationPolicy_from_str v = Ok p → display_IsolationPolicy p = v).
Proof.
  split; [split; [by intros H ->|apply IsolationPolicy_roundtrip]|].
  unfold IsolationPolicy_from_str, parse_docker_profile. case_eqb; try (by intros [= <-]).
  destruct (strip_prefix "docker:" v) as [nm|] eqn:E; [|done].
  apply strip_prefix_Some in E as ->. case_eqb; [done|]. by intros [= <-].
Qed.

Lemma isolation_policy_roundtrip_witness :
  display_IsolationPolicy (IsolationPolicy.Docker (IsolationProfile.mk (Some "a:b"))) = "docker:a:b".
Proof.
  apply (isolation_policy_roundtrip (IsolationPolicy.Docker (IsolationProfile.mk (Some "a:b")))
           "docker:a:b").
  reflexivity.
Defined.

Lemma from_target_parse_error_eq v :
  from_target_parse_error v =
    ValidateTargetResponse.mk false
      (if is_unsupported_target v then ValidateTargetOutcome.UnsupportedTarget v
       else ValidateTargetOutcome.InvalidTarget (display_SpawnTargetParseError v)).
Proof. unfold from_target_parse_error. by destruct (is_unsupported_target v). Qed.

(** A target text is called unsupported exactly when it has a mode before its first
    colon that is neither empty nor tmux; no text that parses is; and the answer to a text
    that does not parse carries that text as an unsupported target, or the parse error's
    message as an invalid one. *)
Theorem target_error_classification v :
  (is_unsupported_target v = true ↔
   ∃ mode rest, v = mode +:+ ":" +:+ rest ∧ (":"%char : ascii) ∉ bytes mode ∧
                mode ≠ "" ∧ mode ≠ "tmux") ∧
  match SpawnTarget_from_str v with
  | Ok _ => is_unsupported_target v = false
  | Err e =>
      from_target_parse_error e =
        ValidateTargetResponse.mk false
          (if is_unsupported_target v then ValidateTargetOutcome.UnsupportedTarget v
           else ValidateTargetOutcome.InvalidTarget (display_SpawnTargetParseError v))
  end.
Proof.
  split.
  - unfold is_unsupported_target. split.
    + destruct (split_once ":" v) as [[mode rest]|] eqn:E; [|done].
      apply split_once_Some in E as [-> Hm]. case_eqb; try done. intros _. by exists mode, rest.
    + intros (mode & rest & -> & Hm & H0 & H1).
      change (mode +:+ ":" +:+ rest) with (mode +:+ String ":" rest).
      rewrite split_once_app by done. by case_eqb.
  - unfold SpawnTarget_from_str. case_eqb; [done|].
    destruct (strip_prefix "tmux:" v) as [a|] eqn:E; simpl.
    + apply strip_prefix_Some in E as ->. destruct (TmuxAddress_from_str a); simpl.
      * unfold is_unsupported_target.
        change ("tmux:" +:+ a) with ("tmux" +:+ String ":" a).
        rewrite split_once_app; [done|]. simpl. rewrite !not_elem_of_cons.
        repeat split; try done. apply not_elem_of_nil.
      * apply from_target_parse_error_eq.
    + apply from_target_parse_error_eq.
Qed.
