(* ===== verification/Json.v ===== *)
(** * JSON values and the wire (serde_json; crates/rtm-core/src/proto.rs)

    [Value] is a JSON document whose objects keep their fields as written (the order in which
    serde_json's own map would hold them plays no part in reading). Its text form belongs to the [serde_json] crate and is
    the class [Json], with what the program relies on: reading back what was written, and
    that a compact text contains no newline and ends in a visible ASCII character. The
    [Serialize] and [Deserialize] implementations that the source derives are written out as
    [*_to_value] and [*_from_value] from their attributes. The line framing of proto.rs is
    the last section. *)

From Stdlib Require Import Ascii.
From S2P Require Import Prelude RustStr RustPath Types Parsers.
From stdpp Require Import options.
From stdpp Require Import countable.

Inductive Value :=
| Null
| Bool (b : bool)
| Number (z : Z)
| Float (bits : N)
| Str (s : string)
| Array (l : list Value)
| Object (fields : list (string * Value)).

Section Value_ind.
Variable P : Value → Prop.
Hypothesis HNull : P Null.
Hypothesis HBool : ∀ b, P (Bool b).
Hypothesis HNumber : ∀ z, P (Number z).
Hypothesis HFloat : ∀ bits, P (Float bits).
Hypothesis HStr : ∀ s, P (Str s).
Hypothesis HArray : ∀ l, Forall P l → P (Array l).
Hypothesis HObject : ∀ fs, Forall (λ kv, P kv.2) fs → P (Object fs).
Definition Value_nested_ind : ∀ v, P v :=
  fix go v := match v with
  | Null => HNull
  | Bool b => HBool b
  | Number z => HNumber z
  | Float bits => HFloat bits
  | Str s => HStr s
  | Array l => HArray l ((fix all l := match l return Forall P l with
                                       | [] => Forall_nil_2 P
                                       | x :: l => Forall_cons_2 P x l (go x) (all l)
                                       end) l)
  | Object fs => HObject fs ((fix all l := match l return Forall (λ kv, P kv.2) l with
                                | [] => Forall_nil_2 _
                                | kv :: l => Forall_cons_2 _ kv l (go kv.2) (all l)
                                end) fs)
  end.
End Value_ind.

(** Integers outside the 64 bit ranges are not written as integers, and a [Float] (every other
    number, by the bits of its double) need not be read back as the same one. *)
Fixpoint json_ok (v : Value) : Prop :=
  match v with
  | Number z => (i64_min ≤ z ≤ Z.of_N u64_max)%Z
  | Float _ => False
  | Array l => (fix all l := match l with [] => True | x :: l => json_ok x ∧ all l end) l
  | Object fs => (fix all l := match l with [] => True | kv :: l => json_ok kv.2 ∧ all l end) fs
  | _ => True
  end.

Definition newline : ascii := "010"%char.

Class Json := {
  json_to_string : Value → string;
  json_from_str : string → result string Value;
  json_parse_print v : json_ok v → json_from_str (json_to_string v) = Ok v;
  json_no_newline v : newline ∉ bytes (json_to_string v);
  json_last v : ∃ s a, json_to_string v = s +:+ String a "" ∧ visible a = true;
  json_utf8 v : utf8_valid (json_to_string v +:+ String newline "") = true;
}.

(** ** Reading the fields of a derived [Deserialize] *)

Definition field_opt (name : string) (fields : list (string * Value))
    : result string (option Value) :=
  match filter (λ kv, kv.1 = name) fields with
  | [] => Ok None
  | [(_, v)] => Ok (Some v)
  | _ => Err ("duplicate field `" +:+ name +:+ "`")
  end.

(** The named fields of a struct, given as an object (other fields are ignored) or as an
    array of its fields. *)
Definition struct_values (names : list string) (v : Value) : result string (list (option Value)) :=
  match v with
  | Object fields => try_map (λ name, field_opt name fields) names
  | Array l => if decide (length l = length names) then Ok (Some <$> l)
               else Err "invalid length"
  | _ => Err "invalid type"
  end.

Definition required {A} (name : string) (f : Value → result string A) (v : option Value)
    : result string A :=
  match v with Some v => f v | None => Err ("missing field `" +:+ name +:+ "`") end.

(** An [Option] field: absent and null are [None]. *)
Definition optional {A} (f : Value → result string A) (v : option Value) : result string (option A) :=
  match v with
  | None | Some Null => Ok None
  | Some v => x ← f v; Ok (Some x)
  end.

Definition int_from_value (min max : Z) (v : Value) : result string Z :=
  match v with
  | Number z => if decide (min ≤ z ≤ max)%Z then Ok z else Err "invalid value: integer"
  | _ => Err "invalid type"
  end.
Definition u32_from_value (v : Value) : result string N :=
  z ← int_from_value 0 (Z.of_N u32_max) v; Ok (Z.to_N z).
Definition u64_from_value (v : Value) : result string N :=
  z ← int_from_value 0 (Z.of_N u64_max) v; Ok (Z.to_N z).
Definition i32_from_value : Value → result string Z := int_from_value i32_min i32_max.
Definition string_from_value (v : Value) : result string string :=
  match v with Str s => Ok s | _ => Err "invalid type" end.

Definition option_to_value {A} (f : A → Value) (o : option A) : Value :=
  match o with Some a => f a | None => Null end.

(** A unit variant of an externally tagged enum: its name, or an object of it and null. *)
Definition variant_of (v : Value) : result string (string * option Value) :=
  match v with
  | Str s => Ok (s, None)
  | Object [(s, w)] => Ok (s, Some w)
  | _ => Err "invalid type"
  end.
Definition unit_payload (w : option Value) : result string unit :=
  match w with None | Some Null => Ok tt | _ => Err "invalid type" end.

Section serde.
Context `{External}.

(** The [serde] implementations of [uuid] and [chrono] write the text forms. *)
Definition uuid_to_value (u : Uuid) : Value := Str (uuid_to_string u).
Definition uuid_from_value (v : Value) : result string Uuid :=
  s ← string_from_value v; uuid_parse_str s.
Definition time_to_value (t : DateTime) : Value := Str (to_rfc3339 t).
Definition time_from_value (v : Value) : result string DateTime :=
  s ← string_from_value v; parse_from_rfc3339 s.

Definition LostEvidence_to_value (e : LostEvidence) : Value :=
  Str match e with
      | LostEvidence.ShimDiedBeforeReport => "shim_died_before_report"
      | LostEvidence.PidNotAlive => "pid_not_alive"
      | LostEvidence.PidReuseDetected => "pid_reuse_detected"
      end.

Definition LostEvidence_from_value (v : Value) : result string LostEvidence :=
  '(name, w) ← variant_of v;
  if String.eqb name "shim_died_before_report" then
    _ ← unit_payload w; Ok LostEvidence.ShimDiedBeforeReport
  else if String.eqb name "pid_not_alive" then _ ← unit_payload w; Ok LostEvidence.PidNotAlive
  else if String.eqb name "pid_reuse_detected" then
    _ ← unit_payload w; Ok LostEvidence.PidReuseDetected
  else Err ("unknown variant `" +:+ name +:+ "`").

Definition TerminationEvidence_to_value (e : TerminationEvidence) : Value :=
  match e with
  | TerminationEvidence.ShimExit => Str "shim_exit"
  | TerminationEvidence.ProcessExit => Str "process_exit"
  | TerminationEvidence.Lost evidence => Object [("lost", LostEvidence_to_value evidence)]
  end.

Definition TerminationEvidence_from_value (v : Value) : result string TerminationEvidence :=
  '(name, w) ← variant_of v;
  if String.eqb name "shim_exit" then _ ← unit_payload w; Ok TerminationEvidence.ShimExit
  else if String.eqb name "process_exit" then _ ← unit_payload w; Ok TerminationEvidence.ProcessExit
  else if String.eqb name "lost" then
    match w with
    | Some w => e ← LostEvidence_from_value w; Ok (TerminationEvidence.Lost e)
    | None => Err "invalid type: unit variant"
    end
  else Err ("unknown variant `" +:+ name +:+ "`").

Definition RuntimeEvent_to_value (e : RuntimeEvent) : Value :=
  match e with
  | RuntimeEvent.Running session_id runtime_pid start_time =>
      Object [("type", Str "running");
              ("payload", Object [("session_id", uuid_to_value session_id);
                                  ("runtime_pid", Number (Z.of_N runtime_pid));
                                  ("start_time", time_to_value start_time)])]
  | RuntimeEvent.Terminated session_id exit_code signal evidence =>
      Object [("type", Str "terminated");
              ("payload", Object [("session_id", uuid_to_value session_id);
                                  ("exit_code", option_to_value Number exit_code);
                                  ("signal", option_to_value Number signal);
                                  ("evidence", TerminationEvidence_to_value evidence)])]
  | RuntimeEvent.Lost session_id evidence =>
      Object [("type", Str "lost");
              ("payload", Object [("session_id", uuid_to_value session_id);
                                  ("evidence", LostEvidence_to_value evidence)])]
  end.

Definition RuntimeEvent_from_payload (kind : string) (payload : Value)
    : result string RuntimeEvent :=
  if String.eqb kind "running" then
    vs ← struct_values ["session_id"; "runtime_pid"; "start_time"] payload;
    match vs with
    | [a; b; c] =>
        session_id ← required "session_id" uuid_from_value a;
        runtime_pid ← required "runtime_pid" u32_from_value b;
        start_time ← required "start_time" time_from_value c;
        Ok (RuntimeEvent.Running session_id runtime_pid start_time)
    | _ => Err "invalid length"
    end
  else if String.eqb kind "terminated" then
    vs ← struct_values ["session_id"; "exit_code"; "signal"; "evidence"] payload;
    match vs with
    | [a; b; c; d] =>
        session_id ← required "session_id" uuid_from_value a;
        exit_code ← optional i32_from_value b;
        signal ← optional i32_from_value c;
        evidence ← required "evidence" TerminationEvidence_from_value d;
        Ok (RuntimeEvent.Terminated session_id exit_code signal evidence)
    | _ => Err "invalid length"
    end
  else if String.eqb kind "lost" then
    vs ← struct_values ["session_id"; "evidence"] payload;
    match vs with
    | [a; b] =>
        session_id ← required "session_id" uuid_from_value a;
        evidence ← required "evidence" LostEvidence_from_value b;
        Ok (RuntimeEvent.Lost session_id evidence)
    | _ => Err "invalid length"
    end
  else Err ("unknown variant `" +:+ kind +:+ "`").

(** [#[serde(tag = type, content = payload)]]: no variant of the enum is a unit. *)
Definition RuntimeEvent_from_value (v : Value) : result string RuntimeEvent :=
  match v with
  | Object fields =>
      kind ← field_opt "type" fields;
      payload ← field_opt "payload" fields;
      kind ← required "type" string_from_value kind;
      payload ← required "payload" Ok payload;
      RuntimeEvent_from_payload kind payload
  | Array [kind; payload] =>
      kind ← string_from_value kind; RuntimeEvent_from_payload kind payload
  | _ => Err "invalid type"
  end.

(** The integers of an event fit the widths of its fields. *)
Definition event_ok (e : RuntimeEvent) : Prop :=
  match e with
  | RuntimeEvent.Running _ pid _ => u32_ok pid
  | RuntimeEvent.Terminated _ code signal _ =>
      match code with Some z => i32_ok z | None => True end ∧
      match signal with Some z => i32_ok z | None => True end
  | RuntimeEvent.Lost _ _ => True
  end.

Lemma LostEvidence_value_roundtrip e : LostEvidence_from_value (LostEvidence_to_value e) = Ok e.
Proof. by destruct e. Qed.

Lemma TerminationEvidence_value_roundtrip e :
  TerminationEvidence_from_value (TerminationEvidence_to_value e) = Ok e.
Proof. destruct e as [| |[]]; done. Qed.

#[local] Arguments optional {A} f v : simpl never.
#[local] Arguments option_to_value {A} f o : simpl never.

Lemma i32_value_roundtrip (z : Z) : i32_ok z → i32_from_value (Number z) = Ok z.
Proof. unfold i32_ok, i32_from_value, int_from_value. intros. by rewrite decide_True. Qed.

Lemma optional_i32_roundtrip o :
  match o with Some z => i32_ok z | None => True end →
  optional i32_from_value (Some (option_to_value Number o)) = Ok o.
Proof.
  destruct o as [z|]; [|done]. intros Hz. unfold option_to_value, optional.
  by rewrite i32_value_roundtrip.
Qed.

Lemma u32_value_roundtrip n : u32_ok n → u32_from_value (Number (Z.of_N n)) = Ok n.
Proof.
  unfold u32_ok, u32_from_value, int_from_value. intros.
  rewrite decide_True by lia. simpl. f_equal. lia.
Qed.

Lemma u64_value_roundtrip n : u64_ok n → u64_from_value (Number (Z.of_N n)) = Ok n.
Proof.
  unfold u64_ok, u64_from_value, int_from_value. intros.
  rewrite decide_True by lia. simpl. f_equal. lia.
Qed.

Lemma uuid_value_roundtrip u : uuid_from_value (uuid_to_value u) = Ok u.
Proof. apply uuid_parse_to_string. Qed.

Lemma time_value_roundtrip t : time_from_value (time_to_value t) = Ok t.
Proof. apply parse_to_rfc3339. Qed.

Lemma RuntimeEvent_payload_roundtrip e :
  event_ok e → ∃ kind payload,
    RuntimeEvent_to_value e = Object [("type", Str kind); ("payload", payload)] ∧
    RuntimeEvent_from_payload kind payload = Ok e.
Proof.
  destruct e as [u pid t|u code signal ev|u ev]; simpl; intros He; eexists _, _;
    (split; [reflexivity|]); unfold RuntimeEvent_from_payload; simpl;
    rewrite uuid_value_roundtrip; simpl.
  - rewrite u32_value_roundtrip by done. simpl. by rewrite time_value_roundtrip.
  - destruct He as [Hc Hs]. rewrite optional_i32_roundtrip by done. simpl.
    rewrite optional_i32_roundtrip by done. simpl. by rewrite TerminationEvidence_value_roundtrip.
  - by rewrite LostEvidence_value_roundtrip.
Qed.

Lemma RuntimeEvent_value_roundtrip e :
  event_ok e → RuntimeEvent_from_value (RuntimeEvent_to_value e) = Ok e.
Proof.
  intros (kind & payload & -> & H1)%RuntimeEvent_payload_roundtrip. done.
Qed.

Lemma RuntimeEvent_json_ok e : event_ok e → json_ok (RuntimeEvent_to_value e).
Proof.
  destruct e as [u pid t|u code signal [| |ev]|u ev]; simpl;
    try destruct code; try destruct signal; unfold option_to_value; simpl;
    unfold u32_ok, i32_ok, i32_min, i32_max, u32_max, i64_min, u64_max; intuition lia.
Qed.
End serde.

(** ** An instance of [Json]: the decimal text of a code of the value *)

Definition leaf : Type := bool + (Z + string).

Fixpoint value_tree (v : Value) : gen_tree leaf :=
  match v with
  | Null => GenNode 0 []
  | Bool b => GenLeaf (inl b)
  | Number z => GenLeaf (inr (inl z))
  | Float bits => GenNode 4 [GenLeaf (inr (inl (Z.of_N bits)))]
  | Str s => GenLeaf (inr (inr s))
  | Array l => GenNode 1 (map value_tree l)
  | Object fs => GenNode 2 (map (λ kv, GenNode 3 [GenLeaf (inr (inr kv.1)); value_tree kv.2]) fs)
  end.

Fixpoint tree_value (t : gen_tree leaf) : Value :=
  match t with
  | GenLeaf (inl b) => Bool b
  | GenLeaf (inr (inl z)) => Number z
  | GenLeaf (inr (inr s)) => Str s
  | GenNode 1 ts => Array (map tree_value ts)
  | GenNode 2 ts =>
      Object (map (λ t, match t with
                        | GenNode _ [GenLeaf (inr (inr k)); v] => (k, tree_value v)
                        | _ => (EmptyString, Null)
                        end) ts)
  | GenNode 4 [GenLeaf (inr (inl z))] => Float (Z.to_N z)
  | GenNode _ _ => Null
  end.

Lemma tree_value_tree v : tree_value (value_tree v) = v.
Proof.
  induction v as [| | | | |l IH|fs IH] using Value_nested_ind; simpl; try done; f_equal.
  - lia.
  - induction IH as [|v l Hv _ IHl]; simpl; congruence.
  - induction IH as [|[k v] l Hv _ IHl]; simpl in *; congruence.
Qed.

Definition code_to_string (v : Value) : string := display_u (Npos (encode (value_tree v))).
Definition code_from_str (s : string) : result string Value :=
  match parse_digits 0 s with
  | Some (Npos p) => match decode p with Some t => Ok (tree_value t) | None => Err s end
  | _ => Err s
  end.

Lemma code_parse_print v : json_ok v → code_from_str (code_to_string v) = Ok v.
Proof.
  intros _. unfold code_from_str, code_to_string. rewrite parse_digits_display, decode_encode.
  by rewrite tree_value_tree.
Qed.

Lemma code_no_newline v : newline ∉ bytes (code_to_string v).
Proof. by apply display_u_no_sep. Qed.

Lemma digit_visible a : is_digit a = true → visible a = true.
Proof.
  unfold is_digit, digit_value, visible. intros H.
  destruct (bool_decide _) eqn:E; [|done]. apply bool_decide_eq_true in E as [H1 H2].
  apply andb_true_intro. split; [apply N.ltb_lt|apply N.ltb_lt]; lia.
Qed.

Lemma last_byte (P : ascii → Prop) s :
  s ≠ "" → Forall P (bytes s) → ∃ t a, s = t +:+ String a "" ∧ P a.
Proof.
  induction s as [|b s IH]; [done|]. intros _ H. apply Forall_cons_1 in H as [Hb Hs].
  destruct (decide (s = "")) as [->|Hne]; [by exists "", b|].
  destruct (IH Hne Hs) as (t & a & -> & Ha). exists (String b t), a. done.
Qed.

Lemma code_last v : ∃ s a, code_to_string v = s +:+ String a "" ∧ visible a = true.
Proof.
  destruct (last_byte (λ a, is_digit a = true) (code_to_string v)) as (s & a & E & Ha).
  - unfold code_to_string. destruct (display_u_cons (Npos (encode (value_tree v)))) as (? & ? & -> & _).
    done.
  - apply display_u_digits.
  - exists s, a. auto using digit_visible.
Qed.

Lemma utf8_ascii_fuel fuel l : Forall (λ b, (b < 128)%N) l → utf8_valid_fuel fuel l = true.
Proof.
  revert l. induction fuel as [|fuel IH]; intros [|b l] H; try done.
  apply Forall_cons_1 in H as [Hb Hl]. simpl.
  apply N.ltb_lt in Hb. rewrite Hb. simpl. apply IH. by rewrite drop_0.
Qed.

Lemma code_utf8 v : utf8_valid (code_to_string v +:+ String newline "") = true.
Proof.
  unfold utf8_valid. apply utf8_ascii_fuel. rewrite bytes_app, fmap_app. apply Forall_app. split.
  - apply Forall_fmap. apply Forall_forall. intros a Ha. unfold code_to_string in Ha.
    pose proof (proj1 (Forall_forall _ _) (display_u_digits _) a Ha) as Hd. simpl in Hd.
    apply digit_visible in Hd. unfold visible in Hd. apply andb_prop in Hd as [_ Hd%N.ltb_lt].
    simpl. lia.
  - by repeat constructor.
Qed.

Definition code_json : Json :=
  {| json_to_string := code_to_string; json_from_str := code_from_str;
     json_parse_print := code_parse_print; json_no_newline := code_no_newline;
     json_last := code_last; json_utf8 := code_utf8 |}.

(** ** Line framing (proto.rs) *)

Module ProtocolError.
Inductive ProtocolError :=
| Eof
| Io (message : string)
| Json (message : string)
| UnsupportedVersion (expected got : string).
End ProtocolError.
Notation ProtocolError := ProtocolError.ProtocolError.

Definition display_ProtocolError (e : ProtocolError) : string :=
  match e with
  | ProtocolError.Eof => "connection closed before a message arrived"
  | ProtocolError.Io e => "io error: " +:+ e
  | ProtocolError.Json e => "json error: " +:+ e
  | ProtocolError.UnsupportedVersion expected got =>
      "unsupported runtime protocol version: expected " +:+ expected +:+ ", got " +:+ got
  end.

(** [read_until(b'\n')]: the bytes up to and including the first newline, and the rest. *)
Fixpoint read_until_newline (stream : string) : string * string :=
  match stream with
  | EmptyString => (EmptyString, EmptyString)
  | String a stream =>
      if decide (a = newline) then (String a EmptyString, stream)
      else let '(line, rest) := read_until_newline stream in (String a line, rest)
  end.

Section framing.
Context `{Json} {T : Type}.
Variable to_value : T → Value.
Variable from_value : Value → result string T.

(** [serde_json::from_str::<T>]. *)
Definition from_str (s : string) : result string T := v ← json_from_str s; from_value v.

Definition parse_json_line (line : string) : result ProtocolError T :=
  map_err ProtocolError.Json (from_str (trim_end line)).

Definition json_line_bytes (message : T) : string :=
  json_to_string (to_value message) +:+ String newline "".

(** One message is taken off the stream; the stream that remains is returned. *)
Definition read_json_line (stream : string) : result ProtocolError T * string :=
  let '(line, rest) := read_until_newline stream in
  if String.eqb line "" then (Err ProtocolError.Eof, rest) else
  if negb (utf8_valid line) then
    (Err (ProtocolError.Io "stream did not contain valid UTF-8"), rest)
  else (parse_json_line line, rest).

Definition write_json_line (stream : string) (message : T) : string :=
  stream +:+ json_line_bytes message.

(** The same over a blocking reader and writer. *)
Definition read_json_line_blocking (stream : string) : result ProtocolError T * string :=
  read_json_line stream.
Definition write_json_line_blocking (stream : string) (message : T) : string :=
  write_json_line stream message.

(** A reader that takes [n] messages. *)
Fixpoint read_messages (n : nat) (stream : string) : result ProtocolError (list T) * string :=
  match n with
  | 0 => (Ok [], stream)
  | S n =>
      match read_json_line stream with
      | (Err e, stream) => (Err e, stream)
      | (Ok m, stream) =>
          let '(r, stream) := read_messages n stream in ((m ::.) <$> r, stream)
      end
  end.

Lemma read_until_newline_app s rest :
  newline ∉ bytes s →
  read_until_newline (s +:+ String newline rest) = (s +:+ String newline "", rest).
Proof.
  induction s as [|a s IH]; intros Hn; simpl.
  - done.
  - rewrite str_app_cons. simpl. simpl in Hn. apply not_elem_of_cons in Hn as [Ha Hn].
    rewrite decide_False by done. by rewrite IH.
Qed.

Definition message_ok (m : T) : Prop :=
  json_ok (to_value m) ∧ from_value (to_value m) = Ok m.

Lemma json_line_nonempty m : json_line_bytes m ≠ "".
Proof.
  unfold json_line_bytes. destruct (json_last (to_value m)) as (s & a & -> & _). by destruct s.
Qed.

Lemma json_line_trim m : trim_end (json_line_bytes m) = json_to_string (to_value m).
Proof.
  unfold json_line_bytes. destruct (json_last (to_value m)) as (s & a & -> & Ha).
  by apply trim_end_newline.
Qed.

Lemma from_str_print m : message_ok m → from_str (json_to_string (to_value m)) = Ok m.
Proof. intros [Hj Hm]. unfold from_str. by rewrite json_parse_print. Qed.

Lemma read_json_line_written m rest :
  message_ok m → read_json_line (json_line_bytes m +:+ rest) = (Ok m, rest).
Proof.
  intros Hm. unfold read_json_line. unfold json_line_bytes at 1.
  rewrite str_app_assoc. change (String newline "" +:+ rest) with (String newline rest).
  rewrite read_until_newline_app by apply json_no_newline.
  change (json_to_string (to_value m) +:+ String newline "") with (json_line_bytes m).
  destruct (String_eqb_spec' (json_line_bytes m) "") as [E|_]; [by apply json_line_nonempty in E|].
  unfold json_line_bytes at 1. rewrite json_utf8. simpl.
  unfold parse_json_line. by rewrite json_line_trim, from_str_print.
Qed.

Lemma written_app s ms :
  foldl write_json_line s ms = s +:+ foldl write_json_line "" ms.
Proof.
  revert s. induction ms as [|m ms IH]; intros s; simpl; [by rewrite str_app_nil_r|].
  rewrite (IH (write_json_line s m)), (IH (write_json_line "" m)).
  unfold write_json_line. by rewrite str_app_nil_l, str_app_assoc.
Qed.
End framing.

(** The line protocol loses and merges nothing: after any messages have been written
    one after the other on a stream, a reader takes exactly those messages off it, in
    order, and what follows them is left on the stream. *)
Lemma read_written_messages `{Json} {T} (to_value : T → Value) from_value messages rest :
  Forall (message_ok to_value from_value) messages →
  read_messages from_value (length messages)
    (foldl (write_json_line to_value) "" messages +:+ rest) = (Ok messages, rest).
Proof.
  induction 1 as [|m ms Hm _ IH]; simpl; [by rewrite str_app_nil_l|].
  rewrite written_app. unfold write_json_line at 1. rewrite str_app_nil_l, str_app_assoc.
  rewrite (read_json_line_written _ from_value) by done. by rewrite IH.
Qed.
