(* ===== verification/Serde.v ===== *)
(** * Derived serialisers (serde)

    The program's messages are read and written by the [Serialize] and [Deserialize]
    implementations that serde derives from attributes. A [Codec] is such a pair, with the
    values it can carry; this file has one combinator for each attribute the source uses
    (required, [Option] and [default] fields, [skip_serializing_if], and the three ways of
    tagging an enum), and the law of each: what was written is read back, and what is read
    fits the type. A struct is given as an object, whose unknown fields are ignored, or as an
    array of its fields. Variants are named by their text (serde also takes their number
    where a value was buffered, which no peer of the program writes). A text is UTF-8, and so
    are the paths of a message: serde fails to write another one, and has none to read. *)

From S2P Require Import Prelude RustStr Json.
From stdpp Require Import options.

Record Codec (A : Type) := mkCodec {
  enc : A → Value;
  dec : Value → result string A;
  fits : A → Prop }.
Arguments mkCodec {A} _ _ _.
Arguments enc {A} _ _.
Arguments dec {A} _ _.
Arguments fits {A} _ _.

Class CodecOk {A} (c : Codec A) := {
  dec_enc a : c.(fits) a → c.(dec) (c.(enc) a) = Ok a;
  enc_json a : c.(fits) a → json_ok (c.(enc) a);
  dec_fits v a : c.(dec) v = Ok a → c.(fits) a }.

(** A codec that never writes [null], so that an [Option] of it can be read back. *)
Class NotNull {A} (c : Codec A) := enc_not_null a : c.(enc) a ≠ Null.

(** ** Scalars and collections *)

Definition bool_codec : Codec bool :=
  mkCodec Bool (λ v, match v with Bool b => Ok b | _ => Err "invalid type" end) (λ _, True).
Definition string_codec : Codec string := mkCodec Str string_from_value (λ _, True).
Definition u32_codec : Codec N := mkCodec (λ n, Number (Z.of_N n)) u32_from_value u32_ok.
Definition u64_codec : Codec N := mkCodec (λ n, Number (Z.of_N n)) u64_from_value u64_ok.
Definition i32_codec : Codec Z := mkCodec Number i32_from_value i32_ok.
Definition usize_codec : Codec nat :=
  mkCodec (λ n, Number (Z.of_nat n)) (λ v, N.to_nat <$> u64_from_value v)
          (λ n, u64_ok (N.of_nat n)).

Definition list_codec {A} (c : Codec A) : Codec (list A) :=
  mkCodec (λ l, Array (map c.(enc) l))
          (λ v, match v with Array l => try_map c.(dec) l | _ => Err "invalid type" end)
          (Forall c.(fits)).

Definition option_fits {A} (P : A → Prop) (o : option A) : Prop :=
  match o with Some a => P a | None => True end.

Definition option_codec {A} (c : Codec A) : Codec (option A) :=
  mkCodec (option_to_value c.(enc))
          (λ v, match v with Null => Ok None | v => Some <$> c.(dec) v end)
          (option_fits c.(fits)).

(** ** Structs *)

(** What there is for a field: a value, nothing in an object, or nothing in an array that
    has ended. *)
Inductive Slot := Given (v : Value) | Absent | Ended.

Definition slot_of (o : option Value) : Slot := match o with Some v => Given v | None => Absent end.

Definition read_struct (names : list string) (v : Value) : result string (list Slot) :=
  match v with
  | Object fields => slots ← try_map (λ name, field_opt name fields) names; Ok (map slot_of slots)
  | Array l =>
      if decide (length l ≤ length names)
      then Ok (map Given l ++ replicate (length names - length l) Ended)
      else Err "invalid length"
  | _ => Err "invalid type"
  end.

Record Field (A : Type) := mkField {
  field_name : string;
  field_write : A → option Value;
  field_read : Slot → result string A;
  field_fits : A → Prop }.
Arguments mkField {A} _ _ _ _.
Arguments field_name {A} _.
Arguments field_write {A} _ _.
Arguments field_read {A} _ _.
Arguments field_fits {A} _ _.

(** A field that is left out of the object when [skip] holds, and is [absent] or [ended]
    when the object does not have it or the array is too short. *)
Definition field {A} (name : string) (skip : A → bool) (absent ended : option A) (c : Codec A)
    : Field A :=
  mkField name (λ a, if skip a then None else Some (c.(enc) a))
    (λ slot, match slot with
             | Given v => c.(dec) v
             | Absent => ok_or ("missing field `" +:+ name +:+ "`") absent
             | Ended => ok_or "invalid length" ended
             end)
    c.(fits).

(** A plain field, a plain [Option] field, [default], and
    [default, skip_serializing_if = skip]. *)
Definition req {A} (name : string) (c : Codec A) : Field A := field name (λ _, false) None None c.
Definition opt {A} (name : string) (c : Codec A) : Field (option A) :=
  field name (λ _, false) (Some None) None (option_codec c).
Definition defaulted {A} (name : string) (d : A) (c : Codec A) : Field A :=
  field name (λ _, false) (Some d) (Some d) c.
Definition skipped {A} (name : string) (skip : A → bool) (d : A) (c : Codec A) : Field A :=
  field name skip (Some d) (Some d) c.
(** [default, skip_serializing_if = "Option::is_none"]. *)
Definition is_none {A} (o : option A) : bool := match o with None => true | Some _ => false end.
Definition opt_skipped {A} (name : string) (c : Codec A) : Field (option A) :=
  skipped name is_none None (option_codec c).

Declare Scope fields_scope.
Delimit Scope fields_scope with fields.

Record Fields (A : Type) := mkFields {
  fields_names : list string;
  fields_write : A → list (option Value);
  fields_read : list Slot → result string A;
  fields_fits : A → Prop }.
Arguments mkFields {A} _ _ _ _.
Arguments fields_names {A} _.
Arguments fields_write {A} _ _.
Arguments fields_read {A} _ _.
Arguments fields_fits {A} _ _.
Bind Scope fields_scope with Fields.

Definition no_fields : Fields unit := mkFields [] (λ _, []) (λ _, Ok tt) (λ _, True).

Definition fields_cons {A B} (f : Field A) (fs : Fields B) : Fields (A * B) :=
  mkFields (f.(field_name) :: fs.(fields_names))
    (λ '(a, b), f.(field_write) a :: fs.(fields_write) b)
    (λ slots, match slots with
              | slot :: slots => a ← f.(field_read) slot; b ← fs.(fields_read) slots; Ok (a, b)
              | [] => Err "invalid length"
              end)
    (λ '(a, b), f.(field_fits) a ∧ fs.(fields_fits) b).

Infix "⊳" := fields_cons (at level 60, right associativity) : fields_scope.
Notation "'∎'" := no_fields : fields_scope.

Fixpoint written (names : list string) (values : list (option Value)) : list (string * Value) :=
  match names, values with
  | name :: names, Some v :: values => (name, v) :: written names values
  | _ :: names, None :: values => written names values
  | _, _ => []
  end.

Definition struct {P A} (fs : Fields P) (mk : P → A) (un : A → P) : Codec A :=
  mkCodec (λ a, Object (written fs.(fields_names) (fs.(fields_write) (un a))))
          (λ v, slots ← read_struct fs.(fields_names) v; mk <$> fs.(fields_read) slots)
          (λ a, fs.(fields_fits) (un a)).
Arguments struct {P A} fs%_fields mk un.

(** ** Enums *)

Inductive Handler (A : Type) :=
| Bare (a : A)                              (* a unit variant *)
| Payload (read : Value → result string A).  (* a variant with a content *)
Arguments Bare {A} _.
Arguments Payload {A} _.

Definition handler_of {A} (table : list (string * Handler A)) (name : string)
    : result string (Handler A) :=
  match list_find (λ entry, entry.1 = name) table with
  | Some (_, (_, h)) => Ok h
  | None => Err ("unknown variant `" +:+ name +:+ "`")
  end.

(** An absent or null content for a unit variant, a content for the others. *)
Definition handle {A} (missing : string) (h : Handler A) (w : option Value) : result string A :=
  match h with
  | Bare a => _ ← unit_payload w; Ok a
  | Payload read => match w with Some w => read w | None => Err missing end
  end.

(** No attribute: ["name"] or [{"name": content}]. *)
Definition external_from {A} (table : list (string * Handler A)) (v : Value) : result string A :=
  '(name, w) ← variant_of v;
  h ← handler_of table name;
  handle "invalid type: unit variant" h w.

Definition external (name : string) (content : Value) : Value := Object [(name, content)].

(** [tag = tag, content = content]. *)
Definition adjacent_from {A} (tag content : string) (table : list (string * Handler A)) (v : Value)
    : result string A :=
  '(kind, w) ← match v with
               | Object fields =>
                   kind ← field_opt tag fields; w ← field_opt content fields; Ok (kind, w)
               | Array [kind; w] => Ok (Some kind, Some w)
               | _ => Err "invalid type"
               end;
  name ← required tag string_from_value kind;
  h ← handler_of table name;
  handle ("missing field `" +:+ content +:+ "`") h w.

Definition adjacent (tag content name : string) (w : option Value) : Value :=
  Object ((tag, Str name) :: match w with Some w => [(content, w)] | None => [] end).

(** [tag = tag]: the content is the rest of the object, and a unit variant ignores it. *)
Definition internal_from {A} (tag : string) (table : list (string * Handler A)) (v : Value)
    : result string A :=
  '(kind, w) ← match v with
               | Object fields =>
                   kind ← field_opt tag fields;
                   Ok (kind, Object (filter (λ kv, kv.1 ≠ tag) fields))
               | Array (kind :: l) => Ok (Some kind, Array l)
               | _ => Err "invalid type"
               end;
  name ← required tag string_from_value kind;
  h ← handler_of table name;
  match h with Bare a => Ok a | Payload read => read w end.

Definition internal (tag name : string) (content : Value) : Value :=
  match content with
  | Object fields => Object ((tag, Str name) :: fields)
  | _ => Object [(tag, Str name)]
  end.

(** ** Laws of the scalars and collections *)

Lemma json_ok_array l : json_ok (Array l) ↔ Forall json_ok l.
Proof. induction l as [|v l IH]; simpl in *; rewrite ?Forall_cons, ?Forall_nil; naive_solver. Qed.

Lemma json_ok_object fields : json_ok (Object fields) ↔ Forall (λ kv, json_ok kv.2) fields.
Proof.
  induction fields as [|kv l IH]; simpl in *; rewrite ?Forall_cons, ?Forall_nil; naive_solver.
Qed.

#[export] Instance bool_codec_ok : CodecOk bool_codec.
Proof. split; [done|done|intros v a _; exact I]. Qed.

#[export] Instance string_codec_ok : CodecOk string_codec.
Proof. split; [done|done|intros v a _; exact I]. Qed.

Lemma int_from_value_Ok min max v z :
  int_from_value min max v = Ok z → (min ≤ z ≤ max)%Z.
Proof. destruct v; try done. simpl. case_decide; [|done]. by intros [= <-]. Qed.

#[export] Instance u32_codec_ok : CodecOk u32_codec.
Proof.
  split; simpl; [exact u32_value_roundtrip|unfold u32_ok, u32_max, i64_min, u64_max; lia|].
  intros v n E. unfold u32_from_value in E. inv_result. apply int_from_value_Ok in E0.
  unfold u32_ok, u32_max in *. lia.
Qed.

#[export] Instance u64_codec_ok : CodecOk u64_codec.
Proof.
  split; simpl; [exact u64_value_roundtrip|unfold u64_ok, u64_max, i64_min; lia|].
  intros v n E. unfold u64_from_value in E. inv_result. apply int_from_value_Ok in E0.
  unfold u64_ok, u64_max in *. lia.
Qed.

#[export] Instance i32_codec_ok : CodecOk i32_codec.
Proof.
  split; simpl; [exact i32_value_roundtrip|unfold i32_ok, i32_min, i32_max, i64_min, u64_max; lia|].
  intros v z E. by apply int_from_value_Ok in E.
Qed.

#[export] Instance usize_codec_ok : CodecOk usize_codec.
Proof.
  split; simpl.
  - intros n Hn. pose proof (u64_value_roundtrip _ Hn) as E. rewrite nat_N_Z in E. rewrite E.
    simpl. by rewrite Nat2N.id.
  - unfold u64_ok, u64_max, i64_min. lia.
  - intros v n E. inv_result. rewrite N2Nat.id. by eapply (dec_fits (c := u64_codec)).
Qed.

#[export] Instance list_codec_ok {A} (c : Codec A) : CodecOk c → CodecOk (list_codec c).
Proof.
  intros Hc. split; cbn [list_codec enc dec fits].
  - induction 1 as [|a l Ha _ IH]; [done|]. cbn [map try_map]. rewrite dec_enc by done. simpl.
    by rewrite IH.
  - intros l Hl. apply json_ok_array, Forall_fmap. eapply Forall_impl; [exact Hl|].
    intros a Ha. by apply enc_json.
  - intros [| | | | |l|] l' E; try done. apply try_map_Ok in E.
    induction E as [|v a l l' E _ IH]; constructor; [by eapply dec_fits|done].
Qed.

#[export] Instance option_codec_ok {A} (c : Codec A) :
  CodecOk c → NotNull c → CodecOk (option_codec c).
Proof.
  intros Hc Hn. split; cbn [option_codec enc dec fits].
  - intros [a|] Ha; [|done]. unfold option_to_value.
    pose proof (enc_not_null a) as Hv. pose proof (dec_enc a Ha) as E.
    destruct (enc c a); try done; by rewrite E.
  - intros [a|] Ha; [by apply enc_json|done].
  - intros v [a|] E; [|done]. assert (dec c v = Ok a) by (destruct v; by inv_result).
    by eapply dec_fits.
Qed.

#[export] Instance string_not_null : NotNull string_codec.
Proof. by intros a. Qed.
#[export] Instance u32_not_null : NotNull u32_codec.
Proof. by intros a. Qed.
#[export] Instance u64_not_null : NotNull u64_codec.
Proof. by intros a. Qed.
#[export] Instance i32_not_null : NotNull i32_codec.
Proof. by intros a. Qed.

(** ** Laws of structs *)

Class FieldOk {A} (f : Field A) := {
  field_read_write a : f.(field_fits) a → f.(field_read) (slot_of (f.(field_write) a)) = Ok a;
  field_json a v : f.(field_fits) a → f.(field_write) a = Some v → json_ok v;
  field_read_fits slot a : f.(field_read) slot = Ok a → f.(field_fits) a }.

Class FieldsOk {A} (fs : Fields A) := {
  fields_read_write a : fs.(fields_fits) a →
    fs.(fields_read) (map slot_of (fs.(fields_write) a)) = Ok a;
  fields_length a : length (fs.(fields_write) a) = length fs.(fields_names);
  fields_json a : fs.(fields_fits) a → Forall (option_fits json_ok) (fs.(fields_write) a);
  fields_read_fits slots a : fs.(fields_read) slots = Ok a → fs.(fields_fits) a }.

(** What is assumed of a value that stands for an absent field. *)
Definition stand_in {A} (c : Codec A) (o : option A) : Prop := option_fits c.(fits) o.

Lemma field_law {A} name skip absent ended (c : Codec A) :
  CodecOk c → stand_in c absent → stand_in c ended →
  (∀ a, skip a = true → absent = Some a) → FieldOk (field name skip absent ended c).
Proof.
  intros Hc Ha He Hs. split; cbn [field field_read field_write field_fits].
  - intros a Hf. destruct (skip a) eqn:E; simpl; [by rewrite (Hs _ E)|by apply dec_enc].
  - intros a v Hf. destruct (skip a); [done|]. intros [= <-]. by apply enc_json.
  - intros [v| |] a E; [by eapply dec_fits| |]; apply ok_or_Ok in E; by subst.
Qed.

#[export] Instance req_ok {A} name (c : Codec A) : CodecOk c → FieldOk (req name c).
Proof. intros Hc. by apply field_law. Qed.

#[export] Instance opt_ok {A} name (c : Codec A) : CodecOk c → NotNull c → FieldOk (opt name c).
Proof. intros Hc Hn. apply field_law; done || apply _. Qed.

Lemma defaulted_ok {A} name d (c : Codec A) : CodecOk c → c.(fits) d → FieldOk (defaulted name d c).
Proof. intros Hc Hd. by apply field_law. Qed.

Lemma skipped_ok {A} name skip d (c : Codec A) :
  CodecOk c → c.(fits) d → (∀ a, skip a = true → a = d) → FieldOk (skipped name skip d c).
Proof. intros Hc Hd Hs. apply field_law; try done. intros a E. f_equal. symmetry. by apply Hs. Qed.

#[export] Instance opt_skipped_ok {A} name (c : Codec A) :
  CodecOk c → NotNull c → FieldOk (opt_skipped name c).
Proof. intros Hc Hn. apply skipped_ok; [apply _|exact I|by intros [a|]]. Qed.

#[export] Instance no_fields_ok : FieldsOk ∎%fields.
Proof. split; [by intros []|done|intros; by constructor|intros; exact I]. Qed.

#[export] Instance fields_cons_ok {A B} (f : Field A) (fs : Fields B) :
  FieldOk f → FieldsOk fs → FieldsOk (f ⊳ fs)%fields.
Proof.
  intros Hf Hfs. split; cbn [fields_cons fields_read fields_write fields_fits fields_names].
  - intros [a b] [Ha Hb]. cbn [map]. rewrite field_read_write by done. cbn.
    by rewrite fields_read_write.
  - intros [a b]. simpl. by rewrite fields_length.
  - intros [a b] [Ha Hb]. constructor; [|by apply fields_json].
    destruct (field_write f a) eqn:E; [by eapply field_json|done].
  - intros [|slot slots] [a b] E; [done|]. inv_result.
    split; [by eapply field_read_fits|by eapply fields_read_fits].
Qed.

Lemma written_names names values name v :
  (name, v) ∈ written names values → name ∈ names.
Proof.
  revert values. induction names as [|n names IH]; intros [|[w|] values]; simpl; try set_solver.
Qed.

Lemma field_opt_cons name n v fields :
  field_opt name ((n, v) :: fields) =
  if decide (n = name) then
    match field_opt name fields with Ok None => Ok (Some v) | _ => Err ("duplicate field `" +:+ name +:+ "`") end
  else field_opt name fields.
Proof.
  unfold field_opt. rewrite filter_cons. simpl. case_decide; [|done]. subst.
  by destruct (filter _ fields) as [|[] []].
Qed.

Lemma field_opt_absent name fields :
  name ∉ fields.*1 → field_opt name fields = Ok None.
Proof.
  induction fields as [|[n v] fields IH]; [done|]. intros [Hn H]%not_elem_of_cons.
  rewrite field_opt_cons, decide_False by done. by apply IH.
Qed.

Lemma fields_read_back names values :
  NoDup names → length values = length names →
  try_map (λ name, field_opt name (written names values)) names = Ok values.
Proof.
  intros Hd Hl. apply try_map_Ok. revert values Hl.
  induction Hd as [|n names Hn Hd IH]; intros [|v values] Hl; try done. simpl in Hl.
  assert (n ∉ (written names values).*1) as Hw.
  { intros (kv & -> & Hin)%list_elem_of_fmap. destruct kv. apply Hn. by eapply written_names. }
  constructor.
  - simpl. destruct v as [v|]; [rewrite field_opt_cons, decide_True by done|];
      by rewrite field_opt_absent.
  - specialize (IH values ltac:(lia)). simpl. destruct v as [v|]; [|exact IH].
    clear Hd Hl Hw. revert IH Hn. generalize (written names values). intros fields IH.
    induction IH as [|m o ms os Hm _ IH]; [constructor|].
    intros [Hne Hn]%not_elem_of_cons. constructor; [|by apply IH].
    cbv beta in *. by rewrite field_opt_cons, decide_False.
Qed.

Lemma written_json names values :
  Forall (option_fits json_ok) values → Forall (λ kv, json_ok kv.2) (written names values).
Proof.
  intros H. revert names. induction H as [|[v|] values Hv _ IH]; intros [|n names]; simpl; try constructor;
    try done; apply IH.
Qed.

Lemma struct_ok {P A} (fs : Fields P) (mk : P → A) (un : A → P) :
  FieldsOk fs → NoDup fs.(fields_names) → (∀ a, mk (un a) = a) → (∀ p, un (mk p) = p) →
  CodecOk (struct fs mk un).
Proof.
  intros Hfs Hd Hm Hu. split; cbn [struct enc dec fits].
  - intros a Ha. unfold read_struct. rewrite fields_read_back; [|done|apply fields_length].
    cbn. rewrite fields_read_write by done. cbn. by rewrite Hm.
  - intros a Ha. apply json_ok_object, written_json. by apply fields_json.
  - intros v a E. inv_result. rewrite Hu. by eapply fields_read_fits.
Qed.

#[export] Instance struct_not_null {P A} (fs : Fields P) (mk : P → A) un : NotNull (struct fs mk un).
Proof. by intros a. Qed.

(** ** Laws of enums *)

Lemma external_json name content : json_ok content → json_ok (external name content).
Proof. done. Qed.

Lemma adjacent_json tag content name w : option_fits json_ok w → json_ok (adjacent tag content name w).
Proof. by destruct w. Qed.

Lemma internal_json tag name content : json_ok content → json_ok (internal tag name content).
Proof. by destruct content. Qed.

Lemma external_read {A} name w (table : list (string * Handler A)) :
  external_from table (external name w) =
  h ← handler_of table name; handle "invalid type: unit variant" h (Some w).
Proof. done. Qed.

Lemma external_read_bare {A} name (table : list (string * Handler A)) :
  external_from table (Str name) =
  h ← handler_of table name; handle "invalid type: unit variant" h None.
Proof. done. Qed.

Lemma adjacent_read {A} tag content name w (table : list (string * Handler A)) :
  tag ≠ content →
  adjacent_from tag content table (adjacent tag content name w) =
  h ← handler_of table name; handle ("missing field `" +:+ content +:+ "`") h w.
Proof.
  intros Hne. unfold adjacent_from, adjacent.
  assert (∀ name, field_opt name [] = Ok None) as Hnil by done.
  destruct w as [w|]; rewrite !field_opt_cons, !Hnil; repeat case_decide; try done; by subst.
Qed.

Lemma internal_read {A} tag name fields (table : list (string * Handler A)) :
  tag ∉ fields.*1 →
  internal_from tag table (internal tag name (Object fields)) =
  h ← handler_of table name; match h with Bare a => Ok a | Payload read => read (Object fields) end.
Proof.
  intros Hn. unfold internal_from, internal. rewrite field_opt_cons, decide_True by done.
  rewrite field_opt_absent by done. rewrite filter_cons, decide_False by (intros H; by apply H).
  assert (filter (λ kv : string * Value, kv.1 ≠ tag) fields = fields) as ->; [|done].
  induction fields as [|[n v] fields IH]; [done|].
  apply not_elem_of_cons in Hn as [Hne Hn]. rewrite filter_cons, decide_True by (intros ?; by apply Hne).
  by rewrite IH.
Qed.

(** What is read is what one of the handlers of the table gives. *)
Lemma handled {A} missing name (table : list (string * Handler A)) h w a :
  handler_of table name = Ok h → handle missing h w = Ok a →
  (∃ n, (n, Bare a) ∈ table) ∨ (∃ n read v, (n, Payload read) ∈ table ∧ read v = Ok a).
Proof.
  unfold handler_of. intros Hh Ha. destruct (list_find _ table) as [[i [n h']]|] eqn:E; [|done].
  injection Hh as ->. apply list_find_Some in E as (E & _). apply list_elem_of_lookup_2 in E.
  destruct h as [b|read]; simpl in Ha.
  - inv_result. left. by exists n.
  - destruct w as [w|]; [|done]. right. by exists n, read, w.
Qed.

Lemma external_handled {A} (table : list (string * Handler A)) v a :
  external_from table v = Ok a →
  (∃ n, (n, Bare a) ∈ table) ∨ (∃ n read v, (n, Payload read) ∈ table ∧ read v = Ok a).
Proof.
  unfold external_from. intros ([name w] & _ & (h & Eh & E)%bind_Ok)%bind_Ok. by eapply handled.
Qed.

Lemma adjacent_handled {A} tag content (table : list (string * Handler A)) v a :
  adjacent_from tag content table v = Ok a →
  (∃ n, (n, Bare a) ∈ table) ∨ (∃ n read v, (n, Payload read) ∈ table ∧ read v = Ok a).
Proof.
  unfold adjacent_from.
  intros ([kind w] & _ & (name & _ & (h & Eh & E)%bind_Ok)%bind_Ok)%bind_Ok. by eapply handled.
Qed.

Lemma internal_handled {A} tag (table : list (string * Handler A)) v a :
  internal_from tag table v = Ok a →
  (∃ n, (n, Bare a) ∈ table) ∨ (∃ n read v, (n, Payload read) ∈ table ∧ read v = Ok a).
Proof.
  unfold internal_from.
  intros ([kind w] & _ & (name & _ & (h & Eh & E)%bind_Ok)%bind_Ok)%bind_Ok. destruct h as [b|read].
  - injection E as ->. by eapply (handled "" _ _ _ None).
  - by eapply (handled "" _ _ _ (Some _)).
Qed.
