(* ===== verification/Launch.v ===== *)
(** * Environments and launch specifications

    crates/rtm-core/src/spawn_context.rs (forwarded environment), launcher.rs (launch
    specification), path_shaped_envs.rs; crates/rtm-launchers/src (registry of the two
    runtimes and their cached binaries).

    The process environment is the list [environ] of its entries in order; the [which]
    program is a parameter. *)

From Stdlib Require Import Ascii.
From S2P Require Import Prelude RustStr RustPath Types Parsers.
From stdpp Require Import options.

Definition Environ : Type := list (string * string).

(** [std::env::var_os]. *)
Fixpoint var_os (environ : Environ) (key : string) : option string :=
  match environ with
  | [] => None
  | (k, v) :: environ => if String.eqb k key then Some v else var_os environ key
  end.

(** ** spawn_context.rs *)

Definition CALLER_ENV_DENYLIST : list string :=
  ["CLAUDECODE"; "TMUX"; "TMUX_PANE"; "RTM_SOCKET_PATH"; "RTM_DB_PATH"; "HELIOY_SESSION_ID";
   "HELIOY_RUNTIME"; "RTM_SESSION_ID"; "RTM_RUNTIME_KIND"].

Definition CALLER_ENV_DENYLIST_PREFIXES : list string := ["CLAUDE_CODE_"; "CLAUDE_PLUGIN_"].

Definition SHELL_RESUME_ENV_ALLOWLIST : list string :=
  ["COLORTERM"; "HOME"; "LANG"; "LC_ALL"; "LOGNAME"; "PATH"; "SHELL"; "TERM"; "USER"].

Definition is_denied (key : string) : bool :=
  if decide (key ∈ CALLER_ENV_DENYLIST) then true
  else existsb (λ prefix, starts_with prefix key) CALLER_ENV_DENYLIST_PREFIXES.

Definition launch_env (kv : string * string) : LaunchEnv := LaunchEnv.mk kv.1 kv.2.

Definition capture_env_from (iter : Environ) : list LaunchEnv :=
  launch_env <$> filter (λ kv, is_denied kv.1 = false) iter.

Definition lossy_entry (kv : string * string) : string * string :=
  (to_string_lossy kv.1, to_string_lossy kv.2).

Definition capture_env_from_os (iter : Environ) : list LaunchEnv :=
  capture_env_from (lossy_entry <$> iter).

Definition capture_caller_env (environ : Environ) : list LaunchEnv := capture_env_from_os environ.

Definition capture_shell_resume_env (iter : Environ) : list LaunchEnv :=
  launch_env <$> filter (λ kv, kv.1 ∈ SHELL_RESUME_ENV_ALLOWLIST) (lossy_entry <$> iter).

Definition ensure_shell_env (env : list LaunchEnv) (shell : string) : list LaunchEnv :=
  if existsb (λ entry, String.eqb entry.(LaunchEnv.key) "SHELL") env then env
  else env ++ [LaunchEnv.mk "SHELL" shell].

(** [std::env::var]: absent and ill-formed values are both errors. *)
Definition env_var (environ : Environ) (key : string) : option string :=
  match var_os environ key with
  | Some v => if utf8_valid v then Some v else None
  | None => None
  end.

Definition capture_shell_resume (environ : Environ) (cwd : string) : ShellResume :=
  let shell := default "/bin/sh" (env_var environ "SHELL") in
  ShellResume.mk [shell] (ensure_shell_env (capture_shell_resume_env environ) shell) cwd.

Definition launcher_probe_cwd : string := "/".

(** ** launcher.rs *)

Fixpoint upsert_launch_env (env : list LaunchEnv) (next : LaunchEnv) : list LaunchEnv :=
  match env with
  | [] => [next]
  | entry :: env =>
      if String.eqb entry.(LaunchEnv.key) next.(LaunchEnv.key) then next :: env
      else entry :: upsert_launch_env env next
  end.

Definition LaunchSpec_command (spec : LaunchSpec) : result LauncherError string :=
  ok_or LauncherError.EmptyArgv (head spec.(LaunchSpec.argv)).

Definition ShellResume_command (resume : ShellResume) : result LauncherError string :=
  ok_or LauncherError.EmptyShellArgv (head resume.(ShellResume.argv)).

Definition display_LauncherError (e : LauncherError) : string :=
  match e with
  | LauncherError.NoLauncher runtime_kind =>
      "no launcher registered for runtime kind: " +:+ runtime_kind
  | LauncherError.EmptyArgv => "launcher produced empty argv"
  | LauncherError.EmptyShellArgv => "launcher produced empty shell resume argv"
  | LauncherError.EmptyEnv runtime_kind => "launcher " +:+ runtime_kind +:+ " produced empty env"
  | LauncherError.BinaryLookupFailed binary message =>
      "failed to resolve launcher binary " +:+ binary +:+ ": " +:+ message
  end.

(** The trait; [W] is the state its methods may touch. *)
Record RuntimeLauncher (W : Type) := mkRuntimeLauncher {
  rl_kind : RuntimeKind;
  rl_argv : SpawnRequest → M W LauncherError (list string);
  rl_env : SpawnRequest → M W LauncherError (list LaunchEnv) }.
Arguments rl_kind {W}.
Arguments rl_argv {W}.
Arguments rl_env {W}.

(** The default method [cwd], which no launcher overrides. *)
Definition rl_cwd {W} (request : SpawnRequest) : M W LauncherError string :=
  mret request.(SpawnRequest.cwd).

Definition launch_spec {W} (self : RuntimeLauncher W) (request : SpawnRequest)
    : M W LauncherError LaunchSpec :=
  argv ← self.(rl_argv) request;
  env ← self.(rl_env) request;
  cwd ← rl_cwd request;
  let spec := LaunchSpec.mk argv env cwd request.(SpawnRequest.shell_resume) in
  if decide (spec.(LaunchSpec.argv) = []) then throw LauncherError.EmptyArgv else
  if decide (spec.(LaunchSpec.env) = []) then
    throw (LauncherError.EmptyEnv (RuntimeKind_as_str self.(rl_kind)))
  else mret spec.

(** ** rtm-launchers *)

Definition runtime_env `{External} (request : SpawnRequest) : list LaunchEnv :=
  let env := request.(SpawnRequest.env) in
  let env := upsert_launch_env env
    (LaunchEnv.mk "HELIOY_SESSION_ID" (uuid_to_string request.(SpawnRequest.session_id))) in
  let env := upsert_launch_env env
    (LaunchEnv.mk "HELIOY_RUNTIME" (RuntimeKind_as_str request.(SpawnRequest.runtime))) in
  let env := upsert_launch_env env
    (LaunchEnv.mk "RTM_SESSION_ID" (uuid_to_string request.(SpawnRequest.session_id))) in
  upsert_launch_env env
    (LaunchEnv.mk "RTM_RUNTIME_KIND" (RuntimeKind_as_str request.(SpawnRequest.runtime))).

(** What one run of [which] gives: a failure to start it, or its exit success and output. *)
Definition WhichOutput : Type := result string (bool * string).

Section launchers.
Context `{External}.
(** The outcome of the n-th run of [which]. *)
Variable which : nat → string → WhichOutput.

(** The two [OnceLock] statics, and how often [which] has been run. *)
Record Registry := mkRegistry {
  CLAUDE_PATH : option (result LauncherError string);
  CODEX_PATH : option (result LauncherError string);
  lookups : nat }.

Definition resolve_binary (binary : string) : M Registry LauncherError string := λ w,
  let w' := mkRegistry w.(CLAUDE_PATH) w.(CODEX_PATH) (S w.(lookups)) in
  match which w.(lookups) binary with
  | Err message => (Err (LauncherError.BinaryLookupFailed binary message), w')
  | Ok (success, stdout) =>
      if negb success then (Ok binary, w') else
      let path := trim (to_string_lossy stdout) in
      if String.eqb path "" then (Ok binary, w') else (Ok path, w')
  end.

(** [OnceLock::get_or_init]: [get] and [set] select the static. *)
Definition cached_binary (get : Registry → option (result LauncherError string))
    (set : result LauncherError string → Registry → Registry) (binary : string)
    : M Registry LauncherError string := λ w,
  match get w with
  | Some r => (r, w)
  | None => let '(r, w') := resolve_binary binary w in (r, set r w')
  end.

Definition resolved_argv get set (binary : string) : M Registry LauncherError (list string) :=
  path ← cached_binary get set binary; mret [path].

Definition ClaudeLauncher : RuntimeLauncher Registry :=
  {| rl_kind := RuntimeKind.Claude;
     rl_argv := λ _, resolved_argv CLAUDE_PATH
                       (λ r w, mkRegistry (Some r) w.(CODEX_PATH) w.(lookups)) "claude";
     rl_env := λ request, mret (runtime_env request) |}.

Definition CodexLauncher : RuntimeLauncher Registry :=
  {| rl_kind := RuntimeKind.Codex;
     rl_argv := λ _, resolved_argv CODEX_PATH
                       (λ r w, mkRegistry w.(CLAUDE_PATH) (Some r) w.(lookups)) "codex";
     rl_env := λ request, mret (runtime_env request) |}.

Definition dispatch (kind : RuntimeKind) : result LauncherError (RuntimeLauncher Registry) :=
  match kind with
  | RuntimeKind.Claude => Ok ClaudeLauncher
  | RuntimeKind.Codex => Ok CodexLauncher
  | RuntimeKind.Other value => Err (LauncherError.NoLauncher value)
  end.

Definition registered_launchers : list (RuntimeLauncher Registry) := [ClaudeLauncher; CodexLauncher].

Fixpoint warm_all (l : list (RuntimeLauncher Registry)) : M Registry LauncherError unit :=
  match l with
  | [] => mret tt
  | launcher :: l =>
      let request := SpawnRequest.mk uuid_nil launcher.(rl_kind) IsolationPolicy.Host None [] []
                       launcher_probe_cwd SpawnTarget.Headless false None in
      _ ← launcher.(rl_argv) request; warm_all l
  end.
Definition warm_registry : M Registry LauncherError unit := warm_all registered_launchers.

(** What the daemon does with a request: [dispatch(&request.runtime)?.launch_spec(&request)]. *)
Definition dispatch_launch_spec (request : SpawnRequest) : M Registry LauncherError LaunchSpec :=
  launcher ← lift (dispatch request.(SpawnRequest.runtime)); launch_spec launcher request.
End launchers.

(** ** path_shaped_envs.rs *)

Module PathValueShape.
Inductive PathValueShape := Single | ColonList.
End PathValueShape.
Notation PathValueShape := PathValueShape.PathValueShape.

Module PathShapedEnv.
Record PathShapedEnv := mk { key : string; doc_comment : string; value_shape : PathValueShape }.
End PathShapedEnv.
Notation PathShapedEnv := PathShapedEnv.PathShapedEnv.

Definition path_values (self : PathShapedEnv) (value : string) : list string :=
  match self.(PathShapedEnv.value_shape) with
  | PathValueShape.Single => [value]
  | PathValueShape.ColonList =>
      if String.eqb value "" then [value] else split_on ":"%char value
  end.

Definition CLAUDE_PATH_SHAPED_ENVS : list PathShapedEnv :=
  let single k d := PathShapedEnv.mk k d PathValueShape.Single in
  [single "CLAUDE_BG_AUTH_SNAPSHOT_PATH"
     "Auth snapshot file path. Source: Claude Code source string.";
   single "CLAUDE_CODE_CLIENT_CERT"
     "mTLS client certificate file. Source: Claude Code environment variable documentation.";
   single "CLAUDE_CODE_CLIENT_KEY"
     "mTLS client private key file. Source: Claude Code environment variable documentation.";
   single "CLAUDE_CODE_DEBUG_LOGS_DIR"
     "Debug log file path. Source: Claude Code environment variable documentation.";
   single "CLAUDE_CODE_GIT_BASH_PATH"
     "Git Bash executable path. Source: Claude Code environment variable documentation.";
   single "CLAUDE_CODE_PLUGIN_CACHE_DIR"
     "Plugin parent directory. Source: Claude Code environment variable documentation.";
   PathShapedEnv.mk "CLAUDE_CODE_PLUGIN_SEED_DIR"
     "Plugin seed directory list. Source: Claude Code environment variable documentation."
     PathValueShape.ColonList;
   single "CLAUDE_CODE_SHELL_PREFIX"
     "Shell command prefix path. Source: Claude Code environment variable documentation.";
   single "CLAUDE_CODE_TMPDIR"
     "Claude Code temp directory root. Source: Claude Code environment variable documentation.";
   single "CLAUDE_CONFIG_DIR"
     "Configuration directory containing settings, credentials, history, and plugins. Source: Claude Code environment variable documentation.";
   single "CLAUDE_ENV_FILE"
     "Shell script path sourced before Bash commands. Source: Claude Code environment variable documentation.";
   single "CLAUDE_PLUGIN_ROOT"
     "Plugin root directory. Source: Claude Code source string.";
   single "CLAUDE_PROJECT_DIR"
     "Project directory for hooks and subprocesses. Source: Claude Code source string and convention.";
   single "CLAUDE_SECURESTORAGE_CONFIG_DIR"
     "Secure storage configuration directory. Source: Claude Code source string.";
   single "CLAUDE_SKILL_DIR"
     "Skills directory. Source: Claude Code source string.";
   single "CLAUDE_TMPDIR"
     "Claude temp directory root. Source: Claude Code source string."].

Definition claude_path_shaped_env (key : string) : option PathShapedEnv :=
  find (λ entry, String.eqb entry.(PathShapedEnv.key) key) CLAUDE_PATH_SHAPED_ENVS.

(** ** Lemmas *)

(** The environment a [Command] gives its child after [env_clear] and one [env] call per
    entry: a later call for the same key replaces an earlier one. *)
Definition child_env (env : list LaunchEnv) : gmap string string :=
  foldl (λ m e, <[e.(LaunchEnv.key) := e.(LaunchEnv.value)]> m) ∅ env.

Lemma child_env_snoc env e :
  child_env (env ++ [e]) = <[e.(LaunchEnv.key) := e.(LaunchEnv.value)]> (child_env env).
Proof. unfold child_env. by rewrite foldl_app. Qed.

Notation keys env := (LaunchEnv.key <$> env).

Lemma child_env_lookup env k v :
  NoDup (keys env) → child_env env !! k = Some v ↔ LaunchEnv.mk k v ∈ env.
Proof.
  induction env as [|[k' v'] env IH] using rev_ind.
  - unfold child_env. simpl. rewrite lookup_empty. set_solver.
  - rewrite child_env_snoc, fmap_app, NoDup_app. simpl. intros (H1 & H2 & _).
    rewrite lookup_insert_Some, (IH H1), elem_of_app, list_elem_of_singleton.
    split; [naive_solver|]. intros [Hin|[= -> ->]]; [|by left]. right. split; [|done].
    intros ->. apply (H2 k); [|set_solver]. by apply (list_elem_of_fmap_2 LaunchEnv.key) in Hin.
Qed.

Lemma upsert_keys env e k :
  k ∈ keys (upsert_launch_env env e) ↔ k = e.(LaunchEnv.key) ∨ k ∈ keys env.
Proof.
  induction env as [|x env IH]; simpl; [set_solver|].
  destruct (String_eqb_spec' (LaunchEnv.key x) (LaunchEnv.key e)); simpl; set_solver.
Qed.

Lemma upsert_nodup env e : NoDup (keys env) → NoDup (keys (upsert_launch_env env e)).
Proof.
  induction env as [|x env IH]; simpl; [intros _; apply NoDup_singleton|].
  rewrite NoDup_cons. intros [Hx Hn].
  destruct (String_eqb_spec' (LaunchEnv.key x) (LaunchEnv.key e)) as [E|E]; simpl; rewrite NoDup_cons.
  - split; [by rewrite <- E|done].
  - rewrite upsert_keys. naive_solver.
Qed.

Lemma upsert_elem env e x :
  NoDup (keys env) →
  x ∈ upsert_launch_env env e ↔ x = e ∨ (x ∈ env ∧ x.(LaunchEnv.key) ≠ e.(LaunchEnv.key)).
Proof.
  induction env as [|y env IH]; simpl; [set_solver|].
  rewrite NoDup_cons. intros [Hy Hn].
  destruct (String_eqb_spec' (LaunchEnv.key y) (LaunchEnv.key e)) as [E|E].
  - rewrite !elem_of_cons. split; [|naive_solver]. intros [->|Hx]; [by left|].
    right. split; [by right|]. intros Ex. apply Hy. rewrite E, <- Ex. by apply list_elem_of_fmap_2.
  - rewrite !elem_of_cons, (IH Hn). naive_solver.
Qed.

(** On an environment without duplicates [upsert_launch_env] is insertion. *)
Lemma upsert_child_env env e :
  NoDup (keys env) →
  child_env (upsert_launch_env env e) = <[e.(LaunchEnv.key) := e.(LaunchEnv.value)]> (child_env env).
Proof.
  intros Hn. apply map_eq. intros k. apply option_eq. intros v.
  rewrite child_env_lookup, upsert_elem, lookup_insert_Some, child_env_lookup by auto using upsert_nodup.
  destruct e as [ke ve]. naive_solver.
Qed.

Lemma elem_upsert_inv env e x : x ∈ upsert_launch_env env e → x = e ∨ x ∈ env.
Proof.
  induction env as [|y env IH]; simpl; [set_solver|].
  destruct (String.eqb _ _); rewrite !elem_of_cons; naive_solver.
Qed.

Lemma is_denied_true k :
  is_denied k = true ↔
  k ∈ CALLER_ENV_DENYLIST ∨ ∃ p r, p ∈ CALLER_ENV_DENYLIST_PREFIXES ∧ k = p +:+ r.
Proof.
  unfold is_denied. case_decide as Hd; [naive_solver|].
  rewrite existsb_exists. split.
  - intros (p & Hp & [r ->]%starts_with_true). right. exists p, r. by rewrite list_elem_of_In.
  - intros [?|(p & r & Hp & ->)]; [done|]. exists p. split; [by apply list_elem_of_In|].
    apply starts_with_true. eauto.
Qed.

(** ** Properties: launchers *)

(** When a request's environment names no key twice, the environment of the runtime's
    process is the requested one with exactly the four identity variables replaced by the
    session id and the runtime kind of the request. When a key is repeated the promise
    fails: only the first entry is replaced and the process sees the last one. *)
Theorem runtime_env_identity `{External} request other :
  (NoDup (keys request.(SpawnRequest.env)) →
   child_env (runtime_env request) =
     <["RTM_RUNTIME_KIND" := RuntimeKind_as_str request.(SpawnRequest.runtime)]>
     (<["RTM_SESSION_ID" := uuid_to_string request.(SpawnRequest.session_id)]>
     (<["HELIOY_RUNTIME" := RuntimeKind_as_str request.(SpawnRequest.runtime)]>
     (<["HELIOY_SESSION_ID" := uuid_to_string request.(SpawnRequest.session_id)]>
      (child_env request.(SpawnRequest.env)))))) ∧
  (request.(SpawnRequest.env) = [LaunchEnv.mk "RTM_SESSION_ID" ""; LaunchEnv.mk "RTM_SESSION_ID" other] →
   child_env (runtime_env request) !! "RTM_SESSION_ID" = Some other).
Proof.
  split.
  - intros Hn. unfold runtime_env. by rewrite !upsert_child_env by auto using upsert_nodup.
  - intros He. unfold runtime_env. rewrite He. reflexivity.
Qed.

Definition sample_request (env : list LaunchEnv) : SpawnRequest :=
  SpawnRequest.mk (mkUuid 7) RuntimeKind.Codex IsolationPolicy.Host None env [] "/work"
    SpawnTarget.Headless false None.

Lemma runtime_env_identity_witness :
  NoDup (keys [LaunchEnv.mk "PATH" "/bin"]) ∧
  child_env (@runtime_env decimal_external (sample_request [LaunchEnv.mk "PATH" "/bin"]))
    !! "RTM_SESSION_ID" = Some "7".
Proof.
  assert (NoDup (keys [LaunchEnv.mk "PATH" "/bin"])) as Hn by apply NoDup_singleton.
  split; [exact Hn|].
  rewrite (proj1 (@runtime_env_identity decimal_external
                    (sample_request [LaunchEnv.mk "PATH" "/bin"]) "") Hn).
  reflexivity.
Defined.

Definition cached (kind : RuntimeKind) (w : Registry) : option (result LauncherError string) :=
  match kind with
  | RuntimeKind.Claude => w.(CLAUDE_PATH)
  | RuntimeKind.Codex => w.(CODEX_PATH)
  | RuntimeKind.Other _ => None
  end.

Lemma upsert_not_nil env e : upsert_launch_env env e ≠ [].
Proof. destruct env as [|x env]; simpl; [done|]. by destruct (String.eqb _ _). Qed.

Lemma runtime_env_not_nil `{External} request : runtime_env request ≠ [].
Proof. apply upsert_not_nil. Qed.

(** [which] runs left: one per runtime whose path is not cached. *)
Definition uncached (w : Registry) : nat :=
  (if w.(CLAUDE_PATH) then 0 else 1) + (if w.(CODEX_PATH) then 0 else 1).

Section launcher_lemmas.
Context `{External} (which : nat → string → WhichOutput).

Lemma launch_spec_run self request (w : Registry) :
  self.(rl_env) = (λ request, mret (runtime_env request)) →
  launch_spec self request w =
  match self.(rl_argv) request w with
  | (Ok argv, w') =>
      (if decide (argv = []) then Err LauncherError.EmptyArgv
       else Ok (LaunchSpec.mk argv (runtime_env request) request.(SpawnRequest.cwd)
                  request.(SpawnRequest.shell_resume)), w')
  | (Err e, w') => (Err e, w')
  end.
Proof.
  intros He. unfold launch_spec, rl_cwd, mbind, M_bind, mret, M_ret, throw. rewrite He.
  destruct (rl_argv self request w) as [[argv|e] w']; [|done]. unfold mret, M_ret.
  cbn [LaunchSpec.argv LaunchSpec.env]. destruct (decide (argv = [])); [done|].
  destruct (decide (runtime_env request = [])) as [E|]; [|done].
  by destruct (runtime_env_not_nil request).
Qed.

Lemma resolved_argv_run get set b w :
  (∀ r w, get (set r w) = Some r) → (∀ r w, lookups (set r w) = lookups w) →
  ∃ c w', resolved_argv which get set b w = ((λ p, [p]) <$> c, w') ∧
          get w' = Some c ∧ (∀ c', get w = Some c' → w' = w ∧ c' = c) ∧
          (get w = None → lookups w' = S (lookups w) ∧
             ∃ r wr, w' = set r wr ∧ CLAUDE_PATH wr = CLAUDE_PATH w ∧ CODEX_PATH wr = CODEX_PATH w).
Proof.
  intros Hgs Hl. unfold resolved_argv, cached_binary, mbind, M_bind.
  destruct (get w) as [c|] eqn:E.
  - exists c, w. destruct c; naive_solver.
  - destruct (resolve_binary which b w) as [r w'] eqn:Er. exists r, (set r w').
    rewrite Hgs, Hl. unfold resolve_binary in Er.
    split_and!; [by destruct r|done|done|]. intros _.
    assert (lookups w' = S (lookups w) ∧ CLAUDE_PATH w' = CLAUDE_PATH w ∧ CODEX_PATH w' = CODEX_PATH w)
      by (repeat case_match; simplify_eq/=; done).
    naive_solver.
Qed.

Lemma dispatch_run request w :
  let '(r, w') := dispatch_launch_spec which request w in
  match request.(SpawnRequest.runtime) with
  | RuntimeKind.Other v => r = Err (LauncherError.NoLauncher v) ∧ w' = w
  | kind =>
      ∃ c, cached kind w' = Some c ∧ (∀ c', cached kind w = Some c' → w' = w ∧ c' = c) ∧
           r = (λ binary, LaunchSpec.mk [binary] (runtime_env request) request.(SpawnRequest.cwd)
                            request.(SpawnRequest.shell_resume)) <$> c
  end ∧
  (lookups w' + uncached w' = lookups w + uncached w).
Proof.
  unfold dispatch_launch_spec, dispatch, mbind, M_bind, lift.
  destruct (SpawnRequest.runtime request) as [| |v]; [| |done].
  all: rewrite launch_spec_run by done; unfold ClaudeLauncher, CodexLauncher, rl_argv.
  - destruct (resolved_argv_run CLAUDE_PATH
                (λ r w, mkRegistry (Some r) w.(CODEX_PATH) w.(lookups)) "claude" w)
      as (c & w' & -> & Hc & Hsome & Hnone); [done..|].
    unfold uncached. simpl. destruct (CLAUDE_PATH w) as [c0|] eqn:E0.
    + destruct (Hsome c0 eq_refl) as [? ?]; subst. rewrite ?E0, ?Hc.
      destruct c; simpl; rewrite ?E0; (split; [|done]);
        (eexists; split_and!; [reflexivity|naive_solver|by simplify_eq]).
    + destruct Hnone as [Hl (r & wr & -> & ? & H2)]; [done|]. simpl in *. rewrite Hl, H2.
      destruct c; (split; [|simpl; destruct (CODEX_PATH w); lia]);
        (eexists; split_and!; [reflexivity|naive_solver|by simplify_eq]).
  - destruct (resolved_argv_run CODEX_PATH
                (λ r w, mkRegistry w.(CLAUDE_PATH) (Some r) w.(lookups)) "codex" w)
      as (c & w' & -> & Hc & Hsome & Hnone); [done..|].
    unfold uncached. simpl. destruct (CODEX_PATH w) as [c0|] eqn:E0.
    + destruct (Hsome c0 eq_refl) as [? ?]; subst. rewrite ?E0, ?Hc.
      destruct c; simpl; rewrite ?E0; (split; [|done]);
        (eexists; split_and!; [reflexivity|naive_solver|by simplify_eq]).
    + destruct Hnone as [Hl (r & wr & -> & H1 & ?)]; [done|]. simpl in *. rewrite Hl, H1.
      destruct c; (split; [|simpl; destruct (CLAUDE_PATH w); lia]);
        (eexists; split_and!; [reflexivity|naive_solver|by simplify_eq]).
Qed.

(** A series of launches, as a long running daemon makes them. *)
Fixpoint launches (requests : list SpawnRequest) (w : Registry)
    : list (result LauncherError LaunchSpec) * Registry :=
  match requests with
  | [] => ([], w)
  | request :: requests =>
      let '(r, w) := dispatch_launch_spec which request w in
      let '(rs, w) := launches requests w in (r :: rs, w)
  end.

Lemma launches_lookups requests w :
  let '(_, w') := launches requests w in lookups w' + uncached w' = lookups w + uncached w.
Proof.
  revert w. induction requests as [|request requests IH]; intros w; simpl; [done|].
  pose proof (dispatch_run request w) as Hd.
  destruct (dispatch_launch_spec which request w) as [r w1]. destruct Hd as [_ Hd].
  pose proof (IH w1) as Hw. destruct (launches requests w1). lia.
Qed.

Lemma dispatch_cached_mono kind request w c :
  cached kind w = Some c → cached kind (dispatch_launch_spec which request w).2 = Some c.
Proof.
  intros Hc. unfold dispatch_launch_spec, dispatch, mbind, M_bind, lift.
  destruct (SpawnRequest.runtime request) as [| |v]; [| |done].
  all: rewrite launch_spec_run by done; unfold ClaudeLauncher, CodexLauncher, rl_argv.
  - destruct (resolved_argv_run CLAUDE_PATH
                (λ r w, mkRegistry (Some r) w.(CODEX_PATH) w.(lookups)) "claude" w)
      as (c1 & w' & -> & H1 & Hsome & Hnone); [done..|].
    assert (cached kind w' = Some c).
    { destruct (CLAUDE_PATH w) as [c0|] eqn:E0; [by destruct (Hsome c0 eq_refl) as [-> _]|].
      destruct Hnone as [_ (r & wr & -> & E1 & E2)]; [done|]. destruct kind; simpl in *; congruence. }
    by destruct c1.
  - destruct (resolved_argv_run CODEX_PATH
                (λ r w, mkRegistry w.(CLAUDE_PATH) (Some r) w.(lookups)) "codex" w)
      as (c1 & w' & -> & H1 & Hsome & Hnone); [done..|].
    assert (cached kind w' = Some c).
    { destruct (CODEX_PATH w) as [c0|] eqn:E0; [by destruct (Hsome c0 eq_refl) as [-> _]|].
      destruct Hnone as [_ (r & wr & -> & E1 & E2)]; [done|]. destruct kind; simpl in *; congruence. }
    by destruct c1.
Qed.

Lemma launches_cached kind requests w c :
  cached kind w = Some c → cached kind (launches requests w).2 = Some c.
Proof.
  revert w. induction requests as [|request requests IH]; intros w Hc; simpl; [done|].
  pose proof (dispatch_cached_mono kind request w c Hc) as H1.
  destruct (dispatch_launch_spec which request w) as [r w1]. simpl in H1.
  pose proof (IH w1 H1) as H2. by destruct (launches requests w1).
Qed.
End launcher_lemmas.

(** Launch specifications over the life of the daemon: a registered runtime gets one
    binary as its argv, its identity environment, and the request's directory and shell; an
    unregistered one is refused without effect. The binary is looked up at most once per
    runtime however many requests follow (the empty argv and environment errors cannot
    occur), and its outcome, a failure included, is the same for every later request. *)
Theorem launches_stable `{External} which requests request w :
  let w1 := (launches which requests w).2 in
  lookups w1 ≤ lookups w + 2 ∧
  let '(r, w2) := dispatch_launch_spec which request w1 in
  match request.(SpawnRequest.runtime) with
  | RuntimeKind.Other v => r = Err (LauncherError.NoLauncher v) ∧ w2 = w1
  | kind =>
      ∃ c, cached kind w2 = Some c ∧
           r = (λ binary, LaunchSpec.mk [binary] (runtime_env request) request.(SpawnRequest.cwd)
                            request.(SpawnRequest.shell_resume)) <$> c ∧
           (∀ c0, cached kind w = Some c0 → c0 = c ∧ w2 = w1)
  end.
Proof.
  simpl. pose proof (launches_lookups which requests w) as Hl.
  pose proof (λ kind c, launches_cached which kind requests w c) as Hc.
  destruct (launches which requests w) as [rs w1]. simpl in *. split.
  - unfold uncached in *. destruct (CLAUDE_PATH w), (CODEX_PATH w), (CLAUDE_PATH w1), (CODEX_PATH w1); lia.
  - pose proof (dispatch_run which request w1) as Hd.
    destruct (dispatch_launch_spec which request w1) as [r w2]. destruct Hd as [Hd _].
    destruct (SpawnRequest.runtime request) as [| |v]; [| |done].
    + destruct Hd as (c & H1 & H2 & ->). exists c. split_and!; [done..|].
      intros c0 H0. apply (Hc RuntimeKind.Claude) in H0. naive_solver.
    + destruct Hd as (c & H1 & H2 & ->). exists c. split_and!; [done..|].
      intros c0 H0. apply (Hc RuntimeKind.Codex) in H0. naive_solver.
Qed.

(** The table of path shaped variables names each key once, every key is a CLAUDE_
    variable, a lookup finds exactly the entry of its key, and the paths of a value are
    never empty and concatenate (with colons, for a list) to the value. *)
Theorem path_shaped_envs_table key value :
  NoDup (PathShapedEnv.key <$> CLAUDE_PATH_SHAPED_ENVS) ∧
  length CLAUDE_PATH_SHAPED_ENVS = 16 ∧
  match claude_path_shaped_env key with
  | Some e =>
      e ∈ CLAUDE_PATH_SHAPED_ENVS ∧ e.(PathShapedEnv.key) = key ∧
      starts_with "CLAUDE_" key = true ∧
      path_values e value ≠ [] ∧ join ":" (path_values e value) = value
  | None => ∀ e, e ∈ CLAUDE_PATH_SHAPED_ENVS → e.(PathShapedEnv.key) ≠ key
  end.
Proof.
  split; [apply (bool_decide_unpack _); vm_compute; done|]. split; [done|].
  unfold claude_path_shaped_env.
  destruct (find _ CLAUDE_PATH_SHAPED_ENVS) as [e|] eqn:E.
  - apply find_some in E as [Hin Heq%String.eqb_eq]. apply list_elem_of_In in Hin.
    split_and!; [done|done| | |].
    + rewrite <- Heq. clear Heq. revert e Hin. apply Forall_forall.
      repeat constructor; vm_compute; done.
    + unfold path_values. case_match; [done|]. case_eqb; [done|]. apply split_on_not_nil.
    + unfold path_values. case_match; [done|]. case_eqb; [done|]. apply join_split_on.
  - intros e Hin%list_elem_of_In Hk. pose proof (find_none _ _ E _ Hin) as Hf. simpl in Hf.
    by rewrite Hk, String.eqb_refl in Hf.
Qed.
