(* ===== verification/Errors.v ===== *)
(** * Daemon errors (crates/rtm-daemon/src/error.rs)

    An [anyhow::Error] is its chain: the contexts, outermost first, down to the root error.
    [Display] prints the head of the chain only. The response code is found by looking for a
    [RuntimeFailure], then for a [LauncherError], anywhere in the chain. *)

From Stdlib Require Import Ascii.
From S2P Require Import Prelude RustStr RustPath Types Parsers Json Launch.
From stdpp Require Import options.

Module RpcErrorContext.
Inductive RpcErrorContext := Spawn | Other.
#[export] Instance RpcErrorContext_eq_dec : EqDecision RpcErrorContext.
Proof. solve_decision. Defined.
End RpcErrorContext.
Export (hints) RpcErrorContext.
Notation RpcErrorContext := RpcErrorContext.RpcErrorContext.

Module RuntimeFailure.
Inductive RuntimeFailure :=
| ProtocolMismatch (message : string)
| SessionAlreadyExists (session_id : Uuid)
| SessionNotFound (session_id : Uuid)
| TmuxPaneDead (address : TmuxAddress)
| DockerUnavailable (message : string)
| DockerImageNotConfigured
| DockerImageUnavailable (message : string)
| DockerImageMetadataUnavailable (message : string)
| UnsupportedIsolationPolicy (policy : string).
End RuntimeFailure.
Notation RuntimeFailure := RuntimeFailure.RuntimeFailure.

Definition failure_code (f : RuntimeFailure) : ErrorCode :=
  match f with
  | RuntimeFailure.ProtocolMismatch _ => ErrorCode.ProtocolMismatch
  | RuntimeFailure.SessionAlreadyExists _ => ErrorCode.InvalidTarget
  | RuntimeFailure.SessionNotFound _ => ErrorCode.SessionNotFound
  | RuntimeFailure.TmuxPaneDead _ => ErrorCode.TmuxPaneDead
  | RuntimeFailure.DockerUnavailable _
  | RuntimeFailure.DockerImageUnavailable _
  | RuntimeFailure.DockerImageMetadataUnavailable _ => ErrorCode.RuntimeUnavailable
  | RuntimeFailure.DockerImageNotConfigured => ErrorCode.DockerImageNotConfigured
  | RuntimeFailure.UnsupportedIsolationPolicy _ => ErrorCode.UnsupportedIsolationPolicy
  end.

Definition display_RuntimeFailure `{External} (f : RuntimeFailure) : string :=
  match f with
  | RuntimeFailure.ProtocolMismatch message => message
  | RuntimeFailure.SessionAlreadyExists session_id =>
      "session " +:+ uuid_to_string session_id +:+ " already exists"
  | RuntimeFailure.SessionNotFound session_id =>
      "session " +:+ uuid_to_string session_id +:+ " not found"
  | RuntimeFailure.TmuxPaneDead address =>
      "tmux address " +:+ display_TmuxAddress address +:+ " is not alive"
  | RuntimeFailure.DockerUnavailable message => "docker daemon is unavailable: " +:+ message
  | RuntimeFailure.DockerImageNotConfigured =>
      "docker image is not configured; pass --image or set RTM_DOCKER_IMAGE before starting the daemon"
  | RuntimeFailure.DockerImageUnavailable message => "docker image is unavailable: " +:+ message
  | RuntimeFailure.DockerImageMetadataUnavailable message =>
      "docker image metadata is unavailable: " +:+ message
  | RuntimeFailure.UnsupportedIsolationPolicy policy =>
      "isolation policy " +:+ policy +:+ " is not supported"
  end.

(** One error of a chain: a context or other message, or one of the two typed errors. *)
Inductive Source :=
| Message (message : string)
| Failure (failure : RuntimeFailure)
| Launcher (error : LauncherError).

(** [anyhow::Error]: the head of the chain and its sources. *)
Record Error := mkError { head_source : Source; sources : list Source }.

Definition chain (e : Error) : list Source := e.(head_source) :: e.(sources).

(** [anyhow!(..)], [bail!(..)] and the conversion of a foreign error. *)
Definition anyhow (message : string) : Error := mkError (Message message) [].
Definition of_failure (f : RuntimeFailure) : Error := mkError (Failure f) [].
Definition of_launcher (e : LauncherError) : Error := mkError (Launcher e) [].

(** [Context::context]. *)
Definition context {A} (message : string) (m : result Error A) : result Error A :=
  map_err (λ e, mkError (Message message) (chain e)) m.

Definition display_Source `{External} (s : Source) : string :=
  match s with
  | Message message => message
  | Failure failure => display_RuntimeFailure failure
  | Launcher error => display_LauncherError error
  end.

(** [error.to_string()]. *)
Definition display_Error `{External} (e : Error) : string := display_Source e.(head_source).

Definition launcher_error_code (e : LauncherError) : ErrorCode :=
  match e with
  | LauncherError.NoLauncher _ | LauncherError.BinaryLookupFailed _ _ => ErrorCode.RuntimeUnavailable
  | LauncherError.EmptyArgv | LauncherError.EmptyEnv _ | LauncherError.EmptyShellArgv =>
      ErrorCode.LaunchFailed
  end.

(** [find_source::<T>]: the first source of the chain with the given type. *)
Fixpoint find_source {A} (f : Source → option A) (l : list Source) : option A :=
  match l with
  | [] => None
  | s :: l => match f s with Some a => Some a | None => find_source f l end
  end.
Definition as_failure (s : Source) : option RuntimeFailure :=
  match s with Failure f => Some f | _ => None end.
Definition as_launcher (s : Source) : option LauncherError :=
  match s with Launcher e => Some e | _ => None end.

Definition rpc_error_code (context : RpcErrorContext) (error : Error) : ErrorCode :=
  match find_source as_failure (chain error) with
  | Some failure => failure_code failure
  | None =>
      match find_source as_launcher (chain error) with
      | Some error => launcher_error_code error
      | None =>
          if decide (context = RpcErrorContext.Spawn) then ErrorCode.LaunchFailed
          else ErrorCode.RuntimeUnavailable
      end
  end.

Module ErrorPayload.
Record ErrorPayload := mk { code : ErrorCode; message : string }.
End ErrorPayload.
Notation ErrorPayload := ErrorPayload.ErrorPayload.

Definition rpc_error_response `{External} (context : RpcErrorContext) (error : Error) : ErrorPayload :=
  ErrorPayload.mk (rpc_error_code context error) (display_Error error).

Definition is_invalid_target_json (message : string) : bool :=
  contains "invalid spawn target" message || contains "invalid tmux pane target" message.

Definition protocol_error_response (error : ProtocolError) : ErrorPayload :=
  let code := match error with
              | ProtocolError.Json message =>
                  if is_invalid_target_json message then ErrorCode.InvalidTarget
                  else ErrorCode.ProtocolMismatch
              | _ => ErrorCode.ProtocolMismatch
              end in
  ErrorPayload.mk code (display_ProtocolError error).

(** ** Theorems *)

(** The code of an error response does not depend on the contexts that were added on
    the way up: a runtime failure decides it, else a launcher error, and only an error with
    neither is answered by where it happened (launch failed for a spawn, runtime
    unavailable elsewhere); the message is the outermost context. *)
Theorem rpc_error_code_stable `{External} ctx contexts f launcher message :
  let wrap root := foldr (λ c m, context c m) (Err root : result Error unit) contexts in
  match wrap (of_failure f), wrap (of_launcher launcher), wrap (anyhow message) with
  | Err e1, Err e2, Err e3 =>
      rpc_error_code ctx e1 = failure_code f ∧
      rpc_error_code ctx e2 = launcher_error_code launcher ∧
      rpc_error_code ctx e3 = match ctx with
                              | RpcErrorContext.Spawn => ErrorCode.LaunchFailed
                              | RpcErrorContext.Other => ErrorCode.RuntimeUnavailable
                              end ∧
      display_Error e1 = default (display_RuntimeFailure f) (head contexts) ∧
      display_Error e3 = default message (head contexts)
  | _, _, _ => False
  end.
Proof.
  assert (∀ root, foldr (λ c m, context c m) (Err root : result Error unit) contexts =
                  Err (match contexts with
                       | [] => root
                       | c :: cs => mkError (Message c) ((Message <$> cs) ++ chain root)
                       end)) as Hw.
  { intros root. induction contexts as [|c cs IH]; simpl; [done|]. rewrite IH.
    by destruct cs. }
  simpl. rewrite !Hw. destruct contexts as [|c cs]; simpl.
  - split_and!; try done. by destruct ctx.
  - assert (∀ {A} (g : Source → option A) l, (∀ s, g (Message s) = None) →
              find_source g ((Message <$> cs) ++ l) = find_source g l) as Hf.
    { intros A g l Hg. clear Hw. induction cs as [|c' cs IH]; simpl; [done|]. by rewrite Hg. }
    unfold rpc_error_code. simpl. rewrite !Hf by done. simpl. split_and!; try done. by destruct ctx.
Qed.
