(* ===== verification/Lifecycles.v ===== *)
(** * Lifecycle state machine (crates/rtm-core/src/types/lifecycle.rs)

    [Lifecycle::forking], [mark_running], [mark_exited] and [mark_lost]: each
    [&mut self] method returns the updated record and its boolean. The step
    relation [transition] is the specification of the state component; the
    methods are proved to implement it. *)

From S2P Require Import Prelude RustStr RustPath Types.
From stdpp Require Import options.

(** ** Display *)

Definition display_RuntimeExit (e : RuntimeExit) : string :=
  match e.(RuntimeExit.code), e.(RuntimeExit.signal) with
  | Some code, _ => "code=" +:+ display_i code
  | None, Some signal => "signal=" +:+ display_i signal
  | None, None => "unknown"
  end.

Definition display_LostEvidence (e : LostEvidence) : string :=
  match e with
  | LostEvidence.ShimDiedBeforeReport => "ShimDiedBeforeReport"
  | LostEvidence.PidNotAlive => "PidNotAlive"
  | LostEvidence.PidReuseDetected => "PidReuseDetected"
  end.

Definition display_LifecycleState (s : LifecycleState) : string :=
  match s with
  | LifecycleState.Forking => "Forking"
  | LifecycleState.Running => "Running"
  | LifecycleState.Exited exit => "Exited(" +:+ display_RuntimeExit exit +:+ ")"
  | LifecycleState.Lost evidence => "Lost(" +:+ display_LostEvidence evidence +:+ ")"
  end.

Definition display_TerminationEvidence (e : TerminationEvidence) : string :=
  match e with
  | TerminationEvidence.ShimExit => "ShimExit"
  | TerminationEvidence.ProcessExit => "ProcessExit"
  | TerminationEvidence.Lost evidence => "Lost(" +:+ display_LostEvidence evidence +:+ ")"
  end.

(** ** Operations *)

Definition forking (session_id : Uuid) (runtime : RuntimeKind) : Lifecycle :=
  {| Lifecycle.session_id := session_id; Lifecycle.runtime := runtime;
     Lifecycle.isolation := IsolationPolicy.Host; Lifecycle.state := LifecycleState.Forking;
     Lifecycle.shim_pid := None; Lifecycle.runtime_pid := None; Lifecycle.start_time := None;
     Lifecycle.tmux_pane := None; Lifecycle.log_availability := None |}.

(** Assignments [self.field = value]. *)
Definition set_state (l : Lifecycle) (s : LifecycleState) : Lifecycle :=
  let '(Lifecycle.mk a b c _ e f g h i) := l in Lifecycle.mk a b c s e f g h i.
Definition set_isolation (l : Lifecycle) (p : IsolationPolicy) : Lifecycle :=
  let '(Lifecycle.mk a b _ d e f g h i) := l in Lifecycle.mk a b p d e f g h i.
Definition set_tmux_pane (l : Lifecycle) (p : option TmuxAddress) : Lifecycle :=
  let '(Lifecycle.mk a b c d e f g _ i) := l in Lifecycle.mk a b c d e f g p i.
Definition set_log_availability (l : Lifecycle) (p : option LogAvailability) : Lifecycle :=
  let '(Lifecycle.mk a b c d e f g h _) := l in Lifecycle.mk a b c d e f g h p.

Definition mark_running (l : Lifecycle) (ready : ShimReady) : Lifecycle * bool :=
  if decide (l.(Lifecycle.state) = LifecycleState.Forking) then
    ({| Lifecycle.session_id := l.(Lifecycle.session_id);
        Lifecycle.runtime := l.(Lifecycle.runtime);
        Lifecycle.isolation := l.(Lifecycle.isolation);
        Lifecycle.state := LifecycleState.Running;
        Lifecycle.shim_pid := Some ready.(ShimReady.shim_pid);
        Lifecycle.runtime_pid := Some ready.(ShimReady.runtime_pid);
        Lifecycle.start_time := Some ready.(ShimReady.start_time);
        Lifecycle.tmux_pane := ready.(ShimReady.tmux_pane);
        Lifecycle.log_availability := l.(Lifecycle.log_availability) |}, true)
  else (l, false).

Definition mark_exited (l : Lifecycle) (exit : RuntimeExit) : Lifecycle * bool :=
  match l.(Lifecycle.state) with
  | LifecycleState.Forking | LifecycleState.Running =>
      (set_state l (LifecycleState.Exited exit), true)
  | LifecycleState.Exited existing =>
      if decide (existing ≠ exit) then (set_state l (LifecycleState.Exited exit), false)
      else (l, false)
  | LifecycleState.Lost _ => (l, false)
  end.

Definition mark_lost (l : Lifecycle) (evidence : LostEvidence) : Lifecycle * bool :=
  match l.(Lifecycle.state) with
  | LifecycleState.Forking | LifecycleState.Running =>
      (set_state l (LifecycleState.Lost evidence), true)
  | LifecycleState.Exited _ | LifecycleState.Lost _ => (l, false)
  end.

(** ** Specification *)

Definition is_terminal_state (s : LifecycleState) : bool :=
  match s with LifecycleState.Exited _ | LifecycleState.Lost _ => true | _ => false end.

(** The lifecycle of a session moves forward only: forking, then running, then
    one of the two terminal states, either of which may also be entered from
    forking. *)
Inductive transition : LifecycleState → LifecycleState → Prop :=
| t_running : transition LifecycleState.Forking LifecycleState.Running
| t_exited s e : is_terminal_state s = false → transition s (LifecycleState.Exited e)
| t_lost s e : is_terminal_state s = false → transition s (LifecycleState.Lost e).

Inductive op := MarkRunning (r : ShimReady) | MarkExited (e : RuntimeExit) | MarkLost (e : LostEvidence).

Definition apply_op (l : Lifecycle) (o : op) : Lifecycle * bool :=
  match o with
  | MarkRunning r => mark_running l r
  | MarkExited e => mark_exited l e
  | MarkLost e => mark_lost l e
  end.

(** The record that is written back: the callers persist the mutated copy only
    when the method returned [true]. *)
Definition persist_op (l : Lifecycle) (o : op) : Lifecycle :=
  let '(l', changed) := apply_op l o in if changed then l' else l.

(** A record of a running process knows its pids and start time. *)
Definition lifecycle_wf (l : Lifecycle) : Prop :=
  match l.(Lifecycle.state) with
  | LifecycleState.Forking =>
      l.(Lifecycle.shim_pid) = None ∧ l.(Lifecycle.runtime_pid) = None ∧ l.(Lifecycle.start_time) = None
  | LifecycleState.Running =>
      is_Some l.(Lifecycle.shim_pid) ∧ is_Some l.(Lifecycle.runtime_pid) ∧ is_Some l.(Lifecycle.start_time)
  | _ => True
  end.

(** ** Theorems *)

Lemma set_state_state l s : (set_state l s).(Lifecycle.state) = s.
Proof. by destruct l. Qed.
Lemma set_state_session l s : (set_state l s).(Lifecycle.session_id) = l.(Lifecycle.session_id).
Proof. by destruct l. Qed.
#[export] Hint Rewrite set_state_state set_state_session : rtm.

Lemma mark_running_true l r l' :
  mark_running l r = (l', true) →
  l.(Lifecycle.state) = LifecycleState.Forking ∧ l'.(Lifecycle.state) = LifecycleState.Running.
Proof. unfold mark_running. case_decide; naive_solver. Qed.

Lemma mark_exited_true l e l' :
  mark_exited l e = (l', true) →
  is_terminal_state l.(Lifecycle.state) = false ∧ l' = set_state l (LifecycleState.Exited e).
Proof. unfold mark_exited. repeat case_match; naive_solver. Qed.

Lemma mark_lost_true l e l' :
  mark_lost l e = (l', true) →
  is_terminal_state l.(Lifecycle.state) = false ∧ l' = set_state l (LifecycleState.Lost e).
Proof. unfold mark_lost. repeat case_match; naive_solver. Qed.

Lemma apply_op_session l o : (apply_op l o).1.(Lifecycle.session_id) = l.(Lifecycle.session_id).
Proof.
  destruct o; simpl; unfold mark_running, mark_exited, mark_lost;
    repeat case_match; simpl; autorewrite with rtm; done.
Qed.

Lemma apply_op_true l o l' :
  apply_op l o = (l', true) → transition l.(Lifecycle.state) l'.(Lifecycle.state).
Proof.
  destruct o; simpl.
  - intros [H1 H2]%mark_running_true. rewrite H1, H2. constructor.
  - intros [H1 ->]%mark_exited_true. autorewrite with rtm. by constructor.
  - intros [H1 ->]%mark_lost_true. autorewrite with rtm. by constructor.
Qed.

(** Each of [mark_running], [mark_exited] and [mark_lost] returns true exactly when its
    transition is allowed (running only from forking, a terminal state from any state that
    is not terminal), and then the new state is the requested one and the session is the
    same; when it returns false the record is unchanged, except that [mark_exited] with a
    different exit overwrites the exit of a record that is already exited. *)
Theorem marks_implement_transition l o :
  let '(l', changed) := apply_op l o in
  l'.(Lifecycle.session_id) = l.(Lifecycle.session_id) ∧
  (changed = true ↔ match o with
                    | MarkRunning _ => l.(Lifecycle.state) = LifecycleState.Forking
                    | _ => is_terminal_state l.(Lifecycle.state) = false
                    end) ∧
  (if changed then
     transition l.(Lifecycle.state) l'.(Lifecycle.state) ∧
     l'.(Lifecycle.state) = match o with
                            | MarkRunning _ => LifecycleState.Running
                            | MarkExited e => LifecycleState.Exited e
                            | MarkLost e => LifecycleState.Lost e
                            end
   else l' = l ∨ ∃ old e, o = MarkExited e ∧ l.(Lifecycle.state) = LifecycleState.Exited old ∧
                          old ≠ e ∧ l' = set_state l (LifecycleState.Exited e)).
Proof.
  destruct (apply_op l o) as [l' changed] eqn:E.
  split; [by rewrite <- (apply_op_session l o), E|].
  split.
  - destruct o; simpl in E; unfold mark_running, mark_exited, mark_lost in E;
      repeat case_match; simplify_eq/=; naive_solver.
  - destruct changed; [split; [by eapply apply_op_true|]|];
      destruct o; simpl in E; unfold mark_running, mark_exited, mark_lost in E;
      repeat case_match; simplify_eq/=; autorewrite with rtm; naive_solver.
Qed.

Lemma persist_op_step l o :
  persist_op l o = l ∨ transition l.(Lifecycle.state) (persist_op l o).(Lifecycle.state).
Proof.
  unfold persist_op. destruct (apply_op l o) as [l' [|]] eqn:E; [|by left].
  right. by eapply apply_op_true.
Qed.

Lemma terminal_no_transition s s' : transition s s' → is_terminal_state s = false.
Proof. by inversion 1. Qed.

Lemma persist_op_terminal l o :
  is_terminal_state l.(Lifecycle.state) = true → persist_op l o = l.
Proof.
  intros Ht. destruct (persist_op_step l o) as [?|H%terminal_no_transition]; [done|congruence].
Qed.

Lemma persist_op_wf l o : lifecycle_wf l → lifecycle_wf (persist_op l o).
Proof.
  destruct l as [sid rt iso st sp rp t pane la].
  destruct o; unfold persist_op, apply_op, mark_running, mark_exited, mark_lost; simpl;
    repeat case_match; simplify_eq/=; unfold lifecycle_wf; simpl; eauto 10.
Qed.


