(* ===== verification/Interfaces.v ===== *)
(** * What the daemon's core asks of its lifecycle store and its event log

    The coordinators of crates/rtm-daemon/src/server are verified against the two classes of
    this file. [LifecycleStore] has the methods of the store as operations on its world and
    [StoreSpec] their specification over a finite map from sessions to lifecycles; Store.v
    discharges it for the SQL tables. [EventSink] is the event log's append and read, and
    [EventSpec] its specification over the history of events; LogSink.v discharges it for
    the log of EventLog.v. *)

From S2P Require Import Prelude RustStr RustPath Types Parsers Errors Lifecycles.
From stdpp Require Import options.

(** ** The lifecycle store *)

Class LifecycleStore (W : Type) := {
  insert_forking : Lifecycle → M W Error unit;
  update_lifecycle : Lifecycle → M W Error unit;
  delete : Uuid → M W Error unit;
  get : Uuid → M W Error (option Lifecycle);
  list_lifecycles : StatusFilter → M W Error (list Lifecycle);
  running : M W Error (list Lifecycle);
  running_tmux_occupant : TmuxAddress → M W Error (option Lifecycle);
  record_probe_sweep : DateTime → M W Error unit;
}.

(** The reads of the store that only the diagnostics use. *)
Class StoreDiagnostics (W : Type) := {
  lifecycle_counts : M W Error LifecycleCounts;
  recent_lost_since : DateTime → M W Error (list RecentLostEvent);
  last_probe_sweep : M W Error (option DateTime);
  migration_state : M W Error MigrationState;
}.

(** What the store's columns can hold of a record: the texts of its runtime, isolation and
    pane parse back, its integers fit. *)
Definition state_fits (s : LifecycleState) : Prop :=
  match s with
  | LifecycleState.Exited e =>
      match e.(RuntimeExit.code) with Some z => i32_ok z | None => True end ∧
      match e.(RuntimeExit.signal) with Some z => i32_ok z | None => True end
  | _ => True
  end.

Definition pid_fits (o : option N) : Prop := match o with Some n => u32_ok n | None => True end.
Definition pane_fits (o : option TmuxAddress) : Prop :=
  match o with Some a => tmux_address_ok a | None => True end.

Definition runtime_fits (r : RuntimeKind) : Prop :=
  RuntimeKind_from_str (RuntimeKind_as_str r) = Ok r.
Definition isolation_fits (p : IsolationPolicy) : Prop :=
  p ≠ IsolationPolicy.Docker (IsolationProfile.mk (Some "")).

Definition storable (l : Lifecycle) : Prop :=
  runtime_fits l.(Lifecycle.runtime) ∧ isolation_fits l.(Lifecycle.isolation) ∧
  state_fits l.(Lifecycle.state) ∧ pid_fits l.(Lifecycle.shim_pid) ∧
  pid_fits l.(Lifecycle.runtime_pid) ∧ pane_fits l.(Lifecycle.tmux_pane).

(** The log availability is computed when a status is read and is not stored. *)
Definition stored (l : Lifecycle) : Lifecycle := set_log_availability l None.

Notation Sessions := (gmap Uuid Lifecycle).

Definition is_running (l : Lifecycle) : bool :=
  bool_decide (l.(Lifecycle.state) = LifecycleState.Running).

Definition occupies (a : TmuxAddress) (l : Lifecycle) : Prop :=
  is_running l = true ∧ l.(Lifecycle.tmux_pane) = Some a.

(** Keys and records agree, and records are storable. *)
Definition sessions_ok (s : Sessions) : Prop :=
  ∀ u l, s !! u = Some l → l.(Lifecycle.session_id) = u ∧ storable l ∧ stored l = l.

Class StoreSpec (W : Type) `{LifecycleStore W} := {
  store_repr : Sessions → W → Prop;
  (** some call to the database failed *)
  store_failed : Prop;
  store_repr_ok s w : store_repr s w → sessions_ok s;
  insert_forking_spec s l :
    storable l →
    hoare (store_repr s) (insert_forking l)
      (λ _ w, l.(Lifecycle.state) = LifecycleState.Forking ∧
              s !! l.(Lifecycle.session_id) = None ∧
              store_repr (<[l.(Lifecycle.session_id) := stored l]> s) w)
      (λ _ w, store_repr s w ∧
              (store_failed ∨ l.(Lifecycle.state) ≠ LifecycleState.Forking ∨
               is_Some (s !! l.(Lifecycle.session_id))));
  update_lifecycle_spec s l :
    storable l →
    hoare (store_repr s) (update_lifecycle l)
      (λ _ w, is_Some (s !! l.(Lifecycle.session_id)) ∧
              store_repr (<[l.(Lifecycle.session_id) := stored l]> s) w)
      (λ _ w, store_repr s w ∧ (store_failed ∨ s !! l.(Lifecycle.session_id) = None));
  delete_spec s u :
    hoare (store_repr s) (delete u)
      (λ _ w, store_repr (base.delete u s) w) (λ _ w, store_repr s w ∧ store_failed);
  get_spec s u :
    hoare (store_repr s) (get u)
      (λ o w, o = s !! u ∧ store_repr s w) (λ _ w, store_repr s w ∧ store_failed);
  running_spec s :
    hoare (store_repr s) running
      (λ ls w, store_repr s w ∧ NoDup ls ∧
               ∀ l, l ∈ ls ↔ s !! l.(Lifecycle.session_id) = Some l ∧ is_running l = true)
      (λ _ w, store_repr s w ∧ store_failed);
  running_tmux_occupant_spec s a :
    tmux_address_ok a →
    hoare (store_repr s) (running_tmux_occupant a)
      (λ o w, store_repr s w ∧
              match o with
              | Some l => s !! l.(Lifecycle.session_id) = Some l ∧ occupies a l
              | None => ∀ u l, s !! u = Some l → ¬ occupies a l
              end)
      (λ _ w, store_repr s w ∧ store_failed);
  record_probe_sweep_spec s t :
    hoare (store_repr s) (record_probe_sweep t) (λ _ w, store_repr s w)
      (λ _ w, store_repr s w ∧ store_failed);
}.

(** What holds of the store without any condition on the records it is given: the record
    found under a session is of that session. *)
Class StoreKeys (W : Type) `{LifecycleStore W, StoreDiagnostics W} := {
  keyed : W → Prop;
  keyed_get u :
    hoare keyed (get u) (λ o w, keyed w ∧ ∀ l, o = Some l → l.(Lifecycle.session_id) = u) (λ _, keyed);
  keyed_insert_forking l : preserves keyed (insert_forking l);
  keyed_update_lifecycle l : preserves keyed (update_lifecycle l);
  keyed_delete u : preserves keyed (delete u);
  keyed_list filter : preserves keyed (list_lifecycles filter);
  keyed_running : preserves keyed running;
  keyed_running_tmux_occupant a : preserves keyed (running_tmux_occupant a);
  keyed_record_probe_sweep t : preserves keyed (record_probe_sweep t);
  keyed_lifecycle_counts : preserves keyed lifecycle_counts;
  keyed_recent_lost_since t : preserves keyed (recent_lost_since t);
  keyed_last_probe_sweep : preserves keyed last_probe_sweep;
  keyed_migration_state : preserves keyed migration_state;
}.

(** What the store keeps of one session, and that only the writes of that session change it.
    [decoded] is what reading it gives: [None] when there is no record. *)
Class StoreRecords (W : Type) `{LifecycleStore W, StoreDiagnostics W, !StoreKeys W} := {
  Stored : Type;
  decoded : Stored → result Error (option Lifecycle);
  record_of : Uuid → W → Stored;
  (** some call to the database failed *)
  records_failed : Prop;
  kept_get u r :
    hoare (λ w, record_of u w = r) (get u) (λ o w, record_of u w = r ∧ decoded r = Ok o)
      (λ _ w, record_of u w = r ∧ (records_failed ∨ ∀ o, decoded r ≠ Ok o));
  written_update_lifecycle l l0 r :
    storable l → decoded r = Ok (Some l0) →
    hoare (λ w, record_of l.(Lifecycle.session_id) w = r) (update_lifecycle l)
      (λ _ w, decoded (record_of l.(Lifecycle.session_id) w) = Ok (Some (stored l)))
      (λ _ w, record_of l.(Lifecycle.session_id) w = r ∧ records_failed);
  kept_running u r :
    hoare (λ w, keyed w ∧ record_of u w = r) running
      (λ ls w, record_of u w = r ∧
               ∀ l, l ∈ ls → l.(Lifecycle.session_id) = u → decoded r = Ok (Some l) ∧ is_running l = true)
      (λ _ w, record_of u w = r);
  kept_insert_forking u r l :
    l.(Lifecycle.session_id) ≠ u → preserves (λ w, record_of u w = r) (insert_forking l);
  kept_update_lifecycle u r l :
    l.(Lifecycle.session_id) ≠ u → preserves (λ w, record_of u w = r) (update_lifecycle l);
  kept_delete u r v : v ≠ u → preserves (λ w, record_of u w = r) (delete v);
  kept_get_any u r v : preserves (λ w, record_of u w = r) (get v);
  kept_list u r filter : preserves (λ w, record_of u w = r) (list_lifecycles filter);
  kept_running_tmux_occupant u r a : preserves (λ w, record_of u w = r) (running_tmux_occupant a);
  kept_record_probe_sweep u r t : preserves (λ w, record_of u w = r) (record_probe_sweep t);
  kept_lifecycle_counts u r : preserves (λ w, record_of u w = r) lifecycle_counts;
  kept_recent_lost_since u r t : preserves (λ w, record_of u w = r) (recent_lost_since t);
  kept_last_probe_sweep u r : preserves (λ w, record_of u w = r) last_probe_sweep;
  kept_migration_state u r : preserves (λ w, record_of u w = r) migration_state;
}.

(** ** The event log *)

(** [events_page] is one read under the lock: the events after a cursor and the new cursor,
    or the oldest cursor that is still valid. *)
Class EventSink (W : Type) := {
  append_event : RuntimeEvent → M W Error RuntimeEvent;
  events_page : option N → W → result N (list RuntimeEvent * N);
}.

(** [event_repr h w]: the log shows no events but those of the history [h], in that order
    and each once. An append adds its event to the history; when it fails the log may miss
    that event, or older ones. [event_all h w]: the log stands for the history [h] exactly
    (a reader that keeps up gets all of it); only a failure of the log's own calls can end
    that. *)
Class EventSpec (W : Type) `{EventSink W} := {
  event_repr : list RuntimeEvent → W → Prop;
  event_all : list RuntimeEvent → W → Prop;
  sink_failed : Prop;
  event_fits : RuntimeEvent → Prop;
  event_room : list RuntimeEvent → Prop;
  event_all_repr h w : event_all h w → event_repr h w;
  event_repr_mono h h' w : event_repr h w → event_repr (h ++ h') w;
  append_event_spec h e :
    hoare (event_repr h) (append_event e)
      (λ e' w, e' = e ∧ event_repr (h ++ [e]) w) (λ _ w, event_repr (h ++ [e]) w);
  append_event_all h e :
    event_fits e → event_room h →
    hoare (event_all h) (append_event e)
      (λ e' w, e' = e ∧ event_all (h ++ [e]) w) (λ _ _, sink_failed);
  events_page_spec h w (c : nat) :
    event_all h w → c ≤ length h →
    match events_page (Some (N.of_nat c)) w with
    | Ok page => page = (drop c h, N.of_nat (length h))
    | Err oldest => (N.of_nat c < oldest ≤ N.of_nat (length h))%N
    end;
  events_page_none w : events_page None w = events_page (Some 0%N) w;
}.

(** ** Facts about storable records *)

Lemma stored_idem l : stored (stored l) = stored l.
Proof. by destruct l. Qed.
Lemma stored_session l : (stored l).(Lifecycle.session_id) = l.(Lifecycle.session_id).
Proof. by destruct l. Qed.
Lemma stored_state l : (stored l).(Lifecycle.state) = l.(Lifecycle.state).
Proof. by destruct l. Qed.
Lemma stored_storable l : storable l → storable (stored l).
Proof. by destruct l. Qed.
Lemma storable_set_state l s : storable l → state_fits s → storable (set_state l s).
Proof. destruct l. unfold storable. simpl. naive_solver. Qed.
Lemma stored_set_state l s : stored (set_state l s) = set_state (stored l) s.
Proof. by destruct l. Qed.
#[export] Hint Rewrite stored_idem stored_session stored_state stored_set_state : rtm.
#[export] Hint Resolve stored_storable storable_set_state : rtm.

Lemma sessions_ok_insert s l :
  sessions_ok s → storable l → sessions_ok (<[l.(Lifecycle.session_id) := stored l]> s).
Proof.
  intros Hs Hl u l' [[<- <-]|[_ Hu]]%lookup_insert_Some; [|by apply Hs].
  autorewrite with rtm. auto with rtm.
Qed.

Lemma sessions_ok_delete s u : sessions_ok s → sessions_ok (base.delete u s).
Proof. intros Hs v l [_ Hl]%lookup_delete_Some. by apply Hs. Qed.
