(* ===== verification/Store.v ===== *)
(** * SQLite lifecycle store (crates/rtm-store/src/sqlite)

    codec.rs: the row of a lifecycle and back. lifecycle.rs: the statements, over a table
    that is a finite map from the primary key to rows ([ORDER BY] is a stable sort; rows that
    compare equal come in key order, which SQL leaves open). A statement fails or takes
    effect as a whole; which ones fail and the times of [Utc::now] come from an oracle. *)

From Stdlib Require Import Ascii.
From S2P Require Import Prelude RustStr RustPath Types Parsers Json Launch Errors Lifecycles.
From S2P Require Import Interfaces.
From stdpp Require Import options.

(** ** codec.rs *)

Module LifecycleRow.
Record LifecycleRow := mk {
  session_id : string;
  runtime : string;
  isolation : string;
  state : string;
  shim_pid : option Z;
  runtime_pid : option Z;
  start_time : option string;
  tmux_pane : option string;
  exit_code : option Z;
  exit_signal : option Z;
  lost_evidence : option string;
  spawned_at : string;
  updated_at : string }.
End LifecycleRow.
Notation LifecycleRow := LifecycleRow.LifecycleRow.

Section codec.
Context `{External, Json}.

Definition encode_tmux_pane (tmux_pane : option TmuxAddress) : option string :=
  (λ a, json_to_string (Str (display_TmuxAddress a))) <$> tmux_pane.

(** [Deserialize for TmuxAddress] on a JSON text. *)
Definition tmux_pane_from_json (value : string) : result string TmuxAddress :=
  v ← json_from_str value; s ← string_from_value v; TmuxAddress_from_str s.

Definition decode_tmux_pane (tmux_pane : option string) : result Error (option TmuxAddress) :=
  context "invalid stored tmux pane"
    (transpose ((λ value,
       match tmux_pane_from_json value with
       | Ok pane => Ok pane
       | Err _ => map_err (λ v, anyhow ("invalid tmux pane target " +:+ v)) (TmuxAddress_from_str value)
       end) <$> tmux_pane)).

Definition encode_lost (evidence : LostEvidence) : string := display_LostEvidence evidence.

Definition encode_state (state : LifecycleState)
    : string * option Z * option Z * option string :=
  match state with
  | LifecycleState.Forking => ("Forking", None, None, None)
  | LifecycleState.Running => ("Running", None, None, None)
  | LifecycleState.Exited exit => ("Exited", exit.(RuntimeExit.code), exit.(RuntimeExit.signal), None)
  | LifecycleState.Lost evidence => ("Lost", None, None, Some (encode_lost evidence))
  end.

Definition decode_lost (value : option string) : result Error LostEvidence :=
  match value with
  | None => Err (anyhow "lost lifecycle missing evidence")
  | Some value =>
      if String.eqb value "ShimDiedBeforeReport" then Ok LostEvidence.ShimDiedBeforeReport
      else if String.eqb value "PidNotAlive" then Ok LostEvidence.PidNotAlive
      else if String.eqb value "PidReuseDetected" then Ok LostEvidence.PidReuseDetected
      else Err (anyhow ("unknown lost evidence " +:+ value))
  end.

Definition decode_range (min max : Z) (field : string) (value : Z) : result Error Z :=
  if decide (min ≤ value ≤ max)%Z then Ok value
  else context (field +:+ " out of range")
         (Err (anyhow "out of range integral type conversion attempted")).

Definition decode_u32 (value : option Z) (field : string) : result Error (option N) :=
  transpose ((λ inner, Z.to_N <$> decode_range 0 (Z.of_N u32_max) field inner) <$> value).

Definition decode_i32 (value : option Z) (field : string) : result Error (option Z) :=
  transpose ((decode_range i32_min i32_max field) <$> value).

Definition parse_time (value : string) : result Error DateTime :=
  map_err anyhow (parse_from_rfc3339 value).

Definition decode_state (row : LifecycleRow) : result Error LifecycleState :=
  let state := row.(LifecycleRow.state) in
  if String.eqb state "Forking" then Ok LifecycleState.Forking
  else if String.eqb state "Running" then Ok LifecycleState.Running
  else if String.eqb state "Exited" then
    code ← decode_i32 row.(LifecycleRow.exit_code) "exit_code";
    signal ← decode_i32 row.(LifecycleRow.exit_signal) "exit_signal";
    Ok (LifecycleState.Exited (RuntimeExit.mk code signal))
  else if String.eqb state "Lost" then
    e ← decode_lost row.(LifecycleRow.lost_evidence); Ok (LifecycleState.Lost e)
  else Err (anyhow ("unknown lifecycle state " +:+ state)).

(** [EncodedLifecycle::from_lifecycle]; [spawned_at] is [now] for an insertion and is not
    written by an update. *)
Definition from_lifecycle (lifecycle : Lifecycle) (spawned_at now : string) : LifecycleRow :=
  let '(state, exit_code, exit_signal, lost_evidence) :=
    encode_state lifecycle.(Lifecycle.state) in
  {| LifecycleRow.session_id := uuid_to_string lifecycle.(Lifecycle.session_id);
     LifecycleRow.runtime := RuntimeKind_as_str lifecycle.(Lifecycle.runtime);
     LifecycleRow.isolation := display_IsolationPolicy lifecycle.(Lifecycle.isolation);
     LifecycleRow.state := state;
     LifecycleRow.shim_pid := Z.of_N <$> lifecycle.(Lifecycle.shim_pid);
     LifecycleRow.runtime_pid := Z.of_N <$> lifecycle.(Lifecycle.runtime_pid);
     LifecycleRow.start_time := to_rfc3339 <$> lifecycle.(Lifecycle.start_time);
     LifecycleRow.tmux_pane := encode_tmux_pane lifecycle.(Lifecycle.tmux_pane);
     LifecycleRow.exit_code := exit_code;
     LifecycleRow.exit_signal := exit_signal;
     LifecycleRow.lost_evidence := lost_evidence;
     LifecycleRow.spawned_at := spawned_at;
     LifecycleRow.updated_at := now |}.

(** [TryFrom<LifecycleRow> for Lifecycle]. *)
Definition try_from_row (row : LifecycleRow) : result Error Lifecycle :=
  session_id ← map_err anyhow (uuid_parse_str row.(LifecycleRow.session_id));
  runtime ← map_err (λ v, anyhow ("unsupported runtime kind: " +:+ v))
              (RuntimeKind_from_str row.(LifecycleRow.runtime));
  isolation ← map_err (λ v, anyhow ("invalid isolation policy " +:+ v +:+
                                    "; expected host, docker, or docker:PROFILE"))
                (IsolationPolicy_from_str row.(LifecycleRow.isolation));
  state ← decode_state row;
  shim_pid ← decode_u32 row.(LifecycleRow.shim_pid) "shim_pid";
  runtime_pid ← decode_u32 row.(LifecycleRow.runtime_pid) "runtime_pid";
  start_time ← transpose (parse_time <$> row.(LifecycleRow.start_time));
  tmux_pane ← decode_tmux_pane row.(LifecycleRow.tmux_pane);
  Ok (Lifecycle.mk session_id runtime isolation state shim_pid runtime_pid start_time tmux_pane None).

(** [TryFrom<RecentLostRow> for RecentLostEvent]. *)
Definition recent_lost_of_row (row : LifecycleRow) : result Error RecentLostEvent :=
  session_id ← map_err anyhow (uuid_parse_str row.(LifecycleRow.session_id));
  evidence ← decode_lost row.(LifecycleRow.lost_evidence);
  occurred_at ← parse_time row.(LifecycleRow.updated_at);
  Ok (RecentLostEvent.mk session_id evidence occurred_at).

Lemma decode_u32_of_N (o : option N) f : pid_fits o → decode_u32 (Z.of_N <$> o) f = Ok o.
Proof.
  destruct o as [n|]; [|done]. simpl. unfold u32_ok, decode_u32, decode_range. intros Hn. simpl.
  rewrite decide_True by (unfold u32_max in *; lia). simpl. by rewrite N2Z.id.
Qed.

Lemma decode_i32_of_Z (o : option Z) f :
  match o with Some z => i32_ok z | None => True end → decode_i32 o f = Ok o.
Proof.
  destruct o as [z|]; [|done]. unfold i32_ok, decode_i32, decode_range. intros Hz. simpl.
  by rewrite decide_True.
Qed.

Lemma decode_encode_pane o : pane_fits o → decode_tmux_pane (encode_tmux_pane o) = Ok o.
Proof.
  destruct o as [a|]; [|done]. intros Ha. unfold decode_tmux_pane, encode_tmux_pane. simpl.
  unfold tmux_pane_from_json. rewrite json_parse_print by done. simpl.
  by rewrite TmuxAddress_roundtrip.
Qed.

Lemma decode_encode_state l sp now :
  state_fits l.(Lifecycle.state) → decode_state (from_lifecycle l sp now) = Ok l.(Lifecycle.state).
Proof.
  intros Hs. unfold from_lifecycle. destruct (Lifecycle.state l) as [| |[c s]|[]] eqn:E; try done.
  destruct Hs as [Hc Hsg]. unfold decode_state. simpl in *.
  rewrite decode_i32_of_Z by done. simpl. by rewrite decode_i32_of_Z.
Qed.

Lemma from_lifecycle_fields l sp now :
  let row := from_lifecycle l sp now in
  row.(LifecycleRow.session_id) = uuid_to_string l.(Lifecycle.session_id) ∧
  row.(LifecycleRow.runtime) = RuntimeKind_as_str l.(Lifecycle.runtime) ∧
  row.(LifecycleRow.isolation) = display_IsolationPolicy l.(Lifecycle.isolation) ∧
  row.(LifecycleRow.shim_pid) = Z.of_N <$> l.(Lifecycle.shim_pid) ∧
  row.(LifecycleRow.runtime_pid) = Z.of_N <$> l.(Lifecycle.runtime_pid) ∧
  row.(LifecycleRow.start_time) = to_rfc3339 <$> l.(Lifecycle.start_time) ∧
  row.(LifecycleRow.tmux_pane) = encode_tmux_pane l.(Lifecycle.tmux_pane) ∧
  row.(LifecycleRow.state) = (encode_state l.(Lifecycle.state)).1.1.1.
Proof. unfold from_lifecycle. by destruct (encode_state _) as [[[? ?] ?] ?]. Qed.

Lemma codec_roundtrip l sp now :
  storable l → try_from_row (from_lifecycle l sp now) = Ok (stored l).
Proof.
  intros (Hr & Hi & Hst & Hsp & Hrp & Hp).
  destruct (from_lifecycle_fields l sp now) as (E1 & E2 & E3 & E4 & E5 & E6 & E7 & _).
  unfold try_from_row. rewrite decode_encode_state by done. rewrite E1, E2, E3, E4, E5, E6, E7.
  rewrite uuid_parse_to_string. simpl. rewrite Hr. simpl. rewrite IsolationPolicy_roundtrip by done.
  simpl. rewrite !decode_u32_of_N by done. simpl.
  assert (transpose (parse_time <$> (to_rfc3339 <$> Lifecycle.start_time l)) =
          Ok (Lifecycle.start_time l)) as ->.
  { destruct (Lifecycle.start_time l); simpl; [|done]. unfold parse_time. by rewrite parse_to_rfc3339. }
  simpl. rewrite decode_encode_pane by done. simpl. by destruct l.
Qed.
End codec.

(** ** lifecycle.rs *)

Record Db := mkDb {
  lifecycle : gmap string LifecycleRow;
  rtm_metadata : gmap string (string * string);
  db_tick : nat }.

(** Which statements fail, and the readings of the clock. *)
Record DbIo := mkDbIo { db_fault : nat → bool; utc_now : nat → DateTime }.

Definition LAST_PROBE_SWEEP_KEY : string := "last_probe_sweep_at".

(** [LOWER] of SQL: ASCII letters only. *)
Definition ascii_lower (a : ascii) : ascii :=
  if bool_decide (65 ≤ N_of_ascii a ∧ N_of_ascii a ≤ 90)%N then ascii_of_N (N_of_ascii a + 32) else a.
Fixpoint LOWER (s : string) : string :=
  match s with EmptyString => EmptyString | String a s => String (ascii_lower a) (LOWER s) end.

(** The rows of a query, in the order of the text key [f] (and of the primary key). *)
Definition order_by (f : LifecycleRow → string) (rows : list LifecycleRow) : list LifecycleRow :=
  merge_sort (λ a b, text_le (f a) (f b)) rows.

Definition table (db : Db) : list LifecycleRow :=
  order_by LifecycleRow.session_id (snd <$> map_to_list db.(lifecycle)).

Definition set_lifecycle (m : gmap string LifecycleRow) (db : Db) : Db :=
  mkDb m db.(rtm_metadata) db.(db_tick).

Section store.
Context `{External, Json}.
Variable io : DbIo.

Notation DbM := (M Db Error).

(** Runs a statement: the next tick, then its effect or the error with its context. *)
Definition statement {A} (message : string) (run : Db → result Error A * Db) : DbM A := λ db,
  let db' := mkDb db.(lifecycle) db.(rtm_metadata) (S db.(db_tick)) in
  if io.(db_fault) db.(db_tick) then (context message (Err (anyhow "database error")), db')
  else run db'.

Definition Utc_now : DbM DateTime := λ db,
  (Ok (io.(utc_now) db.(db_tick)),
   mkDb db.(lifecycle) db.(rtm_metadata) (S db.(db_tick))).

Definition store_insert_forking (l : Lifecycle) : DbM unit :=
  if negb (bool_decide (l.(Lifecycle.state) = LifecycleState.Forking)) then
    throw (anyhow "insert_forking requires Forking lifecycle state")
  else
  time ← Utc_now;
  let now := to_rfc3339 time in
  let row := from_lifecycle l now now in
  let message := "failed to insert lifecycle " +:+ uuid_to_string l.(Lifecycle.session_id) in
  statement message (λ db,
    match db.(lifecycle) !! row.(LifecycleRow.session_id) with
    | Some _ => (context message (Err (anyhow "UNIQUE constraint failed: lifecycle.session_id")), db)
    | None => (Ok tt, set_lifecycle (<[row.(LifecycleRow.session_id) := row]> db.(lifecycle)) db)
    end).

Definition store_update_lifecycle (l : Lifecycle) : DbM unit :=
  time ← Utc_now;
  let key := uuid_to_string l.(Lifecycle.session_id) in
  rows_affected ← statement ("failed to update lifecycle " +:+ key) (λ db,
    match db.(lifecycle) !! key with
    | Some old =>
        (Ok 1, set_lifecycle
                 (<[key := from_lifecycle l old.(LifecycleRow.spawned_at) (to_rfc3339 time)]>
                    db.(lifecycle)) db)
    | None => (Ok 0, db)
    end);
  if decide (rows_affected = 0) then throw (anyhow ("session " +:+ key +:+ " not found"))
  else mret tt.

Definition store_delete (session_id : Uuid) : DbM unit :=
  let key := uuid_to_string session_id in
  statement ("failed to delete lifecycle " +:+ key)
    (λ db, (Ok tt, set_lifecycle (base.delete key db.(lifecycle)) db)).

Definition store_get (session_id : Uuid) : DbM (option Lifecycle) :=
  let key := uuid_to_string session_id in
  row ← statement ("failed to fetch lifecycle " +:+ key) (λ db, (Ok (db.(lifecycle) !! key), db));
  lift (transpose (try_from_row <$> row)).

(** The [WHERE] clause that [list] builds. *)
Definition row_matches (filter : StatusFilter) (row : LifecycleRow) : bool :=
  let session_ids := uuid_to_string <$> requested_session_ids filter in
  (bool_decide (session_ids = []) || bool_decide (row.(LifecycleRow.session_id) ∈ session_ids)) &&
  match filter.(StatusFilter.runtime) with
  | Some runtime => String.eqb row.(LifecycleRow.runtime) runtime
  | None => true
  end &&
  match filter.(StatusFilter.state) with
  | Some state => String.eqb (LOWER row.(LifecycleRow.state)) (LOWER state)
  | None => true
  end &&
  match filter.(StatusFilter.updated_since) with
  | Some updated_since => String.leb (to_rfc3339 updated_since) row.(LifecycleRow.updated_at)
  | None => true
  end.

Definition store_list (filter : StatusFilter) : DbM (list Lifecycle) :=
  rows ← statement "failed to list lifecycles"
           (λ db, (Ok (base.filter (λ row, row_matches filter row = true) (table db)), db));
  lift (try_map try_from_row rows).

Definition store_running : DbM (list Lifecycle) :=
  rows ← statement "failed to list running lifecycles"
    (λ db, (Ok (order_by LifecycleRow.spawned_at
                  (base.filter (λ row, row.(LifecycleRow.state) = "Running") (table db))), db));
  lift (try_map try_from_row rows).

Definition store_running_tmux_occupant (tmux_pane : TmuxAddress) : DbM (option Lifecycle) :=
  row ← statement "failed to fetch running tmux pane occupant"
    (λ db, (Ok (head (order_by LifecycleRow.spawned_at
                  (base.filter (λ row, row.(LifecycleRow.state) = "Running" ∧
                     row.(LifecycleRow.tmux_pane) = encode_tmux_pane (Some tmux_pane)) (table db)))), db));
  lift (transpose (try_from_row <$> row)).

(** [SELECT state, COUNT(..) GROUP BY state]. *)
Definition state_groups (rows : list LifecycleRow) : list (string * N) :=
  (λ s, (s, N.of_nat (length (base.filter (λ row, row.(LifecycleRow.state) = s) rows)))) <$>
    remove_dups (LifecycleRow.state <$> rows).

Fixpoint count_groups (groups : list (string * N)) (counts : LifecycleCounts)
    : result Error LifecycleCounts :=
  match groups with
  | [] => Ok counts
  | (state, count) :: groups =>
      let '(LifecycleCounts.mk forking running exited lost) := counts in
      if String.eqb state "Forking" then
        count_groups groups (LifecycleCounts.mk count running exited lost)
      else if String.eqb state "Running" then
        count_groups groups (LifecycleCounts.mk forking count exited lost)
      else if String.eqb state "Exited" then
        count_groups groups (LifecycleCounts.mk forking running count lost)
      else if String.eqb state "Lost" then
        count_groups groups (LifecycleCounts.mk forking running exited count)
      else Err (anyhow ("unknown lifecycle state " +:+ state))
  end.

Definition store_lifecycle_counts : DbM LifecycleCounts :=
  rows ← statement "failed to count lifecycle states" (λ db, (Ok (state_groups (table db)), db));
  lift (count_groups rows (LifecycleCounts.mk 0 0 0 0)).

Definition store_recent_lost_since (since : DateTime) : DbM (list RecentLostEvent) :=
  rows ← statement "failed to list recent lost lifecycles"
    (λ db, (Ok (merge_sort (λ a b, text_le b.(LifecycleRow.updated_at) a.(LifecycleRow.updated_at))
                  (base.filter (λ row, row.(LifecycleRow.state) = "Lost" ∧
                     text_le (to_rfc3339 since) row.(LifecycleRow.updated_at)) (table db))), db));
  lift (try_map recent_lost_of_row rows).

Definition store_record_probe_sweep (swept_at : DateTime) : DbM unit :=
  let value := to_rfc3339 swept_at in
  statement "failed to record last probe sweep"
    (λ db, (Ok tt, mkDb db.(lifecycle) (<[LAST_PROBE_SWEEP_KEY := (value, value)]> db.(rtm_metadata))
                     db.(db_tick))).

Definition store_last_probe_sweep : DbM (option DateTime) :=
  value ← statement "failed to read last probe sweep"
            (λ db, (Ok (fst <$> db.(rtm_metadata) !! LAST_PROBE_SWEEP_KEY), db));
  lift (transpose (parse_time <$> value)).

(** The migrations embedded in the binary, and the versions the database has applied. *)
Definition store_migration_state (known : list (Z * string)) (applied_versions : list Z)
    : DbM MigrationState :=
  versions ← statement "failed to read applied migrations" (λ db, (Ok applied_versions, db));
  let applied_descriptions := snd <$> base.filter (λ m, m.1 ∈ versions) known in
  let pending_descriptions := snd <$> base.filter (λ m, m.1 ∉ versions) known in
  mret (MigrationState.mk (length applied_descriptions) (length known) applied_descriptions
          pending_descriptions).

Definition store_reset : DbM unit :=
  statement "failed to reset lifecycle table" (λ db, (Ok tt, set_lifecycle ∅ db)).

#[export] Instance sqlite_store : LifecycleStore Db :=
  {| insert_forking := store_insert_forking;
     update_lifecycle := store_update_lifecycle;
     delete := store_delete;
     get := store_get;
     list_lifecycles := store_list;
     running := store_running;
     running_tmux_occupant := store_running_tmux_occupant;
     record_probe_sweep := store_record_probe_sweep |}.

#[export] Instance sqlite_diagnostics (known : list (Z * string)) (applied_versions : list Z)
    : StoreDiagnostics Db :=
  {| lifecycle_counts := store_lifecycle_counts;
     recent_lost_since := store_recent_lost_since;
     last_probe_sweep := store_last_probe_sweep;
     migration_state := store_migration_state known applied_versions |}.
End store.

(** ** The tables implement the store's specification *)

Section refinement.
Context `{External, Json}.
Variable io : DbIo.

(** The rows of the table are the encodings of the sessions, with their times. *)
Definition db_repr (s : Sessions) (db : Db) : Prop :=
  sessions_ok s ∧
  (∀ k row, db.(lifecycle) !! k = Some row →
     ∃ l sp up, s !! l.(Lifecycle.session_id) = Some l ∧
                k = uuid_to_string l.(Lifecycle.session_id) ∧ row = from_lifecycle l sp up) ∧
  (∀ u l, s !! u = Some l → ∃ sp up, db.(lifecycle) !! uuid_to_string u = Some (from_lifecycle l sp up)).

Definition db_failed : Prop := ∃ n, io.(db_fault) n = true.

Lemma db_repr_ok s db : db_repr s db → sessions_ok s.
Proof. by intros [? _]. Qed.

Lemma db_repr_lookup s db u :
  db_repr s db →
  match db.(lifecycle) !! uuid_to_string u with
  | Some row => ∃ l, s !! u = Some l ∧ try_from_row row = Ok l
  | None => s !! u = None
  end.
Proof.
  intros (Hok & Hrow & Hs). destruct (lifecycle db !! uuid_to_string u) as [row|] eqn:E.
  - destruct (Hrow _ _ E) as (l & sp & up & Hl & Hk & ->). apply (inj uuid_to_string) in Hk as ->.
    exists l. split; [done|]. destruct (Hok _ _ Hl) as (_ & Hst & Hstd).
    rewrite codec_roundtrip by done. by rewrite Hstd.
  - destruct (s !! u) as [l|] eqn:El; [|done]. destruct (Hs _ _ El) as (? & ? & ?). congruence.
Qed.

Lemma from_lifecycle_stored l sp up : from_lifecycle (stored l) sp up = from_lifecycle l sp up.
Proof. by destruct l. Qed.

Lemma db_repr_insert s db l sp up :
  db_repr s db → storable l →
  db_repr (<[l.(Lifecycle.session_id) := stored l]> s)
    (set_lifecycle (<[uuid_to_string l.(Lifecycle.session_id) := from_lifecycle l sp up]> db.(lifecycle)) db).
Proof.
  intros (Hok & Hrow & Hs) Hl. split; [by apply sessions_ok_insert|]. split.
  - intros k row. simpl. intros [[<- <-]|[Hne Hk]]%lookup_insert_Some.
    + exists (stored l), sp, up. rewrite stored_session, lookup_insert_eq, from_lifecycle_stored. done.
    + destruct (Hrow _ _ Hk) as (l' & sp' & up' & Hl' & -> & ->). exists l', sp', up'.
      split; [|done]. rewrite lookup_insert_ne; [done|]. intros E. by rewrite E in Hne.
  - intros u l'. simpl. intros [[<- <-]|[Hne Hu]]%lookup_insert_Some.
    + exists sp, up. by rewrite lookup_insert_eq, from_lifecycle_stored.
    + destruct (Hs _ _ Hu) as (sp' & up' & E). exists sp', up'.
      rewrite lookup_insert_ne; [done|]. by intros ?%(inj uuid_to_string).
Qed.

Lemma db_repr_delete s db u :
  db_repr s db →
  db_repr (base.delete u s) (set_lifecycle (base.delete (uuid_to_string u) db.(lifecycle)) db).
Proof.
  intros (Hok & Hrow & Hs). split; [by apply sessions_ok_delete|]. split.
  - intros k row. simpl. intros [Hne Hk]%lookup_delete_Some.
    destruct (Hrow _ _ Hk) as (l & sp & up & Hl & -> & ->). exists l, sp, up. split; [|done].
    rewrite lookup_delete_ne; [done|]. intros E. by rewrite E in Hne.
  - intros v l. simpl. intros [Hne Hv]%lookup_delete_Some. destruct (Hs _ _ Hv) as (sp & up & E).
    exists sp, up. rewrite lookup_delete_ne; [done|]. by intros ?%(inj uuid_to_string).
Qed.

Lemma db_repr_meta s db m n : db_repr s db → db_repr s (mkDb db.(lifecycle) m n).
Proof. done. Qed.

(** A statement that succeeds runs on the same table. *)
Lemma statement_spec {A} s message (run : Db → result Error A * Db) Q R :
  (∀ db, db_repr s db → match run db with (Ok a, db') => Q a db' | (Err e, db') => R e db' end) →
  (∀ e db, db_repr s db → db_failed → R e db) →
  hoare (db_repr s) (statement io message run) Q R.
Proof.
  intros Hrun HR db Hdb. unfold statement.
  destruct (db_fault io (db_tick db)) eqn:E; [|by apply Hrun]. simpl. apply HR; [done|]. by eexists.
Qed.

Lemma utc_now_spec s R : hoare (db_repr s) (Utc_now io) (λ _, db_repr s) R.
Proof. intros db Hdb. apply Hdb. Qed.

(** ** Lists of rows *)

Lemma table_perm db : table db ≡ₚ (map_to_list db.(lifecycle)).*2.
Proof. apply merge_sort_Permutation. Qed.

Lemma table_elem db row : row ∈ table db ↔ ∃ k, db.(lifecycle) !! k = Some row.
Proof.
  rewrite table_perm, list_elem_of_fmap. split.
  - intros ([k r] & -> & Hin%elem_of_map_to_list). by exists k.
  - intros [k Hk%elem_of_map_to_list]. by exists (k, row).
Qed.

Lemma table_nodup s db : db_repr s db → NoDup (LifecycleRow.session_id <$> table db).
Proof.
  intros (_ & Hrow & _). rewrite table_perm, <- list_fmap_compose.
  assert ((LifecycleRow.session_id ∘ snd) <$> map_to_list (lifecycle db) =
          fst <$> map_to_list (lifecycle db)) as ->; [|apply NoDup_fst_map_to_list].
  apply list_fmap_ext. intros i [k row] Hi%list_elem_of_lookup_2. simpl.
  apply elem_of_map_to_list in Hi. destruct (Hrow _ _ Hi) as (l & sp & up & _ & -> & ->).
  apply from_lifecycle_fields.
Qed.

(** What is known of a row of the table. *)
Definition row_of (s : Sessions) (db : Db) (row : LifecycleRow) (l : Lifecycle) : Prop :=
  s !! l.(Lifecycle.session_id) = Some l ∧
  ∃ sp up, row = from_lifecycle l sp up ∧
           db.(lifecycle) !! uuid_to_string l.(Lifecycle.session_id) = Some row.

Lemma row_of_decodes s db row l : sessions_ok s → row_of s db row l → try_from_row row = Ok l.
Proof.
  intros Hok (Hl & sp & up & -> & _). destruct (Hok _ _ Hl) as (_ & Hst & Hstd).
  rewrite codec_roundtrip by done. by rewrite Hstd.
Qed.

Lemma table_row_of s db row : db_repr s db → row ∈ table db → ∃ l, row_of s db row l.
Proof.
  intros (Hok & Hrow & _) [k Hk]%table_elem. destruct (Hrow _ _ Hk) as (l & sp & up & Hl & -> & ->).
  exists l. split; [done|]. by exists sp, up.
Qed.

Lemma session_row_of s db u l : db_repr s db → s !! u = Some l → ∃ row, row_of s db row l ∧ row ∈ table db.
Proof.
  intros (Hok & _ & Hs) Hl. destruct (Hok _ _ Hl) as (<- & _). destruct (Hs _ _ Hl) as (sp & up & E).
  exists (from_lifecycle l sp up). split; [split; [done|]; by exists sp, up|]. apply table_elem. eauto.
Qed.

Lemma row_of_session_id s db row l :
  row_of s db row l → row.(LifecycleRow.session_id) = uuid_to_string l.(Lifecycle.session_id).
Proof. intros (_ & sp & up & -> & _). apply from_lifecycle_fields. Qed.

(** Decoding a selection of the table, in any order, gives the selected sessions. *)
Lemma decode_rows s db (P : LifecycleRow → Prop) `{∀ r, Decision (P r)} rows :
  db_repr s db → rows ≡ₚ base.filter P (table db) →
  ∃ ls, try_map try_from_row rows = Ok ls ∧ NoDup ls ∧
    ∀ l, l ∈ ls ↔ ∃ row, row_of s db row l ∧ P row.
Proof.
  intros Hdb Hperm. pose proof Hdb as (Hok & _).
  assert (Forall (λ row, ∃ l, row_of s db row l ∧ try_from_row row = Ok l) rows) as Hin.
  { apply Forall_forall. intros row. rewrite Hperm, list_elem_of_filter. intros [_ Ht].
    destruct (table_row_of s db row Hdb Ht) as [l Hl]. eauto using row_of_decodes. }
  assert (∃ ls, Forall2 (λ row l, row_of s db row l ∧ try_from_row row = Ok l) rows ls) as [ls Hls].
  { clear Hperm. induction Hin as [|row rows [l Hl] _ [ls Hls]]; [by exists []|].
    exists (l :: ls). by constructor. }
  exists ls. split; [|split].
  - apply try_map_Ok. eapply Forall2_impl; [exact Hls|]. by intros ? ? [].
  - assert (NoDup (LifecycleRow.session_id <$> rows)) as Hnd.
    { rewrite Hperm. eapply sublist_NoDup; [by eapply table_nodup|]. apply fmap_sublist, sublist_filter. }
    assert (LifecycleRow.session_id <$> rows = (λ l, uuid_to_string l.(Lifecycle.session_id)) <$> ls) as E.
    { clear Hperm Hin Hnd. induction Hls as [|row l rows' ls' [Hr _] _ IH]; [done|].
      rewrite !fmap_cons. by rewrite (row_of_session_id _ _ _ _ Hr), IH. }
    rewrite E in Hnd. by eapply NoDup_fmap_1.
  - intros l. split.
    + intros [i Hi]%list_elem_of_lookup. destruct (Forall2_lookup_r _ _ _ _ _ Hls Hi) as (row & Hr & E & _).
      exists row. split; [done|]. apply list_elem_of_lookup_2 in Hr.
      rewrite Hperm, list_elem_of_filter in Hr. apply Hr.
    + intros (row & Hl & HP). assert (row ∈ rows) as [i Hi]%list_elem_of_lookup.
      { rewrite Hperm, list_elem_of_filter, table_elem. split; [done|].
        destruct Hl as (_ & ? & ? & _ & Hk). eauto. }
      destruct (Forall2_lookup_l _ _ _ _ _ Hls Hi) as (l' & Hl' & _ & E).
      rewrite (row_of_decodes _ _ _ _ Hok Hl) in E. injection E as ->. by eapply list_elem_of_lookup_2.
Qed.

Lemma store_insert_forking_spec s l :
  storable l →
  hoare (db_repr s) (store_insert_forking io l)
    (λ _ w, l.(Lifecycle.state) = LifecycleState.Forking ∧ s !! l.(Lifecycle.session_id) = None ∧
            db_repr (<[l.(Lifecycle.session_id) := stored l]> s) w)
    (λ _ w, db_repr s w ∧ (db_failed ∨ l.(Lifecycle.state) ≠ LifecycleState.Forking ∨
                           is_Some (s !! l.(Lifecycle.session_id)))).
Proof.
  intros Hl. unfold store_insert_forking. case_bool_decide as Hst; simpl; [|apply hoare_throw; auto].
  eapply hoare_bind; [apply utc_now_spec|]. intros now. apply statement_spec; [|auto].
  intros db Hdb. pose proof (db_repr_lookup s db l.(Lifecycle.session_id) Hdb) as Hk.
  rewrite !(proj1 (from_lifecycle_fields _ _ _)). destruct (lifecycle db !! _) as [row|] eqn:E.
  - destruct Hk as (l' & Hl' & _). simpl. split; [done|]. right. right. by eexists.
  - split_and!; [done..|]. by apply db_repr_insert.
Qed.

Lemma store_update_lifecycle_spec s l :
  storable l →
  hoare (db_repr s) (store_update_lifecycle io l)
    (λ _ w, is_Some (s !! l.(Lifecycle.session_id)) ∧
            db_repr (<[l.(Lifecycle.session_id) := stored l]> s) w)
    (λ _ w, db_repr s w ∧ (db_failed ∨ s !! l.(Lifecycle.session_id) = None)).
Proof.
  intros Hl. unfold store_update_lifecycle.
  eapply hoare_bind; [apply utc_now_spec|]. intros now. eapply hoare_bind.
  - apply statement_spec with (Q := λ n w,
      if decide (n = 0) then db_repr s w ∧ s !! l.(Lifecycle.session_id) = None
      else is_Some (s !! l.(Lifecycle.session_id)) ∧
           db_repr (<[l.(Lifecycle.session_id) := stored l]> s) w); [|auto].
    intros db Hdb. pose proof (db_repr_lookup s db l.(Lifecycle.session_id) Hdb) as Hk.
    destruct (lifecycle db !! _) as [row|]; simpl; [|done].
    destruct Hk as (l' & Hl' & _). split; [by eexists|]. by apply db_repr_insert.
  - intros n. cbn beta. destruct (decide (n = 0)); [apply hoare_throw; intros w []; auto|by apply hoare_ret].
Qed.

Lemma store_delete_spec s u :
  hoare (db_repr s) (store_delete io u)
    (λ _ w, db_repr (base.delete u s) w) (λ _ w, db_repr s w ∧ db_failed).
Proof. apply statement_spec; [|auto]. intros db Hdb. by apply db_repr_delete. Qed.

Lemma store_get_spec s u :
  hoare (db_repr s) (store_get io u)
    (λ o w, o = s !! u ∧ db_repr s w) (λ _ w, db_repr s w ∧ db_failed).
Proof.
  unfold store_get. eapply hoare_bind.
  - apply statement_spec with (Q := λ row w, db_repr s w ∧ transpose (try_from_row <$> row) = Ok (s !! u));
      [|auto]. intros db Hdb. split; [done|]. pose proof (db_repr_lookup s db u Hdb) as Hk.
    destruct (lifecycle db !! _) as [row|]; simpl; [|by rewrite Hk].
    destruct Hk as (l & -> & E). by rewrite E.
  - intros row w [Hw E]. unfold lift. by rewrite E.
Qed.

(** A query whose rows decode to the sessions of the selection [P]. *)
Lemma select_spec {A} s (rows : Db → A) message (Q : A → Db → Prop) (R : Error → Db → Prop) :
  (∀ db, db_repr s db → Q (rows db) db) → (∀ e db, db_repr s db → db_failed → R e db) →
  hoare (db_repr s) (statement io message (λ db, (Ok (rows db), db))) Q R.
Proof. intros HQ HR. by apply statement_spec. Qed.

Lemma row_of_state s db row l :
  row_of s db row l → row.(LifecycleRow.state) = (encode_state l.(Lifecycle.state)).1.1.1.
Proof. intros (_ & sp & up & -> & _). apply from_lifecycle_fields. Qed.

Lemma row_of_pane s db row l :
  row_of s db row l → row.(LifecycleRow.tmux_pane) = encode_tmux_pane l.(Lifecycle.tmux_pane).
Proof. intros (_ & sp & up & -> & _). apply from_lifecycle_fields. Qed.

Lemma encoded_running st : (encode_state st).1.1.1 = "Running" ↔ st = LifecycleState.Running.
Proof. by destruct st as [| |[]|[]]. Qed.

Lemma encode_tmux_pane_inj o a :
  pane_fits o → pane_fits (Some a) → encode_tmux_pane o = encode_tmux_pane (Some a) → o = Some a.
Proof.
  intros Ho Ha E. apply decode_encode_pane in Ho. apply decode_encode_pane in Ha. congruence.
Qed.

Lemma order_by_perm f rows : order_by f rows ≡ₚ rows.
Proof. apply merge_sort_Permutation. Qed.

Lemma store_running_spec s :
  hoare (db_repr s) (store_running io)
    (λ ls w, db_repr s w ∧ NoDup ls ∧
             ∀ l, l ∈ ls ↔ s !! l.(Lifecycle.session_id) = Some l ∧ is_running l = true)
    (λ _ w, db_repr s w ∧ db_failed).
Proof.
  unfold store_running. eapply hoare_bind; [apply select_spec with
    (Q := λ rows w, db_repr s w ∧ rows ≡ₚ base.filter (λ row, row.(LifecycleRow.state) = "Running") (table w));
    [|auto]; intros db Hdb; split; [done|apply order_by_perm]|].
  intros rows w [Hw Hrows]. destruct (decode_rows _ _ _ _ Hw Hrows) as (ls & E & Hnd & Hls).
  unfold lift. rewrite E. split_and!; [done..|]. intros l. rewrite Hls. unfold is_running.
  rewrite bool_decide_eq_true. split.
  - intros (row & Hr & HP). rewrite (row_of_state _ _ _ _ Hr), encoded_running in HP.
    split; [apply Hr|done].
  - intros [Hl Hst]. destruct (session_row_of _ _ _ _ Hw Hl) as (row & Hr & _). exists row.
    split; [done|]. by rewrite (row_of_state _ _ _ _ Hr), encoded_running.
Qed.

Lemma store_running_tmux_occupant_spec s a :
  tmux_address_ok a →
  hoare (db_repr s) (store_running_tmux_occupant io a)
    (λ o w, db_repr s w ∧
            match o with
            | Some l => s !! l.(Lifecycle.session_id) = Some l ∧ occupies a l
            | None => ∀ u l, s !! u = Some l → ¬ occupies a l
            end)
    (λ _ w, db_repr s w ∧ db_failed).
Proof.
  intros Ha. unfold store_running_tmux_occupant.
  set (P := λ row, row.(LifecycleRow.state) = "Running" ∧
                   row.(LifecycleRow.tmux_pane) = encode_tmux_pane (Some a)).
  assert (∀ w row l, db_repr s w → row_of s w row l → P row ↔ occupies a l) as HP.
  { intros w row l Hw Hr. unfold P, occupies, is_running. rewrite bool_decide_eq_true.
    rewrite (row_of_state _ _ _ _ Hr), encoded_running, (row_of_pane _ _ _ _ Hr).
    destruct (db_repr_ok _ _ Hw _ _ (proj1 Hr)) as (_ & (_ & _ & _ & _ & _ & Hp) & _).
    split; intros [H1 H2]; (split; [done|]); [by apply encode_tmux_pane_inj|by rewrite H2]. }
  eapply hoare_bind; [apply select_spec with
    (Q := λ row w, db_repr s w ∧ ∃ rows, row = head rows ∧ rows ≡ₚ base.filter P (table w));
    [|auto]; intros db Hdb; split; [done|]; eexists; split; [done|apply order_by_perm]|].
  intros row w (Hw & rows & -> & Hrows). unfold lift. destruct rows as [|row rows]; simpl.
  - split; [done|]. intros u l Hl Ho. destruct (session_row_of _ _ _ _ Hw Hl) as (row & Hr & Ht).
    apply (HP w row l Hw Hr) in Ho. assert (row ∈ base.filter P (table w)) as Hin.
    { by apply list_elem_of_filter. } rewrite <- Hrows in Hin. by apply elem_of_nil in Hin.
  - assert (row ∈ base.filter P (table w)) as [Hr Ht]%list_elem_of_filter.
    { rewrite <- Hrows. by left. }
    destruct (table_row_of s w row Hw Ht) as [l Hl].
    rewrite (row_of_decodes _ _ _ _ (db_repr_ok _ _ Hw) Hl). simpl.
    split_and!; [done|apply Hl|by apply (HP w row l)].
Qed.

Lemma store_record_probe_sweep_spec s t :
  hoare (db_repr s) (store_record_probe_sweep io t) (λ _, db_repr s) (λ _ w, db_repr s w ∧ db_failed).
Proof. apply statement_spec; [done|auto]. Qed.

#[export] Instance sqlite_spec : @StoreSpec Db (sqlite_store io) :=
  Build_StoreSpec Db (sqlite_store io) db_repr db_failed db_repr_ok
    store_insert_forking_spec store_update_lifecycle_spec store_delete_spec store_get_spec
    store_running_spec store_running_tmux_occupant_spec store_record_probe_sweep_spec.
End refinement.

(** ** Records are found under their session *)

Section keys.
Context `{External, Json}.
Variable io : DbIo.

Definition keyed_table (m : gmap string LifecycleRow) : Prop :=
  ∀ k row, m !! k = Some row →
    row.(LifecycleRow.session_id) = k ∧ ∃ u, k = uuid_to_string u.
Definition db_keyed (db : Db) : Prop := keyed_table db.(lifecycle).

Lemma keyed_statement {A} message (run : Db → result Error A * Db) :
  (∀ db, db_keyed db → db_keyed (run db).2) → preserves db_keyed (statement io message run).
Proof.
  intros Hrun db Hdb. unfold statement. destruct (db_fault io (db_tick db)); [done|].
  specialize (Hrun (mkDb db.(lifecycle) db.(rtm_metadata) (S db.(db_tick))) Hdb).
  by destruct (run _) as [[] ?].
Qed.

Lemma keyed_utc_now : preserves db_keyed (Utc_now io).
Proof. by intros db Hdb. Qed.

Lemma from_lifecycle_key l sp now :
  (from_lifecycle l sp now).(LifecycleRow.session_id) = uuid_to_string l.(Lifecycle.session_id).
Proof. unfold from_lifecycle. by destruct (encode_state (Lifecycle.state l)) as [[[] ?] ?]. Qed.

Lemma keyed_insert m l sp now :
  keyed_table m →
  keyed_table (<[uuid_to_string l.(Lifecycle.session_id) := from_lifecycle l sp now]> m).
Proof.
  intros Hm k row [[<- <-]|[_ Hk]]%lookup_insert_Some; [|by apply Hm].
  split; [apply from_lifecycle_key|by eexists].
Qed.

Lemma try_from_row_session row l :
  try_from_row row = Ok l → uuid_parse_str row.(LifecycleRow.session_id) = Ok l.(Lifecycle.session_id).
Proof.
  unfold try_from_row. intros E. repeat (apply bind_Ok in E as (? & ? & E)). simplify_eq. simpl.
  by apply map_err_Ok in H1.
Qed.

Lemma try_from_row_running row l :
  try_from_row row = Ok l → row.(LifecycleRow.state) = "Running" → is_running l = true.
Proof.
  unfold try_from_row. intros E Hst. repeat (apply bind_Ok in E as (? & ? & E)). simplify_eq.
  unfold is_running. simpl. apply bool_decide_eq_true.
  match goal with Hd : decode_state row = Ok ?s |- ?s = _ => unfold decode_state in Hd; rewrite Hst in Hd; by injection Hd as <- end.
Qed.

Lemma keyed_store_get u :
  hoare db_keyed (store_get io u)
    (λ o w, db_keyed w ∧ ∀ l, o = Some l → l.(Lifecycle.session_id) = u) (λ _, db_keyed).
Proof.
  intros db Hdb. unfold store_get, statement, mbind, M_bind. destruct (db_fault io (db_tick db)); [done|].
  unfold lift. simpl. destruct (lifecycle db !! uuid_to_string u) as [row|] eqn:El; [|done]. simpl.
  destruct (try_from_row row) as [l|e] eqn:Er; [|done]. split; [done|]. intros ? [= <-].
  apply try_from_row_session in Er. rewrite (proj1 (Hdb _ _ El)), uuid_parse_to_string in Er. congruence.
Qed.

Ltac keyed := repeat first [ apply keyed_utc_now | apply preserves_bind; [|intros ?]
  | apply preserves_ret | apply preserves_throw | apply preserves_lift
  | apply keyed_statement; intros ? ?; done ].

Lemma keyed_store_insert l : preserves db_keyed (store_insert_forking io l).
Proof.
  unfold store_insert_forking. case_match; [apply preserves_throw|]. keyed.
  apply keyed_statement. intros db Hdb. case_match; [done|]. rewrite from_lifecycle_key.
  by apply keyed_insert.
Qed.

Lemma keyed_store_update l : preserves db_keyed (store_update_lifecycle io l).
Proof.
  unfold store_update_lifecycle. keyed; [|destruct (decide _); keyed].
  apply keyed_statement. intros db Hdb. case_match; [|done]. by apply keyed_insert.
Qed.

Lemma keyed_store_delete u : preserves db_keyed (store_delete io u).
Proof.
  apply keyed_statement. intros db Hdb k row Hk. simpl in Hk.
  apply lookup_delete_Some in Hk as [_ Hk]. by apply Hdb.
Qed.

Lemma keyed_store_list filter : preserves db_keyed (store_list io filter).
Proof. unfold store_list. keyed. Qed.
Lemma keyed_store_running : preserves db_keyed (store_running io).
Proof. unfold store_running. keyed. Qed.
Lemma keyed_store_occupant a : preserves db_keyed (store_running_tmux_occupant io a).
Proof. unfold store_running_tmux_occupant. keyed. Qed.
Lemma keyed_store_sweep t : preserves db_keyed (store_record_probe_sweep io t).
Proof. unfold store_record_probe_sweep. keyed. Qed.
Lemma keyed_store_counts : preserves db_keyed (store_lifecycle_counts io).
Proof. unfold store_lifecycle_counts. keyed. Qed.
Lemma keyed_store_lost t : preserves db_keyed (store_recent_lost_since io t).
Proof. unfold store_recent_lost_since. keyed. Qed.
Lemma keyed_store_last_sweep : preserves db_keyed (store_last_probe_sweep io).
Proof. unfold store_last_probe_sweep. keyed. Qed.
Lemma keyed_store_migrations known applied_versions :
  preserves db_keyed (store_migration_state io known applied_versions).
Proof. unfold store_migration_state. keyed. Qed.

#[export] Instance sqlite_keys known applied_versions :
    @StoreKeys Db (sqlite_store io) (sqlite_diagnostics io known applied_versions) :=
  Build_StoreKeys Db (sqlite_store io) (sqlite_diagnostics io known applied_versions) db_keyed
    keyed_store_get keyed_store_insert keyed_store_update keyed_store_delete keyed_store_list
    keyed_store_running keyed_store_occupant keyed_store_sweep keyed_store_counts keyed_store_lost
    keyed_store_last_sweep (keyed_store_migrations known applied_versions).

(** *** The row of one session *)

Definition raw_row (u : Uuid) (db : Db) : option LifecycleRow := db.(lifecycle) !! uuid_to_string u.
Definition decode_row (row : option LifecycleRow) : result Error (option Lifecycle) :=
  transpose (try_from_row <$> row).

Section row.
Variables (u : Uuid) (r : option LifecycleRow).
Notation row_kept := (λ db, raw_row u db = r).

Lemma row_statement {A} message (run : Db → result Error A * Db) :
  (∀ db, raw_row u (run db).2 = raw_row u db) → preserves row_kept (statement io message run).
Proof.
  intros Hrun db Hdb. unfold statement. destruct (db_fault io (db_tick db)); [done|].
  specialize (Hrun (mkDb db.(lifecycle) db.(rtm_metadata) (S db.(db_tick)))).
  destruct (run _) as [[] ?]; by rewrite <- Hdb.
Qed.
Lemma row_utc_now : preserves row_kept (Utc_now io).
Proof. by intros db Hdb. Qed.

Ltac row := repeat first [ apply row_utc_now | apply preserves_bind; [|intros ?]
  | apply preserves_ret | apply preserves_throw | apply preserves_lift
  | apply row_statement; intros ?; done ].

Lemma row_other v (m : gmap string LifecycleRow) row :
  v ≠ u → <[uuid_to_string v := row]> m !! uuid_to_string u = m !! uuid_to_string u.
Proof. intros Hv. apply lookup_insert_ne. by intros ?%(inj _). Qed.

Lemma row_store_insert l : l.(Lifecycle.session_id) ≠ u → preserves row_kept (store_insert_forking io l).
Proof.
  intros Hl. unfold store_insert_forking. case_match; [apply preserves_throw|]. row.
  apply row_statement. intros db. case_match; [done|]. unfold raw_row. rewrite from_lifecycle_key. by apply row_other.
Qed.
Lemma row_store_update l : l.(Lifecycle.session_id) ≠ u → preserves row_kept (store_update_lifecycle io l).
Proof.
  intros Hl. unfold store_update_lifecycle. row; [|destruct (decide _); row].
  apply row_statement. intros db. case_match; [|done]. by apply row_other.
Qed.
Lemma row_store_delete v : v ≠ u → preserves row_kept (store_delete io v).
Proof.
  intros Hv. apply row_statement. intros db. apply lookup_delete_ne. by intros ?%(inj _).
Qed.
Lemma row_store_get :
  hoare row_kept (store_get io u) (λ o db, raw_row u db = r ∧ decode_row r = Ok o)
    (λ _ db, raw_row u db = r ∧ (db_failed io ∨ ∀ o, decode_row r ≠ Ok o)).
Proof.
  intros db Hdb. unfold store_get, statement, mbind, M_bind. destruct (db_fault io (db_tick db)) eqn:Ef.
  { split; [done|]. left. by eexists. }
  unfold lift. simpl. rewrite <- Hdb. unfold raw_row, decode_row. destruct (transpose _) eqn:E; [done|].
  split; [done|]. right. congruence.
Qed.
Lemma row_store_get_any v : preserves row_kept (store_get io v).
Proof. unfold store_get. row. Qed.
Lemma row_store_list filter : preserves row_kept (store_list io filter).
Proof. unfold store_list. row. Qed.
Lemma row_store_occupant a : preserves row_kept (store_running_tmux_occupant io a).
Proof. unfold store_running_tmux_occupant. row. Qed.
Lemma row_store_sweep t : preserves row_kept (store_record_probe_sweep io t).
Proof. unfold store_record_probe_sweep. row. Qed.
Lemma row_store_counts : preserves row_kept (store_lifecycle_counts io).
Proof. unfold store_lifecycle_counts. row. Qed.
Lemma row_store_lost t : preserves row_kept (store_recent_lost_since io t).
Proof. unfold store_recent_lost_since. row. Qed.
Lemma row_store_last_sweep : preserves row_kept (store_last_probe_sweep io).
Proof. unfold store_last_probe_sweep. row. Qed.
Lemma row_store_migrations known applied_versions :
  preserves row_kept (store_migration_state io known applied_versions).
Proof. unfold store_migration_state. row. Qed.

Lemma row_store_running :
  hoare (λ db, db_keyed db ∧ raw_row u db = r) (store_running io)
    (λ ls db, raw_row u db = r ∧ ∀ l, l ∈ ls → l.(Lifecycle.session_id) = u →
                decode_row r = Ok (Some l) ∧ is_running l = true)
    (λ _, row_kept).
Proof.
  intros db [Hk Hdb]. unfold store_running, statement, mbind, M_bind. destruct (db_fault io (db_tick db)); [done|].
  unfold lift. destruct (try_map _ _) as [ls|e] eqn:E; [|done]. split; [done|]. intros l Hl Hu.
  apply try_map_Ok in E. apply list_elem_of_lookup in Hl as [i Hl].
  destruct (Forall2_lookup_r _ _ _ _ _ E Hl) as (row & Hrow & El). apply list_elem_of_lookup_2 in Hrow.
  rewrite order_by_perm in Hrow. apply list_elem_of_filter in Hrow as [Hst Hrow].
  unfold table in Hrow. rewrite order_by_perm in Hrow. apply list_elem_of_fmap in Hrow as ([k row'] & -> & Hrow).
  apply elem_of_map_to_list in Hrow. cbn [snd lifecycle] in *. destruct (Hk _ _ Hrow) as [Hkey [v ->]].
  pose proof (try_from_row_session _ _ El) as Es. rewrite Hkey, uuid_parse_to_string, Hu in Es.
  injection Es as ->. rewrite <- Hdb. unfold raw_row, decode_row. rewrite Hrow. cbn [fmap option_fmap option_map].
  rewrite El. split; [done|]. by eapply try_from_row_running.
Qed.
End row.

Lemma row_store_written l l0 r :
  storable l → decode_row r = Ok (Some l0) →
  hoare (λ db, raw_row l.(Lifecycle.session_id) db = r) (store_update_lifecycle io l)
    (λ _ db, decode_row (raw_row l.(Lifecycle.session_id) db) = Ok (Some (stored l)))
    (λ _ db, raw_row l.(Lifecycle.session_id) db = r ∧ db_failed io).
Proof.
  intros Hl Hr db Hdb. unfold store_update_lifecycle, statement, Utc_now, mbind, M_bind. cbn.
  match goal with |- context [db_fault io ?n] => destruct (db_fault io n) eqn:Ef end; [split; [done|by eexists]|].
  rewrite <- Hdb in Hr. unfold raw_row in Hr. destruct (lifecycle db !! _) as [row|] eqn:E; cbn in *; [|done].
  cbn. rewrite decide_False by done. unfold raw_row. cbn. rewrite lookup_insert_eq. cbn.
  by rewrite codec_roundtrip.
Qed.

#[export] Instance sqlite_records known applied_versions :
    @StoreRecords Db (sqlite_store io) (sqlite_diagnostics io known applied_versions) (sqlite_keys known applied_versions) :=
  Build_StoreRecords Db (sqlite_store io) (sqlite_diagnostics io known applied_versions) _ _ decode_row raw_row
    (db_failed io) row_store_get row_store_written row_store_running row_store_insert row_store_update row_store_delete row_store_get_any
    row_store_list row_store_occupant row_store_sweep row_store_counts row_store_lost row_store_last_sweep
    (λ u r, row_store_migrations u r known applied_versions).
End keys.

(** ** The store's contract

    The store behaves like a finite map from sessions to lifecycles. *)

Inductive StoreOp :=
| OpInsertForking (l : Lifecycle)
| OpUpdate (l : Lifecycle)
| OpDelete (u : Uuid).

Definition op_storable (op : StoreOp) : Prop :=
  match op with OpInsertForking l | OpUpdate l => storable l | OpDelete _ => True end.

(** The map after an operation that succeeds, and whether it does. *)
Definition spec_apply (s : Sessions) (op : StoreOp) : Sessions :=
  match op with
  | OpInsertForking l | OpUpdate l => <[l.(Lifecycle.session_id) := stored l]> s
  | OpDelete u => base.delete u s
  end.

Definition spec_accepts (s : Sessions) (op : StoreOp) : bool :=
  match op with
  | OpInsertForking l =>
      bool_decide (l.(Lifecycle.state) = LifecycleState.Forking) &&
      bool_decide (s !! l.(Lifecycle.session_id) = None)
  | OpUpdate l => bool_decide (is_Some (s !! l.(Lifecycle.session_id)))
  | OpDelete _ => true
  end.

(** The map after a script whose operations had the outcomes [outcomes]. *)
Fixpoint spec_run (s : Sessions) (ops : list StoreOp) (outcomes : list bool) : Sessions :=
  match ops, outcomes with
  | op :: ops, b :: outcomes => spec_run (if b then spec_apply s op else s) ops outcomes
  | _, _ => s
  end.

Fixpoint spec_outcomes (s : Sessions) (ops : list StoreOp) : list bool :=
  match ops with
  | [] => []
  | op :: ops =>
      let b := spec_accepts s op in b :: spec_outcomes (if b then spec_apply s op else s) ops
  end.

Section script.
Context {W} `{LifecycleStore W}.

Definition run_op (op : StoreOp) : M W Error unit :=
  match op with
  | OpInsertForking l => insert_forking l
  | OpUpdate l => update_lifecycle l
  | OpDelete u => delete u
  end.

Fixpoint run_script (ops : list StoreOp) (w : W) : list bool * W :=
  match ops with
  | [] => ([], w)
  | op :: ops =>
      let '(r, w) := run_op op w in
      let '(bs, w) := run_script ops w in (is_ok r :: bs, w)
  end.

Context `{!StoreSpec W}.

Lemma run_op_spec s op :
  op_storable op →
  hoare (store_repr s) (run_op op)
    (λ _ w, spec_accepts s op = true ∧ store_repr (spec_apply s op) w)
    (λ _ w, store_repr s w ∧ (store_failed ∨ spec_accepts s op = false)).
Proof.
  destruct op as [l|l|u]; simpl; intros Hop.
  - eapply hoare_conseq; [by apply insert_forking_spec|done| |].
    + intros _ w (E1 & E2 & Hw). by rewrite !bool_decide_true.
    + intros _ w [Hw Hf]. split; [done|]. destruct Hf as [?|[Hst|[x Hx]]]; [by left|right..].
      * by rewrite bool_decide_false.
      * rewrite andb_false_iff. right. apply bool_decide_false. congruence.
  - eapply hoare_conseq; [by apply update_lifecycle_spec|done| |].
    + intros _ w [E1 Hw]. by rewrite bool_decide_true.
    + intros _ w [Hw [?|E]]; (split; [done|]); [by left|right]. rewrite bool_decide_false; [done|].
      rewrite E. by intros [? ?].
  - eapply hoare_conseq; [by apply delete_spec|done|done|]. intros _ w []; auto.
Qed.

Lemma run_script_spec s ops w :
  Forall op_storable ops → store_repr s w →
  let '(bs, w') := run_script ops w in
  length bs = length ops ∧ store_repr (spec_run s ops bs) w' ∧
  (¬ store_failed → bs = spec_outcomes s ops).
Proof.
  intros Hops. revert s w. induction Hops as [|op ops Hop Hops IH]; intros s w Hw; simpl; [done|].
  pose proof (run_op_spec s op Hop w Hw) as Hrun.
  destruct (run_op op w) as [[[]|e] w1] eqn:E1; simpl.
  - destruct Hrun as [Ha Hw1]. specialize (IH _ _ Hw1).
    destruct (run_script ops w1) as [bs w2]. simpl. destruct IH as (Hl & Hr & Hf).
    split_and!; [by rewrite Hl|done|]. intros Hn. rewrite Ha. by rewrite (Hf Hn).
  - destruct Hrun as [Hw1 Ha]. specialize (IH _ _ Hw1).
    destruct (run_script ops w1) as [bs w2]. simpl. destruct IH as (Hl & Hr & Hf).
    split_and!; [by rewrite Hl|done|]. intros Hn. destruct Ha as [?|Ha]; [done|].
    rewrite Ha. by rewrite (Hf Hn).
Qed.
End script.

Section contract.
Context `{External, Json}.
Variable io : DbIo.

Lemma decode_range_ok lo hi f z z' : decode_range lo hi f z = Ok z' → z' = z ∧ (lo ≤ z ≤ hi)%Z.
Proof. unfold decode_range. case_decide; [by intros [= <-]|done]. Qed.

Lemma pid_fits_decoded o o' f : decode_u32 (Z.of_N <$> o) f = Ok o' → pid_fits o.
Proof.
  destruct o as [n|]; [|done]. unfold decode_u32. simpl.
  destruct (decode_range _ _ _ _) as [z|e] eqn:E; [|done]. apply decode_range_ok in E as [_ E].
  intros _. unfold u32_ok, u32_max in *. lia.
Qed.

Lemma i32_fits_decoded o o' f :
  decode_i32 o f = Ok o' → match o with Some z => i32_ok z | None => True end.
Proof.
  destruct o as [z|]; [|done]. unfold decode_i32. simpl.
  destruct (decode_range _ _ _ _) as [z'|e] eqn:E; [|done]. by apply decode_range_ok in E as [_ E].
Qed.

Lemma state_fits_decoded l sp now st :
  decode_state (from_lifecycle l sp now) = Ok st → state_fits l.(Lifecycle.state).
Proof.
  unfold from_lifecycle, decode_state.
  destruct (Lifecycle.state l) as [| |[c sg]|ev]; simpl; try done. intros Hd. inv_result.
  split; by eapply i32_fits_decoded.
Qed.

Lemma decoded_pane_ok o a : decode_tmux_pane o = Ok (Some a) → tmux_address_ok a.
Proof.
  destruct o as [v|]; [|done]. unfold decode_tmux_pane. simpl. unfold tmux_pane_from_json.
  destruct (v0 ← json_from_str v; s ← string_from_value v0; TmuxAddress_from_str s) as [p|e] eqn:E; simpl.
  - intros [= <-]. inv_result. by eapply TmuxAddress_from_str_ok.
  - destruct (TmuxAddress_from_str v) as [p|e'] eqn:E'; simpl; [|done]. intros [= <-].
    by eapply TmuxAddress_from_str_ok.
Qed.

(** A record survives the trip through its row exactly when it is storable: the runtime
    is one of the names the parser gives back, the isolation is not a Docker profile with an
    empty name, the pids fit in 32 unsigned bits and the exit code and signal in 32 signed
    ones, and the pane's session name is not empty. Everything but the computed log
    availability is kept, whatever the times of the row. *)
Theorem store_codec_roundtrip l spawned_at now :
  try_from_row (from_lifecycle l spawned_at now) = Ok (stored l) ↔ storable l.
Proof.
  split; [|apply codec_roundtrip].
  destruct (from_lifecycle_fields l spawned_at now) as (E1 & E2 & E3 & E4 & E5 & E6 & E7 & _).
  unfold try_from_row. rewrite E1, E2, E3, E4, E5, E6, E7. intros H1. inv_result.
  assert (x0 = l.(Lifecycle.runtime) ∧ x1 = l.(Lifecycle.isolation) ∧
          x6 = l.(Lifecycle.tmux_pane)) as (-> & -> & ->) by (by destruct l; injection H1).
  split_and!.
  - done.
  - intros Hp. rewrite Hp in *. by vm_compute in E8.
  - by eapply state_fits_decoded.
  - by eapply pid_fits_decoded.
  - by eapply pid_fits_decoded.
  - destruct (Lifecycle.tmux_pane l) as [a|]; [|done]. by eapply decoded_pane_ok.
Qed.

(** C13. The SQL statements implement a finite map from sessions to lifecycles: after any
    script of insertions, updates and deletions of storable records, from any table that
    represents a map, the table represents the map after the operations that succeeded; when
    no statement fails, those are exactly the insertions of a Forking record for a new
    session, the updates of a session that exists, and every deletion; and [get] then reads
    the map. *)
Theorem store_refines_map s db ops :
  db_repr s db → Forall op_storable ops →
  let '(outcomes, db') := @run_script Db (sqlite_store io) ops db in
  db_repr (spec_run s ops outcomes) db' ∧
  ((∀ n, db_fault io n = false) →
   outcomes = spec_outcomes s ops ∧
   ∀ u, (store_get io u db').1 = Ok (spec_run s ops (spec_outcomes s ops) !! u)).
Proof.
  intros Hdb Hops.
  pose proof (@run_script_spec Db (sqlite_store io) (sqlite_spec io) s ops db Hops Hdb) as Hrun.
  destruct (run_script ops db) as [bs db']. destruct Hrun as (_ & Hr & Hf). split; [done|].
  intros Hio. assert (¬ db_failed io) as Hn by (intros [n Hn]; by rewrite Hio in Hn).
  rewrite <- (Hf Hn). split; [done|]. intros u. pose proof (store_get_spec io _ u _ Hr) as Hg.
  destruct (store_get io u db') as [[o|e] db2]; simpl; [by destruct Hg as [-> _]|].
  by destruct Hg.
Qed.

(** *** Queries *)

Definition state_name (st : LifecycleState) : string := (encode_state st).1.1.1.

(** What a status filter asks of a session whose row was last written at [updated_at]. *)
Definition session_matches (filter : StatusFilter) (l : Lifecycle) (updated_at : string) : Prop :=
  (requested_session_ids filter = [] ∨ l.(Lifecycle.session_id) ∈ requested_session_ids filter) ∧
  (∀ r, filter.(StatusFilter.runtime) = Some r → RuntimeKind_as_str l.(Lifecycle.runtime) = r) ∧
  (∀ st, filter.(StatusFilter.state) = Some st → LOWER (state_name l.(Lifecycle.state)) = LOWER st) ∧
  (∀ t, filter.(StatusFilter.updated_since) = Some t → text_le (to_rfc3339 t) updated_at).

Lemma row_matches_spec filter l sp up :
  row_matches filter (from_lifecycle l sp up) = true ↔ session_matches filter l up.
Proof.
  destruct (from_lifecycle_fields l sp up) as (E1 & E2 & _ & _ & _ & _ & _ & E8).
  assert (LifecycleRow.updated_at (from_lifecycle l sp up) = up) as E9.
  { unfold from_lifecycle. by destruct (encode_state _) as [[[? ?] ?] ?]. }
  unfold row_matches, session_matches, text_le. rewrite E1, E2, E8, E9. fold (state_name l.(Lifecycle.state)).
  rewrite !andb_true_iff, orb_true_iff, !bool_decide_eq_true.
  assert (uuid_to_string <$> requested_session_ids filter = [] ↔ requested_session_ids filter = []) as ->
    by (by destruct (requested_session_ids filter)).
  rewrite list_elem_of_fmap_inj by apply _.
  destruct (StatusFilter.runtime filter), (StatusFilter.state filter), (StatusFilter.updated_since filter);
    rewrite ?String.eqb_eq; naive_solver.
Qed.

Lemma row_of_encoding s db row l :
  row_of s db row l → row = from_lifecycle l row.(LifecycleRow.spawned_at) row.(LifecycleRow.updated_at).
Proof.
  intros (_ & sp & up & -> & _). unfold from_lifecycle.
  by destruct (encode_state _) as [[[? ?] ?] ?].
Qed.

(** C32. When no statement fails, [list] returns, without repetitions, exactly the sessions
    that the filter asks for: those among the requested ids (all of them when none is
    requested), of the requested runtime, whose state has the requested name up to ASCII
    case, and whose row was last written at or after the requested time. *)
Theorem store_list_exact s db filter :
  db_repr s db → (∀ n, db_fault io n = false) →
  ∃ ls, (store_list io filter db).1 = Ok ls ∧ NoDup ls ∧
    ∀ l, l ∈ ls ↔
      s !! l.(Lifecycle.session_id) = Some l ∧
      ∃ row, db.(lifecycle) !! uuid_to_string l.(Lifecycle.session_id) = Some row ∧
             session_matches filter l row.(LifecycleRow.updated_at).
Proof.
  intros Hdb Hio. destruct (decode_rows s db (λ row, row_matches filter row = true) _ Hdb (reflexivity _))
    as (ls & E & Hnd & Hls).
  exists ls. unfold store_list, statement, mbind, M_bind, lift. rewrite Hio. simpl.
  split_and!; [exact E|done|]. intros l. rewrite Hls. split.
  - intros (row & Hr & HP). split; [apply Hr|]. exists row. destruct Hr as (Hl & sp & up & -> & Hk).
    split; [done|]. apply row_matches_spec in HP.
    unfold from_lifecycle in *. by destruct (encode_state _) as [[[? ?] ?] ?].
  - intros (Hl & row & Hk & HP). destruct (session_row_of s db _ l Hdb Hl) as (row' & Hr & _).
    assert (row' = row) as -> by (destruct Hr as (_ & ? & ? & _ & Hk'); congruence).
    exists row. split; [done|]. rewrite (row_of_encoding _ _ _ _ Hr). by apply row_matches_spec.
Qed.

Lemma decide_elem_cons {A} (x n : string) names (u v : A) :
  (if decide (x ∈ n :: names) then u else v) =
  if decide (x = n) then u else if decide (x ∈ names) then u else v.
Proof. repeat case_decide; set_solver. Qed.

Lemma count_groups_spec (f : string → N) names a b c d :
  NoDup names → Forall (λ n, n ∈ ["Forking"; "Running"; "Exited"; "Lost"]) names →
  count_groups ((λ n, (n, f n)) <$> names) (LifecycleCounts.mk a b c d) =
    Ok (LifecycleCounts.mk
          (if decide ("Forking" ∈ names) then f "Forking" else a)
          (if decide ("Running" ∈ names) then f "Running" else b)
          (if decide ("Exited" ∈ names) then f "Exited" else c)
          (if decide ("Lost" ∈ names) then f "Lost" else d)).
Proof.
  revert a b c d. induction names as [|n names IH]; intros a b c d Hnd Hf; [done|].
  apply NoDup_cons in Hnd as [Hn Hnd]. apply Forall_cons_1 in Hf as [Hin Hf].
  rewrite !elem_of_cons in Hin. rewrite fmap_cons. simpl.
  destruct Hin as [->|[->|[->|[->|Hin]]]]; [..|by apply elem_of_nil in Hin];
    simpl; rewrite IH by done; rewrite !decide_elem_cons; simpl;
    repeat first [rewrite decide_False by done | rewrite decide_True by done];
    repeat case_decide; done.
Qed.

Definition count_state (name : string) (s : Sessions) : N :=
  N.of_nat (size (base.filter (λ ul : Uuid * Lifecycle, state_name ul.2.(Lifecycle.state) = name) s)).
Lemma count_rows s db name :
  db_repr s db →
  N.of_nat (length (base.filter (λ row, row.(LifecycleRow.state) = name) (table db))) = count_state name s.
Proof.
  intros Hdb. destruct (decode_rows s db (λ row, row.(LifecycleRow.state) = name) _ Hdb (reflexivity _))
    as (ls & E & Hnd & Hls).
  rewrite <- (try_map_length _ _ _ E). unfold count_state. f_equal.
  rewrite <- (length_fmap (λ l : Lifecycle, (l.(Lifecycle.session_id), l)) ls).
  rewrite <- length_map_to_list. apply Permutation_length, NoDup_Permutation.
  - apply NoDup_fmap_2; [by intros ? ? [= _ ->]|done].
  - apply NoDup_map_to_list.
  - intros [u l]. rewrite elem_of_map_to_list, map_lookup_filter_Some, list_elem_of_fmap. simpl. split.
    + intros (l' & [= -> ->] & Hl). apply Hls in Hl as (row & Hr & HP).
      rewrite (row_of_state _ _ _ _ Hr) in HP. split; [apply Hr|done].
    + intros [Hl HP]. destruct (db_repr_ok _ _ Hdb _ _ Hl) as (<- & _).
      exists l. split; [done|]. apply Hls. destruct (session_row_of s db _ l Hdb Hl) as (row & Hr & _).
      exists row. by rewrite (row_of_state _ _ _ _ Hr).
Qed.

(** When no statement fails, the counts of the status report are the numbers of sessions
    in each of the four states: no state is missing, counted twice or reported as unknown. *)
Theorem lifecycle_counts_exact s db :
  db_repr s db → (∀ n, db_fault io n = false) →
  (store_lifecycle_counts io db).1 =
    Ok (LifecycleCounts.mk (count_state "Forking" s) (count_state "Running" s)
                           (count_state "Exited" s) (count_state "Lost" s)).
Proof.
  intros Hdb Hio. unfold store_lifecycle_counts, statement, mbind, M_bind, lift. rewrite Hio. simpl.
  unfold state_groups.
  set (f := λ n, N.of_nat (length (base.filter (λ row, row.(LifecycleRow.state) = n) (table db)))).
  set (names := remove_dups (LifecycleRow.state <$> table db)).
  assert (∀ n, n ∈ names ↔ ∃ row, row ∈ table db ∧ row.(LifecycleRow.state) = n) as Hn.
  { intros n. unfold names. rewrite elem_of_remove_dups, list_elem_of_fmap. naive_solver. }
  assert (∀ n, (if decide (n ∈ names) then f n else 0%N) = count_state n s) as Hc.
  { intros n. rewrite <- (count_rows s db n Hdb). destruct (decide (n ∈ names)) as [|Hni]; [done|].
    destruct (base.filter _ (table db)) as [|row rows] eqn:E; [done|]. destruct Hni. apply Hn.
    exists row. assert (row ∈ row :: rows) as Hin by left. rewrite <- E in Hin.
    apply list_elem_of_filter in Hin. naive_solver. }
  fold names. rewrite (count_groups_spec f names).
  - by rewrite !Hc.
  - apply NoDup_remove_dups.
  - apply Forall_forall. intros n (row & Ht & <-)%Hn.
    destruct (table_row_of s db row Hdb Ht) as [l Hl]. rewrite (row_of_state _ _ _ _ Hl).
    destruct (Lifecycle.state l) as [| |[]|]; simpl; set_solver.
Qed.
End contract.

(** *** Witnesses *)

Definition quiet_db : DbIo := mkDbIo (λ _, false) (λ _, 0%Z).
Definition empty_db : Db := mkDb ∅ ∅ 0.
Definition sample_lifecycle (st : LifecycleState) : Lifecycle :=
  Lifecycle.mk (mkUuid 7) RuntimeKind.Claude IsolationPolicy.Host st (Some 41%N) (Some 42%N) (Some 5%Z)
    (Some (TmuxAddress.mk "work" 1 2)) None.

Lemma sample_storable st : state_fits st → storable (sample_lifecycle st).
Proof.
  intros Hst. unfold storable, isolation_fits, pid_fits, u32_ok, u32_max, tmux_address_ok; simpl.
  split_and!; done.
Qed.

Lemma empty_db_repr `{External, Json} : db_repr ∅ empty_db.
Proof.
  split_and!; [intros ? ? Hl|intros ? ? Hl|intros ? ? Hl]; simpl in Hl; by rewrite lookup_empty in Hl.
Qed.

Lemma store_refines_map_witness :
  let ops := [OpInsertForking (sample_lifecycle LifecycleState.Forking);
              OpInsertForking (sample_lifecycle LifecycleState.Forking);
              OpUpdate (sample_lifecycle LifecycleState.Running);
              OpDelete (mkUuid 7); OpUpdate (sample_lifecycle LifecycleState.Running)] in
  (@run_script Db (@sqlite_store decimal_external code_json quiet_db) ops empty_db).1 =
    [true; false; true; true; false].
Proof.
  intros ops. assert (Forall op_storable ops) as Hops.
  { repeat apply Forall_cons_2; [..|apply Forall_nil_2]; try done; by apply sample_storable. }
  pose proof (@store_refines_map decimal_external code_json quiet_db ∅ empty_db ops
                (@empty_db_repr decimal_external code_json) Hops) as Hr.
  destruct (run_script ops empty_db) as [bs db']. destruct Hr as [_ Hr].
  destruct (Hr (λ _, eq_refl)) as [-> _]. by vm_compute.
Defined.

(** A table with one running session. *)
Definition sample_sessions : Sessions :=
  <[mkUuid 7 := stored (sample_lifecycle LifecycleState.Running)]> ∅.
Definition sample_db `{External, Json} : Db :=
  set_lifecycle (<[uuid_to_string (mkUuid 7) :=
                     from_lifecycle (sample_lifecycle LifecycleState.Running) "a" "b"]> ∅) empty_db.

Lemma sample_db_repr `{External, Json} : db_repr sample_sessions sample_db.
Proof.
  apply (db_repr_insert ∅ empty_db (sample_lifecycle LifecycleState.Running));
    [apply empty_db_repr|by apply sample_storable].
Qed.

Lemma store_list_exact_witness :
  ∃ ls, (@store_list decimal_external code_json quiet_db
           (StatusFilter.mk None [] None None (Some "rUNNING")) (@sample_db decimal_external code_json)).1
        = Ok ls ∧ sample_lifecycle LifecycleState.Running ∈ ls.
Proof.
  destruct (@store_list_exact decimal_external code_json quiet_db sample_sessions
              (@sample_db decimal_external code_json)
              (StatusFilter.mk None [] None None (Some "rUNNING"))
              (@sample_db_repr decimal_external code_json) (λ _, eq_refl)) as (ls & E & _ & Hls).
  exists ls. split; [exact E|]. apply Hls. split; [apply lookup_insert_eq|]. eexists. split.
  - unfold sample_db, set_lifecycle. cbn [lifecycle]. apply lookup_insert_eq.
  - split; [by left|]. split; [intros r [=]|]. split; [|intros t [=]].
    intros st Hst. injection Hst as <-. by vm_compute.
Defined.

Lemma lifecycle_counts_exact_witness :
  (store_lifecycle_counts quiet_db (@sample_db decimal_external code_json)).1
  = Ok (LifecycleCounts.mk 0 1 0 0).
Proof.
  rewrite (@lifecycle_counts_exact decimal_external code_json quiet_db sample_sessions
             (@sample_db decimal_external code_json) (@sample_db_repr decimal_external code_json) (λ _, eq_refl)).
  by vm_compute.
Defined.
