(* ===== verification/EventLog.v ===== *)
(** * Durable event log (crates/rtm-daemon/src/event_log.rs)

    The log keeps its entries in memory and in the file [events.jsonl], one JSON record per
    line. The world of an [EventLog] is its mutex protected [inner] state and the two files
    it writes. Every call to the file system or a clock takes the next tick of an oracle
    [Io], which may make it fail, a write after any number of bytes; so "the n-th call fails"
    also describes the process being killed there. *)

From Stdlib Require Import Ascii.
From S2P Require Import Prelude RustStr RustPath Types Parsers Json Launch Errors.
From stdpp Require Import options.

Notation EventCursor := N (only parsing).

Definition EVENT_LOG_RETENTION_MIN_AGE_SECS : N := 7 * 24 * 60 * 60.
Definition EVENT_LOG_RETENTION_MIN_EVENTS : nat := N.to_nat 10000.
Definition EVENT_WAIT_MAX_MS : N := 60000.
Definition EVENT_LOG_SYNC_BATCH : N := 32.
Definition EVENT_LOG_SYNC_INTERVAL : N := 100.

Definition clamped_event_wait_ms (wait_ms : option N) : N :=
  match wait_ms with
  | Some value => if (value <? EVENT_WAIT_MAX_MS)%N then value else EVENT_WAIT_MAX_MS
  | None => 0
  end.

Module EventLogEntry.
Record EventLogEntry := mk { seq : EventCursor; ts_ms : N; event : RuntimeEvent }.
End EventLogEntry.
Notation EventLogEntry := EventLogEntry.EventLogEntry.

Module EventLogRecord.
Record EventLogRecord := mk { seq : EventCursor; ts_ms : N; kind : string; payload : Value }.
End EventLogRecord.
Notation EventLogRecord := EventLogRecord.EventLogRecord.

Module EventLogPage.
Record EventLogPage := mk { events : list RuntimeEvent; cursor : EventCursor }.
End EventLogPage.
Notation EventLogPage := EventLogPage.EventLogPage.

Record CursorExpired := mkCursorExpired { oldest : EventCursor }.

Section record.
Context `{External}.

(** The derived [Serialize] and [Deserialize] of [EventLogRecord]. *)
Definition EventLogRecord_to_value (r : EventLogRecord) : Value :=
  Object [("seq", Number (Z.of_N r.(EventLogRecord.seq)));
          ("ts_ms", Number (Z.of_N r.(EventLogRecord.ts_ms)));
          ("kind", Str r.(EventLogRecord.kind));
          ("payload", r.(EventLogRecord.payload))].

Definition EventLogRecord_from_value (v : Value) : result string EventLogRecord :=
  vs ← struct_values ["seq"; "ts_ms"; "kind"; "payload"] v;
  match vs with
  | [a; b; c; d] =>
      seq ← required "seq" u64_from_value a;
      ts_ms ← required "ts_ms" u64_from_value b;
      kind ← required "kind" string_from_value c;
      payload ← required "payload" Ok d;
      Ok (EventLogRecord.mk seq ts_ms kind payload)
  | _ => Err "invalid length"
  end.

(** [Map::remove]. *)
Definition remove_field (name : string) (fields : list (string * Value))
    : option Value * list (string * Value) :=
  (snd <$> find (λ kv, String.eqb kv.1 name) fields, filter (λ kv, kv.1 ≠ name) fields).

Definition from_entry (entry : EventLogEntry) : result Error EventLogRecord :=
  match RuntimeEvent_to_value entry.(EventLogEntry.event) with
  | Object object =>
      let '(kind, object) := remove_field "type" object in
      match kind with
      | Some (Str kind) =>
          let '(payload, _) := remove_field "payload" object in
          Ok (EventLogRecord.mk entry.(EventLogEntry.seq) entry.(EventLogEntry.ts_ms) kind
                (default Null payload))
      | _ => Err (anyhow "event encoded without type")
      end
  | _ => Err (anyhow "event encoded as non-object")
  end.

Definition into_entry (self : EventLogRecord) : result Error EventLogEntry :=
  event ← context "failed to decode event log record"
            (map_err anyhow
               (RuntimeEvent_from_value (Object [("type", Str self.(EventLogRecord.kind));
                                                 ("payload", self.(EventLogRecord.payload))])));
  Ok (EventLogEntry.mk self.(EventLogRecord.seq) self.(EventLogRecord.ts_ms) event).

Definition entry_ok (e : EventLogEntry) : Prop :=
  u64_ok e.(EventLogEntry.seq) ∧ u64_ok e.(EventLogEntry.ts_ms) ∧ event_ok e.(EventLogEntry.event).

Lemma from_entry_roundtrip e :
  entry_ok e → ∃ r, from_entry e = Ok r ∧ into_entry r = Ok e ∧
    message_ok EventLogRecord_to_value EventLogRecord_from_value r.
Proof.
  destruct e as [seq ts ev]. intros (Hs & Ht & He). simpl in *.
  pose proof (RuntimeEvent_json_ok ev He) as Hj.
  destruct (RuntimeEvent_payload_roundtrip ev He) as (kind & payload & E & Hp).
  unfold from_entry. simpl. rewrite E in *. simpl in *. eexists. split; [reflexivity|]. split.
  - unfold into_entry. simpl. by rewrite Hp.
  - split.
    + simpl in *. unfold u64_ok, u64_max, i64_min in *. intuition lia.
    + unfold EventLogRecord_from_value. simpl. rewrite u64_value_roundtrip by done. simpl.
      by rewrite u64_value_roundtrip.
Qed.
End record.

(** ** The world *)

(** What the n-th call to the file system or a clock does: it fails after writing that many
    bytes, the wall clock shows that many milliseconds since the epoch, the monotonic clock
    that many milliseconds. *)
Record Io := mkIo { fault : nat → option nat; wall : nat → Z; monotonic : nat → N }.

Record Disk := mkDisk { log_file : option string; tmp_file : option string }.

(** [attached] tells whether the append handle [inner.file] is the file at the log's path
    (a replaced file stays open, but unreachable). *)
Record Log := mkLog {
  disk : Disk;
  attached : bool;
  events : list EventLogEntry;
  next_seq : EventCursor;
  events_since_sync : N;
  last_sync : N;
  tick : nat }.

Definition set_disk (d : Disk) (w : Log) : Log :=
  mkLog d w.(attached) w.(events) w.(next_seq) w.(events_since_sync) w.(last_sync) w.(tick).
Definition set_attached (b : bool) (w : Log) : Log :=
  mkLog w.(disk) b w.(events) w.(next_seq) w.(events_since_sync) w.(last_sync) w.(tick).
Definition set_events (es : list EventLogEntry) (w : Log) : Log :=
  mkLog w.(disk) w.(attached) es w.(next_seq) w.(events_since_sync) w.(last_sync) w.(tick).
Definition set_next_seq (n : EventCursor) (w : Log) : Log :=
  mkLog w.(disk) w.(attached) w.(events) n w.(events_since_sync) w.(last_sync) w.(tick).
Definition set_sync (n t : N) (w : Log) : Log :=
  mkLog w.(disk) w.(attached) w.(events) w.(next_seq) n t w.(tick).
Definition set_tick (n : nat) (w : Log) : Log :=
  mkLog w.(disk) w.(attached) w.(events) w.(next_seq) w.(events_since_sync) w.(last_sync) n.

Section event_log.
Context `{External, Json}.
Variable io : Io.
(** The log's path, [data_dir.join(events.jsonl)]. *)
Variable path : string.
(** [path.with_extension(jsonl.tmp)]. *)
Definition tmp : string := path +:+ ".tmp".

Notation LogM := (M Log Error).

(** The next tick. *)
Definition next_tick : LogM nat := λ w, (Ok w.(tick), set_tick (S w.(tick)) w).

(** A call that succeeds or fails without other effect. *)
Definition io_call (message : string) : LogM unit :=
  n ← next_tick;
  match io.(fault) n with Some _ => throw (anyhow message) | None => mret tt end.

(** A write through the append handle, which may stop half way. *)
Definition append_text (text : string) (w : Log) : Log :=
  if w.(attached) then
    set_disk (mkDisk (Some (default "" w.(disk).(log_file) +:+ text)) w.(disk).(tmp_file)) w
  else w.
Definition write_log (message text : string) : LogM unit :=
  n ← next_tick;
  match io.(fault) n with
  | Some k => _ ← modify (append_text (String.substring 0 k text)); throw (anyhow message)
  | None => modify (append_text text)
  end.

Definition tmp_text (text : string) (w : Log) : Log :=
  set_disk (mkDisk w.(disk).(log_file) (Some (default "" w.(disk).(tmp_file) +:+ text))) w.
Definition write_tmp (message text : string) : LogM unit :=
  n ← next_tick;
  match io.(fault) n with
  | Some k => _ ← modify (tmp_text (String.substring 0 k text)); throw (anyhow message)
  | None => modify (tmp_text text)
  end.

Definition current_timestamp_ms : LogM N :=
  n ← next_tick;
  let ms := io.(wall) n in
  if decide (0 ≤ ms)%Z then mret (Z.to_N ms)
  else throw (anyhow "current timestamp is before Unix epoch").

Definition instant_now : LogM N := n ← next_tick; mret (io.(monotonic) n).

(** ** Opening *)

Definition open_append_file : LogM unit :=
  _ ← io_call ("failed to open " +:+ to_string_lossy path);
  _ ← modify (λ w, set_disk (mkDisk (Some (default "" w.(disk).(log_file))) w.(disk).(tmp_file)) w);
  modify (set_attached true).

(** The bytes up to and including the last newline. *)
Fixpoint keep_lines (bytes : string) : string :=
  match bytes with
  | EmptyString => EmptyString
  | String a s =>
      let kept := keep_lines s in
      if decide (a = newline ∨ kept ≠ "") then String a kept else EmptyString
  end.

Fixpoint last_byte_newline (bytes : string) : bool :=
  match bytes with
  | EmptyString => true
  | String a EmptyString => bool_decide (a = newline)
  | String _ s => last_byte_newline s
  end.

Definition recover_partial_tail : LogM unit :=
  n ← next_tick;
  file ← gets (λ w, w.(disk).(log_file));
  match io.(fault) n, file with
  | Some _, _ | _, None => mret tt
  | None, Some bytes =>
      if last_byte_newline bytes then mret tt else
      _ ← io_call ("failed to open " +:+ to_string_lossy path +:+ " for recovery");
      _ ← io_call ("failed to truncate " +:+ to_string_lossy path);
      modify (λ w, set_disk (mkDisk (Some (keep_lines bytes)) w.(disk).(tmp_file)) w)
  end.

(** The lines of [BufRead::lines], whose line ends [\n] and [\r\n] [strip_line_end] takes off. *)
Definition strip_line_end (line : string) : string :=
  match reverse (bytes line) with
  | a :: rest =>
      if decide (a = newline) then
        match rest with
        | b :: rest' => if decide (b = "013"%char) then of_bytes (reverse rest') else of_bytes (reverse rest)
        | [] => ""
        end
      else line
  | [] => ""
  end.

Fixpoint lines (fuel : nat) (stream : string) : list string :=
  match fuel with
  | 0 => []
  | S fuel =>
      if String.eqb stream "" then [] else
      let '(line, rest) := read_until_newline stream in line :: lines fuel rest
  end.
Definition file_lines (stream : string) : list string := lines (String.length stream) stream.

(** The UTF-8 check is part of reading a line. *)
Definition parse_entry (line : string) : result Error EventLogEntry :=
  if negb (utf8_valid line) then
    context "failed to read event log line" (Err (anyhow "stream did not contain valid UTF-8"))
  else
    record ← context "failed to parse event log line"
               (map_err anyhow (from_str EventLogRecord_from_value (strip_line_end line)));
    into_entry record.

Definition read_entries : LogM (list EventLogEntry) :=
  _ ← open_append_file;
  _ ← io_call "failed to read event log line";
  file ← gets (λ w, default "" w.(disk).(log_file));
  lift (try_map parse_entry (file_lines file)).

Definition next_seq_after (es : list EventLogEntry) : EventCursor :=
  match last es with
  | Some entry => u64_saturating_add entry.(EventLogEntry.seq) 1
  | None => 1
  end.

(** [EventLog::open]: the state of any earlier process but its files is gone. *)
Definition open (w : Log) : result Error unit * Log :=
  (_ ← io_call ("failed to create " +:+ to_string_lossy (default "" (parent path)));
   _ ← recover_partial_tail;
   es ← read_entries;
   _ ← open_append_file;
   now ← instant_now;
   _ ← modify (set_events es);
   _ ← modify (set_next_seq (next_seq_after es));
   modify (set_sync 0 now)) w.

(** ** Appending *)

Definition json_text (record : EventLogRecord) : string :=
  json_to_string (EventLogRecord_to_value record).

Definition sync_if_due : LogM unit :=
  since ← gets events_since_sync;
  last ← gets last_sync;
  early ← (if (since <? EVENT_LOG_SYNC_BATCH)%N
           then now ← instant_now; mret (u64_saturating_sub now last <? EVENT_LOG_SYNC_INTERVAL)%N
           else mret false);
  if (early : bool) then mret tt else
  _ ← io_call "failed to sync event log";
  now ← instant_now;
  modify (set_sync 0 now).

Fixpoint take_while_old (now_ms max_age_ms : N) (es : list EventLogEntry) : nat :=
  match es with
  | [] => 0
  | entry :: es =>
      if (max_age_ms <? u64_saturating_sub now_ms entry.(EventLogEntry.ts_ms))%N
      then S (take_while_old now_ms max_age_ms es) else 0
  end.

Definition retain_from_index (es : list EventLogEntry) : LogM (option nat) :=
  if decide (length es < EVENT_LOG_RETENTION_MIN_EVENTS) then mret None else
  let extra_events := length es - EVENT_LOG_RETENTION_MIN_EVENTS in
  now_ms ← current_timestamp_ms;
  let max_age_ms := (EVENT_LOG_RETENTION_MIN_AGE_SECS * 1000)%N in
  let old_events := take_while_old now_ms max_age_ms es in
  let compact_count := Nat.min extra_events old_events in
  mret (if decide (0 < compact_count) then Some compact_count else None).

Fixpoint write_retained (retained : list EventLogEntry) : LogM unit :=
  match retained with
  | [] => mret tt
  | entry :: retained =>
      record ← lift (from_entry entry);
      _ ← write_tmp "failed to compact event log" (json_text record);
      _ ← write_tmp "failed to compact event log newline" (String newline "");
      write_retained retained
  end.

(** [split_off] empties the in memory log of the entries to keep before the first fallible
    step; they are put back at the end. *)
Definition compact_if_due : LogM unit :=
  es ← gets events;
  retain_from ← retain_from_index es;
  match retain_from with
  | None => mret tt
  | Some retain_from =>
      let retained := drop retain_from es in
      _ ← modify (set_events (take retain_from es));
      _ ← io_call ("failed to create " +:+ to_string_lossy tmp);
      _ ← modify (λ w, set_disk (mkDisk w.(disk).(log_file) (Some "")) w);
      _ ← write_retained retained;
      _ ← io_call ("failed to sync " +:+ to_string_lossy tmp);
      _ ← io_call ("failed to replace " +:+ to_string_lossy path);
      _ ← modify (λ w, set_attached false (set_disk (mkDisk w.(disk).(tmp_file) None) w));
      _ ← open_append_file;
      _ ← modify (set_events retained);
      now ← instant_now;
      modify (set_sync 0 now)
  end.

(** Everything [append] does under the lock; the waiters are notified after it when, and
    only when, it succeeds. *)
Definition append (event : RuntimeEvent) : LogM RuntimeEvent :=
  seq ← gets next_seq;
  ts_ms ← current_timestamp_ms;
  let entry := EventLogEntry.mk seq ts_ms event in
  _ ← modify (set_next_seq (u64_saturating_add seq 1));
  record ← lift (from_entry entry);
  _ ← write_log "failed to encode event log" (json_text record);
  _ ← write_log "failed to append event log newline" (String newline "");
  _ ← modify (λ w, set_events (w.(events) ++ [entry]) w);
  _ ← modify (λ w, set_sync (w.(events_since_sync) + 1) w.(last_sync) w);
  _ ← sync_if_due;
  _ ← compact_if_due;
  mret event.
End event_log.

(** ** Reading *)

Definition oldest_valid_cursor (es : list EventLogEntry) : option EventCursor :=
  (λ entry, u64_saturating_sub entry.(EventLogEntry.seq) 1) <$> head es.

Definition events_since (w : Log) (since : option EventCursor) : result CursorExpired EventLogPage :=
  let cursor := default 0%N since in
  let page :=
    EventLogPage.mk
      (EventLogEntry.event <$>
         filter (λ entry, (cursor < entry.(EventLogEntry.seq))%N) w.(events))
      (match last w.(events) with Some entry => entry.(EventLogEntry.seq) | None => cursor end) in
  match oldest_valid_cursor w.(events) with
  | Some oldest => if (cursor <? oldest)%N then Err (mkCursorExpired oldest) else Ok page
  | None => Ok page
  end.

(** ** File contents *)

Section file_lemmas.
Context `{External, Json}.

Definition entry_line (e : EventLogEntry) : string :=
  match from_entry e with Ok r => json_text r +:+ String newline "" | Err _ => "" end.

Definition file_of (es : list EventLogEntry) : string := foldr (λ e s, entry_line e +:+ s) "" es.

Lemma file_of_app es es' : file_of (es ++ es') = file_of es +:+ file_of es'.
Proof.
  induction es as [|e es IH]; simpl; [by rewrite str_app_nil_l|]. by rewrite IH, str_app_assoc.
Qed.

Lemma file_of_singleton e : file_of [e] = entry_line e.
Proof. simpl. apply str_app_nil_r. Qed.

Lemma json_text_shape r :
  newline ∉ bytes (json_text r) ∧
  ∃ s a, json_text r = s +:+ String a "" ∧ visible a = true.
Proof. split; [apply json_no_newline|apply json_last]. Qed.

Lemma strip_line_end_visible text :
  (∃ s a, text = s +:+ String a "" ∧ visible a = true) →
  strip_line_end (text +:+ String newline "") = text.
Proof.
  intros (s & a & E & Ha).
  unfold strip_line_end. rewrite bytes_app, reverse_app. simpl.
  rewrite E at 1. rewrite bytes_app, reverse_app. simpl.
  rewrite decide_False by (intros ->; discriminate).
  rewrite <- (of_bytes_bytes text), E. f_equal.
  by rewrite bytes_of_bytes, reverse_involutive, bytes_app.
Qed.

Lemma strip_line_end_text r : strip_line_end (json_text r +:+ String newline "") = json_text r.
Proof. apply strip_line_end_visible, json_text_shape. Qed.

Lemma parse_entry_line e : entry_ok e → parse_entry (entry_line e) = Ok e.
Proof.
  intros He. destruct (from_entry_roundtrip e He) as (r & Hr & Hi & Hm).
  unfold parse_entry, entry_line. rewrite Hr. unfold json_text at 1. rewrite json_utf8. simpl.
  rewrite strip_line_end_text. unfold json_text. by rewrite (from_str_print _ _ _ Hm).
Qed.

Lemma read_until_newline_line e rest :
  entry_ok e → read_until_newline (entry_line e +:+ rest) = (entry_line e, rest).
Proof.
  intros He. destruct (from_entry_roundtrip e He) as (r & Hr & _).
  unfold entry_line. rewrite Hr, str_app_assoc.
  change (String newline "" +:+ rest) with (String newline rest).
  apply read_until_newline_app, json_text_shape.
Qed.

Lemma entry_line_length e : entry_ok e → 0 < String.length (entry_line e).
Proof.
  intros He. destruct (from_entry_roundtrip e He) as (r & Hr & _).
  unfold entry_line. rewrite Hr. destruct (json_text r); simpl; lia.
Qed.

Lemma str_length_app (s t : string) : String.length (s +:+ t) = String.length s + String.length t.
Proof. induction s as [|a s IH]; [done|]. rewrite str_app_cons. simpl. by rewrite IH. Qed.

Lemma lines_file_of es fuel :
  Forall entry_ok es → String.length (file_of es) ≤ fuel → lines fuel (file_of es) = entry_line <$> es.
Proof.
  intros Hok. revert fuel. induction Hok as [|e es He _ IH]; intros fuel Hf; simpl.
  - by destruct fuel.
  - simpl in Hf. rewrite str_length_app in Hf. pose proof (entry_line_length e He) as Hl.
    destruct fuel as [|fuel]; [lia|]. cbn [lines].
    destruct (String_eqb_spec' (entry_line e +:+ file_of es) "") as [E|_].
    { apply (f_equal String.length) in E. rewrite str_length_app in E. simpl in E. lia. }
    rewrite read_until_newline_line by done. rewrite IH by lia. done.
Qed.

Lemma read_file_of es :
  Forall entry_ok es → try_map parse_entry (file_lines (file_of es)) = Ok es.
Proof.
  intros Hok. unfold file_lines. rewrite lines_file_of by done.
  apply try_map_Ok. induction Hok; simpl; constructor; auto using parse_entry_line.
Qed.

Lemma keep_lines_no_newline p : newline ∉ bytes p → keep_lines p = "".
Proof.
  induction p as [|a p IH]; intros Hn; simpl; [done|].
  simpl in Hn. apply not_elem_of_cons in Hn as [Ha Hn]. rewrite IH by done.
  rewrite decide_False; [done|]. intros [?|?]; [by subst|done].
Qed.

Lemma keep_lines_line s rest :
  keep_lines (s +:+ String newline rest) = s +:+ String newline (keep_lines rest).
Proof.
  induction s as [|a s IH].
  - done.
  - rewrite !str_app_cons. simpl. rewrite IH, decide_True; [done|].
    right. by destruct s.
Qed.

Lemma keep_lines_file_of es p :
  Forall entry_ok es → newline ∉ bytes p → keep_lines (file_of es +:+ p) = file_of es.
Proof.
  intros Hok Hp. induction Hok as [|e es He _ IH]; simpl.
  - rewrite str_app_nil_l. by apply keep_lines_no_newline.
  - destruct (from_entry_roundtrip e He) as (r & Hr & _). unfold entry_line. rewrite Hr.
    rewrite !str_app_assoc.
    change (String newline "" +:+ file_of es +:+ p) with (String newline (file_of es +:+ p)).
    change (String newline "" +:+ file_of es) with (String newline (file_of es)).
    by rewrite keep_lines_line, IH.
Qed.

Lemma last_byte_newline_app s t :
  t ≠ "" → last_byte_newline (s +:+ t) = last_byte_newline t.
Proof.
  intros Ht. induction s as [|a s IH]; [by rewrite str_app_nil_l|].
  rewrite str_app_cons, <- IH. destruct (s +:+ t) eqn:E; [|done].
  destruct s; [by rewrite str_app_nil_l in E|done].
Qed.

Lemma last_byte_newline_partial p :
  p ≠ "" → newline ∉ bytes p → last_byte_newline p = false.
Proof.
  induction p as [|a p IH]; [done|]. intros _ Hn. simpl in Hn.
  apply not_elem_of_cons in Hn as [Ha Hn]. destruct p as [|b p]; [|by apply IH].
  simpl. by rewrite bool_decide_eq_false_2.
Qed.

Lemma last_byte_newline_file_of es : Forall entry_ok es → last_byte_newline (file_of es) = true.
Proof.
  induction 1 as [|e es He _ IH]; simpl; [done|].
  destruct (decide (file_of es = "")) as [->|Hne].
  - rewrite str_app_nil_r. destruct (from_entry_roundtrip e He) as (r & Hr & _).
    unfold entry_line. rewrite Hr. by rewrite last_byte_newline_app.
  - by rewrite last_byte_newline_app.
Qed.

(** A file with the entries [es], then possibly an unfinished line. *)
Definition recoverable (es : list EventLogEntry) (w : Log) : Prop :=
  ∃ partial, newline ∉ bytes partial ∧ w.(disk).(log_file) = Some (file_of es +:+ partial).

Lemma substring_no_newline k s : newline ∉ bytes s → newline ∉ bytes (String.substring 0 k s).
Proof.
  revert k. induction s as [|a s IH]; intros k Hn; destruct k; simpl in *; try done;
    try apply not_elem_of_nil.
  apply not_elem_of_cons in Hn as [Ha Hn]. apply not_elem_of_cons. auto.
Qed.
End file_lemmas.

(** ** The operations, against any behaviour of the file system *)

Section operations.
Context `{External, Json}.
Variable io : Io.
Variable path : string.

(** Some call failed, or the clock was before the epoch. *)
Definition io_failed : Prop := ∃ n, is_Some (io.(fault) n) ∨ (io.(wall) n < 0)%Z.

(** The fields that the operations are about; [tmp_file], the sync counters and the tick
    are free. *)
Definition st (text : string) (es : list EventLogEntry) (att : bool) (seq : N) (w : Log) : Prop :=
  w.(disk).(log_file) = Some text ∧ w.(events) = es ∧ w.(attached) = att ∧ w.(next_seq) = seq.

Definition insensitive (P : Log → Prop) : Prop := ∀ w n, P w → P (set_tick n w).

Lemma st_insensitive text es att seq : insensitive (st text es att seq).
Proof. by intros w n. Qed.

Lemma next_tick_spec P : insensitive P → hoare P next_tick (λ _, P) (λ _ _, False).
Proof. intros HP w Hw. by apply HP. Qed.

Lemma io_call_spec P msg :
  insensitive P → hoare P (io_call io msg) (λ _, P) (λ _ w, P w ∧ io_failed).
Proof.
  intros HP w Hw. unfold io_call, next_tick, mbind, M_bind, throw, mret, M_ret. simpl.
  destruct (fault io (tick w)) eqn:E; [|by apply HP].
  split; [by apply HP|]. exists (tick w). left. rewrite E. eauto.
Qed.

Lemma timestamp_spec P :
  insensitive P →
  hoare P (current_timestamp_ms io) (λ ts w, P w ∧ ∃ n, ts = Z.to_N (io.(wall) n))
    (λ _ w, P w ∧ io_failed).
Proof.
  intros HP w Hw. unfold current_timestamp_ms, next_tick, mbind, M_bind, throw, mret, M_ret. simpl.
  case_decide; (split; [by apply HP|]); [by eexists|]. exists (tick w). right. lia.
Qed.

Lemma instant_spec P : insensitive P → hoare P (instant_now io) (λ _, P) (λ _ _, False).
Proof. intros HP w Hw. by apply HP. Qed.

Lemma write_log_spec text0 es seq msg text :
  hoare (st text0 es true seq) (write_log io msg text)
    (λ _, st (text0 +:+ text) es true seq)
    (λ _ w, io_failed ∧ ∃ k, st (text0 +:+ String.substring 0 k text) es true seq w).
Proof.
  intros w (Hf & He & Ha & Hs).
  unfold write_log, next_tick, mbind, M_bind, throw, modify, append_text. simpl.
  destruct (fault io (tick w)) as [k|] eqn:E; simpl; rewrite Ha; simpl.
  - split; [exists (tick w); left; rewrite E; eauto|]. exists k. unfold st. simpl. by rewrite Hf.
  - unfold st. simpl. by rewrite Hf.
Qed.

Lemma sync_spec text es seq :
  hoare (st text es true seq) (sync_if_due io) (λ _, st text es true seq)
    (λ _ w, st text es true seq w ∧ io_failed).
Proof.
  unfold sync_if_due. apply hoare_gets. intros since. apply hoare_gets. intros last.
  eapply (hoare_try _ _ _ (λ _, st text es true seq) _ _ (λ _ _, False)); [|done|].
  { case_match; [|apply hoare_ret; by intros ? [[? ?] ?]].
    apply (hoare_bind _ _ _ (λ _, st text es true seq)); [|intros now; by apply hoare_ret].
    eapply hoare_conseq; [apply instant_spec, st_insensitive|by intros ? [[? ?] ?]|by intros ? ? ?|done]. }
  intros [|]; [by apply hoare_ret|].
  eapply hoare_bind; [apply io_call_spec, st_insensitive|]. intros [].
  eapply hoare_bind.
  { eapply hoare_conseq; [apply instant_spec, st_insensitive|done|done|done]. }
  intros now'. by apply hoare_modify.
Qed.

(** What a compaction may drop: entries beyond the newest [EVENT_LOG_RETENTION_MIN_EVENTS]
    whose age exceeds the retention age at some moment of the clock. *)
Definition droppable (es : list EventLogEntry) (k : nat) : Prop :=
  (0 < k → k + EVENT_LOG_RETENTION_MIN_EVENTS ≤ length es) ∧
  ∃ n, Forall (λ e, (e.(EventLogEntry.ts_ms) + EVENT_LOG_RETENTION_MIN_AGE_SECS * 1000 <
                     Z.to_N (io.(wall) n))%N) (take k es).

Lemma droppable_0 es : droppable es 0.
Proof. split; [lia|]. exists 0. by rewrite take_0. Qed.

Lemma take_while_old_spec now max es k :
  k ≤ take_while_old now max es →
  Forall (λ e, (e.(EventLogEntry.ts_ms) + max < now)%N) (take k es).
Proof.
  revert k. induction es as [|e es IH]; intros k; simpl; [by rewrite take_nil|].
  case_match eqn:E; destruct k as [|k]; intros Hk; simpl; try lia; constructor.
  - apply N.ltb_lt in E. unfold u64_saturating_sub in E. lia.
  - apply IH. lia.
Qed.

Lemma take_while_old_max now max es k :
  k ≤ length es →
  Forall (λ e, (e.(EventLogEntry.ts_ms) + max < now)%N) (take k es) → k ≤ take_while_old now max es.
Proof.
  revert k. induction es as [|e es IH]; intros [|k]; simpl; try lia.
  intros Hk [He Hes]%Forall_cons_1.
  assert ((max <? u64_saturating_sub now (EventLogEntry.ts_ms e))%N = true) as ->
    by (apply N.ltb_lt; unfold u64_saturating_sub; lia).
  specialize (IH k ltac:(lia) Hes). lia.
Qed.

Lemma retain_from_spec P es :
  insensitive P →
  hoare P (retain_from_index io es)
    (λ o w, P w ∧ match o with Some k => 0 < k ∧ droppable es k | None => True end)
    (λ _ w, P w ∧ io_failed).
Proof.
  intros HP. unfold retain_from_index. case_decide as Hl; [by apply hoare_ret|].
  eapply hoare_bind; [by apply timestamp_spec|]. intros now. apply hoare_ret.
  intros w [Hw [n ->]]. case_decide as Hk; [|done]. split_and!; [done|lia|]. split.
  - unfold EVENT_LOG_RETENTION_MIN_EVENTS in *. lia.
  - exists n. apply take_while_old_spec. lia.
Qed.

(** [st] with the temporary file as well. *)
Definition st_tmp (text t : string) (es : list EventLogEntry) (att : bool) (seq : N) (w : Log) : Prop :=
  st text es att seq w ∧ w.(disk).(tmp_file) = Some t.

Lemma write_tmp_spec text t es seq msg line :
  hoare (st_tmp text t es true seq) (write_tmp io msg line)
    (λ _, st_tmp text (t +:+ line) es true seq)
    (λ _ w, st text es true seq w ∧ io_failed).
Proof.
  intros w [(Hf & He & Ha & Hs) Ht].
  unfold write_tmp, next_tick, mbind, M_bind, throw, modify, tmp_text. simpl.
  destruct (fault io (tick w)) as [k|] eqn:E; simpl.
  - split; [done|]. exists (tick w). left. rewrite E. eauto.
  - unfold st_tmp, st. simpl. by rewrite Ht.
Qed.

Lemma write_retained_spec text t es seq retained :
  Forall entry_ok retained →
  hoare (st_tmp text t es true seq) (write_retained io retained)
    (λ _, st_tmp text (t +:+ file_of retained) es true seq)
    (λ _ w, st text es true seq w ∧ io_failed).
Proof.
  intros Hok. revert t. induction Hok as [|e retained He _ IH]; intros t; simpl.
  - apply hoare_ret. by rewrite str_app_nil_r.
  - destruct (from_entry_roundtrip e He) as (r & Hr & _).
    unfold entry_line. rewrite Hr. apply hoare_lift; [|done]. intros ? [= <-].
    eapply hoare_bind; [apply write_tmp_spec|]. intros [].
    eapply hoare_bind; [apply write_tmp_spec|]. intros [].
    replace (t +:+ (json_text r +:+ String newline "") +:+ file_of retained)
      with (((t +:+ json_text r) +:+ String newline "") +:+ file_of retained)
      by (by rewrite !str_app_assoc).
    apply IH.
Qed.

Lemma open_append_file_spec text es seq att :
  hoare (st text es att seq) (open_append_file io path) (λ _, st text es true seq)
    (λ _ w, st text es att seq w ∧ io_failed).
Proof.
  unfold open_append_file. eapply hoare_bind; [apply io_call_spec, st_insensitive|]. intros [].
  eapply hoare_bind; [apply (hoare_modify _ _ (λ _, st text es att seq))|].
  - intros w (Hf & ? & ? & ?). unfold st. simpl. by rewrite Hf.
  - intros []. apply hoare_modify. by intros w (? & ? & ? & ?).
Qed.

(** Old entries may be gone from the file, and the others are whole. *)
Definition compacted (es : list EventLogEntry) (w : Log) : Prop :=
  io_failed ∧ ∃ k, droppable es k ∧ recoverable (drop k es) w.

Lemma compacted_drop es k es' att seq w :
  droppable es k → st (file_of (drop k es)) es' att seq w ∧ io_failed → compacted es w.
Proof.
  intros Hk [(Hf & _) ?]. split; [done|]. exists k. split; [done|]. exists "".
  split; [apply not_elem_of_nil|]. by rewrite str_app_nil_r.
Qed.

Lemma compacted_none es es' att seq w : st (file_of es) es' att seq w ∧ io_failed → compacted es w.
Proof. intros Hw. apply (compacted_drop es 0 es' att seq); [apply droppable_0|by rewrite drop_0]. Qed.

(** Compaction replaces the file by the retained entries or leaves it alone; the memory is
    only right when it succeeds. *)
Lemma compact_spec es seq :
  Forall entry_ok es →
  hoare (st (file_of es) es true seq) (compact_if_due io path)
    (λ _ w, ∃ k, droppable es k ∧ st (file_of (drop k es)) (drop k es) true seq w)
    (λ _, compacted es).
Proof.
  intros Hok. unfold compact_if_due. apply hoare_gets. intros es0.
  apply (hoare_pure (es0 = es)); [by intros w [(_ & <- & _) <-]|]. intros ->.
  eapply hoare_try; [eapply hoare_conseq;
    [apply (retain_from_spec (st (file_of es) es true seq) es), st_insensitive|by intros ? [? ?]|
     intros a w Hw; exact Hw|intros e w Hw; exact Hw]|intros e w; apply compacted_none|].
  intros [k|]; cbn beta iota.
  2: { apply hoare_ret. intros w [Hw _]. exists 0. rewrite drop_0. split; [apply droppable_0|done]. }
  apply (hoare_pure (droppable es k)); [by intros w (_ & _ & ?)|]. intros Hk.
  eapply hoare_bind; [apply (hoare_modify _ _ (λ _, st (file_of es) (take k es) true seq))|intros []].
  { by intros w [(? & ? & ? & ?) _]. }
  eapply hoare_try; [apply io_call_spec, st_insensitive|intros e w; apply compacted_none|intros []].
  eapply hoare_bind; [apply (hoare_modify _ _ (λ _, st_tmp (file_of es) "" (take k es) true seq))|intros []].
  { intros w (? & ? & ? & ?). by split. }
  eapply hoare_try; [apply (write_retained_spec (file_of es) "" (take k es) seq (drop k es)),
    Forall_drop, Hok|intros e w; apply compacted_none|intros []]. cbn beta.
  assert (insensitive (st_tmp (file_of es) ("" +:+ file_of (drop k es)) (take k es) true seq)) as Hins
    by (intros w n [? ?]; by split).
  do 2 (eapply hoare_try; [by apply io_call_spec|
    intros e w [[Hw _] ?]; by apply (compacted_none es (take k es) true seq)|intros []]).
  eapply hoare_bind;
    [apply (hoare_modify _ _ (λ _, st (file_of (drop k es)) (take k es) false seq))|intros []].
  { intros w [(? & ? & ? & ?) Ht]. unfold st. simpl. by rewrite Ht. }
  eapply hoare_try; [apply open_append_file_spec|intros e w; by apply compacted_drop|intros []].
  eapply hoare_bind; [apply (hoare_modify _ _ (λ _, st (file_of (drop k es)) (drop k es) true seq))|intros []].
  { by intros w (? & ? & ? & ?). }
  eapply hoare_try; [apply instant_spec, st_insensitive|done|].
  intros now. apply hoare_modify. intros w Hw. by exists k.
Qed.

Definition no_fault : Prop := ∀ n, io.(fault) n = None.

(** The clock of the process is within the range of its type. *)
Definition wall_ok : Prop := ∀ n, (io.(wall) n ≤ i64_max)%Z.

(** What [append] may leave: the entry at the end, and old entries dropped. *)
Definition appended (es : list EventLogEntry) (seq : N) (event : RuntimeEvent)
    (es' : list EventLogEntry) : Prop :=
  ∃ ts k, let es1 := es ++ [EventLogEntry.mk seq ts event] in
          es' = drop k es1 ∧ droppable es1 k.

(** What a failed [append] leaves on disk: the entries before it, perhaps followed by an
    unfinished line, or what it may leave. *)
Definition torn (es : list EventLogEntry) (seq : N) (event : RuntimeEvent) (w : Log) : Prop :=
  io_failed ∧ ∃ es', recoverable es' w ∧ Forall entry_ok es' ∧ (es' = es ∨ appended es seq event es').

Lemma torn_before es seq event text es0 att seq' w :
  Forall entry_ok es → newline ∉ bytes text → st (file_of es +:+ text) es0 att seq' w ∧ io_failed →
  torn es seq event w.
Proof. intros Hok Hn [(Hf & _) Hio]. split; [done|]. exists es. split; [by exists text|]. auto. Qed.

Lemma torn_after es seq event ts w :
  let es1 := es ++ [EventLogEntry.mk seq ts event] in
  Forall entry_ok es1 → compacted es1 w → torn es seq event w.
Proof.
  intros es1 Hok (Hio & k & Hk & Hw). split; [done|]. exists (drop k es1). split; [done|].
  split; [by apply Forall_drop|]. right. by exists ts, k.
Qed.

(** The line of an entry, which may stop anywhere. *)
Lemma write_entry_spec es seq event ts seq' r :
  let entry := EventLogEntry.mk seq ts event in
  let es1 := es ++ [entry] in
  Forall entry_ok es1 → from_entry entry = Ok r →
  hoare (st (file_of es) es true seq')
    (_ ← write_log io "failed to encode event log" (json_text r);
     write_log io "failed to append event log newline" (String newline ""))
    (λ _, st (file_of es1) es true seq') (λ _, torn es seq event).
Proof.
  intros entry es1 Hok1 Hr. pose proof (proj1 (proj1 (Forall_app _ _ _) Hok1)) as Hok.
  destruct (json_text_shape r) as [Hnl _].
  assert ((file_of es +:+ json_text r) +:+ String newline "" = file_of es1) as Hfile.
  { unfold es1. rewrite file_of_app, file_of_singleton, str_app_assoc. unfold entry_line. by rewrite Hr. }
  eapply hoare_try; [apply write_log_spec| |intros []; cbn beta].
  { intros e w (Hio & k & Hw). eapply torn_before; [done| |by split; [exact Hw|]].
    by apply substring_no_newline. }
  eapply hoare_conseq; [apply write_log_spec|done|intros a w Hw; rewrite Hfile in Hw; exact Hw|].
  intros e w (Hio & [|k] & Hw); simpl in Hw.
  - rewrite str_app_nil_r in Hw. by eapply torn_before.
  - apply (torn_after es seq event ts); [done|]. eapply compacted_none. split; [|done].
    destruct k; rewrite Hfile in Hw; exact Hw.
Qed.

Lemma append_spec es seq event :
  Forall entry_ok es → u64_ok seq → event_ok event → wall_ok →
  hoare (st (file_of es) es true seq) (append io path event)
    (λ ev w, ev = event ∧ ∃ es', appended es seq event es' ∧ Forall entry_ok es' ∧
             st (file_of es') es' true (u64_saturating_add seq 1) w)
    (λ _, torn es seq event).
Proof.
  intros Hok Hseq Hev Hwall. unfold append. apply hoare_gets. intros seq0.
  apply (hoare_pure (seq0 = seq)); [by intros w [(_ & _ & _ & ?) <-]|]. intros ->.
  eapply hoare_try; [eapply hoare_conseq;
    [apply (timestamp_spec (st (file_of es) es true seq)), st_insensitive|by intros ? [? ?]|
     intros a w Hw; exact Hw|intros e w Hw; exact Hw]| |intros ts; cbn beta].
  { intros e w Hw. eapply (torn_before _ _ _ "" es true seq); [done|apply not_elem_of_nil|].
    by rewrite str_app_nil_r. }
  apply (hoare_pure (u64_ok ts)).
  { intros w [_ [n ->]]. specialize (Hwall n). unfold u64_ok, u64_max, i64_max in *. lia. }
  intros Hts. set (entry := EventLogEntry.mk seq ts event). set (es1 := es ++ [entry]).
  assert (entry_ok entry) as Hentry by done.
  assert (Forall entry_ok es1) as Hok1 by (apply Forall_app; split; [done|by apply Forall_singleton]).
  destruct (from_entry_roundtrip entry Hentry) as (r & Hr & _).
  set (seq' := u64_saturating_add seq 1).
  eapply hoare_bind; [apply (hoare_modify _ _ (λ _, st (file_of es) es true seq'))|intros []].
  { by intros w [(? & ? & ? & ?) _]. }
  apply hoare_lift; [|intros e E; congruence]. rewrite Hr. intros ? [= <-].
  eapply hoare_two; [by apply (write_entry_spec es seq event ts seq' r)|intros []].
  eapply hoare_bind; [apply (hoare_modify _ _ (λ _, st (file_of es1) es1 true seq'))|intros []].
  { intros w (? & He & ? & ?). unfold st. simpl. by rewrite He. }
  eapply hoare_bind; [apply (hoare_modify _ _ (λ _, st (file_of es1) es1 true seq'))|intros []].
  { by intros w (? & ? & ? & ?). }
  eapply hoare_try; [apply sync_spec|
    intros e w Hw; apply (torn_after es seq event ts); [done|eapply compacted_none; exact Hw]|intros []].
  eapply hoare_try; [by apply compact_spec|intros e w; by apply torn_after|intros []].
  apply hoare_ret. intros w (k & Hk & Hw). split; [done|].
  exists (drop k es1). split; [by exists ts, k|]. split; [by apply Forall_drop|done].
Qed.

Lemma io_call_ok msg w : no_fault → io_call io msg w = (Ok tt, set_tick (S w.(tick)) w).
Proof. intros Hf. unfold io_call, next_tick, mbind, M_bind. simpl. by rewrite Hf. Qed.

Lemma recover_ok es w :
  no_fault → Forall entry_ok es → recoverable es w →
  ∃ w', recover_partial_tail io path w = (Ok tt, w') ∧ w'.(disk).(log_file) = Some (file_of es).
Proof.
  intros Hnf Hok (partial & Hn & Hf).
  unfold recover_partial_tail, next_tick, gets, mbind, M_bind, mret, M_ret. simpl. rewrite Hf, Hnf.
  destruct (decide (partial = "")) as [->|Hne].
  - rewrite str_app_nil_r, last_byte_newline_file_of by done. eexists. split; [done|].
    simpl. by rewrite Hf, str_app_nil_r.
  - rewrite last_byte_newline_app, last_byte_newline_partial by done.
    rewrite keep_lines_file_of by done.
    rewrite io_call_ok by done. simpl. rewrite io_call_ok by done. eexists. split; [done|done].
Qed.

Lemma open_append_file_ok text w :
  no_fault → w.(disk).(log_file) = Some text →
  ∃ w', open_append_file io path w = (Ok tt, w') ∧ w'.(disk).(log_file) = Some text ∧
        w'.(attached) = true ∧ w'.(events) = w.(events) ∧ w'.(next_seq) = w.(next_seq).
Proof.
  intros Hnf Hf. unfold open_append_file, mbind, M_bind. rewrite io_call_ok by done.
  unfold modify. simpl. rewrite Hf. eexists. split; [reflexivity|]. done.
Qed.

(** Opening finds exactly the complete lines. *)
Lemma open_spec es w :
  no_fault → Forall entry_ok es → recoverable es w →
  ∃ w', open io path w = (Ok tt, w') ∧ st (file_of es) es true (next_seq_after es) w'.
Proof.
  intros Hnf Hok Hrec. unfold open, mbind, M_bind. rewrite io_call_ok by done. simpl.
  destruct (recover_ok es (set_tick (S (tick w)) w)) as (w1 & E1 & H1); [done..|].
  unfold mbind, M_bind. rewrite E1.
  destruct (open_append_file_ok (file_of es) w1) as (w2 & E2 & H2 & _); [done..|].
  unfold read_entries, mbind, M_bind. rewrite E2, io_call_ok by done. unfold gets, lift. simpl.
  rewrite H2. simpl. rewrite read_file_of by done.
  destruct (open_append_file_ok (file_of es) (set_tick (S (tick w2)) w2)) as (w3 & E3 & H3 & Ha & _);
    [done..|].
  rewrite E3. eexists. split; [reflexivity|]. done.
Qed.
End operations.

(** ** Crash safety *)

(** The memory and the file of a running log agree. *)
Definition log_ok `{External, Json} (w : Log) : Prop :=
  w.(attached) = true ∧ w.(disk).(log_file) = Some (file_of w.(events)) ∧
  Forall entry_ok w.(events) ∧ u64_ok w.(next_seq).

Lemma st_log_ok `{External, Json} es seq w :
  Forall entry_ok es → u64_ok seq → st (file_of es) es true seq w → log_ok w.
Proof. intros Hok Hs (Hf & He & Ha & Hn). unfold log_ok. by rewrite He, Hn. Qed.

Lemma log_ok_st `{External, Json} w :
  log_ok w → st (file_of w.(events)) w.(events) true w.(next_seq) w.
Proof. by intros (? & ? & _). Qed.

Lemma saturating_add_ok a b : u64_ok (u64_saturating_add a b).
Proof. unfold u64_ok, u64_saturating_add. lia. Qed.

Lemma next_seq_after_ok es : u64_ok (next_seq_after es).
Proof.
  unfold next_seq_after. destruct (last es); [apply saturating_add_ok|]. unfold u64_ok, u64_max. lia.
Qed.

(** C11. Crash safety of the log: whatever call of an append fails, and wherever the process
    is killed in it, a process that then opens the log finds every entry that was there
    before, with the new event as the next entry or absent, except that entries older than
    the retention age beyond the newest ten thousand may be gone; when the append reported
    success the new entry is there, and memory and file agree. *)
Theorem append_crash_safe `{External, Json} io io' path event w :
  log_ok w → event_ok event → wall_ok io → no_fault io' →
  let '(r, w') := append io path event w in
  ∃ w2, open io' path w' = (Ok tt, w2) ∧ log_ok w2 ∧
    (w2.(events) = w.(events) ∨ appended io w.(events) w.(next_seq) event w2.(events)) ∧
    match r with
    | Ok ev => ev = event ∧ log_ok w' ∧ w2.(events) = w'.(events) ∧
               appended io w.(events) w.(next_seq) event w'.(events)
    | Err _ => io_failed io
    end.
Proof.
  intros Hw Hev Hwall Hnf. pose proof Hw as (_ & _ & Hok & Hseq).
  pose proof (append_spec io path w.(events) w.(next_seq) event Hok Hseq Hev Hwall w (log_ok_st w Hw)) as Ha.
  destruct (append io path event w) as [[ev|e] w'].
  - destruct Ha as (-> & es' & Happ & Hok' & Hst).
    destruct (open_spec io' path es' w' Hnf Hok') as (w2 & Ho & Hst2).
    { exists "". rewrite str_app_nil_r. split; [apply not_elem_of_nil|apply Hst]. }
    exists w2. pose proof Hst as (_ & He' & _). pose proof Hst2 as (_ & He2 & _). rewrite He2, He'.
    split; [done|]. split; [by eapply st_log_ok; [done|apply next_seq_after_ok|]|].
    split; [by right|]. split_and!; [done|by eapply st_log_ok; [done|apply saturating_add_ok|]|done|done].
  - destruct Ha as (Hio & es' & Hrec & Hok' & Hes).
    destruct (open_spec io' path es' w' Hnf Hok' Hrec) as (w2 & Ho & Hst2).
    exists w2. pose proof Hst2 as (_ & He2 & _). rewrite He2.
    split; [done|]. split; [by eapply st_log_ok; [done|apply next_seq_after_ok|]|]. done.
Qed.

(** A new log over an empty directory, and a clock that shows one time. *)
Definition new_log (t : N) : Log := mkLog (mkDisk (Some "") None) true [] 1 0 0 0.
Definition steady (t : Z) (faulty : nat → option nat) : Io := mkIo faulty (λ _, t) (λ _, 0%N).

Definition sample_event : RuntimeEvent := RuntimeEvent.Running (mkUuid 7) 42 5.

Lemma append_crash_safe_witness :
  let io := steady 1000 (λ n, if decide (n = 1) then Some 3 else None) in
  let w' := (@append decimal_external code_json io "/d/events.jsonl" sample_event (new_log 0)).2 in
  (∃ w2, @open decimal_external code_json (steady 0 (λ _, None)) "/d/events.jsonl" w' = (Ok tt, w2) ∧
         @log_ok decimal_external code_json w2) ∧
  option_map String.length w'.(disk).(log_file) = Some 3.
Proof.
  assert (@log_ok decimal_external code_json (new_log 0)) as Hl.
  { split_and!; [done|done|apply Forall_nil_2|vm_compute; discriminate]. }
  assert (event_ok sample_event) as He by (vm_compute; discriminate).
  assert (wall_ok (steady 1000 (λ n, if decide (n = 1) then Some 3 else None))) as Hw
    by (intros n; vm_compute; discriminate).
  split; [|vm_compute; reflexivity].
  pose proof (@append_crash_safe decimal_external code_json
    (steady 1000 (λ n, if decide (n = 1) then Some 3 else None)) (steady 0 (λ _, None))
    "/d/events.jsonl" sample_event (new_log 0) Hl He Hw (λ n, eq_refl)) as H.
  destruct (@append _ _ _ _ _ _) as [r w']. destruct H as (w2 & H1 & H2 & _).
  exists w2. split; [exact H1|exact H2].
Defined.

(** ** Delivery *)

Section delivery.
Context `{External, Json}.

(** The specification of the log: all events ever appended, in order, of which the first
    [d] have been dropped. The n-th event has sequence number n. *)
Definition serves (history : list RuntimeEvent) (d : nat) (w : Log) : Prop :=
  log_ok w ∧
  EventLogEntry.event <$> w.(events) = drop d history ∧
  (∀ i e, w.(events) !! i = Some e → e.(EventLogEntry.seq) = N.of_nat (d + i + 1)) ∧
  w.(next_seq) = N.of_nat (length history + 1) ∧
  (d = 0 ∨ d + EVENT_LOG_RETENTION_MIN_EVENTS ≤ length history).

Lemma min_events_pos : 0 < EVENT_LOG_RETENTION_MIN_EVENTS.
Proof. unfold EVENT_LOG_RETENTION_MIN_EVENTS. lia. Qed.

Lemma serves_bound history d w : serves history d w → d ≤ length history.
Proof. intros (_ & _ & _ & _ & [->|Hd]); lia. Qed.

Lemma serves_length history d w : serves history d w → length w.(events) = length history - d.
Proof.
  intros (_ & He & _). rewrite <- (length_fmap EventLogEntry.event), He. apply length_drop.
Qed.

Lemma serves_nil history d w : serves history d w → w.(events) = [] → history = [].
Proof.
  intros Hs He. pose proof (serves_length _ _ _ Hs) as Hl. rewrite He in Hl. simpl in Hl.
  destruct Hs as (_ & _ & _ & _ & Hd). pose proof min_events_pos.
  apply nil_length_inv. lia.
Qed.

(** A successful append extends the history. *)
Lemma serves_append io path history d w event :
  serves history d w → event_ok event → wall_ok io → (N.of_nat (length history) < u64_max - 1)%N →
  match append io path event w with
  | (Ok ev, w') => ev = event ∧ ∃ d', d ≤ d' ∧ serves (history ++ [event]) d' w'
  | (Err _, _) => io_failed io
  end.
Proof.
  intros Hs Hev Hwall Hmax. pose proof (serves_length _ _ _ Hs) as Hlen.
  pose proof (serves_bound _ _ _ Hs) as Hd.
  destruct Hs as (Hok & He & Hseq & Hn & Hdr). pose proof Hok as (_ & _ & Hall & Hu).
  pose proof (append_spec io path w.(events) w.(next_seq) event Hall Hu Hev Hwall w (log_ok_st w Hok)) as Ha.
  destruct (append io path event w) as [[ev|e] w']; [|by destruct Ha].
  destruct Ha as (-> & es' & (ts & k & -> & Hk & _) & Hok' & Hst). split; [done|].
  exists (d + k). split; [lia|].
  assert (u64_saturating_add (next_seq w) 1 = N.of_nat (length (history ++ [event]) + 1)) as Hnext.
  { rewrite Hn, length_app. unfold u64_saturating_add, u64_max in *. simpl. lia. }
  pose proof Hst as (_ & He' & _ & Hn').
  rewrite length_app in Hk. simpl in Hk.
  split_and!.
  - eapply st_log_ok; [done|apply saturating_add_ok|done].
  - rewrite He', fmap_drop, fmap_app, He. simpl. rewrite (drop_app_le history [event]).
    + destruct (decide (k ≤ length history - d)) as [Hle|Hgt].
      * rewrite drop_app_le by (rewrite length_drop; lia). by rewrite drop_drop.
      * exfalso. pose proof min_events_pos. lia.
    + destruct (decide (0 < k)); [pose proof min_events_pos|]; lia.
  - intros i e Hi. rewrite He', lookup_drop in Hi.
    apply lookup_app_Some in Hi as [Hi|[Hi1 Hi2]].
    + rewrite (Hseq _ _ Hi). lia.
    + apply list_lookup_singleton_Some in Hi2 as [Hi2 <-]. simpl. rewrite Hn. lia.
  - by rewrite Hn', Hnext.
  - rewrite length_app. simpl. destruct (decide (k = 0)) as [->|].
    + destruct Hdr; [left; lia|right; lia].
    + right. lia.
Qed.

(** What a reader gets: everything after its cursor, or the cursor from which everything is
    still there. *)
Lemma serves_read history d w c :
  serves history d w → c ≤ length history →
  events_since w (Some (N.of_nat c)) =
    if decide (c < d) then Err (mkCursorExpired (N.of_nat d))
    else Ok (EventLogPage.mk (drop c history) (N.of_nat (length history))).
Proof.
  intros Hs Hc. pose proof (serves_length _ _ _ Hs) as Hlen.
  pose proof (serves_nil _ _ _ Hs) as Hnil. pose proof (serves_bound _ _ _ Hs) as Hb.
  destruct Hs as (_ & He & Hseq & _).
  unfold events_since, oldest_valid_cursor. simpl.
  destruct (events w) as [|e0 es] eqn:Ew.
  - rewrite (Hnil eq_refl) in *. simpl in *. assert (c = 0) as -> by lia.
    rewrite decide_False by lia. done.
  - simpl. pose proof (Hseq 0 e0 eq_refl) as Hs0. rewrite Hs0.
    assert (u64_saturating_sub (N.of_nat (d + 0 + 1)) 1 = N.of_nat d) as ->
      by (unfold u64_saturating_sub; lia).
    case_decide as Hcd.
    + replace (N.of_nat c <? N.of_nat d)%N with true by (symmetry; apply N.ltb_lt; lia). done.
    + replace (N.of_nat c <? N.of_nat d)%N with false by (symmetry; apply N.ltb_ge; lia).
      f_equal. f_equal.
      * assert (∀ l k, (∀ i e, l !! i = Some e → EventLogEntry.seq e = N.of_nat (k + i + 1)) →
                  filter (λ entry, (N.of_nat c < EventLogEntry.seq entry)%N) l = drop (c - k) l) as Hf.
        { clear. induction l as [|e l IH]; intros k Hl; [by rewrite drop_nil|].
          rewrite filter_cons. pose proof (Hl 0 e eq_refl) as Hk.
          assert (∀ i e, l !! i = Some e → EventLogEntry.seq e = N.of_nat (S k + i + 1)) as Hl'
            by (intros i x Hi; rewrite (Hl (S i) x Hi); lia).
          rewrite (IH (S k) Hl'). case_decide as Hcase.
          - assert (c - k = 0) as -> by lia. assert (c - S k = 0) as -> by lia. done.
          - assert (c - k = S (c - S k)) as -> by lia. done. }
        rewrite (Hf (e0 :: es) d Hseq), fmap_drop, He, drop_drop. f_equal. lia.
      * destruct (last (e0 :: es)) as [e|] eqn:El; [|by apply last_None in El].
        rewrite last_lookup in El. rewrite (Hseq _ _ El). simpl in *. lia.
Qed.

Lemma serves_read_N history d w (c : N) :
  serves history d w → N.to_nat c ≤ length history →
  events_since w (Some c) =
    if decide (N.to_nat c < d) then Err (mkCursorExpired (N.of_nat d))
    else Ok (EventLogPage.mk (drop (N.to_nat c) history) (N.of_nat (length history))).
Proof. intros Hs Hc. rewrite <- (serves_read _ _ _ _ Hs Hc). by rewrite N2Nat.id. Qed.

(** A client that polls with its cursor, as the daemon appends. *)
Inductive action := Append (event : RuntimeEvent) | Poll.

Record Client := mkClient { cursor : EventCursor; received : list RuntimeEvent; expired : bool }.

Definition poll (w : Log) (c : Client) : Client :=
  match events_since w (Some c.(cursor)) with
  | Ok page => mkClient page.(EventLogPage.cursor) (c.(received) ++ page.(EventLogPage.events)) c.(expired)
  | Err e => mkClient e.(oldest) c.(received) true
  end.

Fixpoint session (io : Io) (path : string) (actions : list action) (w : Log) (c : Client)
    : Log * Client :=
  match actions with
  | [] => (w, c)
  | Append event :: actions => session io path actions (append io path event w).2 c
  | Poll :: actions => session io path actions w (poll w c)
  end.

Definition appends (actions : list action) : list RuntimeEvent :=
  omap (λ a, match a with Append event => Some event | Poll => None end) actions.
End delivery.

(** C8. Exactly once, in order: over any interleaving of appends and polls on a log whose
    calls succeed, a client that was never told its cursor expired has received exactly the
    appended events up to its cursor, in order and without repetition, and its next poll
    gives exactly the rest; and a client whose cursor expired is given the cursor from which
    every later event can still be read. *)
Theorem delivery_exactly_once `{External, Json} io path actions history d w n :
  serves history d w → no_fault io → wall_ok io → (∀ n, 0 ≤ io.(wall) n)%Z →
  Forall event_ok (appends actions) →
  (N.of_nat (length history + length actions) < u64_max - 1)%N →
  n ≤ length history →
  let '(w', c) := session io path actions w (mkClient (N.of_nat n) (take n history) false) in
  let all := history ++ appends actions in
  (c.(expired) = false →
   c.(received) = take (N.to_nat c.(cursor)) all ∧
   ∀ page, events_since w' (Some c.(cursor)) = Ok page →
           c.(received) ++ page.(EventLogPage.events) = all ∧
           page.(EventLogPage.cursor) = N.of_nat (length all)) ∧
  (∀ e, events_since w' (Some c.(cursor)) = Err e →
        events_since w' (Some e.(oldest)) =
          Ok (EventLogPage.mk (drop (N.to_nat e.(oldest)) all) (N.of_nat (length all)))).
Proof.
  intros Hs Hnf Hwall Hepoch Hevs Hmax Hn.
  assert (¬ io_failed io) as Hio.
  { intros [m [H1|H1]]; [rewrite Hnf in H1; by destruct H1|]. specialize (Hepoch m). lia. }
  set (ok (c : Client) (hist : list RuntimeEvent) :=
         (N.to_nat c.(cursor) ≤ length hist) ∧
         (c.(expired) = false → c.(received) = take (N.to_nat c.(cursor)) hist)).
  assert (ok (mkClient (N.of_nat n) (take n history) false) history) as Hc.
  { unfold ok. simpl. by rewrite Nat2N.id. }
  revert Hc. generalize (mkClient (N.of_nat n) (take n history) false). clear Hn n. intros c Hc.
  revert history d w c Hs Hevs Hmax Hc.
  induction actions as [|[event|] actions IH]; intros history d w c Hs Hevs Hmax Hc; simpl.
  - rewrite app_nil_r. destruct Hc as [Hc Hr].
    pose proof (serves_read_N _ _ _ _ Hs Hc) as Hread.
    rewrite Hread. split.
    + intros Hne. rewrite (Hr Hne). split; [done|]. intros page. case_decide; [done|].
      intros [= <-]. simpl. by rewrite take_drop.
    + intros e. case_decide; [|done]. intros [= <-]. simpl. rewrite Nat2N.id.
      rewrite (serves_read _ _ _ _ Hs) by (by eapply serves_bound). by rewrite decide_False by lia.
  - apply Forall_cons_1 in Hevs as [Hev Hevs]. simpl in Hmax.
    pose proof (serves_append io path history d w event Hs Hev Hwall) as Ha.
    destruct (append io path event w) as [[ev|e] w1]; simpl; [|exfalso; apply Hio, Ha; lia].
    destruct Ha as (_ & d' & _ & Hs'); [lia|].
    specialize (IH (history ++ [event]) d' w1 c Hs' Hevs).
    rewrite <- app_assoc in IH. apply IH; [rewrite length_app; simpl; lia|].
    destruct Hc as [Hc Hr]. split; [rewrite length_app; lia|].
    intros Hne. rewrite (Hr Hne), take_app_le by done. done.
  - apply (IH history d w (poll w c) Hs Hevs); [simpl in Hmax; lia|]. destruct Hc as [Hc Hr].
    pose proof (serves_read_N _ _ _ _ Hs Hc) as Hread.
    unfold poll. rewrite Hread. case_decide; simpl; split; simpl; rewrite ?Nat2N.id; try done.
    + by eapply serves_bound.
    + intros Hne. by rewrite (Hr Hne), take_drop, take_ge by lia.
Qed.

Lemma serves_new `{External, Json} t : serves [] 0 (new_log t).
Proof.
  unfold serves, log_ok. split_and!; try done; by left.
Qed.

Lemma delivery_exactly_once_witness :
  let io := steady 1000 (λ _, None) in
  let actions := [Poll; Append sample_event; Poll; Append (RuntimeEvent.Lost (mkUuid 7) LostEvidence.PidNotAlive); Poll] in
  let c := (@session decimal_external code_json io "/d/events.jsonl" actions (new_log 0)
              (mkClient 0 [] false)).2 in
  c.(expired) = false ∧ c.(received) = appends actions.
Proof.
  assert (∀ n, (0 ≤ wall (steady 1000 (λ _, None)) n)%Z) as H0 by (intros n; vm_compute; discriminate).
  assert (wall_ok (steady 1000 (λ _, None))) as Hw by (intros n; vm_compute; discriminate).
  assert (Forall event_ok (appends [Poll; Append sample_event; Poll;
            Append (RuntimeEvent.Lost (mkUuid 7) LostEvidence.PidNotAlive); Poll])) as He
    by (repeat constructor; vm_compute; try discriminate).
  pose proof (@delivery_exactly_once decimal_external code_json (steady 1000 (λ _, None)) "/d/events.jsonl"
    [Poll; Append sample_event; Poll; Append (RuntimeEvent.Lost (mkUuid 7) LostEvidence.PidNotAlive); Poll]
    [] 0 (new_log 0) 0 (@serves_new decimal_external code_json 0) (λ n, eq_refl) Hw H0 He
    ltac:(vm_compute; reflexivity) (le_n 0)) as H.
  assert ((@session decimal_external code_json (steady 1000 (λ _, None)) "/d/events.jsonl"
    [Poll; Append sample_event; Poll; Append (RuntimeEvent.Lost (mkUuid 7) LostEvidence.PidNotAlive); Poll]
    (new_log 0) (mkClient 0 [] false)).2 =
    mkClient 2 [sample_event; RuntimeEvent.Lost (mkUuid 7) LostEvidence.PidNotAlive] false) as E
    by (vm_compute; reflexivity).
  cbv zeta in *. rewrite E. split; [reflexivity|].
  change (mkClient (N.of_nat 0) (take 0 []) false) with (mkClient 0 [] false) in H.
  destruct (@session _ _ _ _ _ _ _) as [w' c]. simpl in E. subst c.
  destruct H as [H _]. destruct (H eq_refl) as [Hr _]. exact Hr.
Defined.

(** ** Retention *)

(** C29. The retention rule: an append drops the longest run of oldest entries that are all
    older than seven days and leaves at least ten thousand entries; it drops nothing from a
    log of ten thousand entries or fewer, whatever their age, and nothing recent, whatever
    their number. *)
Theorem retention_rule io es w :
  (0 ≤ io.(wall) w.(tick))%Z →
  let now := Z.to_N (io.(wall) w.(tick)) in
  let may_drop k := k + N.to_nat 10000 ≤ length es ∧
        Forall (λ e, (e.(EventLogEntry.ts_ms) + 7 * 24 * 60 * 60 * 1000 < now)%N) (take k es) in
  ∃ o w', retain_from_index io es w = (Ok o, w') ∧
    o ≠ Some 0 ∧
    (default 0 o = 0 ∨ may_drop (default 0 o)) ∧
    (∀ k, may_drop k → k ≤ default 0 o).
Proof.
  intros Hw. cbv zeta. unfold retain_from_index, EVENT_LOG_RETENTION_MIN_EVENTS.
  case_decide as Hl.
  - exists None, w. split_and!; [done|done|by left|]. intros k [Hk _]. simpl. lia.
  - unfold current_timestamp_ms, next_tick, mbind, M_bind, mret, M_ret. simpl.
    rewrite decide_True by done.
    set (now := Z.to_N (wall io (tick w))).
    set (m := Nat.min (length es - N.to_nat 10000)
                (take_while_old now (EVENT_LOG_RETENTION_MIN_AGE_SECS * 1000) es)).
    assert (∀ k, k + N.to_nat 10000 ≤ length es ∧
              Forall (λ e, (EventLogEntry.ts_ms e + 7 * 24 * 60 * 60 * 1000 < now)%N) (take k es) →
              k ≤ m) as Hmax.
    { intros k [Hk Hold]. assert (k ≤ length es) as Hkl by lia.
      pose proof (take_while_old_max now _ es k Hkl Hold). unfold m.
      change (EVENT_LOG_RETENTION_MIN_AGE_SECS * 1000)%N with (7 * 24 * 60 * 60 * 1000)%N. lia. }
    eexists _, _. split; [reflexivity|]. case_decide as Hm.
    + split_and!; [intros [= E]; lia| |done]. right.
      change (default 0 (Some m)) with m. split; [unfold m in *; lia|].
      change (7 * 24 * 60 * 60 * 1000)%N with (EVENT_LOG_RETENTION_MIN_AGE_SECS * 1000)%N.
      apply take_while_old_spec. unfold m. lia.
    + split_and!; [done|by left|]. intros k Hk. simpl. pose proof (Hmax k Hk). lia.
Qed.

Lemma retention_rule_witness :
  let es := replicate (N.to_nat 10002) (EventLogEntry.mk 1 0 sample_event) in
  (0 ≤ (steady 604800001 (λ _, None)).(wall) 0)%Z ∧
  ∃ w', retain_from_index (steady 604800001 (λ _, None)) es (new_log 0) = (Ok (Some 2), w').
Proof.
  split; [vm_compute; discriminate|].
  destruct (retention_rule (steady 604800001 (λ _, None))
    (replicate (N.to_nat 10002) (EventLogEntry.mk 1 0 sample_event)) (new_log 0))
    as (o & w' & E & _); [vm_compute; discriminate|].
  exists w'. rewrite E. f_equal. f_equal.
  transitivity (default None (ok (retain_from_index (steady 604800001 (λ _, None))
    (replicate (N.to_nat 10002) (EventLogEntry.mk 1 0 sample_event)) (new_log 0)).1)).
  - rewrite E. reflexivity.
  - vm_compute. reflexivity.
Defined.

(** ** Two failures the log does not survive *)

Section failures.
Context `{External, Json}.

Lemma lines_app es line rest fuel :
  Forall entry_ok es → newline ∉ bytes line →
  String.length (file_of es +:+ line +:+ String newline rest) ≤ fuel →
  ∃ fuel', String.length rest ≤ fuel' ∧
    lines fuel (file_of es +:+ line +:+ String newline rest) =
      (entry_line <$> es) ++ (line +:+ String newline "") :: lines fuel' rest.
Proof.
  intros Hok Hn. revert fuel. induction Hok as [|e es He _ IH]; intros fuel Hf; simpl.
  - rewrite str_app_nil_l in *. rewrite str_length_app in Hf. simpl in Hf.
    destruct fuel as [|fuel]; [lia|]. exists fuel. split; [lia|]. cbn [lines].
    rewrite (read_until_newline_app line rest Hn).
    destruct (String_eqb_spec' (line +:+ String newline rest) "") as [E|_]; [|done].
    apply (f_equal String.length) in E. rewrite str_length_app in E. simpl in E. lia.
  - simpl in Hf. rewrite str_app_assoc in *. rewrite str_length_app in Hf.
    pose proof (entry_line_length e He) as Hl. destruct fuel as [|fuel]; [lia|].
    destruct (IH fuel) as (fuel' & Hf' & E); [lia|]. exists fuel'. split; [done|]. cbn [lines].
    destruct (String_eqb_spec' (entry_line e +:+ file_of es +:+ line +:+ String newline rest) "") as [E'|_].
    { apply (f_equal String.length) in E'. rewrite str_length_app in E'. simpl in E'. lia. }
    rewrite read_until_newline_line by done. by rewrite E.
Qed.

Lemma try_map_app_Err {E A B} (f : A → result E B) l x l' e :
  f x = Err e → ∃ e', try_map f (l ++ x :: l') = Err e'.
Proof.
  intros Hx. induction l as [|y l [e' IH]]; simpl; [rewrite Hx; by exists e|].
  destruct (f y) as [b|e0]; simpl; [rewrite IH; by exists e'|by exists e0].
Qed.

(** The n-th call fails, a write before its first byte; every other call succeeds. *)
Definition fails_at (n : nat) (t : Z) : Io := mkIo (λ m, if decide (m = n) then Some 0 else None) (λ _, t) (λ _, 0%N).

Lemma io_call_other n t msg w :
  tick w ≠ n → io_call (fails_at n t) msg w = (Ok tt, set_tick (S w.(tick)) w).
Proof.
  intros Hn. unfold io_call, next_tick, mbind, M_bind. simpl. by rewrite decide_False.
Qed.

Lemma write_log_other n t msg text w :
  tick w ≠ n → write_log (fails_at n t) msg text w = (Ok tt, append_text text (set_tick (S w.(tick)) w)).
Proof.
  intros Hn. unfold write_log, next_tick, mbind, M_bind. simpl. by rewrite decide_False.
Qed.

(** A log with free text in its file. *)
Lemma write_entry_run n t text es seq msg line w :
  tick w < n ∨ n < tick w → st text es true seq w →
  ∃ w', write_log (fails_at n t) msg line w = (Ok tt, w') ∧
        st (text +:+ line) es true seq w' ∧ tick w' = S (tick w).
Proof.
  intros Hn (Hf & He & Ha & Hs). rewrite write_log_other by lia. eexists. split; [reflexivity|].
  unfold append_text. simpl. rewrite Ha. unfold st. simpl. by rewrite Hf.
Qed.

Lemma sync_run n t text es seq w :
  n < tick w → st text es true seq w →
  ∃ w', sync_if_due (fails_at n t) w = (Ok tt, w') ∧ st text es true seq w'.
Proof.
  intros Hn Hw. unfold sync_if_due, gets, mbind, M_bind, instant_now, next_tick, mret, M_ret. simpl.
  destruct (events_since_sync w <? EVENT_LOG_SYNC_BATCH)%N; cbn [negb];
    [destruct (u64_saturating_sub _ _ <? EVENT_LOG_SYNC_INTERVAL)%N; [by eexists|]|];
    unfold mbind, M_bind; (rewrite io_call_other by (simpl; lia)); by eexists.
Qed.

Lemma append_run n t path text es seq event w :
  (0 ≤ t)%Z → n < tick w → st text es true seq w →
  entry_ok (EventLogEntry.mk seq (Z.to_N t) event) →
  length es + 1 < EVENT_LOG_RETENTION_MIN_EVENTS →
  ∃ w', append (fails_at n t) path event w = (Ok event, w') ∧
    let entry := EventLogEntry.mk seq (Z.to_N t) event in
    st (text +:+ entry_line entry) (es ++ [entry]) true (u64_saturating_add seq 1) w'.
Proof.
  intros Ht Hn Hst Hok Hlen. destruct (from_entry_roundtrip _ Hok) as (r & Hr & _).
  set (seq' := u64_saturating_add seq 1). set (entry := EventLogEntry.mk seq (Z.to_N t) event).
  set (w1 := set_next_seq seq' (set_tick (S (tick w)) w)).
  assert (st text es true seq' w1) as Hst1 by (by destruct Hst as (? & ? & ? & ?)).
  destruct (write_entry_run n t text es seq' "failed to encode event log" (json_text r) w1)
    as (w2 & E2 & Hst2 & Ht2); [simpl; lia|done|].
  destruct (write_entry_run n t (text +:+ json_text r) es seq' "failed to append event log newline" (String newline "") w2)
    as (w3 & E3 & Hst3 & Ht3); [simpl in *; lia|done|].
  set (w4 := set_sync (events_since_sync w3 + 1) (last_sync w3) (set_events (events w3 ++ [entry]) w3)).
  destruct (sync_run n t (text +:+ entry_line entry) (es ++ [entry]) seq' w4) as (w5 & E5 & Hst5).
  { simpl in *. lia. }
  { destruct Hst3 as (Hf & He & ? & ?). unfold st, w4. simpl. rewrite He.
    split; [|done]. rewrite Hf. unfold entry_line, entry. rewrite Hr. by rewrite str_app_assoc. }
  exists w5. split; [|exact Hst5].
  assert (next_seq w = seq) as Es by apply Hst.
  unfold append, gets, current_timestamp_ms, next_tick, mbind, M_bind, modify, lift.
  cbn [fault wall fails_at tick set_tick next_seq]. rewrite Es. rewrite decide_True by done.
  unfold mret, M_ret. cbn beta iota zeta. rewrite Hr.
  fold seq'. change (set_next_seq seq' (set_tick (S (tick w)) w)) with w1.
  rewrite E2, E3. cbn beta iota.
  change (set_sync (events_since_sync (set_events (events w3 ++ [EventLogEntry.mk seq (Z.to_N t) event]) w3) + 1)
    (last_sync (set_events (events w3 ++ [EventLogEntry.mk seq (Z.to_N t) event]) w3))
    (set_events (events w3 ++ [EventLogEntry.mk seq (Z.to_N t) event]) w3)) with w4.
  rewrite E5. unfold compact_if_due, gets, mbind, M_bind.
  assert (events w5 = es ++ [entry]) as -> by apply Hst5. unfold retain_from_index.
  rewrite decide_True by (rewrite length_app; simpl; lia). done.
Qed.

Lemma append_torn t path es event w :
  (0 ≤ t)%Z → st (file_of es) es true w.(next_seq) w →
  entry_ok (EventLogEntry.mk w.(next_seq) (Z.to_N t) event) →
  ∃ e w' r, append (fails_at (tick w + 2) t) path event w = (Err e, w') ∧
    from_entry (EventLogEntry.mk w.(next_seq) (Z.to_N t) event) = Ok r ∧
    st (file_of es +:+ json_text r) es true (u64_saturating_add w.(next_seq) 1) w' ∧
    tick w + 2 < tick w'.
Proof.
  intros Ht Hst Hok. destruct (from_entry_roundtrip _ Hok) as (r & Hr & _).
  set (w1 := set_next_seq (u64_saturating_add (next_seq w) 1) (set_tick (S (tick w)) w)).
  destruct (write_entry_run (tick w + 2) t (file_of es) es (u64_saturating_add (next_seq w) 1)
    "failed to encode event log" (json_text r) w1) as (w2 & E2 & Hst2 & Ht2);
    [simpl; lia|by destruct Hst as (? & ? & ? & ?)|].
  simpl in Ht2.
  unfold append, gets, current_timestamp_ms, next_tick, mbind, M_bind, modify, lift.
  cbn [fault wall fails_at tick set_tick next_seq]. rewrite decide_True by done.
  unfold mret, M_ret. cbn beta iota zeta. rewrite Hr.
  change (set_next_seq (u64_saturating_add (next_seq w) 1) (set_tick (S (tick w)) w)) with w1.
  rewrite E2. unfold write_log at 1, next_tick, mbind, M_bind, throw, modify.
  cbn [fault fails_at]. rewrite decide_True by lia.
  eexists _, _, r. split; [reflexivity|]. split; [done|].
  destruct Hst2 as (Hf & He & Ha & Hs). unfold append_text. simpl. rewrite Ha. unfold st. simpl.
  rewrite Hf. simpl. split_and!; try done; [|lia]. f_equal.
  by rewrite str_app_nil_r.
Qed.

(** A complete line that does not parse makes the log unreadable. *)
Lemma open_corrupt io path es r r' ej w :
  no_fault io → Forall entry_ok es →
  w.(disk).(log_file) = Some (file_of es +:+ (json_text r +:+ json_text r') +:+ String newline "") →
  newline ∉ bytes (json_text r +:+ json_text r') →
  json_from_str (json_text r +:+ json_text r') = Err ej →
  ∃ e' w', open io path w = (Err e', w').
Proof.
  intros Hnf Hok Hf Hn Hj. set (bad := json_text r +:+ json_text r') in *.
  set (text := file_of es +:+ bad +:+ String newline "") in *.
  assert (last_byte_newline text = true) as Hl.
  { unfold text. rewrite <- str_app_assoc, last_byte_newline_app by done. done. }
  unfold open, mbind, M_bind. rewrite io_call_ok by done.
  unfold recover_partial_tail, next_tick, gets, mbind, M_bind, mret, M_ret. simpl.
  rewrite Hf, Hnf, Hl.
  match goal with |- context [read_entries io path ?w1] => set (w' := w1) end.
  destruct (open_append_file_ok io path text w') as (w2 & E2 & H2 & _); [done..|].
  unfold read_entries, mbind, M_bind. rewrite E2, io_call_ok by done. unfold gets, lift. simpl.
  rewrite H2. simpl.
  assert (∃ e, try_map parse_entry (file_lines text) = Err e) as [e ->]; [|by eexists _, _].
  destruct (lines_app es bad "" (String.length text) Hok Hn) as (fuel & _ & El); [done|].
  unfold file_lines, text at 2. rewrite El.
  assert (∃ e, parse_entry (bad +:+ String newline "") = Err e) as [e He].
  { unfold parse_entry. destruct (negb _); [by eexists|].
    assert (strip_line_end (bad +:+ String newline "") = bad) as ->.
    { apply strip_line_end_visible. unfold bad. destruct (json_text_shape r') as (_ & s & a & -> & Ha).
      exists (json_text r +:+ s), a. by rewrite str_app_assoc. }
    unfold from_str. rewrite Hj. by eexists. }
  by eapply try_map_app_Err.
Qed.
End failures.

(** C36. A write error in the middle of the log is fatal later: when the newline of one
    append fails (a full disk, say), that append is reported as failed and the next one as
    successful, but both records are now on one line, so that the next process to open the
    log is refused. The parser rejects two documents on one line. *)
Theorem torn_append_breaks_reopen `{External, Json} t io' path event event' w :
  log_ok w → (0 ≤ t ≤ i64_max)%Z → no_fault io' → event_ok event → event_ok event' →
  length w.(events) + 1 < EVENT_LOG_RETENTION_MIN_EVENTS →
  (∀ r r', from_entry (EventLogEntry.mk w.(next_seq) (Z.to_N t) event) = Ok r →
           from_entry (EventLogEntry.mk (u64_saturating_add w.(next_seq) 1) (Z.to_N t) event') = Ok r' →
           ∃ e, json_from_str (json_text r +:+ json_text r') = Err e) →
  let io := fails_at (tick w + 2) t in
  ∃ e w1 w2 e' w3,
    append io path event w = (Err e, w1) ∧
    append io path event' w1 = (Ok event', w2) ∧
    open io' path w2 = (Err e', w3).
Proof.
  intros Hw [Ht Ht'] Hnf Hev Hev' Hlen Hjson. pose proof Hw as (_ & _ & Hall & Hseq).
  assert (u64_ok (Z.to_N t)) as Hts by (unfold u64_ok, u64_max, i64_max in *; lia).
  destruct (append_torn t path w.(events) event w Ht (log_ok_st w Hw)) as (e & w1 & r & E1 & Hr & Hst1 & Htick);
    [done|].
  set (entry' := EventLogEntry.mk (u64_saturating_add (next_seq w) 1) (Z.to_N t) event').
  assert (entry_ok entry') as Hok' by (split_and!; [apply saturating_add_ok|done|done]).
  destruct (append_run (tick w + 2) t path _ _ _ event' w1 Ht Htick Hst1 Hok' Hlen)
    as (w2 & E2 & Hst2).
  destruct (from_entry_roundtrip _ Hok') as (r' & Hr' & _).
  assert (w2.(disk).(log_file) =
          Some (file_of w.(events) +:+ (json_text r +:+ json_text r') +:+ String newline "")) as Hf.
  { destruct Hst2 as (-> & _). unfold entry_line. fold entry'. rewrite Hr'. by rewrite !str_app_assoc. }
  destruct (Hjson r r' Hr Hr') as [ej Ej].
  destruct (open_corrupt io' path _ _ _ ej w2 Hnf Hall Hf) as (e' & w3 & E3); [|done|].
  { rewrite bytes_app, elem_of_app. intros [Hn|Hn]; by apply json_no_newline in Hn. }
  by exists e, w1, w2, e', w3.
Qed.

Lemma new_log_ok `{External, Json} t : log_ok (new_log t).
Proof. apply (serves_new t). Qed.

Lemma torn_append_breaks_reopen_witness :
  ∃ e w1 w2 e' w3,
    @append decimal_external code_json (fails_at 2 1000) "/d/events.jsonl" sample_event (new_log 0) = (Err e, w1) ∧
    @append decimal_external code_json (fails_at 2 1000) "/d/events.jsonl" sample_event w1 = (Ok sample_event, w2) ∧
    @open decimal_external code_json (steady 0 (λ _, None)) "/d/events.jsonl" w2 = (Err e', w3).
Proof.
  apply (@torn_append_breaks_reopen decimal_external code_json 1000 (steady 0 (λ _, None))
           "/d/events.jsonl" sample_event sample_event (new_log 0)).
  - apply (@new_log_ok decimal_external code_json).
  - vm_compute; split; discriminate.
  - intros n; reflexivity.
  - vm_compute; discriminate.
  - vm_compute; discriminate.
  - unfold EVENT_LOG_RETENTION_MIN_EVENTS. simpl length. lia.
  - intros r r' Hr Hr'.
    assert (r = default (EventLogRecord.mk 0 0 "" Null)
              (ok (@from_entry decimal_external (EventLogEntry.mk 1 1000 sample_event)))) as ->.
    { change (from_entry _) with (@from_entry decimal_external (EventLogEntry.mk 1 1000 sample_event)) in Hr.
      rewrite Hr. reflexivity. }
    assert (r' = default (EventLogRecord.mk 0 0 "" Null)
              (ok (@from_entry decimal_external (EventLogEntry.mk 2 1000 sample_event)))) as ->.
    { change (from_entry _) with (@from_entry decimal_external (EventLogEntry.mk 2 1000 sample_event)) in Hr'.
      rewrite Hr'. reflexivity. }
    eexists. vm_compute. reflexivity.
Defined.

(** C37. A compaction that cannot create its temporary file forgets the entries it meant to
    keep: they are still in the file, but the running daemon now holds only the expired
    ones, so that a client at the newest cursor is answered with no event and sent back to
    an older cursor, and one that is behind is not given the newer events. *)
Theorem compaction_failure_forgets `{External, Json} io path history d k w w1 x :
  serves history d w →
  retain_from_index io w.(events) w = (Ok (Some k), w1) →
  io.(fault) w1.(tick) = Some x →
  let '(r, w') := compact_if_due io path w in
  is_ok r = false ∧
  w'.(disk) = w.(disk) ∧
  w'.(events) = take k w.(events) ∧
  d + k < length history ∧
  events_since w' (Some (N.of_nat (length history))) = Ok (EventLogPage.mk [] (N.of_nat (d + k))).
Proof.
  intros Hs Hr Hx. pose proof (serves_length _ _ _ Hs) as Hlen.
  pose proof (serves_bound _ _ _ Hs) as Hb.
  assert (w1 = set_tick (S (tick w)) w ∧ 0 < k ∧ k + EVENT_LOG_RETENTION_MIN_EVENTS ≤ length w.(events))
    as (-> & Hk & Hkl).
  { revert Hr. unfold retain_from_index. case_decide as Hl; [done|].
    unfold current_timestamp_ms, next_tick, mbind, M_bind. simpl. case_decide; [|done].
    unfold mret, M_ret. case_decide as Hm; [|done]. intros [= <- <-].
    unfold EVENT_LOG_RETENTION_MIN_EVENTS in *. split_and!; [done|lia|lia]. }
  unfold compact_if_due, gets, mbind, M_bind. rewrite Hr.
  unfold modify, io_call, next_tick, mbind, M_bind, throw.
  cbn [tick set_events set_tick] in *. rewrite Hx. cbn [is_ok disk set_tick set_events events].
  split; [done|]. split; [done|]. split; [done|]. pose proof min_events_pos.
  split; [lia|].
  destruct Hs as (_ & He & Hseq & _). unfold events_since, oldest_valid_cursor.
  cbn [from_option id events set_tick set_events].
  assert (∀ i e, take k (events w) !! i = Some e →
            EventLogEntry.seq e = N.of_nat (d + i + 1) ∧ i < k) as Htake.
  { intros i e Hi. apply lookup_take_Some in Hi as [Hi ?]. by rewrite (Hseq _ _ Hi). }
  assert (filter (λ entry, (N.of_nat (length history) < EventLogEntry.seq entry)%N)
            (take k (events w)) = []) as ->.
  { destruct (filter _ _) as [|e l] eqn:E; [done|]. exfalso.
    assert (e ∈ filter (λ entry, (N.of_nat (length history) < EventLogEntry.seq entry)%N)
                  (take k (events w))) as Hin by (rewrite E; by left).
    apply list_elem_of_filter in Hin as [Hlt Hin]. apply list_elem_of_lookup in Hin as [i Hi].
    destruct (Htake i e Hi) as [E1 Hik]. rewrite E1 in Hlt. lia. }
  assert (last (take k (events w)) = events w !! (k - 1)) as Hlast.
  { rewrite last_lookup, length_take, Nat.min_l by lia. rewrite lookup_take_lt by lia. f_equal. lia. }
  destruct (events w !! (k - 1)) as [e|] eqn:Ee.
  2: { apply lookup_ge_None in Ee. lia. }
  rewrite Hlast. rewrite (Hseq _ _ Ee).
  destruct (events w) as [|e0 es] eqn:Ew; [simpl in *; lia|].
  destruct k as [|k]; [lia|]. cbn [take head fmap option_fmap option_map].
  pose proof (Hseq 0 e0 eq_refl) as H0'. rewrite H0'.
  replace (N.of_nat (length history) <? u64_saturating_sub (N.of_nat (d + 0 + 1)) 1)%N with false
    by (symmetry; apply N.ltb_ge; unfold u64_saturating_sub; simpl in *; lia).
  f_equal. f_equal. lia.
Qed.

(** A log of [n] entries from the epoch. *)
Definition old_entries (n : nat) : list EventLogEntry :=
  (λ i, EventLogEntry.mk (N.of_nat (i + 1)) 0 sample_event) <$> List.seq 0 n.
Definition old_log `{External, Json} (n : nat) : Log :=
  mkLog (mkDisk (Some (file_of (old_entries n))) None) true (old_entries n) (N.of_nat (n + 1)) 0 0 0.

Lemma serves_old `{External, Json} n :
  (N.of_nat (n + 1) ≤ u64_max)%N → serves (replicate n sample_event) 0 (old_log n).
Proof.
  intros Hn.
  assert (∀ i e, old_entries n !! i = Some e →
            i < n ∧ e = EventLogEntry.mk (N.of_nat (i + 1)) 0 sample_event) as Hl.
  { intros i e. unfold old_entries. rewrite list_lookup_fmap. destruct (List.seq 0 n !! i) as [j|] eqn:E; [|done].
    apply lookup_seq in E as [-> ?]. intros [= <-]. done. }
  unfold serves, log_ok. split_and!; try done.
  - apply Forall_forall. intros e [i Hi]%list_elem_of_lookup. apply Hl in Hi as [Hi ->].
    split_and!; simpl; unfold u64_ok, u32_ok, u64_max in *; simpl in *; try lia; vm_compute; discriminate.
  - simpl. rewrite drop_0. unfold old_entries.
    assert (∀ l : list nat, EventLogEntry.event <$>
              ((λ i, EventLogEntry.mk (N.of_nat (i + 1)) 0 sample_event) <$> l) =
            replicate (length l) sample_event) as Hmap
      by (induction l as [|i l IH]; [done|rewrite !fmap_cons; cbn [length replicate]; by rewrite IH]).
    by rewrite Hmap, length_seq.
  - intros i e [_ ->]%Hl. simpl. done.
  - simpl. by rewrite length_replicate.
  - by left.
Qed.

Lemma retain_old_one f w :
  retain_from_index (steady 604800001 f) (old_entries (N.to_nat 10001)) w =
  (Ok (Some 1), set_tick (S w.(tick)) w).
Proof.
  assert (length (old_entries (N.to_nat 10001)) = N.to_nat 10001) as Hl
    by (unfold old_entries; by rewrite length_fmap, length_seq).
  unfold retain_from_index, EVENT_LOG_RETENTION_MIN_EVENTS. rewrite decide_False by lia.
  unfold current_timestamp_ms, next_tick, mbind, M_bind, mret, M_ret.
  rewrite decide_True by done.
  replace (Nat.min _ _) with 1; [done|].
  rewrite Hl. change (wall (steady 604800001 f) (tick w)) with 604800001%Z.
  assert (1 ≤ take_while_old (Z.to_N 604800001) (EVENT_LOG_RETENTION_MIN_AGE_SECS * 1000)
                (old_entries (N.to_nat 10001))) as Ht.
  { apply take_while_old_max; [lia|].
    destruct (old_entries (N.to_nat 10001)) as [|e es] eqn:E; [simpl in Hl; lia|].
    simpl. apply Forall_singleton.
    assert (e ∈ old_entries (N.to_nat 10001)) as He by (rewrite E; by left).
    apply list_elem_of_fmap in He as (i & -> & _). vm_compute. done. }
  lia.
Qed.

Lemma compaction_failure_forgets_witness :
  let n := N.to_nat 10001 in
  let io := steady 604800001 (λ m, if decide (m = 1) then Some 0 else None) in
  let w' := (@compact_if_due decimal_external code_json io "/d/events.jsonl"
               (@old_log decimal_external code_json n)).2 in
  events_since w' (Some (N.of_nat (length (replicate n sample_event)))) = Ok (EventLogPage.mk [] 1).
Proof.
  intros n io w'. subst w'.
  assert (N.of_nat (n + 1) ≤ u64_max)%N as Hm by (unfold n, u64_max; lia).
  pose proof (@compaction_failure_forgets decimal_external code_json io "/d/events.jsonl"
    (replicate n sample_event) 0 1 _ _ 0 (@serves_old decimal_external code_json n Hm)
    (retain_old_one _ _) eq_refl) as H.
  destruct (@compact_if_due _ _ _ _ _) as [r w'].
  destruct H as (_ & _ & _ & _ & He). exact He.
Defined.
