(* ===== verification/LongPoll.v ===== *)
(** * Long polling (EventLog::events_since_or_wait of crates/rtm-daemon/src/event_log.rs)

    [events_since_or_wait] takes the lock twice and then waits on the notifier; [append]
    notifies after it has released the lock. A caller is the state machine below; every
    access under the lock is one step, and a call is dropped wherever it is when its
    connection ends. A [Notified] future of the runtime receives every notification sent
    after its creation. *)

From S2P Require Import Prelude RustStr Types Parsers Json Launch Errors EventLog.
From stdpp Require Import options.


Module Waiter.
Inductive Waiter :=
| Checked                                       (* first check was empty *)
| Armed (notified : bool)                       (* notified() created and enabled *)
| Waiting (notified : bool) (second_check : EventLogPage) (* in the select, guard held *)
| Finished (r : result CursorExpired EventLogPage).
End Waiter.
Notation Waiter := Waiter.Waiter.

Record Poller := mkPoller { since : option EventCursor; wait_ms : option N; at_ : Waiter }.

(** [unnotified] counts the appenders between the release of the lock and
    [notify_waiters]. *)
Record LongPoll := mkLongPoll {
  log : Log; unnotified : nat; waiter_count : nat; pollers : gmap nat Poller }.

Definition first_check (w : Log) (since : option EventCursor) (wait_ms : option N) : Waiter :=
  let wait_ms := clamped_event_wait_ms wait_ms in
  match events_since w since with
  | Err e => Waiter.Finished (Err e)
  | Ok immediate =>
      if (wait_ms =? 0)%N || negb (bool_decide (immediate.(EventLogPage.events) = []))
      then Waiter.Finished (Ok immediate) else Waiter.Checked
  end.

Definition second_check (w : Log) (since : option EventCursor) (notified : bool) : Waiter :=
  match events_since w since with
  | Err e => Waiter.Finished (Err e)
  | Ok second_check =>
      if negb (bool_decide (second_check.(EventLogPage.events) = []))
      then Waiter.Finished (Ok second_check) else Waiter.Waiting notified second_check
  end.

Definition notify (p : Poller) : Poller :=
  match p.(at_) with
  | Waiter.Armed _ => mkPoller p.(since) p.(wait_ms) (Waiter.Armed true)
  | Waiter.Waiting _ page => mkPoller p.(since) p.(wait_ms) (Waiter.Waiting true page)
  | _ => p
  end.

Definition is_waiting (p : Poller) : bool :=
  match p.(at_) with Waiter.Waiting _ _ => true | _ => false end.

(** [EventWaiterGuard::new], and its [drop]. *)
Definition guard_new (waiter_count : nat) : nat := S waiter_count.
Definition guard_drop (waiter_count : nat) : nat := pred waiter_count.

Section long_poll.
Context `{External, Json}.
Variable io : Io.
Variable path : string.

Inductive lp_step (faulty : bool) : LongPoll → LongPoll → Prop :=
| lp_call s i since wait_ms :
    s.(pollers) !! i = None →
    lp_step faulty s (mkLongPoll s.(log) s.(unnotified) s.(waiter_count)
      (<[i := mkPoller since wait_ms (first_check s.(log) since wait_ms)]> s.(pollers)))
| lp_arm s i since wait_ms :
    s.(pollers) !! i = Some (mkPoller since wait_ms Waiter.Checked) →
    lp_step faulty s (mkLongPoll s.(log) s.(unnotified) s.(waiter_count)
      (<[i := mkPoller since wait_ms (Waiter.Armed false)]> s.(pollers)))
| lp_second s i since wait_ms notified :
    s.(pollers) !! i = Some (mkPoller since wait_ms (Waiter.Armed notified)) →
    let p := mkPoller since wait_ms (second_check s.(log) since notified) in
    lp_step faulty s (mkLongPoll s.(log) s.(unnotified)
      (if is_waiting p then guard_new s.(waiter_count) else s.(waiter_count))
      (<[i := p]> s.(pollers)))
| lp_wake s i since wait_ms page :
    s.(pollers) !! i = Some (mkPoller since wait_ms (Waiter.Waiting true page)) →
    lp_step faulty s (mkLongPoll s.(log) s.(unnotified) (guard_drop s.(waiter_count))
      (<[i := mkPoller since wait_ms (Waiter.Finished (events_since s.(log) since))]> s.(pollers)))
| lp_timeout s i since wait_ms notified page :
    s.(pollers) !! i = Some (mkPoller since wait_ms (Waiter.Waiting notified page)) →
    lp_step faulty s (mkLongPoll s.(log) s.(unnotified) (guard_drop s.(waiter_count))
      (<[i := mkPoller since wait_ms (Waiter.Finished (Ok page))]> s.(pollers)))
(* the connection ended: the call is dropped where it is *)
| lp_drop s i p :
    s.(pollers) !! i = Some p →
    lp_step faulty s (mkLongPoll s.(log) s.(unnotified)
      (if is_waiting p then guard_drop s.(waiter_count) else s.(waiter_count)) (delete i s.(pollers)))
| lp_append s event w' :
    append io path event s.(log) = (Ok event, w') →
    lp_step faulty s (mkLongPoll w' (S s.(unnotified)) s.(waiter_count) s.(pollers))
| lp_append_failed s event e w' :
    faulty = true → append io path event s.(log) = (Err e, w') →
    lp_step faulty s (mkLongPoll w' s.(unnotified) s.(waiter_count) s.(pollers))
| lp_notify s n :
    s.(unnotified) = S n →
    lp_step faulty s (mkLongPoll s.(log) n s.(waiter_count) (notify <$> s.(pollers))).

Definition lp_init (w : Log) : LongPoll := mkLongPoll w 0 0 ∅.

Definition poller_ok (s : LongPoll) (p : Poller) : Prop :=
  match p.(at_) with
  | Waiter.Waiting notified page =>
      page.(EventLogPage.events) = [] ∧ (0 < clamped_event_wait_ms p.(wait_ms))%N ∧
      (notified = false → s.(unnotified) = 0 → events_since s.(log) p.(since) = Ok page)
  | Waiter.Checked | Waiter.Armed _ => (0 < clamped_event_wait_ms p.(wait_ms))%N
  | _ => True
  end.

Definition waiting_count (m : gmap nat Poller) : nat := size (filter (λ kv, is_waiting kv.2 = true) m).

Definition lp_inv (s : LongPoll) : Prop :=
  s.(waiter_count) = waiting_count s.(pollers) ∧ map_Forall (λ _ p, poller_ok s p) s.(pollers).

Lemma waiting_count_insert m i p :
  waiting_count (<[i := p]> m) =
  (if is_waiting p then 1 else 0) + waiting_count (delete i m).
Proof.
  unfold waiting_count. rewrite <- insert_delete_eq.
  destruct (is_waiting p) eqn:E.
  - rewrite map_filter_insert_True by done. rewrite map_size_insert_None; [done|].
    apply map_lookup_filter_None. left. apply lookup_delete_eq.
  - rewrite map_filter_insert_False by (simpl; congruence). by rewrite delete_delete_eq.
Qed.

Lemma waiting_count_delete m i p :
  m !! i = Some p → waiting_count m = (if is_waiting p then 1 else 0) + waiting_count (delete i m).
Proof. intros Hi. rewrite <- (insert_id m i p Hi) at 1. apply waiting_count_insert. Qed.

Lemma waiting_count_notify m : waiting_count (notify <$> m) = waiting_count m.
Proof.
  unfold waiting_count. induction m as [|i p m Hi IH] using map_ind.
  - by rewrite fmap_empty.
  - rewrite fmap_insert.
    fold (waiting_count (<[i := notify p]> (notify <$> m))) (waiting_count (<[i := p]> m)).
    rewrite !waiting_count_insert.
    rewrite (delete_id m) by done. rewrite (delete_id (notify <$> m)) by (rewrite lookup_fmap, Hi; done).
    unfold waiting_count. rewrite IH. f_equal. unfold is_waiting, notify. by destruct p as [? ? []].
Qed.

Lemma lp_inv_step s s' : lp_inv s → lp_step false s s' → lp_inv s'.
Proof.
  intros [Hc Hp] Hstep.
  assert (∀ i p, pollers s !! i = Some p → poller_ok s p) as Hp' by (intros i p Hi; by apply (Hp i p)).
  destruct Hstep as [s i sc wm Hi|s i sc wm Hi|s i sc wm b Hi p|s i sc wm page Hi
    |s i sc wm b page Hi|s i p Hi|s ev w' Ha|s ev e w' Hf|s n Hn]; unfold lp_inv; simpl.
  - split.
    + rewrite waiting_count_insert, (delete_id (pollers s)), Hc by done.
      unfold first_check. repeat case_match; done.
    + apply map_Forall_insert_2; [|done]. unfold first_check. repeat case_match; try done.
      unfold poller_ok. simpl. apply orb_false_iff in H2 as [H2%N.eqb_neq _]. lia.
  - pose proof (Hp' i _ Hi) as Hok. split.
    + rewrite waiting_count_insert, Hc. rewrite (waiting_count_delete _ _ _ Hi). done.
    + by apply map_Forall_insert_2.
  - pose proof (Hp' i _ Hi) as Hok. split.
    + rewrite waiting_count_insert, Hc, (waiting_count_delete _ _ _ Hi). simpl.
      by destruct (is_waiting p).
    + apply map_Forall_insert_2; [|done]. subst p. unfold second_check, poller_ok in *. simpl in *.
      destruct (events_since (log s) sc) as [pg|] eqn:E; [|done].
      destruct (bool_decide (EventLogPage.events pg = [])) eqn:Eb; [|done]. simpl.
      by apply bool_decide_eq_true in Eb.
  - pose proof (Hp' i _ Hi) as Hok. split.
    + rewrite waiting_count_insert, Hc, (waiting_count_delete _ _ _ Hi). done.
    + by apply map_Forall_insert_2.
  - pose proof (Hp' i _ Hi) as Hok. split.
    + rewrite waiting_count_insert, Hc, (waiting_count_delete _ _ _ Hi). done.
    + by apply map_Forall_insert_2.
  - split.
    + rewrite Hc, (waiting_count_delete _ _ _ Hi). by destruct (is_waiting p).
    + by apply map_Forall_delete.
  - split; [done|]. intros i p Hi. pose proof (Hp' i p Hi) as Hok.
    unfold poller_ok in *. simpl. destruct (at_ p); naive_solver.
  - done.
  - split; [by rewrite waiting_count_notify|].
    intros i p. rewrite lookup_fmap_Some. intros (q & <- & Hi). pose proof (Hp' i q Hi) as Hok.
    unfold poller_ok, notify in *. destruct q as [? ? []]; simpl in *; naive_solver.
Qed.

Lemma lp_reachable_inv w s : rtc (lp_step false) (lp_init w) s → lp_inv s.
Proof.
  assert (lp_inv (lp_init w)) as Hw by (split; [done|apply map_Forall_empty]).
  intros Hr. induction Hr; eauto using lp_inv_step.
Qed.
End long_poll.


(** The states of one caller over the empty log. *)
Definition parked (w : Log) : LongPoll :=
  mkLongPoll w 0 1 {[0 := mkPoller None (Some 500%N) (Waiter.Waiting false (EventLogPage.mk [] 0))]}.

Lemma parked_reachable `{External, Json} io path faulty :
  rtc (lp_step io path faulty) (lp_init (new_log 0)) (parked (new_log 0)).
Proof.
  set (q a := mkPoller None (Some 500%N) a).
  apply (rtc_l _ _ (mkLongPoll (new_log 0) 0 0 {[0 := q Waiter.Checked]})).
  { apply (lp_call io path faulty (lp_init (new_log 0)) 0 None (Some 500%N)). done. }
  apply (rtc_l _ _ (mkLongPoll (new_log 0) 0 0 {[0 := q (Waiter.Armed false)]})).
  { pose proof (lp_arm io path faulty (mkLongPoll (new_log 0) 0 0 {[0 := q Waiter.Checked]}) 0 None
      (Some 500%N)) as Hs. simpl in Hs. rewrite insert_singleton_eq in Hs. apply Hs.
    apply lookup_singleton_eq. }
  apply rtc_once.
  pose proof (lp_second io path faulty (mkLongPoll (new_log 0) 0 0 {[0 := q (Waiter.Armed false)]}) 0 None
    (Some 500%N) false) as Hs. simpl in Hs. rewrite insert_singleton_eq in Hs. apply Hs.
  apply lookup_singleton_eq.
Qed.


(** C38. The wakeup is lost when the append fails after the event is in the log: with a
    failing [sync_data], a caller that waits for events stays parked, no notification is
    pending, and the log already has the event the caller asked for (so it waits for its
    whole window). *)
Theorem long_poll_sync_failure_strands :
  ∃ io s p page page',
    rtc (@lp_step decimal_external code_json io "/d/events.jsonl" true) (lp_init (new_log 0)) s ∧
    s.(pollers) !! 0 = Some p ∧ p.(at_) = Waiter.Waiting false page ∧
    s.(unnotified) = 0 ∧ events_since s.(log) p.(since) = Ok page' ∧
    page'.(EventLogPage.events) = [sample_event].
Proof.
  set (io := mkIo (λ n, if decide (n = 4) then Some 0 else None) (λ _, 1000%Z) (λ _, 200%N)).
  destruct (@append decimal_external code_json io "/d/events.jsonl" sample_event (new_log 0))
    as [r w'] eqn:E.
  assert (r = Err (anyhow "failed to sync event log")) as ->.
  { transitivity (@append decimal_external code_json io "/d/events.jsonl" sample_event (new_log 0)).1;
      [by rewrite E|vm_compute; reflexivity]. }
  assert (w'.(events) = [EventLogEntry.mk 1 1000 sample_event]) as He.
  { transitivity (@append decimal_external code_json io "/d/events.jsonl" sample_event (new_log 0)).2.(events);
      [by rewrite E|vm_compute; reflexivity]. }
  exists io, (parked w'). eexists _, _, _. split_and!.
  - eapply rtc_r; [apply parked_reachable|].
    by apply (lp_append_failed io "/d/events.jsonl" true (parked (new_log 0)) _ _ _ eq_refl E).
  - reflexivity.
  - reflexivity.
  - reflexivity.
  - simpl. unfold events_since. rewrite He. reflexivity.
  - reflexivity.
Qed.

(** ** Waking up *)

Section liveness.
Context `{External, Json}.
Variable io : Io.
Variable path : string.

(** An endless run; it may stand still. *)
Definition lp_run (st : nat → LongPoll) : Prop :=
  ∀ n, lp_step io path false (st n) (st (S n)) ∨ st (S n) = st n.

Definition parked_at (i : nat) (notified : bool) (page : EventLogPage) (s : LongPoll) : Prop :=
  ∃ p, s.(pollers) !! i = Some p ∧ p.(at_) = Waiter.Waiting notified page.

(** Caller [i] takes the branch of its notification. *)
Definition wakes (i : nat) (s s' : LongPoll) : Prop :=
  ∃ since wait_ms page,
    s.(pollers) !! i = Some (mkPoller since wait_ms (Waiter.Waiting true page)) ∧
    s'.(pollers) !! i = Some (mkPoller since wait_ms (Waiter.Finished (events_since s.(log) since))).

(** An appender sends its notification. *)
Definition notifies (s s' : LongPoll) : Prop := s'.(pollers) = notify <$> s.(pollers).

(** What the runtime gives: an appender that has released the lock goes on, a caller whose
    notification has come is polled again, and caller [i]'s window does not end before. *)
Record fair (i : nat) (st : nat → LongPoll) : Prop := {
  fair_appenders n : 0 < (st n).(unnotified) → ∃ m, n ≤ m ∧ notifies (st m) (st (S m));
  fair_caller n page : parked_at i true page (st n) → ∃ m, n ≤ m ∧ wakes i (st m) (st (S m));
  fair_window n notified page :
    parked_at i notified page (st n) →
    wakes i (st n) (st (S n)) ∨ ∃ notified', parked_at i notified' page (st (S n)) }.

Lemma lp_run_invariant w st : st 0 = w → lp_inv w → lp_run st → ∀ n, lp_inv (st n).
Proof.
  intros E0 Hw Hrun n. induction n as [|n IH]; [by rewrite E0|].
  destruct (Hrun n) as [Hs| ->]; [by eapply lp_inv_step|done].
Qed.

(** A caller that stays parked up to a moment at which someone notifies is notified. *)
Lemma parked_until i st n m notified page :
  fair i st → n ≤ m → parked_at i notified page (st n) →
  (∃ k, n ≤ k < m ∧ wakes i (st k) (st (S k))) ∨ ∃ notified', parked_at i notified' page (st m).
Proof.
  intros Hf Hm Hp. induction Hm as [|m Hm IH]; [right; by exists notified|].
  destruct IH as [(k & Hk & Hw)|(b & Hb)]; [left; exists k; split; [lia|done]|].
  destruct (fair_window _ _ Hf m b page Hb) as [Hw|Hp']; [|by right].
  left. exists m. split; [lia|done].
Qed.

Lemma notifies_parked i s s' notified page :
  notifies s s' → parked_at i notified page s → parked_at i true page s'.
Proof.
  intros Hn ([sc wm at'] & Hi & Hat). exists (notify (mkPoller sc wm at')). split.
  - by rewrite Hn, lookup_fmap, Hi.
  - simpl in Hat. subst at'. done.
Qed.
End liveness.


(** The run of a caller that parks, an append, its notification and the caller's answer. *)
Section woken.
#[local] Existing Instance decimal_external.
#[local] Existing Instance code_json.

Definition woken_log : Log := (append (steady 0 (λ _, None)) "/e" sample_event (new_log 0)).2.
Lemma woken_append :
  append (steady 0 (λ _, None)) "/e" sample_event (new_log 0) = (Ok sample_event, woken_log).
Proof. vm_compute. reflexivity. Qed.
#[local] Opaque woken_log.

Definition woken_run (n : nat) : LongPoll :=
  let caller at' := mkPoller None (Some 500%N) at' in
  match n with
  | 0 => parked (new_log 0)
  | 1 => mkLongPoll woken_log 1 1 (parked (new_log 0)).(pollers)
  | 2 => mkLongPoll woken_log 0 1 {[0 := caller (Waiter.Waiting true (EventLogPage.mk [] 0))]}
  | _ => mkLongPoll woken_log 0 0 {[0 := caller (Waiter.Finished (events_since woken_log None))]}
  end.

Lemma woken_lp_run : lp_run (steady 0 (λ _, None)) "/e" woken_run.
Proof.
  intros [|[|[|n]]].
  - left. exact (lp_append _ _ _ (parked (new_log 0)) sample_event woken_log woken_append).
  - left. pose proof (lp_notify (steady 0 (λ _, None)) "/e" false (woken_run 1) 0 eq_refl) as Hs.
    unfold woken_run, parked in *. cbn [log unnotified waiter_count pollers] in *.
    rewrite map_fmap_singleton in Hs. exact Hs.
  - left. pose proof (lp_wake (steady 0 (λ _, None)) "/e" false (woken_run 2) 0 None (Some 500%N)
      (EventLogPage.mk [] 0) eq_refl) as Hs.
    unfold woken_run in *. cbn [log unnotified waiter_count pollers] in *.
    rewrite insert_singleton_eq in Hs. exact Hs.
  - by right.
Qed.

Lemma woken_wakes : wakes 0 (woken_run 2) (woken_run 3).
Proof. do 3 eexists. split; reflexivity. Qed.

Lemma woken_fair : fair 0 woken_run.
Proof.
  split.
  - intros [|[|[|n]]] Hn; simpl in Hn; try lia. exists 1. split; [done|].
    unfold notifies, woken_run, parked. cbn [pollers]. by rewrite map_fmap_singleton.
  - intros [|[|[|n]]] page (p & Hi & Hat); simpl in Hi; injection Hi as <-; try discriminate Hat.
    exists 2. split; [done|exact woken_wakes].
  - intros [|[|[|n]]] b page (p & Hi & Hat); simpl in Hi; injection Hi as <-; vm_compute in Hat; simplify_eq.
    + right. exists false. eexists. split; reflexivity.
    + right. exists true. eexists. split; reflexivity.
    + left. exact woken_wakes.
Qed.

End woken.
