(* ===== verification/LogSink.v ===== *)
(** * The event log behind the interface of the coordinators

    EventLog.v implements the [EventSink] of Interfaces.v: whatever fails, the events in the
    log's memory are a subsequence of the events appended; without failures they are the
    history, less what the retention rule drops. *)

From S2P Require Import Prelude RustStr Types Json Errors Interfaces EventLog.
From stdpp Require Import options.

Section log_sink.
Context `{External, Json}.
Variable io : Io.
Variable path : string.

Definition read_page (since : option EventCursor) (w : Log) : result N (list RuntimeEvent * N) :=
  match events_since w since with
  | Ok page => Ok (page.(EventLogPage.events), page.(EventLogPage.cursor))
  | Err expired => Err expired.(oldest)
  end.

#[export] Instance log_sink : EventSink Log :=
  {| append_event := EventLog.append io path; events_page := read_page |}.

(** ** The memory of the log is a subsequence of the history *)

Definition shows (h : list RuntimeEvent) (w : Log) : Prop :=
  (EventLogEntry.event <$> w.(events)) `sublist_of` h.

Definition keeps {A} (m : M Log Error A) : Prop :=
  ∀ h, hoare (shows h) m (λ _, shows h) (λ _, shows h).

Lemma keeps_bind {A B} (m : M Log Error A) (f : A → M Log Error B) :
  keeps m → (∀ a, keeps (f a)) → keeps (m ≫= f).
Proof. intros Hm Hf h. eapply hoare_bind; [apply Hm|]. intros a. apply Hf. Qed.

Lemma keeps_ret {A} (a : A) : keeps (mret a).
Proof. intros h. by apply hoare_ret. Qed.

Lemma keeps_throw {A} e : keeps (throw e : M Log Error A).
Proof. intros h. by apply hoare_throw. Qed.

Lemma keeps_lift {A} r : keeps (lift r : M Log Error A).
Proof. intros h w Hw. by destruct r. Qed.

Lemma keeps_gets {A} (f : Log → A) : keeps (gets f).
Proof. by intros h w Hw. Qed.

Lemma keeps_modify f : (∀ w, (f w).(events) = w.(events)) → keeps (modify f).
Proof. intros Hf h. apply hoare_modify. intros w. unfold shows. by rewrite Hf. Qed.

Lemma keeps_next_tick : keeps next_tick.
Proof. by intros h w Hw. Qed.

Create HintDb keeps discriminated.
#[local] Hint Resolve keeps_bind keeps_ret keeps_throw keeps_lift keeps_gets keeps_next_tick : keeps.

(** Goes through a sequence of calls. *)
Ltac keeps :=
  repeat first
    [ solve [auto with keeps nocore]
    | lazymatch goal with
      | |- keeps (_ ≫= _) => apply keeps_bind; [|intros ?]
      | |- keeps (modify _) => apply keeps_modify; intros [? [] ? ? ? ? ?]; reflexivity
      end
    | case_decide | case_match | progress cbv zeta ].

Lemma keeps_io_call msg : keeps (io_call io msg).
Proof. unfold io_call. keeps. Qed.
Lemma keeps_timestamp : keeps (current_timestamp_ms io).
Proof. unfold current_timestamp_ms. keeps. Qed.
Lemma keeps_instant : keeps (instant_now io).
Proof. unfold instant_now. keeps. Qed.
#[local] Hint Resolve keeps_io_call keeps_timestamp keeps_instant : keeps.

Lemma keeps_write_log msg text : keeps (write_log io msg text).
Proof. unfold write_log. keeps. Qed.
Lemma keeps_write_tmp msg text : keeps (write_tmp io msg text).
Proof. unfold write_tmp. keeps. Qed.
Lemma keeps_open_append_file : keeps (open_append_file io path).
Proof. unfold open_append_file. keeps. Qed.
Lemma keeps_sync : keeps (sync_if_due io).
Proof. unfold sync_if_due. keeps. Qed.
Lemma keeps_retain_from es : keeps (retain_from_index io es).
Proof. unfold retain_from_index. keeps. Qed.
#[local] Hint Resolve keeps_write_log keeps_write_tmp keeps_open_append_file keeps_sync keeps_retain_from : keeps.
Lemma keeps_write_retained es : keeps (write_retained io es).
Proof. induction es; simpl; keeps. Qed.
#[local] Hint Resolve keeps_write_retained : keeps.

Lemma shows_mono h h' w : shows h w → shows (h ++ h') w.
Proof. unfold shows. intros Hh. etrans; [exact Hh|]. by apply sublist_inserts_r. Qed.

(** [set_events] of a part of what was read keeps the memory a subsequence. *)
Lemma set_events_shows h es es' :
  (EventLogEntry.event <$> es) `sublist_of` h → es' `sublist_of` es →
  hoare (shows h) (modify (set_events es')) (λ _, shows h) (λ _ : Error, shows h).
Proof.
  intros Hes Hsub. apply hoare_modify. intros w _. unfold shows. simpl.
  etrans; [by apply fmap_sublist|done].
Qed.

Lemma keeps_compact : keeps (compact_if_due io path).
Proof.
  intros h. unfold compact_if_due. apply hoare_gets. intros es.
  apply (hoare_pure ((EventLogEntry.event <$> es) `sublist_of` h)); [by intros w [? <-]|]. intros Hes.
  eapply hoare_bind.
  { eapply hoare_conseq; [apply (keeps_retain_from es h)|by intros w []|by intros a w Hw|done]. }
  intros [k|]; [|by apply hoare_ret].
  eapply hoare_bind; [eapply set_events_shows; [done|apply sublist_take]|]. intros [].
  do 6 (eapply hoare_bind;
    [first [apply keeps_io_call | apply keeps_write_retained | apply keeps_open_append_file
           | apply keeps_modify; by intros [] ]|intros []]).
  eapply hoare_bind; [apply keeps_open_append_file|intros []].
  eapply hoare_bind; [eapply set_events_shows; [done|apply sublist_drop]|]. intros [].
  enough (keeps (now ← instant_now io; modify (set_sync 0 now))) as Hk by apply Hk. keeps.
Qed.

Lemma append_shows h e :
  hoare (shows h) (append io path e) (λ e' w, e' = e ∧ shows (h ++ [e]) w)
    (λ _, shows (h ++ [e])).
Proof.
  assert (∀ w, shows h w → shows (h ++ [e]) w) as Hm by (intros w; apply shows_mono).
  unfold append.
  assert (∀ {A B} (m : M Log Error A) (f : A → M Log Error B) Q,
    keeps m → (∀ a, hoare (shows h) (f a) Q (λ _, shows (h ++ [e]))) →
    hoare (shows h) (m ≫= f) Q (λ _, shows (h ++ [e]))) as Hstep.
  { intros A B m f Q Hk Hf. eapply (hoare_bind _ _ _ (λ _, shows h)); [|exact Hf].
    eapply hoare_conseq; [apply (Hk h)|done|done|intros ? w; apply Hm]. }
  apply Hstep; [apply keeps_gets|]. intros seq.
  apply Hstep; [apply keeps_timestamp|]. intros ts.
  apply Hstep; [apply keeps_modify; by intros []|]. intros [].
  apply Hstep; [apply keeps_lift|]. intros record.
  do 2 (apply Hstep; [apply keeps_write_log|]; intros []).
  eapply hoare_bind; [apply (hoare_modify _ _ (λ _, shows (h ++ [e])))|].
  { intros w Hw. unfold shows in *. simpl. rewrite fmap_app. by apply sublist_app. }
  intros []. eapply hoare_bind; [apply keeps_modify; by intros []|]. intros [].
  eapply hoare_bind; [apply keeps_sync|]. intros [].
  eapply hoare_bind; [apply keeps_compact|]. intros []. by apply hoare_ret.
Qed.

(** ** The log implements the interface *)

Lemma serves_shows h w : (∃ d, serves h d w) → shows h w.
Proof.
  intros (d & _ & He & _). unfold shows. rewrite He. apply sublist_drop.
Qed.

Lemma append_serves h e :
  event_ok e ∧ wall_ok io → (N.of_nat (length h) < u64_max - 1)%N →
  hoare (λ w, ∃ d, serves h d w) (append io path e)
    (λ e' w, e' = e ∧ ∃ d, serves (h ++ [e]) d w) (λ _ _, io_failed io).
Proof.
  intros [He Hw] Hr w [d Hs]. pose proof (serves_append io path h d w e Hs He Hw Hr) as Ha.
  destruct (append io path e w) as [[e'|err] w']; [|done]. destruct Ha as (-> & d' & _ & Hs').
  split; [done|]. by exists d'.
Qed.

Lemma read_page_serves h w (c : nat) :
  (∃ d, serves h d w) → c ≤ length h →
  match read_page (Some (N.of_nat c)) w with
  | Ok page => page = (drop c h, N.of_nat (length h))
  | Err oldest => (N.of_nat c < oldest ≤ N.of_nat (length h))%N
  end.
Proof.
  intros (d & Hs) Hc. unfold read_page. rewrite (serves_read _ _ _ _ Hs Hc).
  pose proof (serves_bound _ _ _ Hs). case_decide; [|done]. simpl. lia.
Qed.

#[export] Instance log_sink_spec : @EventSpec Log log_sink :=
  Build_EventSpec Log log_sink shows (λ h w, ∃ d, serves h d w) (io_failed io)
    (λ e, event_ok e ∧ wall_ok io) (λ h, (N.of_nat (length h) < u64_max - 1)%N)
    serves_shows shows_mono append_shows append_serves read_page_serves
    (λ _, eq_refl).
End log_sink.
