(* ===== verification/Prog.v ===== *)
(** * Concurrent programs

    The daemon serves every connection, every process watcher and the periodic sweep in a
    task of its own, all over one shared state whose parts are locked one at a time. A
    [Prog] is such a task: atomic actions on the shared state with arbitrary interleaving
    between them (an action is what runs between two [.await] points that can yield, a
    statement of the store or a use of one lock). [run] executes a task alone; [pool_step]
    interleaves any number of tasks, lets new ones arrive and drops some half way, as
    timeouts and disconnections do. *)

From S2P Require Import Prelude.
From stdpp Require Import options.

Inductive Prog (W E A : Type) : Type :=
| Done (r : result E A)
| Act (B : Type) (act : W → B * W) (k : B → Prog W E A).
Arguments Done {W E A} r.
Arguments Act {W E A B} act k.

Section prog.
Context {W E : Type}.

Fixpoint prog_bind {A B} (f : A → Prog W E B) (p : Prog W E A) : Prog W E B :=
  match p with
  | Done (Ok a) => f a
  | Done (Err e) => Done (Err e)
  | Act act k => Act act (λ b, prog_bind f (k b))
  end.

(** An atomic action. *)
Definition atomic {A} (m : M W E A) : Prog W E A := Act m Done.

Definition fail {A} (e : E) : Prog W E A := Done (Err e).

(** A [match] on the outcome of a task. *)
Fixpoint attempted {A} (p : Prog W E A) : Prog W E (result E A) :=
  match p with
  | Done r => Done (Ok r)
  | Act act k => Act act (λ b, attempted (k b))
  end.

(** A task that a [select!] drops before its next action once it made [n]. *)
Fixpoint upto {A} (n : nat) (p : Prog W E A) {struct p} : Prog W E (option A) :=
  match p with
  | Done (Ok a) => Done (Ok (Some a))
  | Done (Err e) => Done (Err e)
  | Act act k => match n with
                 | O => Done (Ok None)
                 | S n => Act act (λ b, upto n (k b))
                 end
  end.

(** The task alone. *)
Fixpoint run {A} (p : Prog W E A) : M W E A := λ w,
  match p with
  | Done r => (r, w)
  | Act act k => let '(b, w') := act w in run (k b) w'
  end.
End prog.

#[export] Instance Prog_ret W E : MRet (Prog W E) := λ A a, Done (Ok a).
#[export] Instance Prog_bind W E : MBind (Prog W E) := λ A B f p, prog_bind f p.

#[export] Instance Prog_fmap W E : FMap (Prog W E) := λ A B f p, prog_bind (λ a, Done (Ok (f a))) p.

Definition lift_result {W E A} (r : result E A) : Prog W E A := Done r.
Definition prog_when {W E} (b : bool) (p : Prog W E unit) : Prog W E unit :=
  if b then p else mret tt.

(** [for x in l { body(x)?; }]. *)
Fixpoint prog_iter {W E A} (f : A → Prog W E unit) (l : list A) : Prog W E unit :=
  match l with
  | [] => mret tt
  | x :: l => _ ← f x; prog_iter f l
  end.

(** ** Running alone *)

Section run.
Context {W E : Type}.

Lemma run_bind {A B} (p : Prog W E A) (f : A → Prog W E B) w :
  run (p ≫= f) w = (run p ≫= λ a, run (f a)) w.
Proof.
  unfold mbind, Prog_bind, M_bind. revert w.
  induction p as [[a|e]|C act k IH]; intros w; simpl; [done..|].
  destruct (act w) as [b w']. apply IH.
Qed.

Lemma run_bind_match {A B} (p : Prog W E A) (f : A → Prog W E B) w :
  run (p ≫= f) w = match run p w with (Ok a, w') => run (f a) w' | (Err e, w') => (Err e, w') end.
Proof. rewrite run_bind. done. Qed.

Lemma run_fmap {A B} (f : A → B) (p : Prog W E A) w :
  run (f <$> p) w = (f <$> (run p w).1, (run p w).2).
Proof.
  unfold fmap at 1, Prog_fmap. change (prog_bind _ p) with (p ≫= λ a, Done (Ok (f a))).
  rewrite run_bind_match. by destruct (run p w) as [[] ?].
Qed.

Lemma run_attempted {A} (p : Prog W E A) w : run (attempted p) w = attempt (run p) w.
Proof.
  unfold attempt. revert w. induction p as [r|C act k IH]; intros w; simpl; [done|].
  destruct (act w) as [b w']. apply IH.
Qed.

Lemma run_atomic {A} (m : M W E A) w : run (atomic m) w = m w.
Proof. unfold atomic. simpl. by destruct (m w). Qed.

(** Tasks that only read. *)
Fixpoint observes {A} (p : Prog W E A) : Prop :=
  match p with
  | Done _ => True
  | Act act k => (∀ w, (act w).2 = w) ∧ ∀ b, observes (k b)
  end.

Lemma observes_gets {A} (f : W → A) : observes (atomic (gets f)).
Proof. by split. Qed.
Lemma observes_bind {A B} (p : Prog W E A) (f : A → Prog W E B) :
  observes p → (∀ a, observes (f a)) → observes (p ≫= f).
Proof.
  unfold mbind, Prog_bind. intros Hp Hf. induction p as [[a|e]|C act k IH]; simpl; [apply Hf|done|].
  destruct Hp as [Ha Hk]. split; [done|]. intros b. by apply IH.
Qed.
Lemma observes_attempted {A} (p : Prog W E A) : observes p → observes (attempted p).
Proof. induction p as [r|C act k IH]; simpl; [done|]. intros [Ha Hk]. split; [done|]. intros b. by apply IH. Qed.

Lemma run_observes {A} (p : Prog W E A) w : observes p → (run p w).2 = w.
Proof.
  induction p as [r|C act k IH]; simpl; [done|]. intros [Ha Hk]. specialize (Ha w).
  destruct (act w) as [b w']. simpl in Ha. subst w'. by apply IH.
Qed.
Lemma run_upto_observes {A} n (p : Prog W E A) w : observes p →
  ∃ r, run (upto n p) w = (r, w) ∧ (r = Ok None ∨ r = Some <$> (run p w).1).
Proof.
  revert n. induction p as [[a|e]|C act k IH]; intros n; simpl; [eauto..|]. intros [Ha Hk].
  destruct n as [|n]; simpl; [eauto|]. specialize (Ha w). destruct (act w) as [b w']. simpl in Ha.
  subst w'. by apply IH.
Qed.

(** The rules of [hoare] for tasks that run alone. *)
Definition alone {A} (P : W → Prop) (p : Prog W E A) (Q : A → W → Prop) (R : E → W → Prop) : Prop :=
  hoare P (run p) Q R.

Lemma alone_bind {A B} (P : W → Prop) (p : Prog W E A) (f : A → Prog W E B) Q R S :
  alone P p Q R → (∀ a, alone (Q a) (f a) S R) → alone P (p ≫= f) S R.
Proof.
  intros Hp Hf w Hw. rewrite run_bind. by apply (hoare_bind P (run p) (λ a, run (f a)) Q R S).
Qed.

Lemma alone_atomic {A} (P : W → Prop) (m : M W E A) Q R : hoare P m Q R → alone P (atomic m) Q R.
Proof. intros Hm w Hw. rewrite run_atomic. by apply Hm. Qed.

Lemma alone_ret {A} (P : W → Prop) (a : A) (Q : A → W → Prop) (R : E → W → Prop) :
  (∀ w, P w → Q a w) → alone P (mret a) Q R.
Proof. intros HQ w Hw. by apply HQ. Qed.

Lemma alone_fail {A} (P : W → Prop) (e : E) (Q : A → W → Prop) (R : E → W → Prop) :
  (∀ w, P w → R e w) → alone P (fail e) Q R.
Proof. intros HR w Hw. by apply HR. Qed.

Lemma alone_conseq {A} (P P' : W → Prop) (p : Prog W E A) Q Q' R R' :
  alone P' p Q' R' → (∀ w, P w → P' w) → (∀ a w, Q' a w → Q a w) → (∀ e w, R' e w → R e w) →
  alone P p Q R.
Proof. apply hoare_conseq. Qed.

Lemma alone_pure {A} (φ : Prop) (P : W → Prop) (p : Prog W E A) Q R :
  (∀ w, P w → φ) → (φ → alone P p Q R) → alone P p Q R.
Proof. apply hoare_pure. Qed.

Lemma alone_attempted {A} (P : W → Prop) (p : Prog W E A) Q R R' :
  alone P p Q R →
  alone P (attempted p) (λ r w, match r with Ok a => Q a w | Err e => R e w end) R'.
Proof.
  intros Hp w Hw. specialize (Hp w Hw). rewrite run_attempted. unfold attempt.
  by destruct (run p w) as [[]].
Qed.
End run.

(** ** Among others

    A task with the steps that others make between its actions. *)

Section among.
Context {W E : Type}.
Variable others : W → W → Prop.

Fixpoint among {A} (p : Prog W E A) (w : W) (r : result E A) (w' : W) : Prop :=
  match p with
  | Done r0 => r = r0 ∧ rtc others w w'
  | Act act k => ∃ w1, rtc others w w1 ∧ among (k (act w1).1) (act w1).2 r w'
  end.

Lemma among_run {A} (p : Prog W E A) w : among p w (run p w).1 (run p w).2.
Proof.
  revert w. induction p as [r|B act k IH]; intros w; simpl; [done|].
  exists w. split; [done|]. destruct (act w) as [b w']. apply IH.
Qed.

Lemma among_later {A} (p : Prog W E A) w w1 r w' : rtc others w w1 → among p w1 r w' → among p w r w'.
Proof.
  intros Hw. destruct p as [r0|B act k]; simpl.
  - intros [-> Hr]. split; [done|]. by etrans.
  - intros (w2 & Hr & Ha). exists w2. split; [by etrans|done].
Qed.

Lemma among_bind {A B} (p : Prog W E A) (f : A → Prog W E B) w r w' :
  among (p ≫= f) w r w' →
  ∃ r1 w1, among p w r1 w1 ∧
    match r1 with Ok a => among (f a) w1 r w' | Err e => r = Err e ∧ w1 = w' end.
Proof.
  unfold mbind, Prog_bind. revert w. induction p as [[a|e]|C act k IH]; intros w; simpl.
  - intros Ha. by exists (Ok a), w.
  - intros [-> Hr]. by exists (Err e), w'.
  - intros (w1 & Hw & Ha). apply IH in Ha as (r1 & w2 & Ha & Hr). exists r1, w2. split; [|done].
    by exists w1.
Qed.

Lemma among_atomic {A} (m : M W E A) w r w' :
  among (atomic m) w r w' →
  ∃ w1, rtc others w w1 ∧ r = (m w1).1 ∧ rtc others (m w1).2 w'.
Proof. done. Qed.

Lemma among_attempted {A} (p : Prog W E A) w r w' :
  among (attempted p) w r w' → ∃ r0, r = Ok r0 ∧ among p w r0 w'.
Proof.
  revert w. induction p as [r0|C act k IH]; intros w; simpl.
  - intros [-> Hr]. by exists r0.
  - intros (w1 & Hw & Ha). apply IH in Ha as (r1 & -> & Ha). exists r1. split; [done|]. by exists w1.
Qed.

Lemma among_earlier {A} (p : Prog W E A) w r w1 w' : among p w r w1 → rtc others w1 w' → among p w r w'.
Proof.
  intros Ha Hw. revert w Ha. induction p as [r0|C act k IH]; intros w; simpl.
  - intros [-> Hr]. split; [done|]. by etrans.
  - intros (w2 & Hr & Ha). exists w2. split; [done|]. by apply IH.
Qed.

Lemma among_upto {A} n (p : Prog W E A) w a w' :
  among (upto n p) w (Ok (Some a)) w' → among p w (Ok a) w'.
Proof.
  revert n w. induction p as [[b|e]|C act k IH]; intros n w.
  - simpl. intros [E' ?]. by injection E' as ->.
  - simpl. intros [? _]. done.
  - destruct n as [|n]; simpl; [by intros [? ?]|]. intros (w1 & Hw & Ha). exists w1.
    split; [done|]. by eapply IH.
Qed.

Lemma among_fmap {A B} (f : A → B) (p : Prog W E A) w b w' :
  among (f <$> p) w (Ok b) w' → ∃ a, b = f a ∧ among p w (Ok a) w'.
Proof.
  unfold fmap, Prog_fmap. revert w. induction p as [[a|e]|C act k IH]; intros w; simpl.
  - intros [E' Hw]. injection E' as ->. by exists a.
  - by intros [? _].
  - intros (w1 & Hw & (a & -> & Ha)%IH). exists a. split; [done|]. by exists w1.
Qed.
End among.

(** ** Interleaving *)

Section tokens.
Context {K : Type} `{Countable K}.

(** All tokens of a pool, and that no token is owned twice. *)
Fixpoint owned (l : list (gset K)) : gset K :=
  match l with [] => ∅ | T :: l => T ∪ owned l end.
Fixpoint exclusive (l : list (gset K)) : Prop :=
  match l with [] => True | T :: l => T ## owned l ∧ exclusive l end.

Lemma owned_app l1 l2 : owned (l1 ++ l2) = owned l1 ∪ owned l2.
Proof. induction l1 as [|T l1 IH]; simpl; [set_solver|]. rewrite IH. set_solver. Qed.

Lemma exclusive_app l1 l2 :
  exclusive (l1 ++ l2) ↔ exclusive l1 ∧ exclusive l2 ∧ owned l1 ## owned l2.
Proof. induction l1 as [|T l1 IH]; simpl; [set_solver|]. rewrite IH, owned_app. set_solver. Qed.

End tokens.

Section pool.
Context {W E : Type}.
(** The tasks that may arrive at any moment. *)
Variable arrives : Prog W E unit → Prop.

Notation Pool := (list (Prog W E unit) * W)%type.

Inductive pool_step : Pool → Pool → Prop :=
| PoolRun l1 l2 w B (act : W → B * W) k :
    pool_step (l1 ++ Act act k :: l2, w) (l1 ++ k (act w).1 :: l2, (act w).2)
| PoolArrive l w p : arrives p → pool_step (l, w) (p :: l, w)
| PoolDrop l1 l2 w p : pool_step (l1 ++ p :: l2, w) (l1 ++ l2, w).

(** A scheduler: the n-th task runs one action; tasks that have ended are skipped. *)
Fixpoint pool_run (choices : list nat) (l : list (Prog W E unit)) (w : W) : Pool :=
  match choices with
  | [] => (l, w)
  | i :: choices =>
      match l !! i with
      | Some (Act act k) => let '(b, w') := act w in pool_run choices (<[i := k b]> l) w'
      | _ => pool_run choices l w
      end
  end.

Lemma pool_run_steps choices l w : rtc pool_step (l, w) (pool_run choices l w).
Proof.
  revert l w. induction choices as [|i choices IH]; intros l w; simpl; [done|].
  destruct (l !! i) as [[r|B act k]|] eqn:El; [apply IH| |apply IH].
  destruct (act w) as [b w'] eqn:Ea. eapply rtc_l; [|apply IH].
  rewrite <- (take_drop_middle l i (Act act k) El) at 1.
  pose proof (PoolRun (take i l) (drop (S i) l) w B act k) as Hs. rewrite Ea in Hs. simpl in Hs.
  rewrite insert_take_drop by (by eapply lookup_lt_Some). exact Hs.
Qed.

Lemma pool_arrive_all l1 l2 w : Forall arrives l1 → rtc pool_step (l2, w) (l1 ++ l2, w).
Proof.
  induction 1 as [|p l1 Hp _ IH]; [done|]. eapply rtc_r; [exact IH|]. by constructor.
Qed.

(** *** Invariants with ownership

    A task may own tokens, and an invariant is over the set of all tokens owned and the
    shared state. [inv] is a family of them, for instance one for each state that is looked
    back to. [wp T p Q]: a task that owns [T] keeps, at each of its actions and whatever the
    others own, every member of the family that holds there, and ends with an outcome and
    tokens in [Q]. *)

Context {X K : Type} `{Countable K}.
Variable inv : X → gset K → W → Prop.
Hypothesis inv_drop : ∀ x T G w, inv x (T ∪ G) w → inv x G w.

Fixpoint wp {A} (T : gset K) (p : Prog W E A) (Q : result E A → gset K → Prop) : Prop :=
  match p with
  | Done r => Q r T
  | Act act k => ∀ G w, T ## G → (∃ x, inv x (T ∪ G) w) →
      let '(b, w') := act w in
      ∃ T', T' ## G ∧ (∀ x, inv x (T ∪ G) w → inv x (T' ∪ G) w') ∧ wp T' (k b) Q
  end.

Definition safe (T : gset K) (p : Prog W E unit) : Prop := wp T p (λ _ _, True).

Lemma wp_mono {A} T (p : Prog W E A) (Q Q' : result E A → gset K → Prop) :
  wp T p Q → (∀ r T, Q r T → Q' r T) → wp T p Q'.
Proof.
  intros Hp HQ. revert T Hp. induction p as [r|B act k IH]; intros T; simpl; [auto|].
  intros Hp G w HT Hw. specialize (Hp G w HT Hw). destruct (act w) as [b w'].
  destruct Hp as (T' & ? & ? & ?). eauto.
Qed.

Lemma wp_bind {A B} T (p : Prog W E A) (f : A → Prog W E B) Q :
  wp T p (λ r T', match r with Ok a => wp T' (f a) Q | Err e => Q (Err e) T' end) →
  wp T (p ≫= f) Q.
Proof.
  unfold mbind, Prog_bind. revert T. induction p as [[a|e]|C act k IH]; intros T; simpl; [done..|].
  intros Hp G w HT Hw. specialize (Hp G w HT Hw). destruct (act w) as [b w'].
  destruct Hp as (T' & ? & ? & ?). eauto.
Qed.

Lemma wp_attempted {A} T (p : Prog W E A) Q :
  wp T p (λ r, Q (Ok r)) → wp T (attempted p) Q.
Proof.
  revert T. induction p as [r|C act k IH]; intros T; simpl; [done|].
  intros Hp G w HT Hw. specialize (Hp G w HT Hw). destruct (act w) as [b w'].
  destruct Hp as (T' & ? & ? & ?). eauto.
Qed.

(** Wherever a task is dropped. *)
Lemma wp_upto {A} T n (p : Prog W E A) Q :
  wp T p Q → wp T (upto n p) (λ _ _, True).
Proof.
  revert n T. induction p as [[a|e]|C act k IH]; intros n T; simpl; [done..|].
  destruct n as [|n]; simpl; [done|]. intros Hp G w HT Hw. specialize (Hp G w HT Hw).
  destruct (act w) as [b w']. destruct Hp as (T' & ? & ? & ?). eauto.
Qed.

(** Actions that keep the invariant whatever is owned. *)
Definition inert {A} (m : M W E A) : Prop := ∀ x T w, inv x T w → inv x T (m w).2.

(** Tasks all of whose actions are such, or that give back what they take. *)
Definition quiet {A} (p : Prog W E A) : Prop := ∀ T, wp T p (λ _ T', T' = T).

Lemma quiet_atomic {A} (m : M W E A) : inert m → quiet (atomic m).
Proof.
  intros Hm T G w HT _. pose proof (λ x, Hm x (T ∪ G) w) as Hk. destruct (m w) as [r w']. by exists T.
Qed.

Lemma quiet_done {A} (r : result E A) : quiet (Done r).
Proof. done. Qed.

Lemma quiet_ret {A} (a : A) : quiet (mret a : Prog W E A).
Proof. done. Qed.

Lemma quiet_bind {A B} (p : Prog W E A) (f : A → Prog W E B) :
  quiet p → (∀ a, quiet (f a)) → quiet (p ≫= f).
Proof.
  intros Hp Hf T. apply wp_bind. eapply wp_mono; [apply Hp|]. intros [a|e] T' ->; [apply Hf|done].
Qed.

Lemma quiet_attempted {A} (p : Prog W E A) : quiet p → quiet (attempted p).
Proof. intros Hp T. apply wp_attempted. eapply wp_mono; [apply Hp|done]. Qed.

Lemma quiet_fmap {A B} (f : A → B) (p : Prog W E A) : quiet p → quiet (f <$> p).
Proof. intros Hp. apply (quiet_bind p (λ a, Done (Ok (f a))) Hp). intros a. apply quiet_done. Qed.

Lemma quiet_iter {A} (f : A → Prog W E unit) l : (∀ a, quiet (f a)) → quiet (prog_iter f l).
Proof.
  intros Hf. induction l as [|a l IH]; simpl; [apply quiet_ret|]. by apply quiet_bind.
Qed.

(** Quiet tasks with what is known of their value. *)
Definition yields {A} (P : A → Prop) (p : Prog W E A) : Prop :=
  ∀ T, wp T p (λ r T', T' = T ∧ match r with Ok a => P a | Err _ => True end).

Lemma yields_quiet {A} (P : A → Prop) (p : Prog W E A) : yields P p → quiet p.
Proof. intros Hp T. eapply wp_mono; [apply Hp|]. by intros r T' [-> _]. Qed.

Lemma yields_any {A} (p : Prog W E A) : quiet p → yields (λ _, True) p.
Proof. intros Hp T. eapply wp_mono; [apply Hp|]. intros r T' ->. by destruct r. Qed.

Lemma yields_ret {A} (P : A → Prop) a : P a → yields P (mret a).
Proof. intros HP T. by split. Qed.

Lemma yields_fail {A} (P : A → Prop) (e : E) : yields P (fail e).
Proof. intros T. by split. Qed.

Lemma yields_atomic {A} (P : A → Prop) (m : M W E A) :
  (∀ x T w, inv x T w → inv x T (m w).2 ∧ match (m w).1 with Ok a => P a | Err _ => True end) →
  yields P (atomic m).
Proof.
  intros Hm T G w HT [x Hw]. pose proof (λ x, Hm x (T ∪ G) w) as Hk. destruct (m w) as [r w']. exists T.
  split; [done|]. split; [intros y Hy; by apply Hk|]. split; [done|]. by apply (Hk x).
Qed.

Lemma yields_bind {A B} (P : A → Prop) (Q : B → Prop) (p : Prog W E A) (f : A → Prog W E B) :
  yields P p → (∀ a, P a → yields Q (f a)) → yields Q (p ≫= f).
Proof.
  intros Hp Hf T. apply wp_bind. eapply wp_mono; [apply Hp|]. intros [a|e] T' [-> Ha]; [by apply Hf|by split].
Qed.

Lemma quiet_bind_yields {A B} (P : A → Prop) (p : Prog W E A) (f : A → Prog W E B) :
  yields P p → (∀ a, P a → quiet (f a)) → quiet (p ≫= f).
Proof.
  intros Hp Hf T. apply wp_bind. eapply wp_mono; [apply Hp|]. intros [a|e] T' [-> Ha]; [by apply Hf|done].
Qed.

Lemma yields_attempted {A} (P : A → Prop) (p : Prog W E A) :
  yields P p → yields (λ r, match r with Ok a => P a | Err _ => True end) (attempted p).
Proof. intros Hp T. apply wp_attempted. eapply wp_mono; [apply Hp|]. by intros [a|e] T'. Qed.

Lemma quiet_safe (p : Prog W E unit) : quiet p → safe ∅ p.
Proof. intros Hp. eapply wp_mono; [apply Hp|done]. Qed.

Definition pool_ok (x : X) (p : Pool) : Prop :=
  ∃ Ts, Forall2 safe Ts p.1 ∧ exclusive Ts ∧ inv x (owned Ts) p.2.

Hypothesis arrivals_safe : ∀ p, arrives p → safe ∅ p.

Lemma pool_step_ok x p p' : pool_ok x p → pool_step p p' → pool_ok x p'.
Proof using All.
  intros (Ts & Hs & Hx & Hi) Hstep. destruct Hstep as [l1 l2 w B act k|l w q Hq|l1 l2 w q]; simpl in *.
  - apply Forall2_app_inv_r in Hs as (Ts1 & Ts2' & Hs1 & Hs2 & ->).
    apply Forall2_cons_inv_r in Hs2 as (T & Ts2 & Hq & Hs2 & ->).
    apply exclusive_app in Hx as (Hx1 & [Hx Hx2] & Hx12). simpl in Hx12.
    rewrite owned_app in Hi. simpl in Hi.
    specialize (Hq (owned Ts1 ∪ owned Ts2) w). destruct (act w) as [b w'] eqn:Eact.
    replace (owned Ts1 ∪ (T ∪ owned Ts2)) with (T ∪ (owned Ts1 ∪ owned Ts2)) in Hi by set_solver.
    destruct Hq as (T' & HT' & Hw' & Hk); [set_solver|by exists x|]. specialize (Hw' x Hi).
    exists (Ts1 ++ T' :: Ts2). split_and!.
    + apply Forall2_app; [done|]. by constructor.
    + apply exclusive_app. simpl. set_solver.
    + rewrite owned_app. simpl. by replace (owned Ts1 ∪ (T' ∪ owned Ts2)) with (T' ∪ (owned Ts1 ∪ owned Ts2)) by set_solver.
  - exists (∅ :: Ts). split_and!.
    + constructor; auto.
    + simpl. set_solver.
    + simpl. by rewrite (left_id_L ∅ (∪)).
  - apply Forall2_app_inv_r in Hs as (Ts1 & Ts2' & Hs1 & Hs2 & ->).
    apply Forall2_cons_inv_r in Hs2 as (T & Ts2 & Hq & Hs2 & ->).
    apply exclusive_app in Hx as (Hx1 & [Hx Hx2] & Hx12). simpl in Hx12.
    exists (Ts1 ++ Ts2). split_and!.
    + by apply Forall2_app.
    + apply exclusive_app. set_solver.
    + rewrite owned_app in *. simpl in Hi. apply (inv_drop x T).
      by replace (T ∪ (owned Ts1 ∪ owned Ts2)) with (owned Ts1 ∪ (T ∪ owned Ts2)) by set_solver.
Qed.

Lemma pool_reachable_ok x p p' : pool_ok x p → rtc pool_step p p' → pool_ok x p'.
Proof using All. intros Hp Hs. induction Hs as [|p p1 p2 Hstep _ IH]; [done|]. apply IH. by eapply pool_step_ok. Qed.

(** The invariant holds in every state that tasks arriving at any time can reach. *)
Lemma pool_invariant x w l w' : inv x ∅ w → rtc pool_step ([], w) (l, w') → inv x ∅ w'.
Proof using All.
  intros Hw Hs. assert (pool_ok x ([], w)) as Hp by (exists []; by split_and!).
  apply (pool_reachable_ok x) in Hs as (Ts & _ & _ & Hi); [|done].
  apply (inv_drop x (owned Ts)). by rewrite (right_id_L ∅ (∪)).
Qed.
End pool.

(** ** A task in company

    One task of a pool, told apart from the others: between its actions the others make any
    steps. *)

Section amid.
Context {W E : Type}.
Variable arrives : Prog W E unit → Prop.

Notation Pool := (list (Prog W E unit) * W)%type.
Notation pool_step := (pool_step arrives).

Fixpoint amid {A} (p : Prog W E A) (c : Pool) (r : result E A) (c' : Pool) : Prop :=
  match p with
  | Done r0 => r = r0 ∧ rtc pool_step c c'
  | Act act k => ∃ l w, rtc pool_step c (l, w) ∧ amid (k (act w).1) (l, (act w).2) r c'
  end.

Lemma pool_step_last p l w l' w' : pool_step (l, w) (l', w') → pool_step (l ++ [p], w) (l' ++ [p], w').
Proof.
  inversion 1; subst; rewrite <- ?app_assoc; [apply (PoolRun _ l1 (l2 ++ [p]))|by apply PoolArrive|apply (PoolDrop _ l1 (l2 ++ [p]))].
Qed.
Lemma pool_steps_last p c c' : rtc pool_step c c' → rtc pool_step (c.1 ++ [p], c.2) (c'.1 ++ [p], c'.2).
Proof.
  induction 1 as [|[l1 w1] [l2 w2] [l3 w3] Hs _ IH]; [done|]. eapply rtc_l; [by apply pool_step_last|exact IH].
Qed.

(** Its runs are runs of the pool. *)
Lemma amid_pool (p : Prog W E unit) c r c' :
  amid p c r c' → rtc pool_step (c.1 ++ [p], c.2) (c'.1 ++ [Done r], c'.2).
Proof.
  revert c. induction p as [r0|B act k IH]; intros c; cbn [amid].
  - intros [-> Hs]. by apply pool_steps_last.
  - intros (l & w & Hs & Ha). etrans; [by apply pool_steps_last|]. cbn [fst snd].
    eapply rtc_l; [apply (PoolRun _ l [])|]. by apply IH in Ha.
Qed.

Lemma amid_bind {A B} (p : Prog W E A) (f : A → Prog W E B) c r c' :
  amid (p ≫= f) c r c' →
  ∃ r1 c1, amid p c r1 c1 ∧
    match r1 with Ok a => amid (f a) c1 r c' | Err e => r = Err e ∧ c1 = c' end.
Proof.
  unfold mbind, Prog_bind. revert c. induction p as [[a|e]|C act k IH]; intros c; simpl.
  - intros Ha. by exists (Ok a), c.
  - intros [-> Hs]. by exists (Err e), c'.
  - intros (l & w & Hs & Ha). apply IH in Ha as (r1 & c1 & Ha & Hr). exists r1, c1. split; [|done].
    by exists l, w.
Qed.

Lemma amid_attempted {A} (p : Prog W E A) c r c' :
  amid (attempted p) c r c' → ∃ r0, r = Ok r0 ∧ amid p c r0 c'.
Proof.
  revert c. induction p as [r0|C act k IH]; intros c; simpl.
  - intros [-> Hs]. by exists r0.
  - intros (l & w & Hs & Ha). apply IH in Ha as (r1 & -> & Ha). exists r1. split; [done|]. by exists l, w.
Qed.

Lemma amid_later {A} (p : Prog W E A) c c1 r c' : rtc pool_step c c1 → amid p c1 r c' → amid p c r c'.
Proof.
  intros Hs. destruct p as [r0|B act k]; simpl.
  - intros [-> Hr]. split; [done|]. by etrans.
  - intros (l & w & Hr & Ha). exists l, w. split; [by etrans|done].
Qed.

(** A scheduler: which steps the others make before each action of the task. *)
Fixpoint amid_run {A} (choices : list (list nat)) (p : Prog W E A) (c : Pool) : result E A * Pool :=
  match p with
  | Done r => (r, c)
  | Act act k =>
      let '(l, w) := pool_run (default [] (head choices)) c.1 c.2 in
      let '(b, w') := act w in amid_run (tail choices) (k b) (l, w')
  end.

Lemma amid_run_amid {A} choices (p : Prog W E A) c : amid p c (amid_run choices p c).1 (amid_run choices p c).2.
Proof.
  revert choices c. induction p as [r|B act k IH]; intros choices c; simpl; [done|].
  pose proof (pool_run_steps arrives (default [] (head choices)) c.1 c.2) as Hs.
  destruct (pool_run _ _ _) as [l w]. exists l, w. split; [by destruct c|].
  destruct (act w) as [b w'] eqn:E0. apply IH.
Qed.
End amid.
