(* ===== verification/Platform.v ===== *)
(** * Processes, signals and tmux (crates/rtm-platform)

    process.rs, signal.rs and tmux.rs, for Linux; ProcessExit.v has process_exit.rs. The operating system is
    a parameter: running a program, [kill], reading a file of [/proc], the clocks. What the
    daemon builds for those calls and makes of their answers is modelled. *)

From Stdlib Require Import Ascii.
From S2P Require Import Prelude RustStr RustPath Types Parsers Json Launch Errors.
From stdpp Require Import options.

(** ** The operating system *)

Module IoError.
Inductive IoError := NotFound | Other (message : string).
End IoError.
Notation IoError := IoError.IoError.

(** [std::process::Output]. *)
Module Output.
Record Output := mk { success : bool; stdout : string; stderr : string }.
End Output.
Notation Output := Output.Output.

Class Os (O : Type) := {
  (** [Command::new(program).args(args).output()] *)
  exec : string → list string → O → result IoError Output * O;
  (** [libc::kill]: [None] on success, else [errno] *)
  sys_kill : Z → Z → O → option Z * O;
  read_to_string : string → O → result IoError string * O;
  (** [Path::canonicalize] and [Path::is_file] *)
  canonicalize : string → O → result IoError string * O;
  is_file : string → O → bool * O;
  create_dir_all : string → O → option IoError * O;
  (** [File::create] *)
  create_file : string → O → option IoError * O;
  (** [Command::new(program).args(args).env(..).spawn()], with piped output *)
  spawn_child : string → list string → list LaunchEnv → O → option IoError * O;
  (** [sysconf(_SC_CLK_TCK)] *)
  clock_ticks : O → Z * O;
  (** milliseconds of the monotonic clock and of the time since the epoch *)
  os_instant : O → N * O;
  os_epoch_ms : O → N * O;
  os_sleep : N → O → O;
}.

Definition EPERM : Z := 1.
Definition ESRCH : Z := 3.

Definition display_IoError (e : IoError) : string :=
  match e with IoError.NotFound => "No such file or directory" | IoError.Other m => m end.

(** ** signal.rs *)

Definition signal_number (signal : RuntimeSignal) : Z :=
  match signal with
  | RuntimeSignal.Hup => 1 | RuntimeSignal.Int => 2 | RuntimeSignal.Term => 15 | RuntimeSignal.Kill => 9
  end.

(** [libc::pid_t::try_from(pid).ok()]. *)
Definition platform_pid (pid : N) : option Z :=
  if (Z.of_N pid <=? i32_max)%Z then Some (Z.of_N pid) else None.

Section os.
Context {O : Type} `{Os O, External}.

Notation OsM := (M O Error).

(** An operating system call that cannot fail for the model. *)
Definition os_call {A} (f : O → A * O) : OsM A := λ o, let '(a, o') := f o in (Ok a, o').

Definition send_raw_signal_result (pid : N) (signal : Z) (already_exited_ok : bool) : OsM KillOutcome :=
  pid' ← lift (ok_or (anyhow ("pid " +:+ display_u pid +:+ " exceeds platform pid range"))
                     (platform_pid pid));
  errno ← os_call (sys_kill pid' signal);
  match errno with
  | None => mret KillOutcome.Signalled
  | Some errno =>
      if already_exited_ok && (errno =? ESRCH)%Z then mret KillOutcome.AlreadyExited
      else lift (context ("failed to send signal " +:+ display_i signal +:+ " to pid " +:+ display_u pid)
                   (Err (anyhow ("os error " +:+ display_i errno))))
  end.

Definition send_raw_signal (pid : N) (signal : Z) : OsM unit :=
  _ ← send_raw_signal_result pid signal false; mret tt.
Definition send_raw_signal_for_kill (pid : N) (signal : Z) : OsM KillOutcome :=
  send_raw_signal_result pid signal true.

(** [.with_context(..)] on a call. *)
Definition with_context {A} (message : string) (m : OsM A) : OsM A := λ o,
  let '(r, o') := m o in (context message r, o').

Definition signal_context (pid : N) (signal : RuntimeSignal) : string :=
  "failed to send SIG" +:+ RuntimeSignal_as_str signal +:+ " to pid " +:+ display_u pid.
Definition send_signal (pid : N) (signal : RuntimeSignal) : OsM unit :=
  with_context (signal_context pid signal) (send_raw_signal pid (signal_number signal)).
Definition send_signal_for_kill (pid : N) (signal : RuntimeSignal) : OsM KillOutcome :=
  with_context (signal_context pid signal) (send_raw_signal_for_kill pid (signal_number signal)).

(** ** process.rs *)

Definition pid_alive (pid : N) : OsM bool :=
  match platform_pid pid with
  | None => mret false
  | Some pid =>
      errno ← os_call (sys_kill pid 0);
      mret (match errno with None => true | Some errno => (errno =? EPERM)%Z end)
  end.

Definition START_TIME_READ_ATTEMPTS : nat := 5.
Definition START_TIME_RETRY_DELAY : N := 10.

Inductive ProcessStartTime := Known (start_time : DateTime) | Gone | Unsupported.

#[export] Instance ProcessStartTime_eq_dec : EqDecision ProcessStartTime.
Proof. solve_decision. Defined.

(** A byte that does not start a character: a slice may not begin there. *)
Definition is_continuation (a : ascii) : bool := in_range 128 191 (Some (N_of_ascii a)).

(** The fields of [/proc/PID/stat] after the last closing parenthesis. *)
Definition proc_stat_start_ticks (stat : string) : option N :=
  '(_, rest) ← rsplit_once ")" stat;
  match rest with
  | EmptyString => None
  | String _ fields =>
      match fields with
      | String a _ => if is_continuation a then None
                      else field ← split_whitespace fields !! 19; parse_u64 field
      | EmptyString => None
      end
  end.

(** [find_map] over the lines. *)
Fixpoint find_btime (lines : list string) : option Z :=
  match lines with
  | [] => None
  | line :: lines =>
      match value ← strip_prefix "btime " line; parse_i64 (trim value) with
      | Some t => Some t
      | None => find_btime lines
      end
  end.

Definition linux_boot_time (path : string) : OsM (option Z) :=
  r ← os_call (read_to_string path);
  match r with
  | Ok stat => mret (find_btime (str_lines stat))
  | Err IoError.NotFound => mret None
  | Err e => lift (context ("failed to read " +:+ path) (Err (anyhow (display_IoError e))))
  end.

(** [Utc.timestamp_opt(seconds, nanos).single()] of chrono. *)
Variable timestamp_opt : Z → N → option DateTime.

Definition start_time_from_ticks (boot_time : Z) (start_ticks : N) : OsM (option DateTime) :=
  ticks ← os_call clock_ticks;
  if (ticks <=? 0)%Z then mret None else
  let ticks_per_second := Z.to_N ticks in
  let since_boot := (start_ticks / ticks_per_second)%N in
  if (i64_max <? Z.of_N since_boot)%Z then
    lift (context "process start time overflow"
            (Err (anyhow "out of range integral type conversion attempted")))
  else
  let seconds := (boot_time + Z.of_N since_boot)%Z in
  if (i64_max <? seconds)%Z || (seconds <? i64_min)%Z then mret None else
  let nanos := ((start_ticks mod ticks_per_second * 1000000000) / ticks_per_second)%N in
  if (u32_max <? nanos)%N then
    lift (context "process start time nanoseconds overflow"
            (Err (anyhow "out of range integral type conversion attempted")))
  else
  match timestamp_opt seconds nanos with
  | Some t => mret (Some t)
  | None => throw (anyhow "invalid Linux process start time")
  end.

Definition read_start_time_probe_for_pid (pid : N) : OsM ProcessStartTime :=
  let stat_path := "/proc/" +:+ display_u pid +:+ "/stat" in
  r ← os_call (read_to_string stat_path);
  match r with
  | Err IoError.NotFound => mret Gone
  | Err e => lift (context ("failed to read " +:+ stat_path) (Err (anyhow (display_IoError e))))
  | Ok stat =>
      match proc_stat_start_ticks stat with
      | None => throw (anyhow ("failed to parse start time from " +:+ stat_path))
      | Some start_ticks =>
          boot_time ← linux_boot_time "/proc/stat";
          match boot_time with
          | None => mret Unsupported
          | Some boot_time =>
              start_time ← start_time_from_ticks boot_time start_ticks;
              mret (match start_time with Some t => Known t | None => Unsupported end)
          end
      end
  end.

(** The attempts [attempt..=START_TIME_READ_ATTEMPTS], [remaining] of them. *)
Fixpoint probe_attempts (read : N → OsM ProcessStartTime) (remaining : nat) (pid : N)
    : OsM ProcessStartTime :=
  match remaining with
  | 0 => mret Gone
  | S remaining =>
      probe ← read pid;
      if bool_decide (probe ≠ Gone) then mret probe else
      alive ← pid_alive pid;
      if negb alive || bool_decide (remaining = 0) then mret probe else
      _ ← os_call (λ o, (tt, os_sleep START_TIME_RETRY_DELAY o));
      probe_attempts read remaining pid
  end.
Definition start_time_probe_for_pid (pid : N) : OsM ProcessStartTime :=
  probe_attempts read_start_time_probe_for_pid START_TIME_READ_ATTEMPTS pid.

Definition start_time_for_pid (pid : N) : OsM (option DateTime) :=
  probe ← start_time_probe_for_pid pid;
  mret (match probe with Known t => Some t | Gone | Unsupported => None end).

(** ** tmux.rs *)

Definition tmux_output_owned (args : list string) : OsM (option Output) :=
  r ← os_call (exec "tmux" args);
  match r with
  | Ok output => mret (Some output)
  | Err IoError.NotFound => mret None
  | Err e => lift (context "failed to run tmux" (Err (anyhow (display_IoError e))))
  end.

Definition output_stdout (o : Output) : string := to_string_lossy o.(Output.stdout).
Definition output_stderr (o : Output) : string := trim (to_string_lossy o.(Output.stderr)).

Definition ensure_success (output : Output) (label : string) : result Error string :=
  if output.(Output.success) then Ok (output_stdout output)
  else Err (anyhow (label +:+ " failed: " +:+ output_stderr output)).

Definition tmux_version : OsM (option string) :=
  output ← tmux_output_owned ["-V"];
  mret (match output with
        | Some output => if output.(Output.success) then Some (trim (output_stdout output)) else None
        | None => None
        end).

(** [.context("tmux is not installed")?] on the optional output. *)
Definition installed (output : option Output) : result Error Output :=
  ok_or (anyhow "tmux is not installed") output.

Definition tmux_is_alive (tmux_pane : TmuxAddress) : OsM bool :=
  has_session ← tmux_output_owned ["has-session"; "-t"; tmux_pane.(TmuxAddress.session)];
  match has_session with
  | None => mret false
  | Some has_session =>
      if negb has_session.(Output.success) then mret false else
      let target := display_TmuxAddress tmux_pane in
      panes ← tmux_output_owned ["list-panes"; "-t"; target; "-F"; "#S:#I.#P"];
      panes ← lift (installed panes);
      stdout ← lift (ensure_success panes "tmux list-panes");
      mret (existsb (λ line, String.eqb (trim line) target) (str_lines stdout))
  end.

Definition build_nudge_send_keys_steps (content : string) : list (list string) :=
  [["-l"; content]; ["-H"; "0d"]; ["Enter"]].

Definition send_keys (target : string) (trailing : list string) : OsM unit :=
  output ← tmux_output_owned (["send-keys"; "-t"; target] ++ trailing);
  output ← lift (installed output);
  _ ← lift (ensure_success output "tmux send-keys");
  mret tt.

Fixpoint send_all_keys (target : string) (steps : list (list string)) : OsM unit :=
  match steps with
  | [] => mret tt
  | trailing :: steps => _ ← send_keys target trailing; send_all_keys target steps
  end.

Definition tmux_nudge (tmux_pane : TmuxAddress) (content : string) : OsM bool :=
  alive ← tmux_is_alive tmux_pane;
  if negb alive then mret false else
  _ ← send_all_keys (display_TmuxAddress tmux_pane) (build_nudge_send_keys_steps content);
  mret true.

Definition build_respawn_pane_args (tmux_pane : TmuxAddress) (argv : list string)
    (env : list LaunchEnv) : result Error (list string) :=
  match argv with
  | [] => Err (anyhow "tmux respawn-pane requires argv")
  | _ =>
      Ok (["respawn-pane"; "-k"; "-t"; display_TmuxAddress tmux_pane] ++
          concat ((λ entry, ["-e"; entry.(LaunchEnv.key) +:+ "=" +:+ entry.(LaunchEnv.value)]) <$> env) ++
          ["--"] ++ argv)
  end.

Definition tmux_respawn_pane (tmux_pane : TmuxAddress) (argv : list string) (env : list LaunchEnv)
    : OsM unit :=
  respawn_args ← lift (build_respawn_pane_args tmux_pane argv env);
  output ← tmux_output_owned respawn_args;
  output ← lift (installed output);
  _ ← lift (ensure_success output "tmux respawn-pane");
  mret tt.

Definition build_capture_pane_args (tmux_pane : TmuxAddress) (scrollback_lines : N) : list string :=
  ["capture-pane"; "-p"; "-e"; "-S"; "-" +:+ display_u scrollback_lines; "-t";
   display_TmuxAddress tmux_pane].

Definition parse_history_lines (stdout : string) : result CaptureError N :=
  let text := trim stdout in
  ok_or (CaptureError.CapturePaneFailed
           ("invalid tmux history_size output: " +:+ parse_unsigned_error u32_max text))
        (parse_u32 text).

(** A tmux call of [capture_pane], whose failure to run is a capture error. *)
Definition capture_output (args : list string) : M O CaptureError Output := λ o,
  match tmux_output_owned args o with
  | (Err e, o') => (Err (CaptureError.CapturePaneFailed (display_Error e)), o')
  | (Ok None, o') => (Err CaptureError.TmuxNotAvailable, o')
  | (Ok (Some output), o') =>
      (if output.(Output.success) then Ok output
       else Err (CaptureError.CapturePaneFailed (output_stderr output)), o')
  end.

Definition unix_epoch_ms : M O CaptureError N := λ o,
  let '(ms, o') := os_epoch_ms o in (Ok (N.min ms u64_max), o').

Definition tmux_capture_pane (tmux_pane : TmuxAddress) (scrollback_lines : N)
    : M O CaptureError PaneSnapshot :=
  content_output ← capture_output (build_capture_pane_args tmux_pane scrollback_lines);
  history_output ← capture_output
    ["display-message"; "-p"; "-t"; display_TmuxAddress tmux_pane; "#{history_size}"];
  let content := output_stdout content_output in
  pane_history_lines ← lift (parse_history_lines (output_stdout history_output));
  let included := N.min (N.of_nat (length (str_lines content))) u32_max in
  now ← unix_epoch_ms;
  mret (PaneSnapshot.mk content now scrollback_lines included pane_history_lines).
End os.

(** ** Process start times *)

Lemma visible_not_continuation a : visible a = true → is_continuation a = false.
Proof.
  unfold visible, is_continuation, in_range. intros [_ H]%andb_prop.
  apply N.ltb_lt in H. apply andb_false_iff. left. apply N.leb_gt. lia.
Qed.

Lemma join_words_cons words :
  words ≠ [] → Forall is_word words →
  ∃ a s, join " " words +:+ String "010" "" = String a s ∧ visible a = true.
Proof.
  intros Hne Hw. destruct words as [|w words]; [done|]. apply Forall_cons_1 in Hw as [[Hw Hv] _].
  destruct w as [|a w]; [done|]. apply Forall_cons_1 in Hv as [Ha _].
  destruct words as [|w' words]; eexists a, _; by split.
Qed.

(** The start time of a process is read from the right field of its [stat] line
    whatever the process calls itself: the command name may contain spaces, newlines and
    parentheses, and the words before it anything at all. *)
Theorem stat_line_any_command pid command words :
  Forall is_word words → ")"%char ∉ bytes (join " " words) → 20 ≤ length words →
  proc_stat_start_ticks (pid +:+ " (" +:+ command +:+ ") " +:+ join " " words +:+ String "010" "") =
    words !! 19 ≫= parse_u64.
Proof.
  intros Hw Hp Hl. unfold proc_stat_start_ticks.
  set (line := join " " words +:+ String "010" "").
  assert (pid +:+ " (" +:+ command +:+ ") " +:+ line =
          (pid +:+ " (" +:+ command) +:+ String ")" (String " " line)) as ->.
  { by rewrite !str_app_assoc. }
  rewrite rsplit_once_app.
  2: { simpl. unfold line. rewrite bytes_app, elem_of_cons, elem_of_app. simpl.
       rewrite elem_of_cons. intros [?|[?|[?|Hn]]]; try done. by apply elem_of_nil in Hn. }
  simpl. destruct (join_words_cons words) as (a & s & E & Ha); [by intros ->; simpl in Hl; lia|done|].
  fold line in E. rewrite E, visible_not_continuation by done. rewrite <- E. unfold line.
  rewrite split_whitespace_line by done. by destruct (words !! 19).
Qed.

Lemma stat_line_any_command_witness :
  proc_stat_start_ticks
    ("12" +:+ " (" +:+ "a) S 1 (b" +:+ ") " +:+
     join " " ["S";"1";"2";"3";"4";"5";"6";"7";"8";"9";"10";"11";"12";"13";"14";"15";"16";"17";"18";"4242";"20"]
     +:+ String "010" "") = Some 4242%N.
Proof.
  rewrite stat_line_any_command.
  - by vm_compute.
  - repeat (apply Forall_cons_2; [split; [done|by repeat constructor]|]). apply Forall_nil_2.
  - apply (bool_decide_unpack _). by vm_compute.
  - simpl. lia.
Defined.

(** C40. The start time computed from the clock ticks is exact: boot time plus the ticks in
    nanoseconds, rounded down, in seconds and a proper fraction (so the error for a
    fraction that does not fit is never returned). Sums that do not fit in 64 bits give no
    start time and a tick rate that is not positive neither; only chrono's refusal of the
    second is an error. *)
Theorem start_time_exact {O} `{Os O} timestamp_opt boot_time start_ticks o :
  u64_ok start_ticks →
  let tps := (clock_ticks o).1 in
  let total := (boot_time * 1000000000 + (Z.of_N start_ticks * 1000000000) / tps)%Z in
  let seconds := (total / 1000000000)%Z in
  let nanos := Z.to_N (total mod 1000000000) in
  (nanos < 1000000000)%N ∧
  (start_time_from_ticks timestamp_opt boot_time start_ticks o).1 =
    if (tps <=? 0)%Z then Ok None
    else if (i64_max <? Z.of_N start_ticks / tps)%Z then
      context "process start time overflow"
        (Err (anyhow "out of range integral type conversion attempted"))
    else if (i64_max <? seconds)%Z || (seconds <? i64_min)%Z then Ok None
    else match timestamp_opt seconds nanos with
         | Some t => Ok (Some t)
         | None => Err (anyhow "invalid Linux process start time")
         end.
Proof.
  intros Hs tps total seconds nanos. split.
  { unfold nanos. pose proof (Z.mod_pos_bound total 1000000000). lia. }
  unfold start_time_from_ticks, os_call, mbind, M_bind, mret, M_ret, lift, throw.
  fold tps. destruct (clock_ticks o) as [ticks o'] eqn:E. simpl in *. subst tps.
  destruct (Z.leb_spec ticks 0) as [|Hpos]; [done|].
  assert (Z.of_N (start_ticks / Z.to_N ticks) = (Z.of_N start_ticks / ticks)%Z) as Hq
    by (rewrite N2Z.inj_div, Z2N.id by lia; done).
  rewrite Hq. destruct (i64_max <? Z.of_N start_ticks / ticks)%Z; [done|].
  pose proof (Z.div_mod (Z.of_N start_ticks) ticks ltac:(lia)) as Hdm.
  pose proof (Z.mod_pos_bound (Z.of_N start_ticks) ticks ltac:(lia)) as Hmb.
  set (q := (Z.of_N start_ticks / ticks)%Z) in *. set (r := (Z.of_N start_ticks mod ticks)%Z) in *.
  assert ((Z.of_N start_ticks * 1000000000) / ticks = q * 1000000000 + r * 1000000000 / ticks)%Z as Hdiv.
  { rewrite Hdm. replace ((ticks * q + r) * 1000000000)%Z
      with (q * 1000000000 * ticks + r * 1000000000)%Z by ring.
    by rewrite Z.div_add_l by lia. }
  assert (0 ≤ r * 1000000000 / ticks < 1000000000)%Z as Hr.
  { split; [apply Z.div_pos; lia|]. apply Z.div_lt_upper_bound; nia. }
  assert (seconds = (boot_time + q)%Z) as Hsec.
  { unfold seconds, total. rewrite Hdiv, Z.add_assoc, <- Z.mul_add_distr_r.
    rewrite Z.div_add_l by lia. rewrite (Z.div_small (r * 1000000000 / ticks)) by lia. lia. }
  assert ((start_ticks mod Z.to_N ticks * 1000000000) / Z.to_N ticks = nanos)%N as Hn.
  { unfold nanos, total. rewrite Hdiv, Z.add_assoc, <- Z.mul_add_distr_r.
    rewrite Z.add_comm, Z.mod_add by lia. rewrite Z.mod_small by lia.
    apply N2Z.inj. rewrite Z2N.id by lia. rewrite N2Z.inj_div, N2Z.inj_mul, N2Z.inj_mod, Z2N.id by lia.
    done. }
  rewrite <- Hsec. destruct ((i64_max <? seconds)%Z || (seconds <? i64_min)%Z); [done|].
  rewrite Hn. assert ((u32_max <? nanos)%N = false) as ->.
  { apply N.ltb_ge. rewrite <- Hn. unfold u32_max. apply N2Z.inj_le.
    rewrite N2Z.inj_div, N2Z.inj_mul, N2Z.inj_mod, Z2N.id by lia. fold r. lia. }
  by destruct (timestamp_opt seconds nanos).
Qed.

(** An operating system that answers nothing of interest, for witnesses: the clocks show
    its state, which sleeping advances. *)
Definition idle_os : Os N :=
  {| exec := λ _ _ o, (Err IoError.NotFound, o); sys_kill := λ _ _ o, (Some ESRCH, o);
     read_to_string := λ _ o, (Err IoError.NotFound, o); canonicalize := λ p o, (Ok p, o);
     is_file := λ _ o, (false, o); create_dir_all := λ _ o, (None, o); create_file := λ _ o, (None, o);
     spawn_child := λ _ _ _ o, (None, o); clock_ticks := λ o, (100%Z, o);
     os_instant := λ o, (o, o); os_epoch_ms := λ o, (o, o); os_sleep := λ ms o, (o + ms)%N |}.

Lemma start_time_exact_witness :
  (@start_time_from_ticks N idle_os (λ s n, Some (s * 1000000000 + Z.of_N n)%Z) 1700000000 4242 0%N).1 =
    Ok (Some 1700000042420000000%Z).
Proof.
  assert (u64_ok 4242) as Hs by (by vm_compute).
  rewrite (proj2 (@start_time_exact N idle_os (λ s n, Some (s * 1000000000 + Z.of_N n)%Z)
                    1700000000 4242 0%N Hs)).
  by vm_compute.
Defined.
