(* ===== verification/ProcessExit.v ===== *)
(** * Process exit notification (crates/rtm-platform: process_exit.rs and pidfd.rs)

    The thread that watches a runtime on Linux: by a pidfd, or by asking whether the process
    is alive where there is none. Dropping the watcher sets a flag that the thread reads. *)

From S2P Require Import Prelude RustStr RustPath Types Parsers Launch Errors Platform.
From stdpp Require Import options.

(** What [libc::poll] says of one descriptor. *)
Inductive PollResult := Ready | TimedOut | PollError (errno : Z).

Definition EINTR : Z := 4.

Class ExitOs (O : Type) := {
  (** [SYS_pidfd_open]: a descriptor, or [errno] *)
  pidfd_open : Z → O → result Z N * O;
  (** [poll] of a descriptor for so many milliseconds *)
  poll_fd : N → N → O → PollResult * O;
  (** [cancel.load] *)
  cancel_load : O → bool * O;
}.

(** How the thread ends: it sends on the channel, or drops the sender. *)
Inductive Watched := Notified | SenderDropped.

#[export] Instance Watched_eq_dec : EqDecision Watched.
Proof. solve_decision. Defined.

Section watch.
Context {O : Type} `{Os O, ExitOs O, External}.

Notation OsM := (M O Error).

(** [pid as libc::pid_t]. *)
Definition as_pid_t (pid : N) : Z :=
  if (Z.of_N pid <=? i32_max)%Z then Z.of_N pid else (Z.of_N pid - 4294967296)%Z.

Definition pidfd (pid : N) : OsM (result Z N) := os_call (pidfd_open (as_pid_t pid)).

Definition WATCH_POLL_INTERVAL : N := 100.

(** A turn of [wait_for_pidfd_exit]: how the thread ends, if it does. *)
Definition pidfd_turn (fd : N) : OsM (option Watched) :=
  cancelled ← os_call cancel_load;
  if (cancelled : bool) then mret (Some SenderDropped) else
  polled ← os_call (poll_fd fd WATCH_POLL_INTERVAL);
  mret (match polled with
        | Ready => Some Notified
        | TimedOut => None
        | PollError errno => if decide (errno = EINTR) then None else Some SenderDropped
        end).

(** A turn of [spawn_liveness_wait]. *)
Definition liveness_turn (pid : N) : OsM (option Watched) :=
  cancelled ← os_call cancel_load;
  if (cancelled : bool) then mret (Some SenderDropped) else
  alive ← pid_alive pid;
  if (alive : bool) then
    _ ← os_call (λ o, (tt, os_sleep WATCH_POLL_INTERVAL o));
    mret None
  else mret (Some Notified).

(** The loops; [None] when the thread still runs after [fuel] turns. *)
Fixpoint watch_loop (turn : OsM (option Watched)) (fuel : nat) : OsM (option Watched) :=
  match fuel with
  | 0 => mret None
  | S fuel =>
      ended ← turn;
      match ended with Some watched => mret (Some watched) | None => watch_loop turn fuel end
  end.
Definition wait_for_pidfd_exit (fuel : nat) (fd : N) : OsM (option Watched) := watch_loop (pidfd_turn fd) fuel.
Definition liveness_wait (fuel : nat) (pid : N) : OsM (option Watched) := watch_loop (liveness_turn pid) fuel.

(** [watch_process_exit], and the thread that it starts. *)
Definition watch_process_exit (fuel : nat) (pid : N) : OsM (option Watched) :=
  fd ← pidfd pid;
  match fd with
  | Ok fd => wait_for_pidfd_exit fuel fd
  | Err _ => liveness_wait fuel pid
  end.
End watch.

(** ** Theorems *)

Section theorems.
Context {O : Type} `{!Os O, !ExitOs O, !External}.

(** [n] turns that do not end the thread. *)
Inductive idle (turn : M O Error (option Watched)) : nat → O → O → Prop :=
| idle_none o : idle turn 0 o o
| idle_more n o o1 o2 : turn o = (Ok None, o1) → idle turn n o1 o2 → idle turn (S n) o o2.

Lemma watch_loop_idle turn n fuel o o' : idle turn n o o' → watch_loop turn (n + fuel) o = watch_loop turn fuel o'.
Proof.
  induction 1 as [|n o o1 o2 E _ IH]; [done|]. cbn [Nat.add watch_loop]. unfold mbind, M_bind. by rewrite E.
Qed.

(** The turn that ends the loop, and those before it. *)
Lemma watch_loop_ends turn fuel o watched o' :
  watch_loop turn fuel o = (Ok (Some watched), o') →
  ∃ n o1, n < fuel ∧ idle turn n o o1 ∧ turn o1 = (Ok (Some watched), o').
Proof.
  revert o. induction fuel as [|fuel IH]; intros o; cbn [watch_loop]; [done|]. unfold mbind, M_bind.
  destruct (turn o) as [[[w|]|e] o1] eqn:E; [|intros Hl|done].
  - intros [= <- <-]. exists 0, o. split; [lia|]. split; [constructor|done].
  - apply IH in Hl as (n & o2 & Hn & Hi & Ht). exists (S n), o2. split; [lia|]. split; [by econstructor|done].
Qed.

(** A turn of the thread, which has a descriptor of the process or not. *)
Definition turn_of (fd : result Z N) (pid : N) : M O Error (option Watched) :=
  match fd with Ok fd => pidfd_turn fd | Err _ => liveness_turn pid end.

(** What the process looks like when it is gone. *)
Definition seen_gone (fd : result Z N) (pid : N) (o o' : O) : Prop :=
  match fd with
  | Ok fd => poll_fd fd WATCH_POLL_INTERVAL o = (Ready, o')
  | Err _ => pid_alive pid o = (Ok false, o')
  end.

Lemma turn_notified fd pid o o' :
  turn_of fd pid o = (Ok (Some Notified), o') ↔
  ∃ o1, cancel_load o = (false, o1) ∧ seen_gone fd pid o1 o'.
Proof.
  unfold turn_of, pidfd_turn, liveness_turn, os_call, mbind, M_bind, seen_gone.
  destruct fd as [fd|errno], (cancel_load o) as [[] o1]; try (split; [done|by intros (? & [=] & _)]).
  - destruct (poll_fd fd _ o1) as [[| |errno] o2] eqn:Ep; unfold mret, M_ret; try case_decide;
      (split; [intros Hr; try discriminate Hr; injection Hr as <-; by exists o1
              |intros (? & [= <-] & Hg); congruence]).
  - destruct (pid_alive pid o1) as [[[]|] o2] eqn:Ea; unfold mret, M_ret;
      (split; [intros Hr; try discriminate Hr; injection Hr as <-; by exists o1
              |intros (? & [= <-] & Hg); congruence]).
Qed.

Lemma turn_cancelled fd pid o o' :
  cancel_load o = (true, o') → turn_of fd pid o = (Ok (Some SenderDropped), o').
Proof. unfold turn_of, pidfd_turn, liveness_turn, os_call, mbind, M_bind. intros E. destruct fd; by rewrite E. Qed.

Lemma watch_process_exit_loop fuel pid o :
  watch_process_exit fuel pid o =
    let '(fd, o1) := pidfd_open (as_pid_t pid) o in watch_loop (turn_of fd pid) fuel o1.
Proof.
  unfold watch_process_exit, pidfd, os_call, mbind at 1, M_bind at 1.
  by destruct (pidfd_open _ o) as [[fd|errno] o1].
Qed.

(** Exit notifications. The thread that watches a process sends only when its last look,
    at the descriptor of that process or else at its pid, found it gone and the watch was
    not cancelled; and, however many looks found nothing, the first one that finds the
    process gone sends, and the first turn after a cancellation ends the thread without. *)
Theorem process_exit_notified pid fuel (o : O) fd o1 :
  pidfd_open (as_pid_t pid) o = (fd, o1) →
  (∀ o', watch_process_exit fuel pid o = (Ok (Some Notified), o') →
     ∃ n o2 o3, n < fuel ∧ idle (turn_of fd pid) n o1 o2 ∧
       cancel_load o2 = (false, o3) ∧ seen_gone fd pid o3 o') ∧
  (∀ n o2 o3 o', n < fuel → idle (turn_of fd pid) n o1 o2 →
     (cancel_load o2 = (false, o3) → seen_gone fd pid o3 o' →
      watch_process_exit fuel pid o = (Ok (Some Notified), o')) ∧
     (cancel_load o2 = (true, o') →
      watch_process_exit fuel pid o = (Ok (Some SenderDropped), o'))).
Proof.
  intros E. rewrite watch_process_exit_loop, E. split.
  - intros o' (n & o2 & Hn & Hi & Ht)%watch_loop_ends. apply turn_notified in Ht as (o3 & Hc & Hg).
    by exists n, o2, o3.
  - intros n o2 o3 o' Hn Hi. destruct (Nat.le_exists_sub (S n) fuel) as (k & -> & _); [lia|].
    replace (k + S n) with (n + S k) by lia. rewrite (watch_loop_idle _ _ _ _ _ Hi). cbn [watch_loop].
    unfold mbind, M_bind. split.
    + intros Hc Hg. by rewrite (proj2 (turn_notified fd pid o2 o') (ex_intro _ o3 (conj Hc Hg))).
    + intros Hc. by rewrite (turn_cancelled fd pid o2 o' Hc).
Qed.
End theorems.

Section concrete.
#[local] Existing Instance decimal_external.
#[local] Existing Instance idle_os.

(** A process that exits after [life] milliseconds, on a system with pidfds. *)
#[local] Instance short_life : ExitOs N := {|
  pidfd_open := λ _ o, (Ok 3%N, o);
  poll_fd := λ _ ms o, if (250 <=? o)%N then (Ready, o) else (TimedOut, (o + ms)%N);
  cancel_load := λ o, (false, o) |}.

Lemma process_exit_notified_witness :
  pidfd_open (as_pid_t 200) 0%N = (Ok 3%N, 0%N) ∧
  watch_process_exit 4 200 0%N = (Ok (Some Notified), 300%N).
Proof.
  assert (pidfd_open (as_pid_t 200) 0%N = (Ok 3%N, 0%N)) as E by reflexivity. split; [exact E|].
  destruct (process_exit_notified 200 4 0%N (Ok 3%N) 0%N E) as [_ Hn].
  apply (Hn 3 300%N 300%N 300%N); [lia| |reflexivity|reflexivity].
  do 3 (eapply idle_more; [reflexivity|]). apply idle_none.
Defined.
End concrete.
