(* ===== verification/MacOs.v ===== *)
(** * The macOS half of crates/rtm-platform (kqueue.rs, and process.rs for macOS)

    The start time of a process from [proc_pidinfo], and the thread that watches a process
    through a kernel queue. The queue's descriptor is a resource: the model has the set of
    open descriptors, and the theorems say that a watch closes what it opened, once. *)

From S2P Require Import Prelude RustStr RustPath Types Parsers Launch Errors Platform ProcessExit.
From stdpp Require Import options.

(** [libc::kevent], less the fields that are always empty. *)
Module Kevent.
Record Kevent := mk { ident : N; filter : Z; flags : N; fflags : N }.
End Kevent.
Notation Kevent := Kevent.Kevent.

Definition EV_ADD : N := 1.
Definition EV_DELETE : N := 2.
Definition EV_ENABLE : N := 4.
Definition EV_ONESHOT : N := 16.
Definition EVFILT_PROC : Z := -5.
Definition NOTE_EXIT : N := 2147483648.
Definition PROC_PIDTASKALLINFO : Z := 2.

(** What [proc_pidinfo] returns, [errno], and the start time that it wrote. *)
Module TaskInfo.
Record TaskInfo := mk { read : Z; errno : Z; start_tvsec : N; start_tvusec : N }.
End TaskInfo.
Notation TaskInfo := TaskInfo.TaskInfo.

Class MacOs (O : Type) := {
  (** [size_of::<libc::proc_taskallinfo>()] *)
  taskallinfo_size : N;
  proc_pidinfo : Z → Z → Z → O → TaskInfo * O;
  (** [libc::kqueue]: a descriptor, or the last error *)
  kqueue : O → result IoError N * O;
  (** [libc::kevent] with one change and no events: [None] on success *)
  kevent_change : N → Kevent → O → option IoError * O;
  (** [libc::kevent] with no change, room for one event, and a time limit in nanoseconds:
      what it returns *)
  kevent_wait : N → N → O → Z * O;
  (** [libc::close] *)
  close_fd : N → O → O;
}.

(** Documented behaviour of descriptors. A descriptor that is used or closed while it is not
    open is [misused] (it may be another file of the process by then). *)
Class Descriptors (O : Type) `{!ExitOs O, !MacOs O} := {
  open_fds : O → gset N;
  misused : O → bool;
  kqueue_fresh o : match kqueue o with
                   | (Ok fd, o') => fd ∉ open_fds o ∧ open_fds o' = {[fd]} ∪ open_fds o ∧ misused o' = misused o
                   | (Err _, o') => open_fds o' = open_fds o ∧ misused o' = misused o
                   end;
  kevent_change_keeps fd change o :
    open_fds (kevent_change fd change o).2 = open_fds o ∧
    misused (kevent_change fd change o).2 = misused o || negb (bool_decide (fd ∈ open_fds o));
  kevent_wait_keeps fd ns o :
    open_fds (kevent_wait fd ns o).2 = open_fds o ∧
    misused (kevent_wait fd ns o).2 = misused o || negb (bool_decide (fd ∈ open_fds o));
  close_closes fd o :
    open_fds (close_fd fd o) = open_fds o ∖ {[fd]} ∧
    misused (close_fd fd o) = misused o || negb (bool_decide (fd ∈ open_fds o));
  cancel_load_keeps o : open_fds (cancel_load o).2 = open_fds o ∧ misused (cancel_load o).2 = misused o;
}.

Section macos.
Context {O : Type} `{Os O, ExitOs O, MacOs O, External}.

Notation OsM := (M O Error).

(** ** process.rs *)

(** [Utc.timestamp_opt(seconds, nanos).single()] of chrono. *)
Variable timestamp_opt : Z → N → option DateTime.

Definition read_start_time_macos (pid : N) : OsM ProcessStartTime :=
  match platform_pid pid with
  | None => mret Gone
  | Some platform_pid =>
      expected_size ← lift (if (Z.of_N taskallinfo_size <=? i32_max)%Z then Ok (Z.of_N taskallinfo_size)
                            else context "proc_taskallinfo size exceeds libc::c_int"
                                   (Err (anyhow "out of range integral type conversion attempted")));
      info ← os_call (proc_pidinfo platform_pid PROC_PIDTASKALLINFO expected_size);
      if negb (info.(TaskInfo.read) =? expected_size)%Z then
        gone ← (if (info.(TaskInfo.read) =? 0)%Z then alive ← pid_alive pid; mret (negb alive) else mret false);
        if gone || (info.(TaskInfo.errno) =? ESRCH)%Z then mret Gone
        else lift (context ("failed to read start time for pid " +:+ display_u pid)
                     (Err (anyhow ("os error " +:+ display_i info.(TaskInfo.errno)))))
      else
      if (i64_max <? Z.of_N info.(TaskInfo.start_tvsec))%Z then
        lift (context ("invalid start time seconds for pid " +:+ display_u pid)
                (Err (anyhow "out of range integral type conversion attempted")))
      else
      let micros := (info.(TaskInfo.start_tvusec) * 1000 mod 18446744073709551616)%N in
      if (u32_max <? micros)%N then
        lift (context ("invalid start time for pid " +:+ display_u pid)
                (Err (anyhow "out of range integral type conversion attempted")))
      else
      match timestamp_opt (Z.of_N info.(TaskInfo.start_tvsec)) micros with
      | Some t => mret (Known t)
      | None => throw (anyhow ("invalid start time for pid " +:+ display_u pid))
      end
  end.

Definition start_time_probe_macos (pid : N) : OsM ProcessStartTime :=
  probe_attempts read_start_time_macos START_TIME_READ_ATTEMPTS pid.

(** ** kqueue.rs *)

Definition process_exit_event (pid : N) (flags : N) : Kevent := Kevent.mk pid EVFILT_PROC flags NOTE_EXIT.

Definition unregister_and_close (kq : N) (pid : N) : OsM unit :=
  _ ← os_call (kevent_change kq (process_exit_event pid EV_DELETE));
  os_call (λ o, (tt, close_fd kq o)).

(** A turn of [wait_for_exit]: how the thread ends, if it does. *)
Definition kqueue_turn (kq : N) (pid : N) : OsM (option Watched) :=
  cancelled ← os_call cancel_load;
  if (cancelled : bool) then _ ← unregister_and_close kq pid; mret (Some SenderDropped) else
  waited ← os_call (kevent_wait kq 100000000);
  if (0 <? waited)%Z then _ ← os_call (λ o, (tt, close_fd kq o)); mret (Some Notified)
  else if (waited <? 0)%Z then _ ← os_call (λ o, (tt, close_fd kq o)); mret (Some SenderDropped)
  else mret None.

Definition wait_for_exit (fuel : nat) (kq : N) (pid : N) : OsM (option Watched) :=
  watch_loop (kqueue_turn kq pid) fuel.

Definition register_exit (pid : N) : OsM N :=
  kq ← os_call kqueue;
  kq ← lift (map_err (λ e, anyhow (display_IoError e)) kq);
  registered ← os_call (kevent_change kq (process_exit_event pid (N.lor (N.lor EV_ADD EV_ENABLE) EV_ONESHOT)));
  match registered with
  | Some error => _ ← os_call (λ o, (tt, close_fd kq o)); throw (anyhow (display_IoError error))
  | None => mret kq
  end.

(** [watch_process_exit], and the thread that it starts. *)
Definition watch_process_exit_macos (fuel : nat) (pid : N) : OsM (option Watched) :=
  kq ← register_exit pid; wait_for_exit fuel kq pid.
End macos.

(** ** Theorems *)

Section theorems.
Context {O : Type} `{!ExitOs O, !MacOs O}.

(** The wait on the queue reported the exit. *)
Definition saw_exit (kq : N) (o o' : O) : Prop :=
  ∃ n o1, (0 < n)%Z ∧ kevent_wait kq 100000000 o = (n, o1) ∧ o' = close_fd kq o1.

Lemma kqueue_turn_notified kq pid o o' :
  kqueue_turn kq pid o = (Ok (Some Notified), o') ↔
  ∃ o1, cancel_load o = (false, o1) ∧ saw_exit kq o1 o'.
Proof.
  unfold kqueue_turn, unregister_and_close, os_call, mbind, M_bind, mret, M_ret, saw_exit.
  destruct (cancel_load o) as [[] o1] eqn:Ec.
  - destruct (kevent_change _ _ o1) as [e o2]. split; [by intros [= ?]|]. by intros (? & [=] & _).
  - destruct (kevent_wait kq 100000000 o1) as [n o2] eqn:Ew.
    destruct (Z.ltb_spec 0 n); [|destruct (Z.ltb_spec n 0)]; (split;
      [intros [= <-]; eauto 10|intros (? & [= <-] & m & o3 & Hm & Ew' & ->)]);
      rewrite Ew in Ew'; injection Ew' as -> ->; (done || lia).
Qed.

Context `{!Descriptors O}.

(** A descriptor is used while it is open. *)
Lemma kevent_change_open fd change o : fd ∈ open_fds o →
  open_fds (kevent_change fd change o).2 = open_fds o ∧ misused (kevent_change fd change o).2 = misused o.
Proof.
  intros Hin. destruct (kevent_change_keeps fd change o) as [Hf ->]. split; [done|].
  by rewrite bool_decide_eq_true_2, orb_false_r.
Qed.
Lemma kevent_wait_open fd ns o : fd ∈ open_fds o →
  open_fds (kevent_wait fd ns o).2 = open_fds o ∧ misused (kevent_wait fd ns o).2 = misused o.
Proof.
  intros Hin. destruct (kevent_wait_keeps fd ns o) as [Hf ->]. split; [done|].
  by rewrite bool_decide_eq_true_2, orb_false_r.
Qed.
Lemma close_open fd o : fd ∈ open_fds o →
  open_fds (close_fd fd o) = open_fds o ∖ {[fd]} ∧ misused (close_fd fd o) = misused o.
Proof.
  intros Hin. destruct (close_closes fd o) as [Hf ->]. split; [done|].
  by rewrite bool_decide_eq_true_2, orb_false_r.
Qed.

(** From [fds] and the watch's own descriptor to what a turn or the loop leaves. *)
Definition leaves (kq : N) (fds : gset N) (bad : bool) (res : result Error (option Watched) * O) : Prop :=
  misused res.2 = bad ∧
  match res.1 with
  | Ok None => open_fds res.2 = {[kq]} ∪ fds
  | Ok (Some _) => open_fds res.2 = fds
  | Err _ => False
  end.

Lemma kqueue_turn_leaves kq pid fds o :
  kq ∉ fds → open_fds o = {[kq]} ∪ fds → leaves kq fds (misused o) (kqueue_turn kq pid o).
Proof.
  intros Hnew Ho. unfold kqueue_turn, unregister_and_close, os_call, mbind, M_bind, mret, M_ret, leaves.
  assert (({[kq]} ∪ fds) ∖ {[kq]} = fds) as Hback by set_solver.
  destruct (cancel_load_keeps o) as [Hc Hm]. destruct (cancel_load o) as [[] o1]; cbn in Hc, Hm.
  - destruct (kevent_change_open kq (process_exit_event pid EV_DELETE) o1) as [Hc2 Hm2]; [set_solver|].
    destruct (kevent_change _ _ o1) as [e o2]. cbn in *.
    destruct (close_open kq o2) as [-> ->]; [set_solver|]. by rewrite Hm2, Hc2, Hc, Ho.
  - destruct (kevent_wait_open kq 100000000 o1) as [Hc2 Hm2]; [set_solver|].
    destruct (kevent_wait kq 100000000 o1) as [n o2]. cbn in *.
    destruct (0 <? n)%Z; [|destruct (n <? 0)%Z; [|cbn; by rewrite Hm2, Hc2, Hc, Ho]]; cbn;
      (destruct (close_open kq o2) as [-> ->]; [set_solver|]; by rewrite Hm2, Hc2, Hc, Ho).
Qed.

Lemma wait_for_exit_leaves fuel kq pid fds o :
  kq ∉ fds → open_fds o = {[kq]} ∪ fds → leaves kq fds (misused o) (wait_for_exit fuel kq pid o).
Proof.
  intros Hnew. unfold wait_for_exit. revert o. induction fuel as [|fuel IH]; intros o Ho; [by split|].
  cbn [watch_loop]. unfold mbind, M_bind. pose proof (kqueue_turn_leaves kq pid fds o Hnew Ho) as Ht.
  destruct (kqueue_turn kq pid o) as [[[w|]|e] o1]; destruct Ht as [Hm Hf]; cbn in *; [by split| |done].
  rewrite <- Hm. by apply IH.
Qed.

Lemma register_exit_leaves pid o :
  match register_exit pid o with
  | (Ok kq, o') => kq ∉ open_fds o ∧ open_fds o' = {[kq]} ∪ open_fds o ∧ misused o' = misused o
  | (Err _, o') => open_fds o' = open_fds o ∧ misused o' = misused o
  end.
Proof.
  unfold register_exit, os_call, mbind, M_bind, mret, M_ret, lift, throw. pose proof (kqueue_fresh o) as Hk.
  destruct (kqueue o) as [[kq|e] o1]; cbn [map_err]; [|done]. destruct Hk as (Hnew & Hf & Hm).
  destruct (kevent_change_open kq (process_exit_event pid (N.lor (N.lor EV_ADD EV_ENABLE) EV_ONESHOT)) o1)
    as [Hf2 Hm2]; [set_solver|]. destruct (kevent_change _ _ o1) as [[e|] o2]; cbn in *.
  - destruct (close_open kq o2) as [-> ->]; [set_solver|]. rewrite Hm2, Hf2, Hf. split; [set_solver|done].
  - rewrite Hm2, Hf2. by split_and!.
Qed.
End theorems.

(** C33. Kernel queues. Whatever the calls answer and whenever the watch is cancelled,
    a watch never uses or closes a descriptor that is not open; when it failed to start, or
    its thread has ended, every descriptor that it opened is closed and no other one, and
    while the thread runs one more descriptor is open. The thread notifies exactly when it
    was not cancelled before a wait on its queue reported the exit. *)
Theorem kqueue_watch_closes {O} `{!ExitOs O, !MacOs O, !Descriptors O} fuel pid (o : O) :
  let '(r, o') := watch_process_exit_macos fuel pid o in
  misused o' = misused o ∧
  match r with
  | Ok None => ∃ kq, kq ∉ open_fds o ∧ open_fds o' = {[kq]} ∪ open_fds o
  | _ => open_fds o' = open_fds o
  end ∧
  (r = Ok (Some Notified) ↔
   ∃ kq o1 n o2 o3, register_exit pid o = (Ok kq, o1) ∧ n < fuel ∧ idle (kqueue_turn kq pid) n o1 o2 ∧
     cancel_load o2 = (false, o3) ∧ saw_exit kq o3 o').
Proof.
  unfold watch_process_exit_macos, mbind, M_bind. pose proof (register_exit_leaves pid o) as Hr.
  destruct (register_exit pid o) as [[kq|e] o1].
  2:{ destruct Hr as [Hf Hm]. split; [done|]. split; [done|]. split; [done|].
      by intros (? & ? & ? & ? & ? & [=] & _). }
  destruct Hr as (Hnew & Hf & Hm). pose proof (wait_for_exit_leaves fuel kq pid _ o1 Hnew Hf) as Hw.
  destruct (wait_for_exit fuel kq pid o1) as [r o'] eqn:E. destruct Hw as [Hm' Hf']. cbn in Hm', Hf'.
  split; [congruence|]. split; [by destruct r as [[]|]; [| exists kq|]|]. unfold wait_for_exit in E. split.
  - intros ->. apply watch_loop_ends in E as (n & o2 & Hn & Hi & Ht).
    apply kqueue_turn_notified in Ht as (o3 & Hc & Hs). by exists kq, o1, n, o2, o3.
  - intros (kq' & o1' & n & o2 & o3 & [= <- <-] & Hn & Hi & Hc & Hs).
    destruct (Nat.le_exists_sub (S n) fuel) as (k & -> & _); [lia|].
    replace (k + S n) with (n + S k) in E by lia. rewrite (watch_loop_idle _ _ _ _ _ Hi) in E.
    cbn [watch_loop] in E. unfold mbind, M_bind in E.
    rewrite (proj2 (kqueue_turn_notified kq pid o2 o') (ex_intro _ o3 (conj Hc Hs))) in E.
    by injection E as <-.
Qed.

(** ** A watch

    A process that exits when [life] nanoseconds have passed. *)

Module Mac.
Record Mac := mk { now : N; fds : gset N; bad : bool }.
End Mac.
Notation Mac := Mac.Mac.

Section concrete.
Variable life : N.

Definition mac_use (fd : N) (ns : N) (m : Mac) : Mac :=
  Mac.mk (m.(Mac.now) + ns) m.(Mac.fds) (m.(Mac.bad) || negb (bool_decide (fd ∈ m.(Mac.fds)))).

#[local] Instance mac_os : MacOs Mac := {|
  taskallinfo_size := 232;
  proc_pidinfo := λ _ _ size m, (TaskInfo.mk size 0 1700000000 250000, m);
  kqueue := λ m,
    let fd := fresh m.(Mac.fds) in (Ok fd, Mac.mk m.(Mac.now) ({[fd]} ∪ m.(Mac.fds)) m.(Mac.bad));
  kevent_change := λ fd _ m, (None, mac_use fd 0 m);
  kevent_wait := λ fd ns m,
    if (life <=? m.(Mac.now))%N then (1%Z, mac_use fd 0 m) else (0%Z, mac_use fd ns m);
  close_fd := λ fd m, let m := mac_use fd 0 m in Mac.mk m.(Mac.now) (m.(Mac.fds) ∖ {[fd]}) m.(Mac.bad) |}.
#[local] Instance mac_exit : ExitOs Mac := {|
  pidfd_open := λ _ m, (Err 38%Z, m); poll_fd := λ _ _ m, (TimedOut, m); cancel_load := λ m, (false, m) |}.
#[local, program] Instance mac_descriptors : Descriptors Mac := {| open_fds := Mac.fds; misused := Mac.bad |}.
Next Obligation. intros o. split; [apply is_fresh|done]. Qed.
Next Obligation. done. Qed.
Next Obligation. intros fd ns o. cbn. by destruct (_ <=? _)%N. Qed.
Next Obligation. done. Qed.
Next Obligation. done. Qed.
End concrete.

Lemma kqueue_watch_closes_witness :
  let o := Mac.mk 0 {[3%N]} false in
  let '(r, o') := @watch_process_exit_macos Mac mac_exit (mac_os 250000000) 4 200 o in
  r = Ok (Some Notified) ∧ o'.(Mac.fds) = {[3%N]} ∧ o'.(Mac.bad) = false.
Proof.
  intros o. pose proof (@kqueue_watch_closes Mac mac_exit (mac_os 250000000) (mac_descriptors 250000000) 4 200 o) as Hw.
  assert ((@watch_process_exit_macos Mac mac_exit (mac_os 250000000) 4 200 o).1 = Ok (Some Notified)) as Hr
    by (vm_compute; reflexivity).
  destruct (@watch_process_exit_macos Mac mac_exit (mac_os 250000000) 4 200 o) as [r o']. cbn in Hr. subst r.
  destruct Hw as (Hm & Hf & _). by split_and!.
Defined.
