(* ===== verification/Paths.v ===== *)
(** * Filesystem locations and the daemon endpoint (crates/rtm-paths)

    Which environment variable decides the socket, the database, the logs and the shim, and
    how the socket is shown to the user. For Linux; [NotLinux] has what differs elsewhere. *)

From S2P Require Import Prelude RustStr RustPath Errors.
From stdpp Require Import options.

Definition RTM_SOCKET_PATH : string := "RTM_SOCKET_PATH".
Definition SOCKET_FILE : string := "sock".
Definition DB_FILE : string := "db.sqlite".
Definition LOG_DIR : string := "logs".
Definition EVENT_LOG_FILE : string := "events.jsonl".

Module RuntimeEndpoint.
Inductive RuntimeEndpoint := UnixSocket (path : string) | WindowsNamedPipe (name : string).
End RuntimeEndpoint.
Notation RuntimeEndpoint := RuntimeEndpoint.RuntimeEndpoint.

Module RuntimePathEnv.
Record RuntimePathEnv := mk {
  socket_path : option string;
  db_path : option string;
  rtm_home : option string;
  shim_path : option string;
  xdg_runtime_dir : option string;
  home : option string }.
End RuntimePathEnv.
Notation RuntimePathEnv := RuntimePathEnv.RuntimePathEnv.

Module RuntimePathError.
Inductive RuntimePathError :=
| MissingHome (context : string)
| CurrentExecutable (error : string)
| UnsupportedEndpoint (message : string).
End RuntimePathError.
Notation RuntimePathError := RuntimePathError.RuntimePathError.

Definition display_RuntimePathError (e : RuntimePathError) : string :=
  match e with
  | RuntimePathError.MissingHome context => "HOME is required for default " +:+ context
  | RuntimePathError.CurrentExecutable error => "failed to resolve current executable: " +:+ error
  | RuntimePathError.UnsupportedEndpoint message => message
  end.

(** [?] into [anyhow::Error]. *)
Definition of_path_error {A} (r : result RuntimePathError A) : result Error A :=
  map_err (λ e, anyhow (display_RuntimePathError e)) r.

Definition endpoint_socket_path (e : RuntimeEndpoint) : result RuntimePathError string :=
  match e with
  | RuntimeEndpoint.UnixSocket path => Ok path
  | RuntimeEndpoint.WindowsNamedPipe _ =>
      Err (RuntimePathError.UnsupportedEndpoint "windows named pipe transport is not implemented")
  end.

(** The builder: [RuntimePathEnv::new] (and [default]), and its methods, each of which sets the
    field of its name. *)
Definition env_new : RuntimePathEnv := RuntimePathEnv.mk None None None None None None.
Definition with_socket_path (value : string) (e : RuntimePathEnv) : RuntimePathEnv :=
  RuntimePathEnv.mk (Some value) e.(RuntimePathEnv.db_path) e.(RuntimePathEnv.rtm_home)
    e.(RuntimePathEnv.shim_path) e.(RuntimePathEnv.xdg_runtime_dir) e.(RuntimePathEnv.home).
Definition with_db_path (value : string) (e : RuntimePathEnv) : RuntimePathEnv :=
  RuntimePathEnv.mk e.(RuntimePathEnv.socket_path) (Some value) e.(RuntimePathEnv.rtm_home)
    e.(RuntimePathEnv.shim_path) e.(RuntimePathEnv.xdg_runtime_dir) e.(RuntimePathEnv.home).
Definition with_rtm_home (value : string) (e : RuntimePathEnv) : RuntimePathEnv :=
  RuntimePathEnv.mk e.(RuntimePathEnv.socket_path) e.(RuntimePathEnv.db_path) (Some value)
    e.(RuntimePathEnv.shim_path) e.(RuntimePathEnv.xdg_runtime_dir) e.(RuntimePathEnv.home).
Definition with_shim_path (value : string) (e : RuntimePathEnv) : RuntimePathEnv :=
  RuntimePathEnv.mk e.(RuntimePathEnv.socket_path) e.(RuntimePathEnv.db_path) e.(RuntimePathEnv.rtm_home)
    (Some value) e.(RuntimePathEnv.xdg_runtime_dir) e.(RuntimePathEnv.home).
Definition with_xdg_runtime_dir (value : string) (e : RuntimePathEnv) : RuntimePathEnv :=
  RuntimePathEnv.mk e.(RuntimePathEnv.socket_path) e.(RuntimePathEnv.db_path) e.(RuntimePathEnv.rtm_home)
    e.(RuntimePathEnv.shim_path) (Some value) e.(RuntimePathEnv.home).
Definition with_home (value : string) (e : RuntimePathEnv) : RuntimePathEnv :=
  RuntimePathEnv.mk e.(RuntimePathEnv.socket_path) e.(RuntimePathEnv.db_path) e.(RuntimePathEnv.rtm_home)
    e.(RuntimePathEnv.shim_path) e.(RuntimePathEnv.xdg_runtime_dir) (Some value).

(** [RuntimePathEnv::from_process]. *)
Definition env_from_process (var_os : string → option string) : RuntimePathEnv :=
  RuntimePathEnv.mk (var_os RTM_SOCKET_PATH) (var_os "RTM_DB_PATH") (var_os "RTM_HOME")
    (var_os "RTM_SHIM_PATH") (var_os "XDG_RUNTIME_DIR") (var_os "HOME").

Definition non_empty_path (value : option string) : option string :=
  match value with
  | Some v => if String.eqb v "" then None else Some v
  | None => None
  end.

Definition home_runtime_dir (env : RuntimePathEnv) (context : string)
    : result RuntimePathError string :=
  home ← ok_or (RuntimePathError.MissingHome context) env.(RuntimePathEnv.home);
  Ok (path_join home ".rtm").

Definition runtime_home (env : RuntimePathEnv) (context : string) : result RuntimePathError string :=
  match non_empty_path env.(RuntimePathEnv.rtm_home) with
  | Some path => Ok path
  | None => home_runtime_dir env context
  end.

Definition platform_default_socket_path (env : RuntimePathEnv) : result RuntimePathError string :=
  match non_empty_path env.(RuntimePathEnv.xdg_runtime_dir) with
  | Some runtime_dir => Ok (path_join (path_join runtime_dir "rtm") SOCKET_FILE)
  | None => dir ← home_runtime_dir env "rtm socket path"; Ok (path_join dir SOCKET_FILE)
  end.

Definition unix_socket_path (env : RuntimePathEnv) : result RuntimePathError string :=
  match env.(RuntimePathEnv.socket_path) with
  | Some path => Ok path
  | None => platform_default_socket_path env
  end.

Definition runtime_endpoint (env : RuntimePathEnv) : result RuntimePathError RuntimeEndpoint :=
  path ← unix_socket_path env; Ok (RuntimeEndpoint.UnixSocket path).

Definition db_path (env : RuntimePathEnv) : result RuntimePathError string :=
  match env.(RuntimePathEnv.db_path) with
  | Some path => Ok path
  | None => dir ← home_runtime_dir env "rtm db path"; Ok (path_join dir DB_FILE)
  end.

Definition log_root (env : RuntimePathEnv) : result RuntimePathError string :=
  dir ← runtime_home env "rtm log path"; Ok (path_join dir LOG_DIR).

Definition event_log_path (data_dir : string) : string := path_join data_dir EVENT_LOG_FILE.

Definition shim_path (env : RuntimePathEnv) (current_exe : result string string)
    : result RuntimePathError string :=
  match env.(RuntimePathEnv.shim_path) with
  | Some path => Ok path
  | None => map_err RuntimePathError.CurrentExecutable current_exe
  end.

Definition platform_default_socket_path_label (env : RuntimePathEnv) : string :=
  match non_empty_path env.(RuntimePathEnv.xdg_runtime_dir) with
  | Some _ => "$XDG_RUNTIME_DIR/rtm/sock"
  | None => "~/.rtm/sock"
  end.

Definition display_unix_socket_path (path : string) (env : RuntimePathEnv) : string :=
  match env.(RuntimePathEnv.socket_path) with
  | Some _ => to_string_lossy path
  | None =>
      match unix_socket_path env with
      | Err _ => to_string_lossy path
      | Ok default_path =>
          if decide (path_eq path default_path) then platform_default_socket_path_label env
          else to_string_lossy path
      end
  end.

Definition display_label (e : RuntimeEndpoint) (env : RuntimePathEnv) : string :=
  match e with
  | RuntimeEndpoint.UnixSocket path => display_unix_socket_path path env
  | RuntimeEndpoint.WindowsNamedPipe name => name
  end.

(** The functions of the process' own environment. *)
Section from_env.
Variable var_os : string → option string.

Definition runtime_endpoint_from_env : result RuntimePathError RuntimeEndpoint :=
  runtime_endpoint (env_from_process var_os).
Definition unix_socket_path_from_env : result RuntimePathError string := unix_socket_path (env_from_process var_os).
Definition display_unix_socket_path_from_env (path : string) : string :=
  display_unix_socket_path path (env_from_process var_os).
Definition db_path_from_env : result RuntimePathError string := db_path (env_from_process var_os).
Definition log_root_from_env : result RuntimePathError string := log_root (env_from_process var_os).
Definition shim_path_from_env (current_exe : result string string) : result RuntimePathError string :=
  shim_path (env_from_process var_os) current_exe.
End from_env.

(** The socket's default elsewhere than on Linux. *)
Module NotLinux.
Definition platform_default_socket_path (env : RuntimePathEnv) : result RuntimePathError string :=
  dir ← home_runtime_dir env "rtm socket path"; Ok (path_join dir SOCKET_FILE).
Definition platform_default_socket_path_label (env : RuntimePathEnv) : string := "~/.rtm/sock".

(** It is that of Linux without a runtime directory. *)
Lemma platforms_agree env :
  non_empty_path env.(RuntimePathEnv.xdg_runtime_dir) = None →
  platform_default_socket_path env = Paths.platform_default_socket_path env ∧
  platform_default_socket_path_label env = Paths.platform_default_socket_path_label env.
Proof.
  intros E. unfold Paths.platform_default_socket_path, Paths.platform_default_socket_path_label. by rewrite E.
Qed.
End NotLinux.

(** ** Theorems *)

(** An environment built field by field is the process' if each field is set as there. *)
Lemma built_from_process var_os sock db rtm shim xdg h :
  var_os RTM_SOCKET_PATH = Some sock → var_os "RTM_DB_PATH" = Some db → var_os "RTM_HOME" = Some rtm →
  var_os "RTM_SHIM_PATH" = Some shim → var_os "XDG_RUNTIME_DIR" = Some xdg → var_os "HOME" = Some h →
  with_home h (with_xdg_runtime_dir xdg (with_shim_path shim (with_rtm_home rtm (with_db_path db
    (with_socket_path sock env_new))))) = env_from_process var_os.
Proof. unfold env_from_process. by intros -> -> -> -> -> ->. Qed.

Lemma non_empty_path_Some o p : non_empty_path o = Some p ↔ o = Some p ∧ p ≠ "".
Proof.
  destruct o as [v|]; simpl; [|naive_solver].
  destruct (String.eqb_spec v ""); naive_solver.
Qed.

(** [path] is [base/names...], component by component. *)
Definition below (base : string) (names : list string) (path : string) : Prop :=
  components path = components base ++ (Normal <$> names).

Lemma join_below base name :
  base ≠ "" → is_absolute name = false → tail_components name = [Normal name] →
  below base [name] (path_join base name).
Proof. intros Hb Ha Ht. unfold below. by rewrite components_join, Ht. Qed.

Lemma below_trans base names path names' path' :
  below base names path → below path names' path' → below base (names ++ names') path'.
Proof. unfold below. intros H1 H2. by rewrite H2, H1, fmap_app, app_assoc. Qed.

Lemma join_not_empty base name : name ≠ "" → path_join base name ≠ "".
Proof.
  intros Hn. unfold path_join. destruct (is_absolute name); [done|].
  destruct (bool_decide (base = "") || ends_with_sep base) eqn:E; [|by destruct base].
  destruct base; [by rewrite str_app_nil_l|done].
Qed.

(** Where things are: an explicit socket, database or shim path wins, even an empty one;
    otherwise the socket is [rtm/sock] below a non-empty [XDG_RUNTIME_DIR] or [.rtm/sock]
    below the home directory, and the database [.rtm/db.sqlite] below the home directory. A
    non-empty [RTM_HOME] moves the logs only. Without [HOME] a default that needs it is an
    error that says so. *)
Theorem locations_precedence env (Hh : ∀ h, env.(RuntimePathEnv.home) = Some h → h ≠ "") :
  match env.(RuntimePathEnv.socket_path), non_empty_path env.(RuntimePathEnv.xdg_runtime_dir),
        env.(RuntimePathEnv.home) with
  | Some p, _, _ => unix_socket_path env = Ok p
  | None, Some x, _ => ∃ p, unix_socket_path env = Ok p ∧ below x ["rtm"; "sock"] p
  | None, None, Some h => ∃ p, unix_socket_path env = Ok p ∧ below h [".rtm"; "sock"] p
  | None, None, None => unix_socket_path env = Err (RuntimePathError.MissingHome "rtm socket path")
  end ∧
  match env.(RuntimePathEnv.db_path), env.(RuntimePathEnv.home) with
  | Some p, _ => db_path env = Ok p
  | None, Some h => ∃ p, db_path env = Ok p ∧ below h [".rtm"; "db.sqlite"] p
  | None, None => db_path env = Err (RuntimePathError.MissingHome "rtm db path")
  end ∧
  match non_empty_path env.(RuntimePathEnv.rtm_home), env.(RuntimePathEnv.home) with
  | Some r, _ => ∃ p, log_root env = Ok p ∧ below r ["logs"] p
  | None, Some h => ∃ p, log_root env = Ok p ∧ below h [".rtm"; "logs"] p
  | None, None => log_root env = Err (RuntimePathError.MissingHome "rtm log path")
  end.
Proof.
  assert (∀ base a b, base ≠ "" → a ≠ "" → is_absolute a = false → tail_components a = [Normal a] →
            is_absolute b = false → tail_components b = [Normal b] →
            below base [a; b] (path_join (path_join base a) b)) as Hj.
  { intros base a b Hb Hne Ha Hta Hab Htb. apply (below_trans base [a] (path_join base a) [b]).
    - by apply join_below.
    - apply join_below; [by apply join_not_empty|done..]. }
  destruct env as [sp db rh shim x [h|]]; unfold unix_socket_path, platform_default_socket_path,
    db_path, log_root, runtime_home, home_runtime_dir in *; simpl in *; split_and!.
  - destruct sp; [done|]. destruct (non_empty_path x) as [x'|] eqn:E.
    + apply non_empty_path_Some in E as [_ Hx]. eexists. split; [done|]. by apply Hj.
    + eexists. split; [done|]. apply Hj; auto.
  - destruct db; [done|]. eexists. split; [done|]. apply Hj; auto.
  - destruct (non_empty_path rh) as [r|] eqn:E.
    + apply non_empty_path_Some in E as [_ Hr]. eexists. split; [done|]. by apply join_below.
    + eexists. split; [done|]. apply Hj; auto.
  - destruct sp; [done|]. destruct (non_empty_path x) as [x'|] eqn:E; [|done].
    apply non_empty_path_Some in E as [_ Hx]. eexists. split; [done|]. by apply Hj.
  - by destruct db.
  - destruct (non_empty_path rh) as [r|] eqn:E; [|done].
    apply non_empty_path_Some in E as [_ Hr]. eexists. split; [done|]. by apply join_below.
Qed.

Lemma locations_precedence_witness :
  let env := RuntimePathEnv.mk None None (Some "/data") None (Some "") (Some "/home/a") in
  ∃ p, log_root env = Ok p ∧ below "/data" ["logs"] p.
Proof.
  intros env. refine (proj2 (proj2 (locations_precedence env _))).
  intros h Hh. by injection Hh as <-.
Defined.

(** What a label of the user interface stands for. *)
Definition expand_label (env : RuntimePathEnv) (label : string) : option string :=
  if String.eqb label "$XDG_RUNTIME_DIR/rtm/sock" then
    (λ x, path_join x "rtm/sock") <$> env.(RuntimePathEnv.xdg_runtime_dir)
  else if String.eqb label "~/.rtm/sock" then
    (λ h, path_join h ".rtm/sock") <$> env.(RuntimePathEnv.home)
  else None.

(** The socket is shown as its own path or as a label that, with the variable of its
    first component expanded, is the same path. *)
Theorem socket_label_faithful path env (Hh : ∀ h, env.(RuntimePathEnv.home) = Some h → h ≠ "") :
  display_unix_socket_path path env = to_string_lossy path ∨
  ∃ p, expand_label env (display_unix_socket_path path env) = Some p ∧ path_eq path p.
Proof.
  assert (∀ base a b, base ≠ "" → a ≠ "" → is_absolute a = false → is_absolute b = false →
            is_absolute (a +:+ "/" +:+ b) = false →
            path_eq (path_join (path_join base a) b) (path_join base (a +:+ "/" +:+ b))) as Hj.
  { intros base a b Hb Hne Ha Hab Haab. unfold path_eq.
    rewrite !components_join by (done || by apply join_not_empty). rewrite <- app_assoc. f_equal.
    unfold tail_components. change (a +:+ "/" +:+ b) with (a +:+ String sep b).
    by rewrite split_on_app_sep, omap_app. }
  unfold display_unix_socket_path, unix_socket_path, platform_default_socket_path,
    platform_default_socket_path_label.
  destruct env as [[sp|] db rh shim x h]; simpl in *; [by left|].
  destruct (non_empty_path x) as [x'|] eqn:E.
  - case_decide as Hp; [|by left]. right. apply non_empty_path_Some in E as [-> Hx].
    eexists. split; [done|]. etrans; [exact Hp|]. by apply (Hj x' "rtm" "sock").
  - unfold home_runtime_dir. destruct h as [h|]; simpl; [|by left]. case_decide as Hp; [|by left].
    right. eexists. split; [done|]. etrans; [exact Hp|]. apply (Hj h ".rtm" "sock"); auto.
Qed.

Lemma socket_label_faithful_witness :
  let env := RuntimePathEnv.mk None None None None None (Some "/home/a") in
  ∃ p, expand_label env (display_unix_socket_path "/home/a//.rtm/sock" env) = Some p ∧
       path_eq "/home/a//.rtm/sock" p.
Proof.
  intros env. destruct (socket_label_faithful "/home/a//.rtm/sock" env) as [H|H].
  - intros h Hh. by injection Hh as <-.
  - by vm_compute in H.
  - exact H.
Defined.
