(* ===== verification/CliSpawn.v ===== *)
(** * The spawn command's request (crates/rtm-cli/src/cli/spawn.rs)

    What [rtm spawn] makes of its arguments and of its own environment before it calls the
    daemon. The file system and the current directory of the caller are parameters. *)

From Stdlib Require Import Ascii.
From S2P Require Import Prelude RustStr RustPath Types Parsers Launch Errors Platform Paths.
From stdpp Require Import options.

Module SpawnArgs.
Record SpawnArgs := mk {
  runtime : RuntimeKind; session_id : Uuid; target : SpawnTarget; isolation : IsolationPolicy;
  image : option string; cwd : option string; env : list string; mounts : list MountSpec;
  force : bool }.
End SpawnArgs.
Notation SpawnArgs := SpawnArgs.SpawnArgs.

Section cli_spawn.
(** [std::fs::canonicalize] and [Path::is_dir]. *)
Variable canonical_path : string → result IoError string.
Variable is_dir : string → bool.
(** [std::env::current_dir]. *)
Variable current_dir : result IoError string.

Definition io_error (e : IoError) : Error := anyhow (display_IoError e).

Definition reject_host_mounts (isolation : IsolationPolicy) (mounts : list MountSpec)
    : result Error unit :=
  if is_host isolation && negb (bool_decide (mounts = [])) then
    Err (anyhow "--mount is docker-only and cannot be used with --isolation host")
  else Ok tt.

Definition spawn_env_entry (key value : string) : result Error LaunchEnv :=
  if String.eqb key "" then Err (anyhow "spawn env key cannot be empty")
  else Ok (LaunchEnv.mk key value).

Definition parse_spawn_env (environ : Environ) (value : string) : result Error LaunchEnv :=
  match split_once "="%char value with
  | Some (key, explicit_value) => spawn_env_entry key explicit_value
  | None =>
      if String.eqb value "" then Err (anyhow "spawn env key cannot be empty") else
      caller_value ← ok_or (anyhow ("spawn env " +:+ value +:+ " is not set in caller environment"))
                       (var_os environ value);
      Ok (LaunchEnv.mk value (to_string_lossy caller_value))
  end.

Fixpoint spawn_env_overrides (environ : Environ) (env : list LaunchEnv) (overrides : list string)
    : result Error (list LaunchEnv) :=
  match overrides with
  | [] => Ok env
  | value :: overrides =>
      next ← parse_spawn_env environ value;
      spawn_env_overrides environ (upsert_launch_env env next) overrides
  end.

Definition spawn_env (environ : Environ) (isolation : IsolationPolicy) (overrides : list string)
    : result Error (list LaunchEnv) :=
  let env := match isolation with
             | IsolationPolicy.Host => capture_caller_env environ
             | IsolationPolicy.Docker _ => []
             end in
  spawn_env_overrides environ env overrides.

Definition resolve_caller_path (caller_cwd path : string) : string :=
  if is_absolute path then path else path_join caller_cwd path.

Definition spawn_cwd (cwd : option string) : result Error string :=
  match cwd with
  | None => context "failed to capture caller cwd" (map_err io_error current_dir)
  | Some path =>
      caller_cwd ← context "failed to capture caller cwd" (map_err io_error current_dir);
      let resolved := resolve_caller_path caller_cwd path in
      canonical ← context ("spawn cwd does not exist: " +:+ to_string_lossy resolved)
                    (map_err io_error (canonical_path resolved));
      if negb (is_dir canonical) then
        Err (anyhow ("spawn cwd is not a directory: " +:+ to_string_lossy canonical))
      else Ok canonical
  end.

(** The socket and the request of [run], up to the call. *)
Definition spawn_request_of_args (environ : Environ) (args : SpawnArgs)
    : result Error (string * SpawnRequest) :=
  _ ← reject_host_mounts args.(SpawnArgs.isolation) args.(SpawnArgs.mounts);
  cwd ← spawn_cwd args.(SpawnArgs.cwd);
  socket_path ← of_path_error (unix_socket_path (env_from_process (var_os environ)));
  env ← spawn_env environ args.(SpawnArgs.isolation) args.(SpawnArgs.env);
  let shell_resume := (λ _, capture_shell_resume environ cwd) <$>
                      tmux_address args.(SpawnArgs.target) in
  Ok (socket_path,
      SpawnRequest.mk args.(SpawnArgs.session_id) args.(SpawnArgs.runtime)
        args.(SpawnArgs.isolation) args.(SpawnArgs.image) env args.(SpawnArgs.mounts) cwd
        args.(SpawnArgs.target) args.(SpawnArgs.force) shell_resume).
End cli_spawn.

(** ** Theorems *)

(** What an override [KEY=VALUE] or [KEY] names. *)
Definition override_key (value : string) : string :=
  match split_once "="%char value with Some (key, _) => key | None => value end.

Lemma parse_spawn_env_key environ value e :
  parse_spawn_env environ value = Ok e → e.(LaunchEnv.key) = override_key value.
Proof.
  unfold parse_spawn_env, override_key, spawn_env_entry.
  destruct (split_once _ _) as [[k v]|]; case_eqb; try done; [by intros [= <-]|].
  intros H. by inv_result.
Qed.

Lemma overrides_elem environ overrides env env' e :
  spawn_env_overrides environ env overrides = Ok env' → e ∈ env' →
  e ∈ env ∨ e.(LaunchEnv.key) ∈ override_key <$> overrides.
Proof.
  revert env. induction overrides as [|v os IH]; simpl; intros env H He.
  - simplify_eq. by left.
  - inv_result. destruct (IH _ H He) as [Hin|Hin]; [|by right; apply elem_of_cons; right].
    apply elem_upsert_inv in Hin as [->|?]; [|by left].
    right. erewrite parse_spawn_env_key by done. by apply elem_of_cons; left.
Qed.

(** The caller's part of the environment. *)
Definition inherited_env (environ : Environ) (isolation : IsolationPolicy) : list LaunchEnv :=
  match isolation with IsolationPolicy.Host => capture_caller_env environ | IsolationPolicy.Docker _ => [] end.

Lemma spawn_env_denied environ isolation overrides env e :
  spawn_env environ isolation overrides = Ok env → e ∈ env →
  e.(LaunchEnv.key) ∉ override_key <$> overrides →
  is_host isolation = true ∧
  e ∈ launch_env <$> (lossy_entry <$> environ) ∧
  e.(LaunchEnv.key) ∉ CALLER_ENV_DENYLIST ∧
  (∀ p r, p ∈ CALLER_ENV_DENYLIST_PREFIXES → e.(LaunchEnv.key) ≠ p +:+ r).
Proof.
  unfold spawn_env. intros H He Hn.
  destruct (overrides_elem _ _ _ _ _ H He) as [Hin|?]; [|done].
  destruct isolation; [|by apply not_elem_of_nil in Hin].
  unfold capture_caller_env, capture_env_from_os, capture_env_from in Hin.
  apply list_elem_of_fmap in Hin as (kv & -> & Hkv). apply list_elem_of_filter in Hkv as [Hd Hkv].
  pose proof (is_denied_true kv.1) as Hi. rewrite Hd in Hi.
  split_and!; [done|by apply list_elem_of_fmap_2| |]; simpl; naive_solver.
Qed.

(** The overrides act like one [env] call each, in order. *)
Lemma overrides_child_env environ overrides env env' :
  spawn_env_overrides environ env overrides = Ok env' →
  ∃ es, Forall2 (λ v e, parse_spawn_env environ v = Ok e) overrides es ∧
    (NoDup (LaunchEnv.key <$> env) → child_env env' = child_env (env ++ es)).
Proof.
  revert env. induction overrides as [|v overrides IH]; intros env; cbn [spawn_env_overrides].
  - intros [= ->]. exists []. by rewrite app_nil_r.
  - intros (e & Hp & H)%bind_Ok. destruct (IH _ H) as (es & Hes & He). exists (e :: es).
    split; [by constructor|]. intros Hn. rewrite He by (by apply upsert_nodup).
    unfold child_env. rewrite !foldl_app. cbn [foldl]. f_equal.
    change (child_env (upsert_launch_env env e) = <[e.(LaunchEnv.key) := e.(LaunchEnv.value)]> (child_env env)).
    by apply upsert_child_env.
Qed.

(** C28. The spawn request of the command line. Every field is the argument given, except
    that the directory is resolved below the caller's and must be one, the shell to resume is
    set for a tmux target only, and the environment is the caller's with the options in
    order. Docker isolation forwards nothing of the caller's environment, and the host
    nothing under a key of the denylist or with a denied prefix; the only exceptions are keys
    named in an [--env] option. Host isolation with a mount is refused. *)
Theorem spawn_request_faithful canonical_path is_dir current_dir environ args socket_path request :
  spawn_request_of_args canonical_path is_dir current_dir environ args = Ok (socket_path, request) →
  (request.(SpawnRequest.session_id) = args.(SpawnArgs.session_id) ∧
   request.(SpawnRequest.runtime) = args.(SpawnArgs.runtime) ∧
   request.(SpawnRequest.isolation) = args.(SpawnArgs.isolation) ∧
   request.(SpawnRequest.image) = args.(SpawnArgs.image) ∧
   request.(SpawnRequest.mounts) = args.(SpawnArgs.mounts) ∧
   request.(SpawnRequest.target) = args.(SpawnArgs.target) ∧
   request.(SpawnRequest.force) = args.(SpawnArgs.force)) ∧
  (is_host args.(SpawnArgs.isolation) = true → request.(SpawnRequest.mounts) = []) ∧
  (∃ caller_cwd, current_dir = Ok caller_cwd ∧
     match args.(SpawnArgs.cwd) with
     | None => request.(SpawnRequest.cwd) = caller_cwd
     | Some path => canonical_path (resolve_caller_path caller_cwd path) = Ok request.(SpawnRequest.cwd) ∧
                    is_dir request.(SpawnRequest.cwd) = true
     end) ∧
  (request.(SpawnRequest.shell_resume) =
     (λ _, capture_shell_resume environ request.(SpawnRequest.cwd)) <$> tmux_address args.(SpawnArgs.target)) ∧
  (∃ es, Forall2 (λ v e, parse_spawn_env environ v = Ok e) args.(SpawnArgs.env) es ∧
     (NoDup (LaunchEnv.key <$> inherited_env environ args.(SpawnArgs.isolation)) →
      child_env request.(SpawnRequest.env) =
        child_env (inherited_env environ args.(SpawnArgs.isolation) ++ es))) ∧
  ∀ e, e ∈ request.(SpawnRequest.env) →
    e.(LaunchEnv.key) ∉ override_key <$> args.(SpawnArgs.env) →
    is_host args.(SpawnArgs.isolation) = true ∧
    e ∈ launch_env <$> (lossy_entry <$> environ) ∧
    e.(LaunchEnv.key) ∉ CALLER_ENV_DENYLIST ∧
    (∀ p r, p ∈ CALLER_ENV_DENYLIST_PREFIXES → e.(LaunchEnv.key) ≠ p +:+ r).
Proof.
  unfold spawn_request_of_args.
  intros ([] & Hm & (cwd & Hc & (path & _ & (env & He & [= <- <-])%bind_Ok)%bind_Ok)%bind_Ok)%bind_Ok.
  cbn [SpawnRequest.session_id SpawnRequest.runtime SpawnRequest.isolation SpawnRequest.image
    SpawnRequest.mounts SpawnRequest.target SpawnRequest.force SpawnRequest.cwd SpawnRequest.env
    SpawnRequest.shell_resume].
  split_and!; try done.
  - unfold reject_host_mounts in Hm. intros E. rewrite E in Hm. by destruct (SpawnArgs.mounts args).
  - unfold spawn_cwd in Hc. destruct (SpawnArgs.cwd args) as [p|].
    + apply bind_Ok in Hc as (caller & Hcur & Hc). apply bind_Ok in Hc as (canonical & Hcan & Hc).
      destruct current_dir; [|done]. injection Hcur as ->. exists caller. split; [done|].
      destruct (canonical_path _); [|done]. injection Hcan as ->. destruct (is_dir canonical) eqn:Ed; [|done].
      by injection Hc as <-.
    + destruct current_dir; [|done]. injection Hc as ->. by exists cwd.
  - by apply overrides_child_env.
  - intros e. by apply spawn_env_denied.
Qed.

Lemma spawn_request_faithful_witness :
  let environ := [("PATH", "/usr/bin"); ("CLAUDE_CODE_X", "1"); ("TMUX", "t"); ("RTM_SOCKET_PATH", "/s")] in
  let args := SpawnArgs.mk RuntimeKind.Claude (mkUuid 7) SpawnTarget.Headless IsolationPolicy.Host None
                (Some "sub") ["TMUX"] [] false in
  ∃ request,
    spawn_request_of_args (λ p, Ok p) (λ _, true) (Ok "/home/a") environ args = Ok ("/s", request) ∧
    request.(SpawnRequest.cwd) = "/home/a/sub" ∧
    ∀ e, e ∈ request.(SpawnRequest.env) → e.(LaunchEnv.key) ∉ ["TMUX"] →
         e.(LaunchEnv.key) ∉ CALLER_ENV_DENYLIST.
Proof.
  intros environ args.
  assert (∃ request, spawn_request_of_args (λ p, Ok p) (λ _, true) (Ok "/home/a") environ args = Ok ("/s", request) ∧
            request.(SpawnRequest.cwd) = "/home/a/sub") as (request & E & Ec)
    by (eexists; split; [vm_compute; reflexivity|reflexivity]).
  exists request. split; [exact E|]. split; [exact Ec|]. intros e He Hk.
  destruct (spawn_request_faithful _ _ _ _ _ _ _ E) as (_ & _ & _ & _ & _ & Hd).
  apply (Hd e He). exact Hk.
Defined.
