(* ===== verification/Mounts.v ===== *)
(** * Docker mounts of a session (crates/rtm-daemon/src/docker_mount_plan.rs)

    How the working directory of a session reaches its container: by a declared mount that
    covers it, else by a mount of its own, which no declared mount may overlap. *)

From Stdlib Require Import Ascii.
From S2P Require Import Prelude RustStr RustPath Types Parsers Launch Errors.
From stdpp Require Import options.

Module DockerMount.
Record DockerMount := mk { source : string; target : string }.
#[export] Instance DockerMount_eq_dec : EqDecision DockerMount.
Proof. solve_decision. Defined.
End DockerMount.
Export (hints) DockerMount.
Notation DockerMount := DockerMount.DockerMount.

Module CwdCover.
Record CwdCover := mk { source : string; target : string }.
End CwdCover.
Notation CwdCover := CwdCover.CwdCover.

Module CwdMountPlan.
Record CwdMountPlan := mk { auto_mount_cwd : bool; workdir : string }.
End CwdMountPlan.
Notation CwdMountPlan := CwdMountPlan.CwdMountPlan.

Definition protocol_mismatch (message : string) : Error :=
  of_failure (RuntimeFailure.ProtocolMismatch message).

(** ** Container paths *)

(** One field of the text: the parts so far, last first. *)
Definition push_part (parts : list string) (part : string) : list string :=
  if decide (part = "" ∨ part = ".") then parts
  else if String.eqb part ".." then tail parts
  else part :: parts.

Definition container_parts (value : string) : list string :=
  reverse (foldl push_part [] (split_on sep value)).

Definition container_text (parts : list string) : string :=
  match parts with [] => "/" | _ => "/" +:+ join "/" parts end.

Definition normalize_container_path (value : string) : option string :=
  if negb (starts_with "/" value) then None else Some (container_text (container_parts value)).

Definition container_path_covers (root value : string) : bool :=
  String.eqb root "/" || String.eqb value root ||
  match strip_prefix root value with Some tail => starts_with "/" tail | None => false end.

Definition container_paths_overlap (l r : string) : bool :=
  container_path_covers l r || container_path_covers r l.

Definition push_container_component (path component : string) : string :=
  if String.eqb path "/" then path +:+ component else path +:+ "/" +:+ component.

Definition invalid_container_path (label value : string) : Error :=
  protocol_mismatch (label +:+ " " +:+ value +:+ " must be an absolute container path").

Definition path_string (path : string) : string := to_string_lossy path.

(** [DockerMount::new]. *)
Definition DockerMount_new (source target : string) : result Error DockerMount :=
  target ← ok_or (invalid_container_path "docker mount target" (path_string target))
              (normalize_container_path (path_string target));
  Ok (DockerMount.mk source target).

(** ** The plan *)

Definition host_path_covers (root value : string) : bool :=
  bool_decide (path_eq root value) || path_starts_with value root.

Definition component_count (p : string) : nat := length (components p).

Definition reject_cwd_source_descendants (cwd_source : string) (mounts : list DockerMount)
    : result Error unit :=
  try_iter (λ mount,
    if host_path_covers cwd_source mount.(DockerMount.source) &&
       negb (bool_decide (path_eq mount.(DockerMount.source) cwd_source)) then
      Err (protocol_mismatch ("docker mount source " +:+ to_string_lossy mount.(DockerMount.source) +:+
             " overlaps the cwd auto-mount source " +:+ to_string_lossy cwd_source))
    else Ok tt) mounts.

(** The loop of [select_cwd_cover] from a selection of the given length. *)
Fixpoint select_from (cwd_source : string) (selected : option DockerMount) (selected_len : nat)
    (mounts : list DockerMount) : result Error (option DockerMount) :=
  match mounts with
  | [] => Ok selected
  | mount :: mounts =>
      if negb (host_path_covers mount.(DockerMount.source) cwd_source) then
        select_from cwd_source selected selected_len mounts
      else
        let length := component_count mount.(DockerMount.source) in
        if decide (selected_len < length) then select_from cwd_source (Some mount) length mounts
        else if decide (length = selected_len) then
          match selected with
          | None => select_from cwd_source (Some mount) length mounts
          | Some previous =>
              Err (protocol_mismatch
                ("multiple docker mount sources cover spawn cwd " +:+ to_string_lossy cwd_source +:+
                 " with equal precedence: " +:+ to_string_lossy previous.(DockerMount.source) +:+ " and " +:+
                 to_string_lossy mount.(DockerMount.source)))
          end
        else select_from cwd_source selected selected_len mounts
  end.

Definition select_cwd_cover (cwd_source : string) (mounts : list DockerMount)
    : result Error (option CwdCover) :=
  selected ← select_from cwd_source None 0 mounts;
  Ok (option_map (λ m, CwdCover.mk m.(DockerMount.source) m.(DockerMount.target)) selected).

Definition reject_cwd_target_overlaps (cwd_target : string) (mounts : list DockerMount)
    : result Error unit :=
  try_iter (λ mount,
    if container_paths_overlap cwd_target mount.(DockerMount.target) then
      Err (protocol_mismatch ("docker mount target " +:+ mount.(DockerMount.target) +:+
             " overlaps the cwd auto-mount target " +:+ cwd_target))
    else Ok tt) mounts.

(** The loop over the components of the path below the cover. *)
Fixpoint push_components (workdir : string) (cs : list Component) : string :=
  match cs with
  | [] => workdir
  | Normal name :: cs => push_components (push_container_component workdir (to_string_lossy name)) cs
  | _ :: cs => push_components workdir cs
  end.

Definition remap_cwd_workdir (cover : CwdCover) (cwd_source : string) : result Error string :=
  relative ← ok_or (protocol_mismatch ("docker mount source " +:+ to_string_lossy cover.(CwdCover.source) +:+
                      " does not cover spawn cwd " +:+ to_string_lossy cwd_source))
               (path_strip_prefix cwd_source cover.(CwdCover.source));
  Ok (push_components cover.(CwdCover.target) relative).

Definition validate_cwd_mount_plan (cwd_source : string) (mounts : list DockerMount)
    : result Error CwdMountPlan :=
  _ ← reject_cwd_source_descendants cwd_source mounts;
  cover ← select_cwd_cover cwd_source mounts;
  cwd_target ← ok_or (invalid_container_path "spawn cwd" (path_string cwd_source))
                 (normalize_container_path (path_string cwd_source));
  match cover with
  | Some cover => workdir ← remap_cwd_workdir cover cwd_source; Ok (CwdMountPlan.mk false workdir)
  | None => _ ← reject_cwd_target_overlaps cwd_target mounts; Ok (CwdMountPlan.mk true cwd_target)
  end.

Definition plan_cwd_mount (cwd_source : string) (mounts : list MountSpec) : result Error CwdMountPlan :=
  mounts ← try_map (λ mount, DockerMount_new mount.(MountSpec.source) mount.(MountSpec.target)) mounts;
  validate_cwd_mount_plan cwd_source mounts.

(** ** Container paths are lists of names *)

(** A name of a normalised container path. *)
Definition part_ok (part : string) : Prop :=
  part ≠ "" ∧ part ≠ "." ∧ part ≠ ".." ∧ sep ∉ bytes part.

Lemma foldl_push_ok parts l :
  Forall part_ok parts → Forall (λ w, sep ∉ bytes w) l → Forall part_ok (foldl push_part parts l).
Proof.
  intros Hp Hl. revert parts Hp. induction Hl as [|w l Hw _ IH]; intros parts Hp; simpl; [done|].
  apply IH. unfold push_part. case_decide as Hd; [done|].
  destruct (String.eqb_spec w ".."); [by apply Forall_tail|].
  apply Forall_cons_2; [|done]. unfold part_ok. naive_solver.
Qed.

Lemma container_parts_ok value : Forall part_ok (container_parts value).
Proof.
  apply Forall_reverse, foldl_push_ok; [apply Forall_nil_2|]. apply Forall_forall.
  intros w Hw. by eapply split_on_elems.
Qed.

Lemma foldl_push_parts acc parts :
  Forall part_ok parts → foldl push_part acc parts = reverse parts ++ acc.
Proof.
  intros Hp. revert acc. induction Hp as [|w parts (H1 & H2 & H3 & _) _ IH]; intros acc; simpl; [done|].
  assert (push_part acc w = w :: acc) as ->.
  { unfold push_part. rewrite decide_False by naive_solver. by destruct (String.eqb_spec w ".."). }
  rewrite IH, reverse_cons, <- app_assoc. done.
Qed.

(** The text of a list of names has these names. *)
Lemma container_parts_text parts : Forall part_ok parts → container_parts (container_text parts) = parts.
Proof.
  intros Hp. unfold container_parts, container_text. destruct parts as [|w parts]; [done|].
  change ("/" +:+ join "/" (w :: parts)) with ("" +:+ String sep (join (String sep "") (w :: parts))).
  rewrite split_on_app by apply not_elem_of_nil.
  rewrite split_on_join; [|done|eapply Forall_impl; [exact Hp|]; by intros ? (_ & _ & _ & ?)].
  simpl foldl. change (push_part [] "") with (@nil string).
  change (foldl push_part (push_part [] w) parts) with (foldl push_part [] (w :: parts)).
  by rewrite foldl_push_parts, app_nil_r, reverse_involutive.
Qed.

Lemma container_text_absolute parts : starts_with "/" (container_text parts) = true.
Proof. apply starts_with_true. destruct parts; [by exists ""|by eexists]. Qed.

Lemma container_text_inj parts parts' :
  Forall part_ok parts → Forall part_ok parts' →
  container_text parts = container_text parts' → parts = parts'.
Proof. intros H1 H2 E. by rewrite <- (container_parts_text parts), E, container_parts_text. Qed.

Lemma join_app (l1 l2 : list string) :
  l1 ≠ [] → l2 ≠ [] → join "/" (l1 ++ l2) = join "/" l1 +:+ "/" +:+ join "/" l2.
Proof.
  intros H1 H2. induction l1 as [|w l1 IH]; [done|]. destruct l1 as [|w' l1].
  - by destruct l2.
  - change (w +:+ "/" +:+ join "/" ((w' :: l1) ++ l2) = (w +:+ "/" +:+ join "/" (w' :: l1)) +:+ "/" +:+ join "/" l2).
    rewrite IH by done. by rewrite !str_app_assoc.
Qed.

Lemma split_on_join_parts parts :
  parts ≠ [] → Forall part_ok parts → split_on sep (join "/" parts) = parts.
Proof.
  intros Hne Hp. apply (split_on_join sep); [done|]. eapply Forall_impl; [exact Hp|].
  by intros ? (_ & _ & _ & ?).
Qed.

Lemma container_text_app r s :
  r ≠ [] → s ≠ [] → container_text (r ++ s) = container_text r +:+ "/" +:+ join "/" s.
Proof.
  intros Hr Hs. destruct r as [|w r]; [done|]. unfold container_text. simpl app.
  change (w :: r ++ s) with ((w :: r) ++ s). rewrite join_app by done. by rewrite !str_app_assoc.
Qed.

Lemma container_coverage_names r v :
  Forall part_ok r → Forall part_ok v →
  container_path_covers (container_text r) (container_text v) = true ↔ r `prefix_of` v.
Proof.
  intros Hr Hv. unfold container_path_covers. rewrite !orb_true_iff, !String.eqb_eq.
  split.
  - intros [[E|E]|E].
    + apply (container_text_inj _ [] Hr (Forall_nil_2 _)) in E as ->. apply prefix_nil.
    + by apply (container_text_inj _ _ Hv Hr) in E as ->.
    + destruct r as [|w r]; [apply prefix_nil|].
      destruct (strip_prefix _ _) as [tail|] eqn:Es; [|done]. apply strip_prefix_Some in Es.
      apply starts_with_true in E as [t ->]. destruct v as [|w' v].
      { simpl in Es. rewrite str_app_assoc in Es. change ("/" = String "/" (join "/" (w :: r) +:+ "/" +:+ t)) in Es.
        injection Es as Es. apply (f_equal bytes) in Es. rewrite !bytes_app in Es.
        apply (f_equal length) in Es. rewrite !length_app in Es. simpl in Es. lia. }
      unfold container_text in Es. rewrite str_app_assoc in Es. apply str_app_inv_l in Es.
      apply (f_equal (split_on sep)) in Es. rewrite split_on_join_parts in Es by done.
      change ("/" +:+ t) with (String sep t) in Es. rewrite split_on_app_sep, split_on_join_parts in Es by done.
      rewrite Es. by apply prefix_app_r.
  - intros [s ->]. destruct r as [|w r]; [by left; left|]. destruct s as [|w' s].
    + left. right. by rewrite app_nil_r.
    + right. rewrite container_text_app by done. by rewrite strip_prefix_app.
Qed.

(** Coverage of container paths compares whole names: for normalised paths, one covers
    another exactly when its names are the first names of the other ([/home/agent] covers
    [/home/agent/x] but not [/home/agentx]), and two overlap exactly when one is such a
    beginning of the other. *)
Theorem container_coverage_by_names r v :
  Forall part_ok r → Forall part_ok v →
  (container_path_covers (container_text r) (container_text v) = true ↔ r `prefix_of` v) ∧
  (container_paths_overlap (container_text r) (container_text v) = true ↔
     r `prefix_of` v ∨ v `prefix_of` r).
Proof.
  intros Hr Hv. split; [by apply container_coverage_names|]. unfold container_paths_overlap.
  by rewrite orb_true_iff, !container_coverage_names by done.
Qed.

Lemma container_coverage_by_names_witness :
  container_path_covers (container_text ["home"; "agent"]) (container_text ["home"; "agent"; "x"]) = true ∧
  container_paths_overlap (container_text ["home"; "agentx"]) (container_text ["home"; "agent"]) ≠ true.
Proof.
  assert (∀ l, Forall (λ w, bool_decide (w ≠ "" ∧ w ≠ "." ∧ w ≠ ".." ∧ sep ∉ bytes w) = true) l →
            Forall part_ok l) as Hok.
  { intros l Hl. eapply Forall_impl; [exact Hl|]. intros w Hw. by apply bool_decide_eq_true in Hw. }
  split.
  - apply container_coverage_by_names; [apply Hok; by repeat constructor..|]. by exists ["x"].
  - rewrite (proj2 (container_coverage_by_names ["home"; "agentx"] ["home"; "agent"]
                      ltac:(apply Hok; by repeat constructor) ltac:(apply Hok; by repeat constructor))).
    by intros [[s Hs]|[s Hs]].
Defined.

(** Normalising a container path is total on absolute paths and refuses the others; its
    result has no empty name, no dot and no double dot, and is left alone by a second
    normalisation. *)
Theorem normalize_container_path_canonical value :
  match normalize_container_path value with
  | None => starts_with "/" value = false
  | Some p => starts_with "/" value = true ∧
              ∃ parts, Forall part_ok parts ∧ p = container_text parts ∧
                       normalize_container_path p = Some p
  end.
Proof.
  unfold normalize_container_path. destruct (starts_with "/" value) eqn:E; simpl; [|done].
  split; [done|]. exists (container_parts value). pose proof (container_parts_ok value) as Hok.
  split_and!; [done..|]. by rewrite container_text_absolute, container_parts_text.
Qed.

(** ** What a plan guarantees *)

Lemma host_path_covers_true root value :
  host_path_covers root value = true ↔ path_starts_with value root = true.
Proof.
  unfold host_path_covers. rewrite orb_true_iff, bool_decide_eq_true. split; [|by right].
  intros [E|?]; [|done]. apply path_starts_with_true. exists []. by rewrite app_nil_r, E.
Qed.

(** The mount whose source is the longest to cover [cwd] among [mounts]. *)
Definition longest_cover (cwd : string) (mounts : list DockerMount) (m : DockerMount) : Prop :=
  ∃ l1 l2, mounts = l1 ++ m :: l2 ∧ host_path_covers m.(DockerMount.source) cwd = true ∧
    Forall (λ m', host_path_covers m'.(DockerMount.source) cwd = true →
                  component_count m'.(DockerMount.source) < component_count m.(DockerMount.source))
           (l1 ++ l2).

Definition selection (cwd : string) (seen : list DockerMount) (o : option DockerMount) (n : nat) : Prop :=
  match o with
  | Some m => longest_cover cwd seen m ∧ n = component_count m.(DockerMount.source)
  | None => Forall (λ m, host_path_covers m.(DockerMount.source) cwd = false) seen ∧ n = 0
  end.

Lemma selection_skip cwd seen o n m :
  selection cwd seen o n →
  (host_path_covers m.(DockerMount.source) cwd = true →
     is_Some o ∧ component_count m.(DockerMount.source) < n) →
  selection cwd (seen ++ [m]) o n.
Proof.
  destruct o as [m0|]; simpl.
  - intros [(l1 & l2 & -> & Hc & Hall) ->] Hm. split; [|done]. exists l1, (l2 ++ [m]).
    rewrite <- app_assoc. split_and!; [done..|]. rewrite app_assoc. apply Forall_app.
    split; [done|]. apply Forall_singleton. intros H. by apply Hm.
  - intros [Hall ->] Hm. split; [|done]. apply Forall_app. split; [done|]. apply Forall_singleton.
    destruct (host_path_covers _ _); [|done]. by destruct Hm as [[? ?] _].
Qed.

Lemma selection_take cwd seen o n m :
  selection cwd seen o n → host_path_covers m.(DockerMount.source) cwd = true →
  (o = None ∨ n < component_count m.(DockerMount.source)) →
  selection cwd (seen ++ [m]) (Some m) (component_count m.(DockerMount.source)).
Proof.
  intros Hs Hm Hn. split; [|done]. exists seen, []. rewrite app_nil_r. split_and!; [done..|].
  destruct o as [m0|]; simpl in Hs.
  - destruct Hs as [(l1 & l2 & -> & Hc & Hall) ->]. destruct Hn as [|Hn]; [done|].
    apply Forall_app in Hall as [Ha1 Ha2]. apply Forall_app. split; [|apply Forall_cons_2].
    + eapply Forall_impl; [exact Ha1|]. intros m' Hm' H. specialize (Hm' H). lia.
    + done.
    + eapply Forall_impl; [exact Ha2|]. intros m' Hm' H. specialize (Hm' H). lia.
  - destruct Hs as [Hall _]. eapply Forall_impl; [exact Hall|]. intros m' E H. congruence.
Qed.

Lemma select_from_spec cwd seen o n mounts res :
  selection cwd seen o n → select_from cwd o n mounts = Ok res →
  ∃ n', selection cwd (seen ++ mounts) res n'.
Proof.
  revert seen o n. induction mounts as [|m mounts IH]; intros seen o n Hs E; simpl in E.
  - injection E as <-. rewrite app_nil_r. by exists n.
  - rewrite (cons_middle m seen mounts), app_assoc.
    destruct (host_path_covers (DockerMount.source m) cwd) eqn:Hc; simpl in E.
    + case_decide as Hlt; [eapply IH, E; eapply selection_take; eauto|].
      case_decide as Heq.
      * destruct o as [m0|]; [done|]. eapply IH, E. eapply selection_take; eauto.
      * eapply IH, E. apply selection_skip; [done|]. intros _. split; [|lia].
        destruct o; [by eexists|]. destruct Hs as [_ ->]. lia.
    + eapply IH, E. apply selection_skip; [done|]. congruence.
Qed.

(** The names below a cover, as the container sees them. *)
Definition normal_names (cs : list Component) : list string :=
  omap (λ c, match c with Normal n => Some (to_string_lossy n) | _ => None end) cs.

Lemma component_of_ok part c : sep ∉ bytes part → component_of part = Some c →
  match c with Normal n => part_ok n | _ => True end.
Proof.
  intros Hs. unfold component_of. repeat case_decide; [done|by intros [= <-]|].
  intros [= <-]. unfold part_ok. naive_solver.
Qed.

(** The names of a path are names of a container path. *)
Lemma components_part_ok p : Forall (λ c, match c with Normal n => part_ok n | _ => True end) (components p).
Proof.
  assert (∀ l, Forall (λ w, sep ∉ bytes w) l →
            Forall (λ c, match c with Normal n => part_ok n | _ => True end) (omap component_of l)) as H.
  { intros l. induction 1 as [|w l Hw _ IH]; simpl; [apply Forall_nil_2|].
    destruct (component_of w) eqn:E; simpl; [|done]. apply Forall_cons_2; [|done].
    by eapply component_of_ok. }
  assert (Forall (λ w, sep ∉ bytes w) (split_on sep p)) as Hl
    by (apply Forall_forall; intros w Hw; by eapply split_on_elems).
  unfold components. destruct (is_absolute p); [by apply Forall_cons_2, H|].
  destruct (split_on sep p) as [|f l]; [apply Forall_nil_2|]. apply Forall_cons_1 in Hl as [Hf Hl].
  apply Forall_app. split; [|by apply H]. case_decide; [by apply Forall_singleton|].
  destruct (component_of f) eqn:E; simpl; [|apply Forall_nil_2]. apply Forall_singleton.
  by eapply component_of_ok.
Qed.

Lemma lossy_part_ok part : part_ok part → part_ok (to_string_lossy part).
Proof.
  assert (∀ t, Forall (λ c, (N_of_ascii c < 128)%N) (bytes t) → part ≠ t → to_string_lossy part ≠ t) as Hne.
  { intros t Ht Hp E. by apply Hp, to_string_lossy_ascii. }
  intros (H1 & H2 & H3 & H4). unfold part_ok. split_and!; [apply (Hne _); [by repeat constructor|done]..|].
  by apply to_string_lossy_no.
Qed.

Lemma normal_names_ok cs :
  Forall (λ c, match c with Normal n => part_ok n | _ => True end) cs → Forall part_ok (normal_names cs).
Proof.
  induction 1 as [|c cs Hc _ IH]; simpl; [apply Forall_nil_2|]. destruct c; simpl; try done.
  apply Forall_cons_2; [by apply lossy_part_ok|done].
Qed.

Lemma push_components_text parts cs :
  Forall part_ok parts → Forall part_ok (normal_names cs) →
  push_components (container_text parts) cs = container_text (parts ++ normal_names cs).
Proof.
  revert parts. induction cs as [|c cs IH]; intros parts Hp Hc; simpl; [by rewrite app_nil_r|].
  destruct c as [| | |name]; simpl in *; [by apply IH..|]. apply Forall_cons_1 in Hc as [Hn Hc].
  set (part := to_string_lossy name) in *.
  assert (push_container_component (container_text parts) part = container_text (parts ++ [part])) as ->.
  { unfold push_container_component. destruct parts as [|w parts]; [done|].
    destruct (String.eqb_spec (container_text (w :: parts)) "/") as [E|_].
    - by apply (container_text_inj _ [] Hp (Forall_nil_2 _)) in E.
    - by rewrite container_text_app. }
  rewrite IH, <- app_assoc; [done| |done]. apply Forall_app. split; [done|by apply Forall_singleton].
Qed.

(** A mount as [DockerMount::new] makes them. *)
Definition mount_target (m : DockerMount) (parts : list string) : Prop :=
  Forall part_ok parts ∧ m.(DockerMount.target) = container_text parts.

(** The source and the working directory are apart: neither is above the other. *)
Definition host_apart (p q : string) : Prop := path_starts_with p q = false ∧ path_starts_with q p = false.

(** C17. What a plan guarantees. Either the working directory is mounted on its own, at its
    own normalised path, and then no declared mount touches it: on the host no source is
    above or below it, and in the container no target overlaps it. Or it is inside declared
    mounts, and the working directory of the container is the place in the target of the
    one whose source is the strictly longest to cover it, below that target. Sources below
    the working directory are never accepted. Names reach the container as text, through
    [to_string_lossy]. *)
Theorem mount_plan_sound cwd mounts plan :
  Forall (λ m, ∃ parts, mount_target m parts) mounts →
  validate_cwd_mount_plan cwd mounts = Ok plan →
  Forall (λ m, path_starts_with m.(DockerMount.source) cwd = true →
               path_eq m.(DockerMount.source) cwd) mounts ∧
  if plan.(CwdMountPlan.auto_mount_cwd) then
    normalize_container_path (path_string cwd) = Some plan.(CwdMountPlan.workdir) ∧
    Forall (λ m, host_apart m.(DockerMount.source) cwd ∧
                 container_paths_overlap plan.(CwdMountPlan.workdir) m.(DockerMount.target) = false) mounts
  else
    ∃ m rest parts, longest_cover cwd mounts m ∧ mount_target m parts ∧
      components cwd = components m.(DockerMount.source) ++ rest ∧
      plan.(CwdMountPlan.workdir) = container_text (parts ++ normal_names rest) ∧
      container_path_covers m.(DockerMount.target) plan.(CwdMountPlan.workdir) = true.
Proof.
  intros Ht. unfold validate_cwd_mount_plan. intros ([] & E & H)%bind_Ok.
  apply bind_Ok in H as (cover & Ec & H). apply bind_Ok in H as (target & Et & H).
  apply ok_or_Ok in Et. unfold select_cwd_cover in Ec. apply bind_Ok in Ec as (sel & Es & [= <-]).
  assert (selection cwd [] None 0) as H0 by (by split; [apply Forall_nil_2|]).
  destruct (select_from_spec cwd [] None 0 mounts sel H0 Es) as [n Hs].
  simpl in Hs.
  assert (Forall (λ m, path_starts_with m.(DockerMount.source) cwd = true →
                       path_eq m.(DockerMount.source) cwd) mounts) as Hdesc.
  { apply try_iter_Ok in E. eapply Forall_impl; [exact E|]. intros m Hm Hc. simpl in Hm.
    apply host_path_covers_true in Hc. rewrite Hc in Hm. simpl in Hm.
    by destruct (bool_decide_reflect (path_eq (DockerMount.source m) cwd)). }
  split; [done|]. destruct sel as [m|]; simpl in H; apply bind_Ok in H as (r & Hr & [= <-]); simpl.
  - unfold remap_cwd_workdir in Hr. simpl in Hr. apply bind_Ok in Hr as (rest & Hr & [= <-]).
    apply ok_or_Ok in Hr. unfold path_strip_prefix in Hr.
    apply strip_components_Some in Hr. destruct Hs as [Hl _].
    assert (m ∈ mounts) as Hm.
    { destruct Hl as (l1 & l2 & -> & _). apply elem_of_app. right. by left. }
    rewrite Forall_forall in Ht. destruct (Ht m Hm) as (parts & Hp & Htarget).
    exists m, rest, parts. pose proof (components_part_ok cwd) as Hok. rewrite Hr in Hok.
    apply Forall_app in Hok as [_ Hok]. apply normal_names_ok in Hok.
    rewrite Htarget, push_components_text by done. split_and!; try done.
    apply container_coverage_names; [done|by apply Forall_app|]. by eexists.
  - destruct r. destruct Hs as [Hnone _]. split; [done|]. apply try_iter_Ok in Hr.
    rewrite Forall_forall in *. intros m Hm. split.
    + specialize (Hnone m Hm). destruct (path_starts_with cwd (DockerMount.source m)) eqn:Ec'.
      { apply host_path_covers_true in Ec'. congruence. }
      split; [|done]. destruct (path_starts_with (DockerMount.source m) cwd) eqn:Ed; [|done].
      pose proof (Hdesc m Hm Ed) as He. rewrite <- Ec'. symmetry.
      apply path_starts_with_true. exists []. by rewrite app_nil_r, He.
    + specialize (Hr m Hm). simpl in Hr. by destruct (container_paths_overlap _ _).
Qed.

Definition sample_mounts : list DockerMount :=
  [DockerMount.mk "/w" "/a"; DockerMount.mk "/w/p" "/c"; DockerMount.mk "/etc" "/e"].

Lemma mount_plan_sound_witness :
  ∃ plan m rest parts, validate_cwd_mount_plan "/w/p/q" sample_mounts = Ok plan ∧
    plan.(CwdMountPlan.auto_mount_cwd) = false ∧ longest_cover "/w/p/q" sample_mounts m ∧
    plan.(CwdMountPlan.workdir) = container_text (parts ++ normal_names rest).
Proof.
  assert (Forall (λ m, ∃ parts, mount_target m parts) sample_mounts) as Ht.
  { assert (∀ w, bool_decide (w ≠ "" ∧ w ≠ "." ∧ w ≠ ".." ∧ sep ∉ bytes w) = true → part_ok w) as Hok
      by (intros w Hw; by apply bool_decide_eq_true in Hw).
    repeat apply Forall_cons_2; [exists ["a"]|exists ["c"]|exists ["e"]|apply Forall_nil_2];
      (split; [apply Forall_singleton; by apply Hok|done]). }
  assert (validate_cwd_mount_plan "/w/p/q" sample_mounts = Ok (CwdMountPlan.mk false "/c/q")) as E
    by (by vm_compute).
  destruct (mount_plan_sound _ _ _ Ht E) as (_ & m & rest & parts & Hl & _ & _ & Hw & _).
  by exists (CwdMountPlan.mk false "/c/q"), m, rest, parts.
Defined.

(** Whether the mounts of a session are accepted depends on their order: two mounts of
    one source, above the working directory, are refused when they come before the mount
    that covers it more closely and accepted when they come after it. *)
Theorem cover_choice_depends_on_order :
  ∃ cwd ms ms', ms ≡ₚ ms' ∧ is_ok (validate_cwd_mount_plan cwd ms) = true ∧
    is_ok (validate_cwd_mount_plan cwd ms') = false.
Proof.
  exists "/w/p", [DockerMount.mk "/w/p" "/c"; DockerMount.mk "/w" "/a"; DockerMount.mk "/w" "/b"],
    [DockerMount.mk "/w" "/a"; DockerMount.mk "/w" "/b"; DockerMount.mk "/w/p" "/c"].
  split_and!; [|by vm_compute..].
  etrans; [apply perm_swap|]. by apply perm_skip, perm_swap.
Qed.
