(* ===== verification/Docker.v ===== *)
(** * Docker isolation (crates/rtm-daemon/src/docker_argv.rs, docker_runtime.rs,
    docker_preflight.rs and the image and mount checks of spawn_preflight.rs)

    The command line that runs a session in a container, the questions asked to the docker
    CLI, and the checks made before anything is started. The docker CLI is reached through
    [exec] of the operating system. *)

From Stdlib Require Import Ascii.
From S2P Require Import Prelude RustStr RustPath Types Parsers Json Launch Errors Platform Mounts.
From stdpp Require Import options.

(** ** docker_argv.rs *)

Definition RTM_DOCKER_CONTAINER_PREFIX : string := "rtm".
Definition RTM_DOCKER_SESSION_LABEL : string := "io.helioy.runtime-matters.session".

Definition path_arg (path : string) : string := to_string_lossy path.

Definition bind_mount_arg (mount : MountSpec) : string :=
  let arg := "type=bind,source=" +:+ path_arg mount.(MountSpec.source) +:+ ",target=" +:+
             path_arg mount.(MountSpec.target) in
  if mount.(MountSpec.read_only) then arg +:+ ",readonly" else arg.

Definition mount_args (mounts : list MountSpec) : list string :=
  concat ((λ mount, ["--mount"; bind_mount_arg mount]) <$> mounts).
Definition env_args (env : list LaunchEnv) : list string :=
  concat ((λ entry, ["--env"; entry.(LaunchEnv.key) +:+ "=" +:+ entry.(LaunchEnv.value)]) <$> env).

Definition container_command (command : string) : string :=
  if is_absolute command then default command (to_string_lossy <$> file_name command) else command.

Section argv.
Context `{External}.

Definition container_name (session_id : Uuid) : string :=
  RTM_DOCKER_CONTAINER_PREFIX +:+ "-" +:+ uuid_to_string session_id.

Definition docker_run_base_argv (session_id : Uuid) (cwd : string) (mounts : list MountSpec)
    (tty : bool) (docker_command : string) : result Error (list string) :=
  cwd_plan ← plan_cwd_mount cwd mounts;
  let cwd := path_arg cwd in
  Ok ([docker_command; "run"; "--rm"; "--name"; container_name session_id; "--label";
       RTM_DOCKER_SESSION_LABEL +:+ "=" +:+ uuid_to_string session_id] ++
      (if cwd_plan.(CwdMountPlan.auto_mount_cwd)
       then ["--mount"; "type=bind,src=" +:+ cwd +:+ ",dst=" +:+ cwd] else []) ++
      mount_args mounts ++
      ["--workdir"; cwd_plan.(CwdMountPlan.workdir)] ++
      (if tty then ["-i"; "-t"; "--sig-proxy=false"] else [])).

Definition docker_run_argv (session_id : Uuid) (profile : IsolationProfile) (image : string)
    (launch : LaunchSpec) (mounts : list MountSpec) (tmux_target : bool) (docker_command : string)
    : result Error (list string) :=
  base ← docker_run_base_argv session_id launch.(LaunchSpec.cwd) mounts tmux_target docker_command;
  Ok (base ++
      (if bool_decide (profile.(IsolationProfile.name) ≠ Some "own-init") then ["--init"] else []) ++
      env_args launch.(LaunchSpec.env) ++ [image]).

Definition is_tmux (target : SpawnTarget) : bool :=
  match target with SpawnTarget.Tmux _ => true | SpawnTarget.Headless => false end.

(** [docker_argv::docker_run_launch]. *)
Definition docker_run_launch (session_id : Uuid) (profile : IsolationProfile) (image : string)
    (launch : LaunchSpec) (mounts : list MountSpec) (target : SpawnTarget) (docker_command : string)
    : result Error LaunchSpec :=
  command ← map_err of_launcher (LaunchSpec_command launch);
  argv ← docker_run_argv session_id profile image launch mounts (is_tmux target) docker_command;
  Ok (LaunchSpec.mk (argv ++ [container_command command] ++ tail launch.(LaunchSpec.argv))
        launch.(LaunchSpec.env) launch.(LaunchSpec.cwd) launch.(LaunchSpec.shell_resume)).
End argv.

(** ** docker_runtime.rs and docker_preflight.rs *)

Module DockerPreflightConfig.
Record DockerPreflightConfig := mk {
  image : option string; allow_root_image_user : bool; allow_arm64_manifest_escape : bool }.
End DockerPreflightConfig.
Notation DockerPreflightConfig := DockerPreflightConfig.DockerPreflightConfig.

Definition flag_values : list string := ["1"; "true"; "TRUE"; "yes"; "YES"].
Definition env_flag (var : string → option string) (name : string) : bool :=
  match var name with Some value => bool_decide (value ∈ flag_values) | None => false end.

(** [DockerPreflightConfig::from_env]; [var] is [std::env::var(..).ok()]. *)
Definition docker_config_from_env (var : string → option string) : DockerPreflightConfig :=
  DockerPreflightConfig.mk
    (value ← var "RTM_DOCKER_IMAGE"; if String.eqb (trim value) "" then None else Some (trim value))
    (env_flag var "RTM_DOCKER_ALLOW_ROOT_IMAGE_USER")
    (env_flag var "RTM_DOCKER_ALLOW_ARM64_MANIFEST_ESCAPE").

Definition image_for (config : DockerPreflightConfig) (request : SpawnRequest) : result Error string :=
  ok_or (of_failure RuntimeFailure.DockerImageNotConfigured)
    (match request.(SpawnRequest.image) with
     | Some image => Some image
     | None => config.(DockerPreflightConfig.image)
     end).

Definition non_empty (value : string) : option string :=
  let trimmed := trim value in if String.eqb trimmed "" then None else Some trimmed.

Definition command_error_message (stderr fallback : string) : string :=
  let message := trim (to_string_lossy stderr) in
  if String.eqb message "" then fallback else message.

Definition command_stderr (stderr : string) : string :=
  command_error_message stderr "docker command failed without stderr".

Section docker_cli.
Context {O : Type} `{Os O, External, Json}.

Notation OsM := (M O Error).

(** [Command::output] of the docker CLI, whose failure to run is the given failure. *)
Definition docker (unavailable : string → RuntimeFailure) (args : list string) : OsM Output :=
  r ← os_call (exec "docker" args);
  match r with
  | Ok output => mret output
  | Err e => throw (of_failure (unavailable (display_IoError e)))
  end.

Fixpoint find_file (paths : list string) : OsM (option string) :=
  match paths with
  | [] => mret None
  | path :: paths =>
      found ← os_call (is_file path);
      if (found : bool) then mret (Some path) else find_file paths
  end.

(** [path_var] is [std::env::var_os("PATH")]. *)
Definition docker_command (path_var : option string) : OsM string :=
  let dirs := match path_var with Some paths => split_on ":"%char paths | None => [] end in
  found ← find_file ((λ dir, path_join dir "docker") <$> dirs);
  mret (match found with Some path => to_string_lossy path | None => "docker" end).

(** [DockerCliRuntime::running] and [container_running_blocking]. *)
Definition container_running (session_id : Uuid) : OsM bool :=
  output ← docker RuntimeFailure.DockerUnavailable
    ["container"; "inspect"; container_name session_id; "--format"; "{{.State.Running}}"];
  if negb output.(Output.success) then mret false else
  mret (String.eqb (trim (to_string_lossy output.(Output.stdout))) "true").

Definition kill_container (session_id : Uuid) (signal : RuntimeSignal) : OsM KillOutcome :=
  output ← docker RuntimeFailure.DockerUnavailable
    ["kill"; "--signal"; display_i (signal_number signal); container_name session_id];
  if output.(Output.success) then mret KillOutcome.Signalled
  else if contains "No such container" (command_stderr output.(Output.stderr)) then
    mret KillOutcome.AlreadyExited
  else throw (of_failure (RuntimeFailure.DockerUnavailable (command_stderr output.(Output.stderr)))).

Definition ensure_available : OsM unit :=
  output ← docker RuntimeFailure.DockerUnavailable ["version"; "--format"; "{{.Server.Version}}"];
  if output.(Output.success) then mret tt
  else throw (of_failure (RuntimeFailure.DockerUnavailable
         (command_error_message output.(Output.stderr) "docker version failed without stderr"))).

(** [docker image inspect IMAGE --format FORMAT]. *)
Definition image_inspect (image format : string) : OsM string :=
  output ← docker RuntimeFailure.DockerImageUnavailable ["image"; "inspect"; image; "--format"; format];
  if output.(Output.success) then mret (trim (to_string_lossy output.(Output.stdout)))
  else throw (of_failure (RuntimeFailure.DockerImageUnavailable
         (command_error_message output.(Output.stderr) "docker image inspect failed without stderr"))).

Definition metadata_unavailable (message : string) : Error :=
  of_failure (RuntimeFailure.DockerImageMetadataUnavailable message).

(** [serde_json::from_str::<String>]. *)
Definition json_string (text : string) : result string string :=
  v ← json_from_str text; string_from_value v.

Definition image_user (image : string) : OsM (option string) :=
  trimmed ← image_inspect image "{{json .Config.User}}";
  if String.eqb trimmed "" || String.eqb trimmed "null" then mret None else
  user ← lift (map_err (λ e, metadata_unavailable
            ("docker image inspect returned invalid user metadata: " +:+ e)) (json_string trimmed));
  mret (non_empty user).

Definition image_architecture (image : string) : OsM string :=
  trimmed ← image_inspect image "{{json .Architecture}}";
  architecture ← lift (map_err (λ e, metadata_unavailable
            ("docker image inspect returned invalid architecture metadata: " +:+ e)) (json_string trimmed));
  lift (ok_or (metadata_unavailable "docker image inspect returned empty architecture metadata")
          (non_empty architecture)).

(** The derived [Deserialize] of [DockerManifest], as the architectures it lists. *)
Definition manifest_architecture (v : Value) : result string string :=
  vs ← struct_values ["platform"] v;
  p ← required "platform" Ok (default None (vs !! 0));
  ps ← struct_values ["architecture"] p;
  required "architecture" string_from_value (default None (ps !! 0)).
Definition manifest_from_value (v : Value) : result string (option (list string)) :=
  vs ← struct_values ["manifests"] v;
  optional (λ w, match w with Array l => try_map manifest_architecture l | _ => Err "invalid type" end)
    (default None (vs !! 0)).

Definition manifest_has_arm64 (stdout : string) : result Error bool :=
  manifests ← map_err (λ e, metadata_unavailable
      ("docker manifest inspect returned invalid metadata: " +:+ e))
    (v ← json_from_str stdout; manifest_from_value v);
  Ok (match manifests with
      | Some architectures => existsb (String.eqb "arm64") architectures
      | None => true
      end).

Definition arm64_manifest_available (image : string) : OsM bool :=
  output ← docker RuntimeFailure.DockerImageMetadataUnavailable ["manifest"; "inspect"; image];
  if negb output.(Output.success) then
    throw (metadata_unavailable
      (command_error_message output.(Output.stderr) "docker manifest inspect failed without stderr"))
  else lift (manifest_has_arm64 output.(Output.stdout)).

(** ** spawn_preflight.rs: images *)

Definition is_docker_image_unavailable (error : Error) : bool :=
  match find_source as_failure (chain error) with
  | Some (RuntimeFailure.DockerImageUnavailable _) => true
  | _ => false
  end.

Definition docker_image_arm64_available (image : string) : OsM bool :=
  r ← attempt (image_architecture image);
  match r with
  | Ok arch => mret (String.eqb arch "arm64")
  | Err local_error =>
      if is_docker_image_unavailable local_error then
        available ← attempt (arm64_manifest_available image);
        match available with Ok available => mret available | Err _ => throw local_error end
      else throw local_error
  end.

Definition image_user_is_root (user : option string) : bool :=
  match user with
  | None => true
  | Some user =>
      let primary := trim (default user (head (split_on ":"%char user))) in
      String.eqb primary "" || String.eqb primary "0" || String.eqb primary "root"
  end.

Definition profile_is (profile : IsolationProfile) (name : string) : bool :=
  bool_decide (profile.(IsolationProfile.name) = Some name).
Definition docker_root_allowed (config : DockerPreflightConfig) (profile : IsolationProfile) : bool :=
  config.(DockerPreflightConfig.allow_root_image_user) || profile_is profile "allow-root".
Definition docker_manifest_escape_allowed (config : DockerPreflightConfig) (profile : IsolationProfile)
    : bool :=
  config.(DockerPreflightConfig.allow_arm64_manifest_escape) ||
  profile_is profile "arm64-manifest-escape".

Definition validate_docker_image_metadata_on_arch (config : DockerPreflightConfig)
    (request : SpawnRequest) (profile : IsolationProfile) (host_arch : string) : OsM unit :=
  _ ← ensure_available;
  image ← lift (image_for config request);
  user ← image_user image;
  if image_user_is_root user && negb (docker_root_allowed config profile) then
    throw (metadata_unavailable ("docker image " +:+ image +:+ " runs as root"))
  else if String.eqb host_arch "aarch64" && negb (docker_manifest_escape_allowed config profile) then
    arm64_available ← docker_image_arm64_available image;
    if (arm64_available : bool) then mret tt
    else throw (metadata_unavailable ("docker image " +:+ image +:+ " does not publish an arm64 manifest"))
  else mret tt.

(** ** spawn_preflight.rs: mounts *)

Definition canonicalize_cwd (cwd : string) : OsM string :=
  r ← os_call (canonicalize cwd);
  lift (map_err (λ e, protocol_mismatch ("spawn cwd " +:+ to_string_lossy cwd +:+
    " could not be canonicalized for Docker mount preflight: " +:+ display_IoError e)) r).

Definition canonicalize_mount_source (cwd source : string) : OsM string :=
  let absolute := if is_absolute source then source else path_join cwd source in
  r ← os_call (canonicalize absolute);
  lift (map_err (λ e, protocol_mismatch ("docker mount source " +:+ to_string_lossy source +:+
    " could not be canonicalized relative to cwd " +:+ to_string_lossy cwd +:+ ": " +:+ display_IoError e)) r).

(** The mounts with the sources replaced in the request, and the planned ones. *)
Fixpoint canonicalize_request_mounts (cwd : string) (mounts : list MountSpec)
    : OsM (list MountSpec * list DockerMount) :=
  match mounts with
  | [] => mret ([], [])
  | mount :: mounts =>
      source ← canonicalize_mount_source cwd mount.(MountSpec.source);
      planned ← lift (DockerMount_new source mount.(MountSpec.target));
      rest ← canonicalize_request_mounts cwd mounts;
      mret (MountSpec.mk source mount.(MountSpec.target) mount.(MountSpec.read_only) :: rest.1,
            planned :: rest.2)
  end.

(** The counts are visited in the order of the targets. *)
Definition target_counts (mounts : list DockerMount) : list (string * nat) :=
  let targets := DockerMount.target <$> mounts in
  (λ t, (t, length (filter (λ u, u = t) targets))) <$> merge_sort text_le (remove_dups targets).

Definition reject_duplicate_mount_targets (mounts : list DockerMount) : result Error unit :=
  try_iter (λ tc : string * nat,
    if decide (1 < tc.2) then
      Err (protocol_mismatch ("docker mount target " +:+ tc.1 +:+ " is declared more than once"))
    else Ok tt) (target_counts mounts).

Definition path_shaped_env (env : LaunchEnv) : option PathShapedEnv :=
  if negb (starts_with "CLAUDE_" env.(LaunchEnv.key)) then None
  else claude_path_shaped_env env.(LaunchEnv.key).

Definition reject_path_value (mounts : list DockerMount) (env : LaunchEnv) (path_value : string)
    : result Error unit :=
  let shown := "path-shaped env " +:+ env.(LaunchEnv.key) +:+ "=" +:+ env.(LaunchEnv.value) in
  normalized ← ok_or (protocol_mismatch (shown +:+ " must be an absolute container path"))
                 (normalize_container_path path_value);
  if existsb (λ mount, container_path_covers mount.(DockerMount.target) normalized) mounts then Ok tt
  else Err (protocol_mismatch (shown +:+ " is not covered by a declared Docker mount target; add --mount "
              +:+ path_value +:+ ":" +:+ path_value +:+ ":ro")).

Definition reject_uncovered_path_envs (env : list LaunchEnv) (mounts : list DockerMount)
    : result Error unit :=
  try_iter (λ entry,
    match path_shaped_env entry with
    | None => Ok tt
    | Some catalog =>
        try_iter (reject_path_value mounts entry) (path_values catalog entry.(LaunchEnv.value))
    end) env.

(** The request with its working directory and mounts replaced. *)
Definition set_cwd_mounts (request : SpawnRequest) (cwd : string) (mounts : list MountSpec)
    : SpawnRequest :=
  let '(SpawnRequest.mk a b c d e _ _ f g h) := request in
  SpawnRequest.mk a b c d e mounts cwd f g h.

Definition validate_docker_mounts (request : SpawnRequest) : OsM SpawnRequest :=
  cwd_source ← canonicalize_cwd request.(SpawnRequest.cwd);
  canonical ← canonicalize_request_mounts cwd_source request.(SpawnRequest.mounts);
  let '(specs, mounts) := canonical in
  _ ← lift (reject_duplicate_mount_targets mounts);
  _ ← lift (validate_cwd_mount_plan cwd_source mounts);
  _ ← lift (reject_uncovered_path_envs request.(SpawnRequest.env) mounts);
  mret (set_cwd_mounts request cwd_source specs).

Definition unsupported_docker_profile (profile : IsolationProfile) (reason : string) : Error :=
  of_failure (RuntimeFailure.UnsupportedIsolationPolicy
    (display_IsolationPolicy (IsolationPolicy.Docker profile) +:+ " (" +:+ reason +:+ ")")).
Definition unsupported_docker_behavior (reason : string) : Error :=
  of_failure (RuntimeFailure.UnsupportedIsolationPolicy ("docker profile that " +:+ reason)).

Definition accepted_profiles : list (option string) :=
  [None; Some "default"; Some "own-init"; Some "allow-root"; Some "arm64-manifest-escape"].

(** [arch] is [std::env::consts::ARCH]. *)
Definition check_docker_profile (config : DockerPreflightConfig) (arch : string)
    (request : SpawnRequest) (profile : IsolationProfile) : OsM SpawnRequest :=
  if decide (profile.(IsolationProfile.name) ∈ accepted_profiles) then
    request ← validate_docker_mounts request;
    _ ← validate_docker_image_metadata_on_arch config request profile arch;
    mret request
  else if profile_is profile "pattern-e" || profile_is profile "tmux-primary" then
    throw (unsupported_docker_behavior "requests a multiplexer inside the container")
  else if profile_is profile "privileged" then
    throw (unsupported_docker_profile profile "requests privileged execution")
  else throw (unsupported_docker_profile profile "is not an accepted Docker profile").

(** The host's mounts are ignored, with a warning. *)
Definition check_isolation_policy (config : DockerPreflightConfig) (arch : string)
    (request : SpawnRequest) : OsM SpawnRequest :=
  match request.(SpawnRequest.isolation) with
  | IsolationPolicy.Host => mret request
  | IsolationPolicy.Docker profile => check_docker_profile config arch request profile
  end.
End docker_cli.

(** ** What the preflight guarantees *)

Section preflight.
Context {O : Type} `{Os O, External, Json}.

(** The preflight keeps all of a request but its directory and mounts. *)
Definition same_session (request request' : SpawnRequest) : Prop :=
  request'.(SpawnRequest.session_id) = request.(SpawnRequest.session_id) ∧
  request'.(SpawnRequest.target) = request.(SpawnRequest.target) ∧
  request'.(SpawnRequest.force) = request.(SpawnRequest.force) ∧
  request'.(SpawnRequest.runtime) = request.(SpawnRequest.runtime) ∧
  request'.(SpawnRequest.isolation) = request.(SpawnRequest.isolation).

Lemma hoare_skip {A B} (m : M O Error A) (f : A → M O Error B) (Q : B → O → Prop) :
  (∀ a, hoare (λ _, True) (f a) Q (λ _ _, True)) → hoare (λ _, True) (m ≫= f) Q (λ _ _, True).
Proof. intros Hf. eapply hoare_bind; [apply hoare_true|exact Hf]. Qed.

Lemma validate_docker_mounts_same request :
  hoare (λ _, True) (validate_docker_mounts request) (λ r _, same_session request r) (λ _ _, True).
Proof.
  apply hoare_skip. intros cwd. apply hoare_skip. intros [specs mounts].
  do 3 (apply hoare_skip; intros []). apply hoare_ret. intros _ _. by destruct request.
Qed.

Lemma check_isolation_request config arch request o request' o' :
  check_isolation_policy config arch request o = (Ok request', o') → same_session request request'.
Proof.
  assert (hoare (λ _, True) (check_isolation_policy config arch request)
            (λ r _, same_session request r) (λ _ _, True)) as Hc.
  { unfold check_isolation_policy. case_match; [by apply hoare_ret|]. unfold check_docker_profile.
    repeat case_match; try by apply hoare_throw.
    eapply hoare_bind; [apply validate_docker_mounts_same|]. intros r.
    eapply (hoare_bind _ _ _ (λ _ _, same_session request r)); [|intros []; by apply hoare_ret].
    intros w Hw. by destruct (validate_docker_image_metadata_on_arch _ _ _ _ w) as [[]]. }
  intros E. specialize (Hc o I). by rewrite E in Hc.
Qed.

(** An accepted policy is not the one with an empty profile name. *)
Lemma check_isolation_accepted config arch request o request' o' :
  check_isolation_policy config arch request o = (Ok request', o') →
  request.(SpawnRequest.isolation) ≠ IsolationPolicy.Docker (IsolationProfile.mk (Some "")).
Proof.
  unfold check_isolation_policy, check_docker_profile. intros Hc E. rewrite E in Hc.
  by rewrite decide_False in Hc by (unfold accepted_profiles; simpl; set_solver).
Qed.

Lemma canonicalize_request_mounts_spec cwd mounts o specs planned o' :
  canonicalize_request_mounts cwd mounts o = (Ok (specs, planned), o') →
  try_map (λ m : MountSpec, DockerMount_new m.(MountSpec.source) m.(MountSpec.target)) specs = Ok planned ∧
  Forall2 (λ m m' : MountSpec, m'.(MountSpec.target) = m.(MountSpec.target) ∧
             m'.(MountSpec.read_only) = m.(MountSpec.read_only)) mounts specs.
Proof.
  revert o specs planned o'. induction mounts as [|m mounts IH]; intros o specs planned o'.
  - intros [= <- <- <-]. by split.
  - simpl. unfold mbind, M_bind, mret, M_ret.
    destruct (canonicalize_mount_source cwd (MountSpec.source m) o) as [[source|e] o1]; [|done].
    unfold lift. destruct (DockerMount_new source (MountSpec.target m)) as [pm|e] eqn:Ep; [|done].
    destruct (canonicalize_request_mounts cwd mounts o1) as [[[specs' planned']|e] o2] eqn:Er; [|done].
    simpl. intros [= <- <- <-]. destruct (IH _ _ _ _ Er) as [E1 E2]. simpl. rewrite Ep. simpl.
    rewrite E1. split; [done|]. by constructor.
Qed.

Lemma DockerMount_new_target source target m :
  DockerMount_new source target = Ok m →
  (∃ parts, mount_target m parts) ∧ normalize_container_path (path_string target) = Some m.(DockerMount.target).
Proof.
  unfold DockerMount_new. intros (t & Ht & [= <-])%bind_Ok. apply ok_or_Ok in Ht. simpl.
  split; [|done]. unfold normalize_container_path in Ht. destruct (negb _); [done|].
  injection Ht as <-. exists (container_parts (path_string target)). split; [apply container_parts_ok|done].
Qed.

Lemma planned_targets (specs : list MountSpec) planned :
  try_map (λ m, DockerMount_new m.(MountSpec.source) m.(MountSpec.target)) specs = Ok planned →
  Forall (λ m, ∃ parts, mount_target m parts) planned.
Proof.
  intros Hm%try_map_Ok. induction Hm as [|m pm specs planned E _ IH]; [apply Forall_nil_2|].
  apply Forall_cons_2; [|done]. by apply DockerMount_new_target in E as [? _].
Qed.

Lemma reject_duplicates_ok mounts :
  reject_duplicate_mount_targets mounts = Ok tt → NoDup (DockerMount.target <$> mounts).
Proof.
  unfold reject_duplicate_mount_targets. rewrite try_iter_Ok. intros Hc.
  set (targets := DockerMount.target <$> mounts) in *.
  assert (∀ t, t ∈ targets → length (filter (λ u, u = t) targets) ≤ 1) as Hone.
  { intros t Ht. rewrite Forall_forall in Hc.
    specialize (Hc (t, length (filter (λ u, u = t) targets))). simpl in Hc.
    destruct (decide (1 < length (filter (λ u, u = t) targets))); [|lia].
    assert (Err (protocol_mismatch ("docker mount target " +:+ t +:+ " is declared more than once"))
            = Ok tt) as X; [|done]. apply Hc.
    unfold target_counts. apply list_elem_of_fmap. exists t. split; [done|].
    rewrite merge_sort_Permutation. by apply elem_of_remove_dups. }
  clear Hc. induction targets as [|t ts IH]; [constructor|].
  constructor.
  - intros Hin. specialize (Hone t ltac:(by left)). rewrite filter_cons_True in Hone by done.
    simpl in Hone. assert (t ∈ filter (λ u, u = t) ts) as Hf by (by apply list_elem_of_filter).
    destruct (filter (λ u, u = t) ts); [by apply elem_of_nil in Hf|simpl in Hone; lia].
  - apply IH. intros u Hu. specialize (Hone u ltac:(by right)). rewrite filter_cons in Hone.
    case_decide; simpl in Hone; lia.
Qed.

Lemma set_cwd_mounts_fields request cwd mounts :
  (set_cwd_mounts request cwd mounts).(SpawnRequest.cwd) = cwd ∧
  (set_cwd_mounts request cwd mounts).(SpawnRequest.mounts) = mounts ∧
  (set_cwd_mounts request cwd mounts).(SpawnRequest.env) = request.(SpawnRequest.env).
Proof. by destruct request. Qed.

(** A path-shaped variable points inside the mounts. *)
Definition env_covered (mounts : list DockerMount) (entry : LaunchEnv) : Prop :=
  ∀ catalog value p,
    path_shaped_env entry = Some catalog → value ∈ path_values catalog entry.(LaunchEnv.value) →
    normalize_container_path value = Some p →
    ∃ m, m ∈ mounts ∧ container_path_covers m.(DockerMount.target) p = true.

Lemma reject_uncovered_ok env mounts :
  reject_uncovered_path_envs env mounts = Ok tt →
  Forall (env_covered mounts) env ∧
  Forall (λ entry, ∀ catalog value, path_shaped_env entry = Some catalog →
            value ∈ path_values catalog entry.(LaunchEnv.value) → is_Some (normalize_container_path value)) env.
Proof.
  unfold reject_uncovered_path_envs. rewrite try_iter_Ok. intros Hall.
  assert (∀ entry, entry ∈ env → ∀ catalog value, path_shaped_env entry = Some catalog →
            value ∈ path_values catalog entry.(LaunchEnv.value) →
            ∃ p, normalize_container_path value = Some p ∧
                 ∃ m, m ∈ mounts ∧ container_path_covers m.(DockerMount.target) p = true) as H'.
  { intros entry He catalog value Hc Hv. rewrite Forall_forall in Hall. specialize (Hall entry He).
    simpl in Hall. rewrite Hc in Hall. apply try_iter_Ok in Hall. rewrite Forall_forall in Hall.
    specialize (Hall value Hv). unfold reject_path_value in Hall.
    apply bind_Ok in Hall as (p & Hp & Hm). apply ok_or_Ok in Hp. exists p. split; [done|].
    destruct (existsb _ mounts) eqn:E; [|done]. apply existsb_exists in E as (m & Hin & Hm').
    exists m. split; [by apply list_elem_of_In|done]. }
  split; apply Forall_forall; intros entry He.
  - intros catalog value p Hc Hv Hp. destruct (H' entry He catalog value Hc Hv) as (p' & Hp' & ?).
    rewrite Hp in Hp'. by injection Hp' as <-.
  - intros catalog value Hc Hv. destruct (H' entry He catalog value Hc Hv) as (p' & Hp' & ?). by eexists.
Qed.

End preflight.

Definition docker_request (cwd : string) (mounts : list MountSpec) (env : list LaunchEnv) : SpawnRequest :=
  SpawnRequest.mk (mkUuid 7) RuntimeKind.Claude (IsolationPolicy.Docker (IsolationProfile.mk None))
    (Some "img") env mounts cwd SpawnTarget.Headless false None.


(** ** Images *)

(** C31. A session is let into a container only under an accepted profile, and, unless the
    configuration or the profile allows it, only when the user that the docker CLI reports
    for the image is neither missing nor empty nor [root] nor [0], alone or before a
    colon; the user asked about is that of the image the session will run. *)
Theorem accepted_image_not_root {O} `{Os O, Json} config arch request profile o request' o' :
  request.(SpawnRequest.isolation) = IsolationPolicy.Docker profile →
  check_isolation_policy config arch request o = (Ok request', o') →
  profile.(IsolationProfile.name) ∈ accepted_profiles ∧
  ∃ image o1 user o2,
    image_for config request' = Ok image ∧ image_user image o1 = (Ok user, o2) ∧
    (docker_root_allowed config profile = true ∨
     ∃ u primary rest, user = Some u ∧ split_on ":"%char u = primary :: rest ∧
       trim primary ≠ "" ∧ trim primary ≠ "0" ∧ trim primary ≠ "root").
Proof.
  unfold check_isolation_policy. intros ->. unfold check_docker_profile. case_decide as Hp.
  2: { repeat case_match; unfold throw; by intros [=]. }
  unfold mbind, M_bind, mret, M_ret. destruct (validate_docker_mounts request o) as [[r|e] o1] eqn:Ev; [|done].
  destruct (validate_docker_image_metadata_on_arch config r profile arch o1) as [[[]|e] o2] eqn:Ei; [|done].
  intros [= <- <-]. split; [done|]. unfold validate_docker_image_metadata_on_arch, mbind, M_bind, lift in Ei.
  destruct (ensure_available o1) as [[[]|e] o3]; [|done].
  destruct (image_for config r) as [image|e] eqn:Eimg; [|done].
  destruct (image_user image o3) as [[user|e] o4] eqn:Eu; [|done].
  exists image, o3, user, o4. split_and!; [done..|].
  destruct (docker_root_allowed config profile) eqn:Ea; [by left|right].
  destruct (image_user_is_root user) eqn:Er; [by unfold throw in Ei|].
  destruct user as [u|]; [|done]. simpl in Er.
  destruct (split_on ":"%char u) as [|primary rest] eqn:Es; [by apply split_on_not_nil in Es|].
  exists u, primary, rest. simpl in Er. apply orb_false_iff in Er as [[E1 E2]%orb_false_iff E3].
  rewrite String.eqb_neq in E1, E2, E3. done.
Qed.

(** An operating system with one image, of the given user. *)
Definition image_os (user : string) : Os N :=
  {| exec := λ _ args o,
       (Ok (Output.mk true (if decide (args !! 1 = Some "inspect") then user else "1") ""), o);
     sys_kill := λ _ _ o, (Some ESRCH, o);
     read_to_string := λ _ o, (Err IoError.NotFound, o); canonicalize := λ p o, (Ok p, o);
     is_file := λ _ o, (false, o); create_dir_all := λ _ o, (None, o); create_file := λ _ o, (None, o);
     spawn_child := λ _ _ _ o, (None, o); clock_ticks := λ o, (100%Z, o);
     os_instant := λ o, (o, o); os_epoch_ms := λ o, (o, o); os_sleep := λ ms o, (o + ms)%N |}.

Lemma accepted_image_not_root_witness :
  let request := docker_request "/w/p" [] [] in
  let config := DockerPreflightConfig.mk None true false in
  @check_isolation_policy N (image_os "null") code_json config "x86_64" request 0%N = (Ok request, 0%N) ∧
  ∃ image o1 user o2, image_for config request = Ok image ∧
    @image_user N (image_os "null") code_json image o1 = (Ok user, o2).
Proof.
  intros request config.
  assert (@check_isolation_policy N (image_os "null") code_json config "x86_64" request 0%N =
          (Ok request, 0%N)) as E by (by vm_compute).
  split; [exact E|].
  destruct (@accepted_image_not_root N (image_os "null") code_json config "x86_64" request
              (IsolationProfile.mk None) 0%N request 0%N eq_refl E) as (_ & image & o1 & user & o2 & Hi & Hu & _).
  exists image, o1, user, o2. split; [exact Hi|exact Hu].
Defined.

(** ** Mount options

    The docker CLI reads the value of [--mount] as comma-separated [key=value] options. *)

Definition mount_option (option : string) : string * string :=
  match split_once "="%char option with Some kv => kv | None => (option, "") end.

Definition docker_mount_options (arg : string) : list (string * string) :=
  mount_option <$> split_on ","%char arg.

(** The docker CLI reads a mount back as it was written, source, target and mode, when
    neither path has a comma; a comma in a path ends it there and what follows is taken for
    further options. *)
Theorem bind_mount_arg_read_back m :
  (","%char ∉ bytes m.(MountSpec.source) → ","%char ∉ bytes m.(MountSpec.target) →
   docker_mount_options (bind_mount_arg m) =
     [("type", "bind"); ("source", path_arg m.(MountSpec.source)); ("target", path_arg m.(MountSpec.target))] ++
     (if m.(MountSpec.read_only) then [("readonly", "")] else [])) ∧
  docker_mount_options (bind_mount_arg (MountSpec.mk "/home/a,readonly" "/b" false)) =
    [("type", "bind"); ("source", "/home/a"); ("readonly", ""); ("target", "/b")].
Proof.
  split; [|by vm_compute]. intros Hs%(to_string_lossy_no ",") Ht%(to_string_lossy_no ","); [|done..].
  unfold bind_mount_arg, docker_mount_options, path_arg. destruct m as [src dst ro]; simpl in *.
  set (s := to_string_lossy src) in *. set (t := to_string_lossy dst) in *.
  assert (∀ k v, ","%char ∉ bytes k → ","%char ∉ bytes v → ","%char ∉ bytes (k +:+ v)) as Happ.
  { intros k v Hk Hv. rewrite bytes_app, elem_of_app. tauto. }
  assert (∀ k v, "="%char ∉ bytes k → mount_option (k +:+ String "=" v) = (k, v)) as Hopt.
  { intros k v Hk. unfold mount_option. by rewrite split_once_app. }
  assert (∀ rest, split_on ","%char ("type=bind,source=" +:+ s +:+ ",target=" +:+ t +:+ rest) =
            "type=bind" :: ("source=" +:+ s) :: split_on ","%char ("target=" +:+ t +:+ rest)) as Hsplit.
  { intros rest. change ("type=bind,source=" +:+ s +:+ ",target=" +:+ t +:+ rest)
      with ("type=bind" +:+ String "," ("source=" +:+ s +:+ String "," ("target=" +:+ t +:+ rest))).
    rewrite split_on_app by (apply (bool_decide_unpack _); by vm_compute). f_equal.
    rewrite <- (str_app_assoc "source=" s). rewrite split_on_app; [done|].
    apply Happ; [apply (bool_decide_unpack _); by vm_compute|done]. }
  assert (∀ l : string, "="%char ∉ bytes l → mount_option l = (l, "")) as Hnone.
  { intros l Hl. unfold mount_option. destruct (split_once "="%char l) as [[k v]|] eqn:E; [|done].
    apply split_once_Some in E as [-> _]. destruct Hl. rewrite bytes_app. apply elem_of_app. right. by left. }
  assert (mount_option ("source=" +:+ s) = ("source", s)) as Esrc.
  { apply (Hopt "source" s). apply (bool_decide_unpack _). by vm_compute. }
  assert (mount_option ("target=" +:+ t) = ("target", t)) as Etgt.
  { apply (Hopt "target" t). apply (bool_decide_unpack _). by vm_compute. }
  destruct ro.
  - rewrite !str_app_assoc, Hsplit. change ("target=" +:+ t +:+ ",readonly")
      with ("target=" +:+ t +:+ String "," "readonly").
    rewrite <- str_app_assoc, split_on_app
      by (apply Happ; [apply (bool_decide_unpack _); by vm_compute|done]).
    rewrite !fmap_cons, Esrc, Etgt. by vm_compute.
  - specialize (Hsplit ""). rewrite str_app_nil_r in Hsplit. rewrite Hsplit.
    rewrite split_on_no_sep by (apply Happ; [apply (bool_decide_unpack _); by vm_compute|done]).
    rewrite !fmap_cons, Esrc, Etgt. by vm_compute.
Qed.

Lemma bind_mount_arg_read_back_witness :
  docker_mount_options (bind_mount_arg (MountSpec.mk "/home/a" "/b" true)) =
    [("type", "bind"); ("source", "/home/a"); ("target", "/b"); ("readonly", "")].
Proof.
  apply (proj1 (bind_mount_arg_read_back (MountSpec.mk "/home/a" "/b" true)));
    apply (bool_decide_unpack _); by vm_compute.
Defined.

(** The paths of a command line are lossy. A working directory that is not UTF-8 passes the
    plan, and what docker is told to mount is another path. *)
Theorem lossy_working_directory :
  ∃ cwd plan, plan_cwd_mount cwd [] = Ok plan ∧ plan.(CwdMountPlan.auto_mount_cwd) = true ∧
    path_arg cwd ≠ cwd ∧
    ∀ `{External} session_id tty docker_command argv,
      docker_run_base_argv session_id cwd [] tty docker_command = Ok argv →
      ("type=bind,src=" +:+ path_arg cwd +:+ ",dst=" +:+ path_arg cwd) ∈ argv.
Proof.
  exists (String "/" (String "255" "")). eexists. split_and!; [by vm_compute|done|by vm_compute|].
  intros ? session_id tty docker_command argv [= <-]. do 8 right. left.
Qed.
