(* ===== verification/Server.v ===== *)
(** * The daemon's shared state and its coordinators (crates/rtm-daemon/src/server,
    event_channel.rs)

    state.rs, spawn.rs, termination.rs, watcher.rs, status.rs, events.rs and config.rs. Each
    method is a task over the shared state; its atomic actions are one statement of the
    store, one append to the event log, one use of a lock, or one call to the operating
    system. Store and log are used through the interfaces of Interfaces.v. *)

From S2P Require Import Prelude RustStr RustPath Types Parsers Launch Errors Lifecycles Interfaces.
From S2P Require Import Prog Platform Paths Docker.
From stdpp Require Import options.

(** ** config.rs *)

(** Intervals in milliseconds. *)
Module ReconcileConfig.
Record ReconcileConfig := mk {
  sweep_interval : N; resume_poll_interval : N; resume_gap_threshold : Z }.
End ReconcileConfig.
Notation ReconcileConfig := ReconcileConfig.ReconcileConfig.

Module DaemonConfig.
Record DaemonConfig := mk {
  endpoint : RuntimeEndpoint;
  shim_path : string;
  log_root : string;
  db_path : string;
  reconcile : ReconcileConfig;
  docker_preflight : DockerPreflightConfig }.
End DaemonConfig.
Notation DaemonConfig := DaemonConfig.DaemonConfig.

Definition socket_path (config : DaemonConfig) : result Error string :=
  of_path_error (endpoint_socket_path config.(DaemonConfig.endpoint)).

Module HeadlessLogPaths.
Record HeadlessLogPaths := mk { log_dir : string; stdout_path : string; stderr_path : string }.
End HeadlessLogPaths.
Notation HeadlessLogPaths := HeadlessLogPaths.HeadlessLogPaths.

Definition session_log_dir `{External} (config : DaemonConfig) (session_id : Uuid) : string :=
  path_join config.(DaemonConfig.log_root) (uuid_to_string session_id).

Definition session_log_paths `{External} (config : DaemonConfig) (session_id : Uuid) : HeadlessLogPaths :=
  let log_dir := session_log_dir config session_id in
  HeadlessLogPaths.mk log_dir (path_join log_dir "stdout.log") (path_join log_dir "stderr.log").

Definition data_dir (config : DaemonConfig) : string :=
  default config.(DaemonConfig.log_root) (parent config.(DaemonConfig.db_path)).

(** ** event_channel.rs *)

Definition running_event (l : Lifecycle) : result Error RuntimeEvent :=
  runtime_pid ← ok_or (anyhow "running lifecycle missing runtime pid") l.(Lifecycle.runtime_pid);
  start_time ← ok_or (anyhow "running lifecycle missing start time") l.(Lifecycle.start_time);
  Ok (RuntimeEvent.Running l.(Lifecycle.session_id) runtime_pid start_time).

Definition terminated_event (l : Lifecycle) (evidence : TerminationEvidence) : RuntimeEvent :=
  let '(exit_code, signal) :=
    match l.(Lifecycle.state) with
    | LifecycleState.Exited exit => (exit.(RuntimeExit.code), exit.(RuntimeExit.signal))
    | _ => (None, None)
    end in
  RuntimeEvent.Terminated l.(Lifecycle.session_id) exit_code signal evidence.

Definition lost_event (l : Lifecycle) (evidence : LostEvidence) : RuntimeEvent :=
  RuntimeEvent.Lost l.(Lifecycle.session_id) evidence.

(** ** The state *)

(** A oneshot channel of [ShimReady]: no value yet, a value, or an end dropped before. *)
Inductive Channel := Waiting | Sent (ready : ShimReady) | SenderGone | ReceiverGone.

Record Server (S L O : Type) := mkServer {
  store : S;
  log : L;
  os : O;
  pending_launches : gmap Uuid LaunchSpec;
  (** the channel whose sender is registered for a session *)
  pending_ready : gmap Uuid nat;
  channels : gmap nat Channel;
  (** the watched process of a session *)
  exit_watchers : gmap Uuid N;
  terminated_events : gset Uuid;
  (** the caches of the launchers, global to the process *)
  launchers : Registry }.
Arguments mkServer {S L O}.
Arguments store {S L O}.
Arguments log {S L O}.
Arguments os {S L O}.
Arguments pending_launches {S L O}.
Arguments pending_ready {S L O}.
Arguments channels {S L O}.
Arguments exit_watchers {S L O}.
Arguments terminated_events {S L O}.
Arguments launchers {S L O}.

Section server.
Context {S L O : Type} `{LifecycleStore S, EventSink L, Os O, External}.
Variable config : DaemonConfig.

Notation W := (Server S L O).
Notation ServerM := (M W Error).
Notation Task := (Prog W Error).

(** *** Parts of the state *)

Definition set_store (s : S) (w : W) : W :=
  mkServer s w.(log) w.(os) w.(pending_launches) w.(pending_ready) w.(channels) w.(exit_watchers) w.(terminated_events) w.(launchers).
Definition set_log (l : L) (w : W) : W :=
  mkServer w.(store) l w.(os) w.(pending_launches) w.(pending_ready) w.(channels) w.(exit_watchers) w.(terminated_events) w.(launchers).
Definition set_os (o : O) (w : W) : W :=
  mkServer w.(store) w.(log) o w.(pending_launches) w.(pending_ready) w.(channels) w.(exit_watchers) w.(terminated_events) w.(launchers).
Definition set_launches (m : gmap Uuid LaunchSpec) (w : W) : W :=
  mkServer w.(store) w.(log) w.(os) m w.(pending_ready) w.(channels) w.(exit_watchers) w.(terminated_events) w.(launchers).
Definition set_ready (m : gmap Uuid nat) (c : gmap nat Channel) (w : W) : W :=
  mkServer w.(store) w.(log) w.(os) w.(pending_launches) m c w.(exit_watchers) w.(terminated_events) w.(launchers).
Definition set_watchers (m : gmap Uuid N) (w : W) : W :=
  mkServer w.(store) w.(log) w.(os) w.(pending_launches) w.(pending_ready) w.(channels) m w.(terminated_events) w.(launchers).
Definition set_terminated (s : gset Uuid) (w : W) : W :=
  mkServer w.(store) w.(log) w.(os) w.(pending_launches) w.(pending_ready) w.(channels) w.(exit_watchers) s w.(launchers).
Definition set_launchers (r : Registry) (w : W) : W :=
  mkServer w.(store) w.(log) w.(os) w.(pending_launches) w.(pending_ready) w.(channels) w.(exit_watchers) w.(terminated_events) r.

Definition on_store {A} (m : M S Error A) : ServerM A := λ w,
  let '(r, s) := m w.(store) in (r, set_store s w).
Definition on_log {A} (m : M L Error A) : ServerM A := λ w,
  let '(r, l) := m w.(log) in (r, set_log l w).
Definition on_os {A} (m : M O Error A) : ServerM A := λ w,
  let '(r, o) := m w.(os) in (r, set_os o w).

Definition session_not_found (session_id : Uuid) : Error :=
  of_failure (RuntimeFailure.SessionNotFound session_id).

(** [store.get(..).await?.ok_or_else(session_not_found)?]. *)
Definition get_session (session_id : Uuid) : Task Lifecycle :=
  o ← atomic (on_store (get session_id));
  lift_result (ok_or (session_not_found session_id) o).

(** *** events.rs *)

Definition server_append_event (event : RuntimeEvent) : Task RuntimeEvent :=
  atomic (on_log (append_event event)).

(** *** watcher.rs *)

(** On Linux [watch_process_exit] does not fail. The task it feeds, [record_watcher_exit],
    starts when the process is seen to exit. *)
Definition start_exit_watcher (session_id : Uuid) (runtime_pid : N) : Task unit :=
  atomic (modify (λ w,
    match w.(exit_watchers) !! session_id with
    | Some _ => w
    | None => set_watchers (<[session_id := runtime_pid]> w.(exit_watchers)) w
    end)).

Definition remove_watcher (session_id : Uuid) : Task unit :=
  atomic (modify (λ w, set_watchers (base.delete session_id w.(exit_watchers)) w)).

Definition process_exit_watcher_count (w : W) : nat := size w.(exit_watchers).

(** *** status.rs *)

Definition populate_log_availability (l : Lifecycle) : Task Lifecycle :=
  log_availability ←
    match l.(Lifecycle.tmux_pane) with
    | Some address =>
        alive ← attempted (atomic (on_os (tmux_is_alive address)));
        mret (match alive with
              | Ok true => LogAvailability.TmuxPaneSnapshot
              | _ => LogAvailability.Unavailable LogsUnavailableReason.PaneUnavailable
              end)
    | None =>
        let paths := session_log_paths config l.(Lifecycle.session_id) in
        mret (LogAvailability.Headless paths.(HeadlessLogPaths.stdout_path)
                paths.(HeadlessLogPaths.stderr_path))
    end;
  mret (set_log_availability l (Some log_availability)).

Fixpoint populate_log_availability_for (ls : list Lifecycle) : Task (list Lifecycle) :=
  match ls with
  | [] => mret []
  | l :: ls =>
      l ← populate_log_availability l; ls ← populate_log_availability_for ls; mret (l :: ls)
  end.

Definition status (filter : StatusFilter) : Task (list Lifecycle) :=
  rows ← attempted (atomic (on_store (list_lifecycles filter)));
  match rows with
  | Ok rows => populate_log_availability_for rows
  | Err _ => mret []
  end.

Definition availability_of (l : Lifecycle) : option LifecycleLogAvailability :=
  LifecycleLogAvailability.mk l.(Lifecycle.session_id) <$> l.(Lifecycle.log_availability).
Definition availabilities (ls : list Lifecycle) : list LifecycleLogAvailability := omap availability_of ls.

Definition log_availability_statuses : Task (list LifecycleLogAvailability) :=
  ls ← status StatusFilter_empty; mret (availabilities ls).

(** *** spawn.rs *)

(** Dropping the sender of a channel, and the receiver. *)
Definition drop_sender (chan : nat) (c : gmap nat Channel) : gmap nat Channel :=
  match c !! chan with Some Waiting => <[chan := SenderGone]> c | _ => c end.
Definition drop_receiver (chan : nat) (c : gmap nat Channel) : gmap nat Channel :=
  match c !! chan with Some Waiting => <[chan := ReceiverGone]> c | _ => c end.

Definition validate_target (target : SpawnTarget) : Task ValidateTargetResponse :=
  match tmux_address target with
  | Some address =>
      alive ← atomic (on_os (tmux_is_alive address));
      mret (if (alive : bool) then ValidateTargetResponse.mk true ValidateTargetOutcome.Valid
            else ValidateTargetResponse.mk false (ValidateTargetOutcome.TmuxPaneDead address))
  | None => mret (ValidateTargetResponse.mk true ValidateTargetOutcome.Valid)
  end.

Definition validate_target_request (target : string) : Task ValidateTargetResponse :=
  match SpawnTarget_from_str target with
  | Ok target => validate_target target
  | Err error => mret (from_target_parse_error error)
  end.

Definition validate_spawn_target (request : SpawnRequest) : Task unit :=
  response ← validate_target request.(SpawnRequest.target);
  match response.(ValidateTargetResponse.outcome) with
  | ValidateTargetOutcome.Valid => mret tt
  | ValidateTargetOutcome.TmuxPaneDead address => fail (of_failure (RuntimeFailure.TmuxPaneDead address))
  | ValidateTargetOutcome.InvalidTarget message => fail (of_failure (RuntimeFailure.ProtocolMismatch message))
  | ValidateTargetOutcome.UnsupportedTarget target =>
      fail (of_failure (RuntimeFailure.ProtocolMismatch ("unsupported target " +:+ target)))
  end.

(** Registers a sender and drops the previous one, in which case the new receiver is dropped. *)
Definition begin_ready_wait (session_id : Uuid) : Task nat :=
  inserted ← atomic (λ w,
    let chan := fresh (dom w.(channels)) in
    let previous := w.(pending_ready) !! session_id in
    let c := <[chan := match previous with Some _ => ReceiverGone | None => Waiting end]> (match previous with Some p => drop_sender p w.(channels) | None => w.(channels) end) in
    (Ok (chan, previous), set_ready (<[session_id := chan]> w.(pending_ready)) c w));
  match inserted.2 with
  | Some _ =>
      fail (of_failure (RuntimeFailure.ProtocolMismatch
              ("session " +:+ uuid_to_string session_id +:+ " already has a pending shim")))
  | None => mret inserted.1
  end.

Definition remove_pending_ready (session_id : Uuid) : Task unit :=
  atomic (modify (λ w,
    match w.(pending_ready) !! session_id with
    | Some chan => set_ready (base.delete session_id w.(pending_ready)) (drop_sender chan w.(channels)) w
    | None => w
    end)).

Definition cancel_spawn (session_id : Uuid) : Task unit :=
  _ ← atomic (modify (λ w, set_launches (base.delete session_id w.(pending_launches)) w));
  _ ← remove_pending_ready session_id;
  _ ← attempted (atomic (on_store (delete session_id)));
  mret tt.

Definition begin_spawn (request : SpawnRequest) (launch : LaunchSpec) : Task nat :=
  let session_id := request.(SpawnRequest.session_id) in
  existing ← atomic (on_store (get session_id));
  match existing with
  | Some _ => fail (of_failure (RuntimeFailure.SessionAlreadyExists session_id))
  | None =>
      _ ← validate_spawn_target request;
      let lifecycle := set_isolation (forking session_id request.(SpawnRequest.runtime))
                         request.(SpawnRequest.isolation) in
      _ ← atomic (on_store (insert_forking lifecycle));
      _ ← atomic (modify (λ w, set_launches (<[session_id := launch]> w.(pending_launches)) w));
      receiver ← attempted (begin_ready_wait session_id);
      match receiver with
      | Ok receiver => mret receiver
      | Err error => _ ← cancel_spawn session_id; fail error
      end
  end.

Definition take_launch_spec (session_id : Uuid) : Task LaunchSpec :=
  launch ← atomic (λ w, (Ok (w.(pending_launches) !! session_id),
                         set_launches (base.delete session_id w.(pending_launches)) w));
  lift_result (ok_or (of_failure (RuntimeFailure.ProtocolMismatch
    ("no pending launch for session " +:+ uuid_to_string session_id))) launch).

Definition record_running (request : SpawnRequest) (ready : ShimReady) : Task (Lifecycle * RuntimeEvent) :=
  let session_id := request.(SpawnRequest.session_id) in
  lifecycle ← get_session session_id;
  if negb (bool_decide (lifecycle.(Lifecycle.runtime) = request.(SpawnRequest.runtime))) then
    fail (of_failure (RuntimeFailure.ProtocolMismatch
            ("runtime mismatch for session " +:+ uuid_to_string session_id)))
  else
  let '(lifecycle, marked) := mark_running lifecycle ready in
  if negb marked then
    fail (of_failure (RuntimeFailure.ProtocolMismatch
            ("session " +:+ uuid_to_string session_id +:+ " is not waiting for ShimReady")))
  else
  let lifecycle := set_tmux_pane lifecycle (tmux_address request.(SpawnRequest.target)) in
  lifecycle ← populate_log_availability lifecycle;
  _ ← atomic (on_store (update_lifecycle lifecycle));
  event ← lift_result (running_event lifecycle);
  _ ← start_exit_watcher session_id ready.(ShimReady.runtime_pid);
  event ← server_append_event event;
  mret (lifecycle, event).

Definition record_reconnected_ready (ready : ShimReady) : Task (option RuntimeEvent) :=
  lifecycle ← get_session ready.(ShimReady.session_id);
  match lifecycle.(Lifecycle.state) with
  | LifecycleState.Forking =>
      let lifecycle := (mark_running lifecycle ready).1 in
      _ ← atomic (on_store (update_lifecycle lifecycle));
      event ← lift_result (running_event lifecycle);
      _ ← start_exit_watcher lifecycle.(Lifecycle.session_id) ready.(ShimReady.runtime_pid);
      event ← server_append_event event;
      mret (Some event)
  | LifecycleState.Running =>
      _ ← start_exit_watcher lifecycle.(Lifecycle.session_id) ready.(ShimReady.runtime_pid);
      mret None
  | LifecycleState.Exited _ | LifecycleState.Lost _ =>
      fail (anyhow ("session " +:+ uuid_to_string lifecycle.(Lifecycle.session_id) +:+ " is already terminal"))
  end.

(** Takes the sender, then sends. *)
Definition complete_shim_ready (ready : ShimReady) : Task unit :=
  sender ← atomic (λ w, (Ok (w.(pending_ready) !! ready.(ShimReady.session_id)),
                         set_ready (base.delete ready.(ShimReady.session_id) w.(pending_ready)) w.(channels) w));
  match sender with
  | Some chan =>
      sent ← atomic (λ w,
        match w.(channels) !! chan with
        | Some Waiting => (Ok true, set_ready w.(pending_ready) (<[chan := Sent ready]> w.(channels)) w)
        | _ => (Ok false, w)
        end);
      if (sent : bool) then mret tt
      else fail (of_failure (RuntimeFailure.ProtocolMismatch
             ("spawn waiter dropped for session " +:+ uuid_to_string ready.(ShimReady.session_id))))
  | None => _ ← record_reconnected_ready ready; mret tt
  end.

Definition pending_shim_socket_count (w : W) : nat := size w.(pending_ready).

(** *** termination.rs *)

Definition finish_terminal (session_id : Uuid) (lifecycle : Lifecycle) (evidence : TerminationEvidence)
    : Task (option RuntimeEvent) :=
  _ ← remove_watcher session_id;
  inserted ← atomic (λ w, (Ok (bool_decide (session_id ∉ w.(terminated_events))),
                           set_terminated ({[session_id]} ∪ w.(terminated_events)) w));
  if negb inserted then mret None else
  let event := match evidence with
               | TerminationEvidence.Lost lost => lost_event lifecycle lost
               | TerminationEvidence.ShimExit | TerminationEvidence.ProcessExit =>
                   terminated_event lifecycle evidence
               end in
  event ← server_append_event event;
  mret (Some event).

Definition record_exited (session_id : Uuid) (exit : RuntimeExit) (evidence : TerminationEvidence)
    : Task (option RuntimeEvent) :=
  lifecycle ← get_session session_id;
  let '(lifecycle, marked) := mark_exited lifecycle exit in
  if negb marked then mret None else
  _ ← atomic (on_store (update_lifecycle lifecycle));
  finish_terminal session_id lifecycle evidence.

Definition record_lost (session_id : Uuid) (evidence : LostEvidence) : Task (option RuntimeEvent) :=
  lifecycle ← get_session session_id;
  let '(lifecycle, marked) := mark_lost lifecycle evidence in
  if negb marked then mret None else
  _ ← atomic (on_store (update_lifecycle lifecycle));
  finish_terminal session_id lifecycle (TerminationEvidence.Lost evidence).

Definition record_shim_exit (exit : ShimExit) : Task (option RuntimeEvent) :=
  record_exited exit.(ShimExit.session_id) exit.(ShimExit.exit) TerminationEvidence.ShimExit.

Definition is_terminal (session_id : Uuid) : Task bool :=
  o ← attempted (atomic (on_store (get session_id)));
  mret (match o with
        | Ok (Some lifecycle) => is_terminal_state lifecycle.(Lifecycle.state)
        | _ => false
        end).

Definition watcher_evidence (session_id : Uuid) : Task TerminationEvidence :=
  o ← atomic (on_store (get session_id));
  shim_pid ← lift_result (ok_or (anyhow ("session " +:+ uuid_to_string session_id +:+ " missing shim pid"))
               (l ← o; l.(Lifecycle.shim_pid)));
  alive ← atomic (on_os (pid_alive shim_pid));
  mret (if (alive : bool) then TerminationEvidence.ProcessExit
        else TerminationEvidence.Lost LostEvidence.ShimDiedBeforeReport).

(** watcher.rs: the task of a process that exited, which waits 300 ms first. *)
Definition record_watcher_exit (session_id : Uuid) : Task unit :=
  _ ← atomic (on_os (os_call (λ o, (tt, os_sleep 300 o))));
  terminal ← is_terminal session_id;
  if (terminal : bool) then mret tt else
  evidence ← watcher_evidence session_id;
  match evidence with
  | TerminationEvidence.Lost lost => _ ← record_lost session_id lost; mret tt
  | TerminationEvidence.ProcessExit =>
      _ ← record_exited session_id (RuntimeExit.mk None None) evidence; mret tt
  | TerminationEvidence.ShimExit => mret tt
  end.

(** *** state.rs *)

Definition nudge_runtime (request : NudgeRequest) : Task NudgeResponse :=
  lifecycle ← get_session request.(NudgeRequest.session_id);
  match lifecycle.(Lifecycle.tmux_pane) with
  | None => mret (NudgeResponse.mk false (NudgeOutcome.Unsupported NudgeFailureReason.HeadlessLifecycle))
  | Some tmux_pane =>
      terminal ← is_terminal request.(NudgeRequest.session_id);
      if (terminal : bool) then mret (NudgeResponse.mk false (NudgeOutcome.Failed NudgeFailureReason.SessionEnded))
      else
      nudged ← atomic (on_os (tmux_nudge tmux_pane request.(NudgeRequest.content)));
      mret (if (nudged : bool) then NudgeResponse.mk true NudgeOutcome.Delivered
            else NudgeResponse.mk false (NudgeOutcome.Failed NudgeFailureReason.TmuxPaneDead))
  end.

(** [TmuxGateway::capture_pane], whose errors are part of the response. *)
Definition capture_from (tmux_pane : TmuxAddress) (scrollback_lines : N) : ServerM CaptureResponse := λ w,
  let '(r, o) := tmux_capture_pane tmux_pane scrollback_lines w.(os) in
  (Ok (match r with Ok snapshot => CaptureResponse.Captured snapshot | Err e => CaptureResponse.Failed e end),
   set_os o w).

Definition capture_pane (request : CaptureRequest) : Task CaptureResponse :=
  o ← atomic (on_store (get request.(CaptureRequest.session_id)));
  match o with
  | None => mret (CaptureResponse.Failed CaptureError.SessionMissing)
  | Some lifecycle =>
      match lifecycle.(Lifecycle.tmux_pane) with
      | None => mret (CaptureResponse.Failed CaptureError.NotATmuxTarget)
      | Some tmux_pane =>
          alive ← atomic (on_os (tmux_is_alive tmux_pane));
          if negb alive then mret (CaptureResponse.Failed CaptureError.PaneUnavailable) else
          atomic (capture_from tmux_pane (default 1000%N request.(CaptureRequest.scrollback_lines)))
      end
  end.

(** The waiters of the event log are counted by the log. *)
Definition watcher_counts (event_waiter_count : L → nat) : Task WatcherCounts :=
  process_exit_watchers ← atomic (gets process_exit_watcher_count);
  shim_sockets ← atomic (gets pending_shim_socket_count);
  event_waiters ← atomic (gets (λ w, event_waiter_count w.(log)));
  mret (WatcherCounts.mk process_exit_watchers shim_sockets event_waiters).

(** [ServerState::new]: a log that was opened, and nothing pending. *)
Definition new_server (s : S) (l : L) (o : O) (r : Registry) : W := mkServer s l o ∅ ∅ ∅ ∅ ∅ r.
End server.
