(* ===== verification/Proto.v ===== *)
(** * Requests and responses of the daemon (crates/rtm-core/src/proto.rs, version.rs and the
    diagnostics of admin.rs) *)

From S2P Require Import Prelude RustStr RustPath Types Parsers Errors.
From stdpp Require Import options.

(** ** version.rs: the constants of the build *)

(** The constants [env!(..)] of the build, of rtm-core and of rtm-daemon. *)
Class Build := { core_pkg_version : string; daemon_pkg_version : string; RTM_GIT_SHA : string }.

Definition version_info `{Build} : VersionInfo := VersionInfo_new core_pkg_version RTM_GIT_SHA.
Definition runtime_version_info `{Build} : VersionInfo :=
  VersionInfo_new daemon_pkg_version version_info.(VersionInfo.git_sha).

(** ** admin.rs: diagnostics *)

Module LauncherStatus.
Record LauncherStatus := mk { runtime : string; command : option string; error : option string }.
End LauncherStatus.
Notation LauncherStatus := LauncherStatus.LauncherStatus.

Module TmuxStatus.
Record TmuxStatus := mk { available : bool; version : option string; error : option string }.
End TmuxStatus.
Notation TmuxStatus := TmuxStatus.TmuxStatus.

Module DockerReadiness.
Record DockerReadiness := mk { ready : bool; detail : option string; error : option string }.
#[export] Instance DockerReadiness_eq_dec : EqDecision DockerReadiness.
Proof. solve_decision. Defined.
End DockerReadiness.
Export (hints) DockerReadiness.
Notation DockerReadiness := DockerReadiness.DockerReadiness.

Definition docker_ready (detail : string) : DockerReadiness := DockerReadiness.mk true (Some detail) None.
Definition docker_unavailable (error : string) : DockerReadiness :=
  DockerReadiness.mk false None (Some error).

Module DockerIsolationStatus.
Record DockerIsolationStatus := mk {
  supported : bool; default_workspace : string; experimental : bool }.
#[export] Instance DockerIsolationStatus_eq_dec : EqDecision DockerIsolationStatus.
Proof. solve_decision. Defined.
End DockerIsolationStatus.
Export (hints) DockerIsolationStatus.
Notation DockerIsolationStatus := DockerIsolationStatus.DockerIsolationStatus.

Module DockerStatus.
Record DockerStatus := mk {
  cli : DockerReadiness; daemon : DockerReadiness; manifest_validation : DockerReadiness;
  isolation : DockerIsolationStatus }.
#[export] Instance DockerStatus_eq_dec : EqDecision DockerStatus.
Proof. solve_decision. Defined.
End DockerStatus.
Export (hints) DockerStatus.
Notation DockerStatus := DockerStatus.DockerStatus.

(** [DockerStatus::legacy_missing]. *)
Definition legacy_missing : DockerStatus :=
  let missing := docker_unavailable "not reported by this daemon" in
  DockerStatus.mk missing missing missing (DockerIsolationStatus.mk false "" false).

(** [DockerStatus::is_legacy_missing]. *)
Definition is_legacy_missing (s : DockerStatus) : bool := bool_decide (s = legacy_missing).

Module DoctorResponse.
Record DoctorResponse := mk {
  version : VersionInfo;
  socket_path : string;
  uptime_secs : N;
  sqlite : MigrationState;
  lifecycles : LifecycleCounts;
  watchers : WatcherCounts;
  launchers : list LauncherStatus;
  tmux : TmuxStatus;
  docker : DockerStatus;
  log_availability : list LifecycleLogAvailability;
  last_probe_sweep : option DateTime;
  recent_lost : list RecentLostEvent }.
End DoctorResponse.
Notation DoctorResponse := DoctorResponse.DoctorResponse.

(** ** proto.rs *)

(** [StatusRequest] has the fields of [StatusFilter], into which it is converted. *)
Module RuntimeRpc.
Inductive RuntimeRpc :=
| Spawn (request : SpawnRequest)
| ValidateTarget (target : string)
| Kill (request : KillRequest)
| KillByPid (request : KillByPidRequest)
| Nudge (request : NudgeRequest)
| Capture (request : CaptureRequest)
| Status (request : StatusFilter)
| Version
| Watchers
| Doctor
| Events (since : option N) (wait_ms : option N)
| Stop
| McpBridge (line : string)
| ShimLaunch (session_id : Uuid)
| ShimReady (ready : Types.ShimReady.ShimReady)
| ShimExit (exit : Types.ShimExit.ShimExit).
End RuntimeRpc.
Notation RuntimeRpc := RuntimeRpc.RuntimeRpc.

Module SpawnConflictKind.
Inductive SpawnConflictKind := SessionId | TmuxPaneOccupancy.
End SpawnConflictKind.
Notation SpawnConflictKind := SpawnConflictKind.SpawnConflictKind.

Module RuntimeResponse.
Inductive RuntimeResponse :=
| Spawned (lifecycle : Lifecycle) (event : RuntimeEvent)
    (log_dir stdout_path stderr_path : option string)
| SpawnConflict (kind : SpawnConflictKind) (lifecycle : Lifecycle)
| ValidateTarget (response : ValidateTargetResponse)
| Status (lifecycles : list Lifecycle)
| Killed (outcome : KillOutcome)
| KillByPid (response : KillByPidResponse)
| Nudge (response : NudgeResponse)
| Capture (response : CaptureResponse)
| Version (version : VersionInfo)
| Watchers (watchers : WatcherCounts)
| Doctor (doctor : DoctorResponse)
| Events (events : list RuntimeEvent) (cursor : N)
| CursorExpired (oldest : N)
| McpBridge (line : option string)
| ShimLaunch (launch : LaunchSpec)
| Ack
| Stopping
| Error (payload : ErrorPayload).
End RuntimeResponse.
Notation RuntimeResponse := RuntimeResponse.RuntimeResponse.

(** ** shim_socket.rs: what the shim makes of a response

    [debug] is [{response:?}]. *)
Definition launch_from_response (debug : RuntimeResponse → string) (response : RuntimeResponse)
    : result Error LaunchSpec :=
  match response with
  | RuntimeResponse.ShimLaunch launch => Ok launch
  | RuntimeResponse.Error payload => Err (anyhow payload.(ErrorPayload.message))
  | response => Err (anyhow ("unexpected ShimLaunch response: " +:+ debug response))
  end.

Definition ack_from_response (debug : RuntimeResponse → string) (response : RuntimeResponse)
    (label : string) : result Error unit :=
  match response with
  | RuntimeResponse.Ack => Ok tt
  | RuntimeResponse.Error payload => Err (anyhow payload.(ErrorPayload.message))
  | response => Err (anyhow ("unexpected " +:+ label +:+ " response: " +:+ debug response))
  end.
