(* ===== verification/Wire.v ===== *)
(** * The messages of the line protocol (derived serialisers of crates/rtm-core/src)

    One codec for each type of the protocol, built with the combinators of Serde.v from the
    attributes of its declaration, up to [RuntimeRpc] and [RuntimeResponse], and the law of
    each. Error texts are those of the types' own parsers; the position that serde_json adds
    to a message is left out. *)

From S2P Require Import Prelude RustStr RustPath Types Parsers Json Serde Errors Proto.
From stdpp Require Import options.

(** ** Automation for the laws *)

Create HintDb wire discriminated.
#[export] Hint Resolve I : wire.

Ltac destruct_pairs :=
  repeat match goal with x : _ * _ |- _ => destruct x | x : unit |- _ => destruct x end.

(** A struct: its fields in order and the two directions of its constructor. *)
Ltac solve_struct :=
  apply struct_ok;
    [apply _ | apply (bool_decide_unpack _); vm_compute; exact I
    | by intros []
    | intros p; destruct_pairs; done].

(** The handlers of a literal table, one by one. *)
Ltac solve_table H :=
  repeat (apply elem_of_cons in H as [H|H]; [simplify_eq/=|]); try (by apply elem_of_nil in H).

Lemma codec_law {A} (f : A → Value) g (P : A → Prop) :
  (∀ a, P a → g (f a) = Ok a) → (∀ a, P a → json_ok (f a)) → (∀ v a, g v = Ok a → P a) →
  CodecOk (mkCodec f g P).
Proof. by split. Qed.

#[local] Arguments enc : simpl never.
#[local] Arguments dec : simpl never.
#[local] Arguments fits : simpl never.

(** An enum: each variant reads back what it wrote, writes JSON, and each handler reads
    values that fit. *)
Ltac solve_enum law :=
  apply codec_law;
    [ intros a Ha; destruct a;
      rewrite ?adjacent_read, ?internal_read, ?external_read, ?external_read_bare by done;
      unfold handler_of; simpl in *; rewrite ?dec_enc by (done || exact I); done
    | intros a Ha; destruct a;
      first [exact I | apply adjacent_json | apply internal_json | apply external_json];
      first [exact I | apply enc_json; done || exact I]
    | intros v a E; apply law in E as [[n Hin]|(n & read & w & Hin & E)]; solve_table Hin;
      simpl in *; try done; inv_result; try done; destruct_pairs; by eapply dec_fits ].

(** ** Texts *)

(** A type written as a string by [Display] and read by [FromStr]. *)
Definition text_codec {A} (print : A → string) (parse : string → result string A) : Codec A :=
  mkCodec (λ a, Str (print a)) (λ v, s ← string_from_value v; parse s) (λ a, parse (print a) = Ok a).

Lemma text_codec_ok {A} (print : A → string) parse :
  (∀ s a, parse s = Ok a → parse (print a) = Ok a) → CodecOk (text_codec print parse).
Proof.
  intros Hp. apply codec_law; [by intros a Ha|done|].
  intros v a E. inv_result. by eapply Hp.
Qed.
#[export] Instance text_not_null {A} (print : A → string) parse : NotNull (text_codec print parse).
Proof. by intros a. Qed.

(** An enum of unit variants with [rename_all]. *)
Definition unit_enum {A} (name_of : A → string) (all : list A) : Codec A :=
  mkCodec (λ a, Str (name_of a)) (external_from (map (λ a, (name_of a, Bare a)) all)) (λ _, True).

Lemma unit_enum_ok {A} (name_of : A → string) (all : list A) :
  NoDup (map name_of all) → (∀ a, a ∈ all) → CodecOk (unit_enum name_of all).
Proof.
  intros Hd Hall. apply codec_law; [|done|done].
  intros a _. unfold external_from, handler_of. cbn.
  assert (∃ i, list_find (λ entry : string * Handler A, entry.1 = name_of a)
                 (map (λ a, (name_of a, Bare a)) all) = Some (i, (name_of a, Bare a))) as [i ->]; [|done].
  specialize (Hall a). induction all as [|b all IH]; [by apply elem_of_nil in Hall|].
  apply NoDup_cons in Hd as [Hb Hd]. cbn. case_decide as E.
  - apply elem_of_cons in Hall as [->|Hin]; [by eexists|].
    cbn in E. destruct Hb. rewrite E. by apply list_elem_of_fmap_2.
  - apply elem_of_cons in Hall as [->|Hin]; [done|].
    destruct (IH Hd Hin) as [i Hi]. cbn in Hi. rewrite Hi. by eexists.
Qed.
#[export] Instance unit_enum_not_null {A} (name_of : A → string) all : NotNull (unit_enum name_of all).
Proof. by intros a. Qed.

Ltac solve_unit_enum :=
  apply unit_enum_ok; [apply (bool_decide_unpack _); vm_compute; exact I | intros []; set_solver].

(** A struct of one field. *)
Definition one {A} (name : string) (c : Codec A) : Codec A :=
  struct (req name c ⊳ ∎) (λ '(a, _), a) (λ a, (a, tt)).
#[export] Instance one_ok {A} name (c : Codec A) : CodecOk c → CodecOk (one name c).
Proof.
  intros Hc. apply struct_ok; [apply _|by apply NoDup_singleton|done|by intros [? []]].
Qed.

Lemma internal_read_one {A B} tag name n (c : Codec B) b (table : list (string * Handler A)) :
  tag ≠ n →
  internal_from tag table (internal tag name (enc (one n c) b)) =
  h ← handler_of table name; match h with Bare a => Ok a | Payload read => read (enc (one n c) b) end.
Proof. intros Hn. apply (internal_read tag name [(n, enc c b)]). apply not_elem_of_cons. split; [done|apply not_elem_of_nil]. Qed.

Section wire.
Context `{External}.

(** The [serde] implementations of [uuid] and [chrono] write their text forms. *)
Definition uuid_codec : Codec Uuid := text_codec uuid_to_string uuid_parse_str.
Definition time_codec : Codec DateTime := text_codec to_rfc3339 parse_from_rfc3339.
#[export] Instance uuid_codec_ok : CodecOk uuid_codec.
Proof. apply text_codec_ok. intros. apply uuid_parse_to_string. Qed.
#[export] Instance time_codec_ok : CodecOk time_codec.
Proof. apply text_codec_ok. intros. apply parse_to_rfc3339. Qed.

(** ** types/runtime.rs, types/spawn.rs, isolation.rs, launcher.rs *)

Definition RuntimeKind_codec : Codec RuntimeKind :=
  text_codec RuntimeKind_as_str
    (λ s, map_err (λ v, "unsupported runtime kind: " +:+ v) (RuntimeKind_from_str s)).
#[export] Instance RuntimeKind_codec_ok : CodecOk RuntimeKind_codec.
Proof.
  apply text_codec_ok. intros s r E. inv_result. pose proof (RuntimeKind_roundtrip _ _ E) as ->.
  by rewrite E.
Qed.

Definition RuntimeSignal_codec : Codec RuntimeSignal :=
  unit_enum (λ s, match s with
                  | RuntimeSignal.Hup => "hup" | RuntimeSignal.Int => "int"
                  | RuntimeSignal.Term => "term" | RuntimeSignal.Kill => "kill"
                  end)
    [RuntimeSignal.Hup; RuntimeSignal.Int; RuntimeSignal.Term; RuntimeSignal.Kill].
#[export] Instance RuntimeSignal_codec_ok : CodecOk RuntimeSignal_codec.
Proof. solve_unit_enum. Qed.

Definition TmuxAddress_codec : Codec TmuxAddress :=
  text_codec display_TmuxAddress
    (λ s, map_err (λ v, "invalid tmux pane target " +:+ v) (TmuxAddress_from_str s)).
#[export] Instance TmuxAddress_codec_ok : CodecOk TmuxAddress_codec.
Proof.
  apply text_codec_ok. intros s a E. inv_result. rewrite TmuxAddress_roundtrip; [done|].
  by eapply TmuxAddress_from_str_ok.
Qed.

Definition is_false (b : bool) : bool := negb b.

Definition MountSpec_codec : Codec MountSpec :=
  struct (req "source" string_codec ⊳ req "target" string_codec ⊳
          skipped "read_only" is_false false bool_codec ⊳ ∎)
    (λ '(source, (target, (read_only, _))), MountSpec.mk source target read_only)
    (λ m, (m.(MountSpec.source), (m.(MountSpec.target), (m.(MountSpec.read_only), tt)))).
#[export] Instance read_only_ok name : FieldOk (skipped name is_false false bool_codec).
Proof. apply skipped_ok; [apply _|exact I|by intros []]. Qed.
#[export] Instance MountSpec_codec_ok : CodecOk MountSpec_codec.
Proof. solve_struct. Qed.

(** [TmuxSpawnTarget] and [HeadlessSpawnTarget] are structs of one field and of none. *)
Definition TmuxSpawnTarget_codec : Codec TmuxAddress := one "address" TmuxAddress_codec.

Definition HeadlessSpawnTarget_codec : Codec unit := struct ∎ (λ _, tt) (λ _, tt).
#[export] Instance HeadlessSpawnTarget_codec_ok : CodecOk HeadlessSpawnTarget_codec.
Proof. by apply struct_ok; [apply _|constructor|intros []|intros []]. Qed.

Definition SpawnTarget_codec : Codec SpawnTarget :=
  mkCodec
    (λ t, match t with
          | SpawnTarget.Tmux a => adjacent "type" "payload" "tmux" (Some (enc TmuxSpawnTarget_codec a))
          | SpawnTarget.Headless =>
              adjacent "type" "payload" "headless" (Some (enc HeadlessSpawnTarget_codec tt))
          end)
    (adjacent_from "type" "payload"
       [("tmux", Payload (λ v, SpawnTarget.Tmux <$> dec TmuxSpawnTarget_codec v));
        ("headless", Payload (λ v, (λ _, SpawnTarget.Headless) <$> dec HeadlessSpawnTarget_codec v))])
    (λ t, match t with SpawnTarget.Tmux a => fits TmuxSpawnTarget_codec a | SpawnTarget.Headless => True end).
#[export] Instance SpawnTarget_codec_ok : CodecOk SpawnTarget_codec.
Proof. solve_enum @adjacent_handled. Qed.

Definition IsolationProfile_codec : Codec IsolationProfile :=
  struct (opt_skipped "name" string_codec ⊳ ∎)
    (λ '(name, _), IsolationProfile.mk name) (λ p, (p.(IsolationProfile.name), tt)).
#[export] Instance IsolationProfile_codec_ok : CodecOk IsolationProfile_codec.
Proof. solve_struct. Qed.

Definition IsolationPolicy_codec : Codec IsolationPolicy :=
  mkCodec
    (λ p, match p with
          | IsolationPolicy.Host => adjacent "type" "payload" "host" None
          | IsolationPolicy.Docker profile =>
              adjacent "type" "payload" "docker" (Some (enc IsolationProfile_codec profile))
          end)
    (adjacent_from "type" "payload"
       [("host", Bare IsolationPolicy.Host);
        ("docker", Payload (λ v, IsolationPolicy.Docker <$> dec IsolationProfile_codec v))])
    (λ p, match p with
          | IsolationPolicy.Host => True
          | IsolationPolicy.Docker profile => fits IsolationProfile_codec profile
          end).
#[export] Instance IsolationPolicy_codec_ok : CodecOk IsolationPolicy_codec.
Proof. solve_enum @adjacent_handled. Qed.

Definition LaunchEnv_codec : Codec LaunchEnv :=
  struct (req "key" string_codec ⊳ req "value" string_codec ⊳ ∎)
    (λ '(key, (value, _)), LaunchEnv.mk key value)
    (λ e, (e.(LaunchEnv.key), (e.(LaunchEnv.value), tt))).
#[export] Instance LaunchEnv_codec_ok : CodecOk LaunchEnv_codec.
Proof. solve_struct. Qed.

Definition ShellResume_codec : Codec ShellResume :=
  struct (req "argv" (list_codec string_codec) ⊳ req "env" (list_codec LaunchEnv_codec) ⊳
          req "cwd" string_codec ⊳ ∎)
    (λ '(argv, (env, (cwd, _))), ShellResume.mk argv env cwd)
    (λ s, (s.(ShellResume.argv), (s.(ShellResume.env), (s.(ShellResume.cwd), tt)))).
#[export] Instance ShellResume_codec_ok : CodecOk ShellResume_codec.
Proof. solve_struct. Qed.

Definition LaunchSpec_codec : Codec LaunchSpec :=
  struct (req "argv" (list_codec string_codec) ⊳ req "env" (list_codec LaunchEnv_codec) ⊳
          req "cwd" string_codec ⊳ opt_skipped "shell_resume" ShellResume_codec ⊳ ∎)
    (λ '(argv, (env, (cwd, (shell_resume, _)))), LaunchSpec.mk argv env cwd shell_resume)
    (λ s, (s.(LaunchSpec.argv), (s.(LaunchSpec.env), (s.(LaunchSpec.cwd),
           (s.(LaunchSpec.shell_resume), tt))))).
#[export] Instance LaunchSpec_codec_ok : CodecOk LaunchSpec_codec.
Proof. solve_struct. Qed.

Definition is_empty {A} (l : list A) : bool := match l with [] => true | _ => false end.

(** [#[serde(default, skip_serializing_if = "Vec::is_empty")]]. *)
#[export] Instance skipped_list_ok {A} name (c : Codec A) :
  CodecOk c → FieldOk (skipped name is_empty [] (list_codec c)).
Proof. intros Hc. apply skipped_ok; [apply _|constructor|by intros []]. Qed.
#[export] Instance defaulted_list_ok {A} name (c : Codec A) :
  CodecOk c → FieldOk (defaulted name [] (list_codec c)).
Proof. intros Hc. apply defaulted_ok; [apply _|constructor]. Qed.
#[export] Instance defaulted_option_ok {A} name (c : Codec A) :
  CodecOk c → NotNull c → FieldOk (defaulted name None (option_codec c)).
Proof. intros Hc Hn. apply defaulted_ok; [apply _|exact I]. Qed.
#[export] Instance defaulted_isolation_ok name :
  FieldOk (defaulted name IsolationPolicy.Host IsolationPolicy_codec).
Proof. apply defaulted_ok; [apply _|exact I]. Qed.
#[export] Instance skipped_isolation_ok name :
  FieldOk (skipped name is_host IsolationPolicy.Host IsolationPolicy_codec).
Proof. apply skipped_ok; [apply _|exact I|by intros []]. Qed.

Definition SpawnRequest_codec : Codec SpawnRequest :=
  struct (req "session_id" uuid_codec ⊳ req "runtime" RuntimeKind_codec ⊳
          defaulted "isolation" IsolationPolicy.Host IsolationPolicy_codec ⊳
          opt_skipped "image" string_codec ⊳ defaulted "env" [] (list_codec LaunchEnv_codec) ⊳
          skipped "mounts" is_empty [] (list_codec MountSpec_codec) ⊳ req "cwd" string_codec ⊳
          req "target" SpawnTarget_codec ⊳ skipped "force" is_false false bool_codec ⊳
          opt_skipped "shell_resume" ShellResume_codec ⊳ ∎)
    (λ '(session_id, (runtime, (isolation, (image, (env, (mounts, (cwd, (target,
         (force, (shell_resume, _)))))))))),
       SpawnRequest.mk session_id runtime isolation image env mounts cwd target force shell_resume)
    (λ r, (r.(SpawnRequest.session_id), (r.(SpawnRequest.runtime), (r.(SpawnRequest.isolation),
          (r.(SpawnRequest.image), (r.(SpawnRequest.env), (r.(SpawnRequest.mounts),
          (r.(SpawnRequest.cwd), (r.(SpawnRequest.target), (r.(SpawnRequest.force),
          (r.(SpawnRequest.shell_resume), tt))))))))))).
#[export] Instance SpawnRequest_codec_ok : CodecOk SpawnRequest_codec.
Proof. solve_struct. Qed.

Definition KillRequest_codec : Codec KillRequest :=
  struct (req "session_id" uuid_codec ⊳ req "signal" RuntimeSignal_codec ⊳
          req "grace_secs" u64_codec ⊳ ∎)
    (λ '(session_id, (signal, (grace_secs, _))), KillRequest.mk session_id signal grace_secs)
    (λ r, (r.(KillRequest.session_id), (r.(KillRequest.signal), (r.(KillRequest.grace_secs), tt)))).
#[export] Instance KillRequest_codec_ok : CodecOk KillRequest_codec.
Proof. solve_struct. Qed.

(** ** capture.rs, types/nudge.rs *)

Definition LogsUnavailableReason_codec : Codec LogsUnavailableReason :=
  unit_enum LogsUnavailableReason_as_str
    [LogsUnavailableReason.TmuxTarget; LogsUnavailableReason.CaptureDisabled;
     LogsUnavailableReason.PaneUnavailable; LogsUnavailableReason.PipeInUse;
     LogsUnavailableReason.RecorderFailed].
#[export] Instance LogsUnavailableReason_codec_ok : CodecOk LogsUnavailableReason_codec.
Proof. solve_unit_enum. Qed.

Definition headless_logs_codec : Codec (string * string) :=
  struct (req "stdout_path" string_codec ⊳ req "stderr_path" string_codec ⊳ ∎)
    (λ '(stdout, (stderr, _)), (stdout, stderr)) (λ '(stdout, stderr), (stdout, (stderr, tt))).
#[export] Instance headless_logs_codec_ok : CodecOk headless_logs_codec.
Proof. solve_struct. Qed.

Definition LogAvailability_codec : Codec LogAvailability :=
  mkCodec
    (λ l, match l with
          | LogAvailability.Headless stdout stderr =>
              adjacent "type" "payload" "headless" (Some (enc headless_logs_codec (stdout, stderr)))
          | LogAvailability.TmuxPaneSnapshot => adjacent "type" "payload" "tmux_pane_snapshot" None
          | LogAvailability.Unavailable reason =>
              adjacent "type" "payload" "unavailable"
                (Some (enc (one "reason" LogsUnavailableReason_codec) reason))
          end)
    (adjacent_from "type" "payload"
       [("headless", Payload (λ v, (λ '(stdout, stderr), LogAvailability.Headless stdout stderr) <$>
                                     dec headless_logs_codec v));
        ("tmux_pane_snapshot", Bare LogAvailability.TmuxPaneSnapshot);
        ("unavailable", Payload (λ v, LogAvailability.Unavailable <$>
                                        dec (one "reason" LogsUnavailableReason_codec) v))])
    (λ _, True).
#[export] Instance LogAvailability_codec_ok : CodecOk LogAvailability_codec.
Proof. solve_enum @adjacent_handled. Qed.
#[export] Instance LogAvailability_not_null : NotNull LogAvailability_codec.
Proof. by intros []. Qed.

Definition CaptureRequest_codec : Codec CaptureRequest :=
  struct (req "session_id" uuid_codec ⊳ opt_skipped "scrollback_lines" u32_codec ⊳ ∎)
    (λ '(session_id, (scrollback_lines, _)), CaptureRequest.mk session_id scrollback_lines)
    (λ r, (r.(CaptureRequest.session_id), (r.(CaptureRequest.scrollback_lines), tt))).
#[export] Instance CaptureRequest_codec_ok : CodecOk CaptureRequest_codec.
Proof. solve_struct. Qed.

Definition PaneSnapshot_codec : Codec PaneSnapshot :=
  struct (req "content" string_codec ⊳ req "captured_at_ms" u64_codec ⊳
          req "scrollback_lines_requested" u32_codec ⊳ req "scrollback_lines_included" u32_codec ⊳
          req "pane_history_lines" u32_codec ⊳ ∎)
    (λ '(content, (at_ms, (requested, (included, (history, _))))),
       PaneSnapshot.mk content at_ms requested included history)
    (λ s, (s.(PaneSnapshot.content), (s.(PaneSnapshot.captured_at_ms),
          (s.(PaneSnapshot.scrollback_lines_requested), (s.(PaneSnapshot.scrollback_lines_included),
          (s.(PaneSnapshot.pane_history_lines), tt)))))).
#[export] Instance PaneSnapshot_codec_ok : CodecOk PaneSnapshot_codec.
Proof. solve_struct. Qed.

Definition CaptureError_codec : Codec CaptureError :=
  mkCodec
    (λ e, match e with
          | CaptureError.NotATmuxTarget => adjacent "type" "payload" "not_a_tmux_target" None
          | CaptureError.PaneUnavailable => adjacent "type" "payload" "pane_unavailable" None
          | CaptureError.SessionMissing => adjacent "type" "payload" "session_missing" None
          | CaptureError.TmuxNotAvailable => adjacent "type" "payload" "tmux_not_available" None
          | CaptureError.CapturePaneFailed stderr =>
              adjacent "type" "payload" "capture_pane_failed"
                (Some (enc (one "stderr" string_codec) stderr))
          end)
    (adjacent_from "type" "payload"
       [("not_a_tmux_target", Bare CaptureError.NotATmuxTarget);
        ("pane_unavailable", Bare CaptureError.PaneUnavailable);
        ("session_missing", Bare CaptureError.SessionMissing);
        ("tmux_not_available", Bare CaptureError.TmuxNotAvailable);
        ("capture_pane_failed",
         Payload (λ v, CaptureError.CapturePaneFailed <$> dec (one "stderr" string_codec) v))])
    (λ _, True).
#[export] Instance CaptureError_codec_ok : CodecOk CaptureError_codec.
Proof. solve_enum @adjacent_handled. Qed.

Definition CaptureResponse_codec : Codec CaptureResponse :=
  mkCodec
    (λ r, match r with
          | CaptureResponse.Captured snapshot =>
              adjacent "status" "payload" "captured" (Some (enc PaneSnapshot_codec snapshot))
          | CaptureResponse.Failed error =>
              adjacent "status" "payload" "failed" (Some (enc CaptureError_codec error))
          end)
    (adjacent_from "status" "payload"
       [("captured", Payload (λ v, CaptureResponse.Captured <$> dec PaneSnapshot_codec v));
        ("failed", Payload (λ v, CaptureResponse.Failed <$> dec CaptureError_codec v))])
    (λ r, match r with CaptureResponse.Captured s => fits PaneSnapshot_codec s | _ => True end).
#[export] Instance CaptureResponse_codec_ok : CodecOk CaptureResponse_codec.
Proof. solve_enum @adjacent_handled. Qed.

Definition NudgeRequest_codec : Codec NudgeRequest :=
  struct (req "session_id" uuid_codec ⊳ req "content" string_codec ⊳ ∎)
    (λ '(session_id, (content, _)), NudgeRequest.mk session_id content)
    (λ r, (r.(NudgeRequest.session_id), (r.(NudgeRequest.content), tt))).
#[export] Instance NudgeRequest_codec_ok : CodecOk NudgeRequest_codec.
Proof. solve_struct. Qed.

Definition NudgeFailureReason_codec : Codec NudgeFailureReason :=
  unit_enum NudgeFailureReason_as_str
    [NudgeFailureReason.HeadlessLifecycle; NudgeFailureReason.SessionEnded;
     NudgeFailureReason.TmuxPaneDead].
#[export] Instance NudgeFailureReason_codec_ok : CodecOk NudgeFailureReason_codec.
Proof. solve_unit_enum. Qed.

Definition NudgeOutcome_codec : Codec NudgeOutcome :=
  mkCodec
    (λ o, match o with
          | NudgeOutcome.Delivered => adjacent "kind" "reason" "delivered" None
          | NudgeOutcome.Unsupported reason =>
              adjacent "kind" "reason" "unsupported" (Some (enc NudgeFailureReason_codec reason))
          | NudgeOutcome.Failed reason =>
              adjacent "kind" "reason" "failed" (Some (enc NudgeFailureReason_codec reason))
          end)
    (adjacent_from "kind" "reason"
       [("delivered", Bare NudgeOutcome.Delivered);
        ("unsupported", Payload (λ v, NudgeOutcome.Unsupported <$> dec NudgeFailureReason_codec v));
        ("failed", Payload (λ v, NudgeOutcome.Failed <$> dec NudgeFailureReason_codec v))])
    (λ _, True).
#[export] Instance NudgeOutcome_codec_ok : CodecOk NudgeOutcome_codec.
Proof. solve_enum @adjacent_handled. Qed.

Definition NudgeResponse_codec : Codec NudgeResponse :=
  struct (req "delivered" bool_codec ⊳ req "outcome" NudgeOutcome_codec ⊳ ∎)
    (λ '(delivered, (outcome, _)), NudgeResponse.mk delivered outcome)
    (λ r, (r.(NudgeResponse.delivered), (r.(NudgeResponse.outcome), tt))).
#[export] Instance NudgeResponse_codec_ok : CodecOk NudgeResponse_codec.
Proof. solve_struct. Qed.

(** ** types/lifecycle.rs *)

Definition RuntimeExit_codec : Codec RuntimeExit :=
  struct (opt "code" i32_codec ⊳ opt "signal" i32_codec ⊳ ∎)
    (λ '(code, (signal, _)), RuntimeExit.mk code signal)
    (λ e, (e.(RuntimeExit.code), (e.(RuntimeExit.signal), tt))).
#[export] Instance RuntimeExit_codec_ok : CodecOk RuntimeExit_codec.
Proof. solve_struct. Qed.

Definition LostEvidence_codec : Codec LostEvidence :=
  unit_enum (λ e, match e with
                  | LostEvidence.ShimDiedBeforeReport => "shim_died_before_report"
                  | LostEvidence.PidNotAlive => "pid_not_alive"
                  | LostEvidence.PidReuseDetected => "pid_reuse_detected"
                  end)
    [LostEvidence.ShimDiedBeforeReport; LostEvidence.PidNotAlive; LostEvidence.PidReuseDetected].
#[export] Instance LostEvidence_codec_ok : CodecOk LostEvidence_codec.
Proof. solve_unit_enum. Qed.

Definition LifecycleState_codec : Codec LifecycleState :=
  mkCodec
    (λ s, match s with
          | LifecycleState.Forking => Str "forking"
          | LifecycleState.Running => Str "running"
          | LifecycleState.Exited exit => external "exited" (enc RuntimeExit_codec exit)
          | LifecycleState.Lost evidence => external "lost" (enc LostEvidence_codec evidence)
          end)
    (external_from
       [("forking", Bare LifecycleState.Forking); ("running", Bare LifecycleState.Running);
        ("exited", Payload (λ v, LifecycleState.Exited <$> dec RuntimeExit_codec v));
        ("lost", Payload (λ v, LifecycleState.Lost <$> dec LostEvidence_codec v))])
    (λ s, match s with LifecycleState.Exited exit => fits RuntimeExit_codec exit | _ => True end).
#[export] Instance LifecycleState_codec_ok : CodecOk LifecycleState_codec.
Proof. solve_enum @external_handled. Qed.

Definition ShimReady_codec : Codec ShimReady :=
  struct (req "session_id" uuid_codec ⊳ req "shim_pid" u32_codec ⊳ req "runtime_pid" u32_codec ⊳
          req "start_time" time_codec ⊳ defaulted "tmux_pane" None (option_codec TmuxAddress_codec) ⊳ ∎)
    (λ '(session_id, (shim_pid, (runtime_pid, (start_time, (tmux_pane, _))))),
       ShimReady.mk session_id shim_pid runtime_pid start_time tmux_pane)
    (λ r, (r.(ShimReady.session_id), (r.(ShimReady.shim_pid), (r.(ShimReady.runtime_pid),
          (r.(ShimReady.start_time), (r.(ShimReady.tmux_pane), tt)))))).
#[export] Instance ShimReady_codec_ok : CodecOk ShimReady_codec.
Proof. solve_struct. Qed.

Definition ShimExit_codec : Codec ShimExit :=
  struct (req "session_id" uuid_codec ⊳ req "exit" RuntimeExit_codec ⊳ ∎)
    (λ '(session_id, (exit, _)), ShimExit.mk session_id exit)
    (λ e, (e.(ShimExit.session_id), (e.(ShimExit.exit), tt))).
#[export] Instance ShimExit_codec_ok : CodecOk ShimExit_codec.
Proof. solve_struct. Qed.

Definition Lifecycle_codec : Codec Lifecycle :=
  struct (req "session_id" uuid_codec ⊳ req "runtime" RuntimeKind_codec ⊳
          skipped "isolation" is_host IsolationPolicy.Host IsolationPolicy_codec ⊳
          req "state" LifecycleState_codec ⊳ opt "shim_pid" u32_codec ⊳ opt "runtime_pid" u32_codec ⊳
          opt "start_time" time_codec ⊳ opt "tmux_pane" TmuxAddress_codec ⊳
          opt_skipped "log_availability" LogAvailability_codec ⊳ ∎)
    (λ '(session_id, (runtime, (isolation, (state, (shim_pid, (runtime_pid, (start_time,
         (tmux_pane, (log_availability, _))))))))),
       Lifecycle.mk session_id runtime isolation state shim_pid runtime_pid start_time tmux_pane
         log_availability)
    (λ l, (l.(Lifecycle.session_id), (l.(Lifecycle.runtime), (l.(Lifecycle.isolation),
          (l.(Lifecycle.state), (l.(Lifecycle.shim_pid), (l.(Lifecycle.runtime_pid),
          (l.(Lifecycle.start_time), (l.(Lifecycle.tmux_pane), (l.(Lifecycle.log_availability),
          tt)))))))))).
#[export] Instance Lifecycle_codec_ok : CodecOk Lifecycle_codec.
Proof. solve_struct. Qed.

(** Events are written and read by the functions that the event log uses. *)
Definition RuntimeEvent_codec : Codec RuntimeEvent :=
  mkCodec RuntimeEvent_to_value RuntimeEvent_from_value event_ok.
Lemma optional_i32_fits v o : optional i32_from_value v = Ok o → option_fits i32_ok o.
Proof.
  destruct v as [v|]; [|by intros [= <-]]. intros E. destruct o as [z|]; [|exact I].
  assert (i32_from_value v = Ok z) by (destruct v; by inv_result).
  by eapply (dec_fits (c := i32_codec)).
Qed.
Lemma RuntimeEvent_payload_fits kind v e : RuntimeEvent_from_payload kind v = Ok e → event_ok e.
Proof.
  unfold RuntimeEvent_from_payload. repeat case_match; try done; intros E; inv_result;
    repeat (case_match; try done); inv_result; try done.
  - destruct o0 as [p|]; [|done]. by eapply (dec_fits (c := u32_codec)).
  - split; by eapply optional_i32_fits.
Qed.
#[export] Instance RuntimeEvent_codec_ok : CodecOk RuntimeEvent_codec.
Proof.
  apply codec_law; [apply RuntimeEvent_value_roundtrip|apply RuntimeEvent_json_ok|].
  intros [| | | | |l|fs] e E; try done; simpl in E.
  - repeat (case_match; try done). inv_result. by eapply RuntimeEvent_payload_fits.
  - inv_result. by eapply RuntimeEvent_payload_fits.
Qed.

(** ** types/validate_target.rs *)

Definition ValidateTargetOutcome_codec : Codec ValidateTargetOutcome :=
  mkCodec
    (λ o, match o with
          | ValidateTargetOutcome.Valid => internal "kind" "valid" (Object [])
          | ValidateTargetOutcome.InvalidTarget message =>
              internal "kind" "invalid_target" (enc (one "message" string_codec) message)
          | ValidateTargetOutcome.TmuxPaneDead address =>
              internal "kind" "tmux_pane_dead" (enc (one "address" TmuxAddress_codec) address)
          | ValidateTargetOutcome.UnsupportedTarget target =>
              internal "kind" "unsupported_target" (enc (one "target" string_codec) target)
          end)
    (internal_from "kind"
       [("valid", Bare ValidateTargetOutcome.Valid);
        ("invalid_target", Payload (λ v, ValidateTargetOutcome.InvalidTarget <$>
                                           dec (one "message" string_codec) v));
        ("tmux_pane_dead", Payload (λ v, ValidateTargetOutcome.TmuxPaneDead <$>
                                           dec (one "address" TmuxAddress_codec) v));
        ("unsupported_target", Payload (λ v, ValidateTargetOutcome.UnsupportedTarget <$>
                                               dec (one "target" string_codec) v))])
    (λ o, match o with
          | ValidateTargetOutcome.TmuxPaneDead address => fits TmuxAddress_codec address
          | _ => True
          end).
#[export] Instance ValidateTargetOutcome_codec_ok : CodecOk ValidateTargetOutcome_codec.
Proof.
  apply codec_law.
  - intros o Ho.
    destruct o as [|m|a|t]; rewrite ?internal_read_one by done; unfold handler_of; simpl; try done.
    rewrite dec_enc; [done|by split].
  - intros [|m|a|t] Ho; apply internal_json; [exact I| | |]; by apply enc_json.
  - intros v o E. apply internal_handled in E as [[n Hin]|(n & read & w & Hin & E)];
      solve_table Hin; try done; inv_result; try done.
    by apply (dec_fits (c := one "address" TmuxAddress_codec)) in E0 as [? _].
Qed.

Definition ValidateTargetResponse_codec : Codec ValidateTargetResponse :=
  struct (req "valid" bool_codec ⊳ req "outcome" ValidateTargetOutcome_codec ⊳ ∎)
    (λ '(valid, (outcome, _)), ValidateTargetResponse.mk valid outcome)
    (λ r, (r.(ValidateTargetResponse.valid), (r.(ValidateTargetResponse.outcome), tt))).
#[export] Instance ValidateTargetResponse_codec_ok : CodecOk ValidateTargetResponse_codec.
Proof. solve_struct. Qed.

(** ** admin.rs, version.rs, error.rs *)

Definition KillOutcome_codec : Codec KillOutcome :=
  unit_enum (λ o, match o with
                  | KillOutcome.Signalled => "signalled"
                  | KillOutcome.AlreadyExited => "already_exited"
                  end) [KillOutcome.Signalled; KillOutcome.AlreadyExited].
#[export] Instance KillOutcome_codec_ok : CodecOk KillOutcome_codec.
Proof. solve_unit_enum. Qed.

Definition KillByPidRequest_codec : Codec KillByPidRequest :=
  struct (req "pid" u32_codec ⊳ req "signal" i32_codec ⊳ req "grace_secs" u64_codec ⊳ ∎)
    (λ '(pid, (signal, (grace_secs, _))), KillByPidRequest.mk pid signal grace_secs)
    (λ r, (r.(KillByPidRequest.pid), (r.(KillByPidRequest.signal),
          (r.(KillByPidRequest.grace_secs), tt)))).
#[export] Instance KillByPidRequest_codec_ok : CodecOk KillByPidRequest_codec.
Proof. solve_struct. Qed.

Definition KillByPidResponse_codec : Codec KillByPidResponse :=
  struct (req "pid" u32_codec ⊳ req "signal" i32_codec ⊳ req "killed_after_grace" bool_codec ⊳
          req "outcome" KillOutcome_codec ⊳ ∎)
    (λ '(pid, (signal, (killed, (outcome, _)))), KillByPidResponse.mk pid signal killed outcome)
    (λ r, (r.(KillByPidResponse.pid), (r.(KillByPidResponse.signal),
          (r.(KillByPidResponse.killed_after_grace), (r.(KillByPidResponse.outcome), tt))))).
#[export] Instance KillByPidResponse_codec_ok : CodecOk KillByPidResponse_codec.
Proof. solve_struct. Qed.

Notation status_fields runtime_field state_field :=
  (opt "session_id" uuid_codec ⊳ skipped "session_ids" is_empty [] (list_codec uuid_codec) ⊳
   opt_skipped "updated_since" time_codec ⊳ runtime_field ⊳ state_field ⊳ ∎)%fields.
Notation status_mk :=
  (λ '(session_id, (session_ids, (updated_since, (runtime, (state, _))))),
     StatusFilter.mk session_id session_ids updated_since runtime state).
Notation status_un :=
  (λ f, (f.(StatusFilter.session_id), (f.(StatusFilter.session_ids),
        (f.(StatusFilter.updated_since), (f.(StatusFilter.runtime), (f.(StatusFilter.state), tt)))))).

(** [StatusFilter] and [StatusRequest] (proto.rs) differ in [default] on two fields. *)
Definition StatusFilter_codec : Codec StatusFilter :=
  struct (status_fields (opt "runtime" string_codec) (opt "state" string_codec)) status_mk status_un.
#[export] Instance StatusFilter_codec_ok : CodecOk StatusFilter_codec.
Proof. solve_struct. Qed.

Definition StatusRequest_codec : Codec StatusFilter :=
  struct (status_fields (defaulted "runtime" None (option_codec string_codec))
            (defaulted "state" None (option_codec string_codec))) status_mk status_un.
#[export] Instance StatusRequest_codec_ok : CodecOk StatusRequest_codec.
Proof. solve_struct. Qed.

Definition WatcherCounts_codec : Codec WatcherCounts :=
  struct (req "process_exit_watchers" usize_codec ⊳ req "shim_sockets" usize_codec ⊳
          req "event_waiters" usize_codec ⊳ ∎)
    (λ '(watchers, (sockets, (waiters, _))), WatcherCounts.mk watchers sockets waiters)
    (λ c, (c.(WatcherCounts.process_exit_watchers), (c.(WatcherCounts.shim_sockets),
          (c.(WatcherCounts.event_waiters), tt)))).
#[export] Instance WatcherCounts_codec_ok : CodecOk WatcherCounts_codec.
Proof. solve_struct. Qed.

Definition LifecycleCounts_codec : Codec LifecycleCounts :=
  struct (req "forking" u64_codec ⊳ req "running" u64_codec ⊳ req "exited" u64_codec ⊳
          req "lost" u64_codec ⊳ ∎)
    (λ '(forking, (running, (exited, (lost, _)))), LifecycleCounts.mk forking running exited lost)
    (λ c, (c.(LifecycleCounts.forking), (c.(LifecycleCounts.running), (c.(LifecycleCounts.exited),
          (c.(LifecycleCounts.lost), tt))))).
#[export] Instance LifecycleCounts_codec_ok : CodecOk LifecycleCounts_codec.
Proof. solve_struct. Qed.

Definition MigrationState_codec : Codec MigrationState :=
  struct (req "applied" usize_codec ⊳ req "total" usize_codec ⊳
          req "applied_descriptions" (list_codec string_codec) ⊳
          req "pending_descriptions" (list_codec string_codec) ⊳ ∎)
    (λ '(applied, (total, (done, (pending, _)))), MigrationState.mk applied total done pending)
    (λ m, (m.(MigrationState.applied), (m.(MigrationState.total),
          (m.(MigrationState.applied_descriptions), (m.(MigrationState.pending_descriptions), tt))))).
#[export] Instance MigrationState_codec_ok : CodecOk MigrationState_codec.
Proof. solve_struct. Qed.

Definition RecentLostEvent_codec : Codec RecentLostEvent :=
  struct (req "session_id" uuid_codec ⊳ req "evidence" LostEvidence_codec ⊳
          req "occurred_at" time_codec ⊳ ∎)
    (λ '(session_id, (evidence, (at_time, _))), RecentLostEvent.mk session_id evidence at_time)
    (λ e, (e.(RecentLostEvent.session_id), (e.(RecentLostEvent.evidence),
          (e.(RecentLostEvent.occurred_at), tt)))).
#[export] Instance RecentLostEvent_codec_ok : CodecOk RecentLostEvent_codec.
Proof. solve_struct. Qed.

Definition LauncherStatus_codec : Codec LauncherStatus :=
  struct (req "runtime" string_codec ⊳ opt "command" string_codec ⊳ opt "error" string_codec ⊳ ∎)
    (λ '(runtime, (command, (error, _))), LauncherStatus.mk runtime command error)
    (λ s, (s.(LauncherStatus.runtime), (s.(LauncherStatus.command), (s.(LauncherStatus.error), tt)))).
#[export] Instance LauncherStatus_codec_ok : CodecOk LauncherStatus_codec.
Proof. solve_struct. Qed.

Definition TmuxStatus_codec : Codec TmuxStatus :=
  struct (req "available" bool_codec ⊳ opt "version" string_codec ⊳ opt "error" string_codec ⊳ ∎)
    (λ '(available, (version, (error, _))), TmuxStatus.mk available version error)
    (λ s, (s.(TmuxStatus.available), (s.(TmuxStatus.version), (s.(TmuxStatus.error), tt)))).
#[export] Instance TmuxStatus_codec_ok : CodecOk TmuxStatus_codec.
Proof. solve_struct. Qed.

Definition DockerReadiness_codec : Codec DockerReadiness :=
  struct (req "ready" bool_codec ⊳ opt "detail" string_codec ⊳ opt "error" string_codec ⊳ ∎)
    (λ '(ready, (detail, (error, _))), DockerReadiness.mk ready detail error)
    (λ r, (r.(DockerReadiness.ready), (r.(DockerReadiness.detail), (r.(DockerReadiness.error), tt)))).
#[export] Instance DockerReadiness_codec_ok : CodecOk DockerReadiness_codec.
Proof. solve_struct. Qed.

Definition DockerIsolationStatus_codec : Codec DockerIsolationStatus :=
  struct (req "supported" bool_codec ⊳ req "default_workspace" string_codec ⊳
          req "experimental" bool_codec ⊳ ∎)
    (λ '(supported, (workspace, (experimental, _))),
       DockerIsolationStatus.mk supported workspace experimental)
    (λ s, (s.(DockerIsolationStatus.supported), (s.(DockerIsolationStatus.default_workspace),
          (s.(DockerIsolationStatus.experimental), tt)))).
#[export] Instance DockerIsolationStatus_codec_ok : CodecOk DockerIsolationStatus_codec.
Proof. solve_struct. Qed.

Definition DockerStatus_codec : Codec DockerStatus :=
  struct (req "cli" DockerReadiness_codec ⊳ req "daemon" DockerReadiness_codec ⊳
          req "manifest_validation" DockerReadiness_codec ⊳
          req "isolation" DockerIsolationStatus_codec ⊳ ∎)
    (λ '(cli, (daemon, (manifest, (isolation, _)))), DockerStatus.mk cli daemon manifest isolation)
    (λ s, (s.(DockerStatus.cli), (s.(DockerStatus.daemon), (s.(DockerStatus.manifest_validation),
          (s.(DockerStatus.isolation), tt))))).
#[export] Instance DockerStatus_codec_ok : CodecOk DockerStatus_codec.
Proof. solve_struct. Qed.

Definition LifecycleLogAvailability_codec : Codec LifecycleLogAvailability :=
  struct (req "session_id" uuid_codec ⊳ req "log_availability" LogAvailability_codec ⊳ ∎)
    (λ '(session_id, (logs, _)), LifecycleLogAvailability.mk session_id logs)
    (λ l, (l.(LifecycleLogAvailability.session_id), (l.(LifecycleLogAvailability.log_availability), tt))).
#[export] Instance LifecycleLogAvailability_codec_ok : CodecOk LifecycleLogAvailability_codec.
Proof. solve_struct. Qed.

Definition RuntimeCapability_codec : Codec RuntimeCapability :=
  text_codec RuntimeCapability_as_str RuntimeCapability_from_str.
#[export] Instance RuntimeCapability_codec_ok : CodecOk RuntimeCapability_codec.
Proof. apply text_codec_ok. intros s a _. apply RuntimeCapability_roundtrip. Qed.

Definition VersionInfo_codec : Codec VersionInfo :=
  struct (req "version" string_codec ⊳ req "git_sha" string_codec ⊳
          req "protocol_version" string_codec ⊳
          req "capabilities" (list_codec RuntimeCapability_codec) ⊳ ∎)
    (λ '(version, (git_sha, (protocol_version, (capabilities, _)))),
       VersionInfo.mk version git_sha protocol_version capabilities)
    (λ v, (v.(VersionInfo.version), (v.(VersionInfo.git_sha), (v.(VersionInfo.protocol_version),
          (v.(VersionInfo.capabilities), tt))))).
#[export] Instance VersionInfo_codec_ok : CodecOk VersionInfo_codec.
Proof. solve_struct. Qed.

#[export] Instance docker_status_field_ok name :
  FieldOk (skipped name is_legacy_missing legacy_missing DockerStatus_codec).
Proof.
  apply skipped_ok; [apply _|by vm_compute|]. intros s H0. by apply bool_decide_eq_true in H0.
Qed.

Definition DoctorResponse_codec : Codec DoctorResponse :=
  struct (req "version" VersionInfo_codec ⊳ req "socket_path" string_codec ⊳
          req "uptime_secs" u64_codec ⊳ req "sqlite" MigrationState_codec ⊳
          req "lifecycles" LifecycleCounts_codec ⊳ req "watchers" WatcherCounts_codec ⊳
          req "launchers" (list_codec LauncherStatus_codec) ⊳ req "tmux" TmuxStatus_codec ⊳
          skipped "docker" is_legacy_missing legacy_missing DockerStatus_codec ⊳
          req "log_availability" (list_codec LifecycleLogAvailability_codec) ⊳
          opt "last_probe_sweep" time_codec ⊳ req "recent_lost" (list_codec RecentLostEvent_codec) ⊳ ∎)
    (λ '(version, (socket_path, (uptime_secs, (sqlite, (lifecycles, (watchers, (launchers, (tmux,
         (docker, (log_availability, (last_probe_sweep, (recent_lost, _)))))))))))),
       DoctorResponse.mk version socket_path uptime_secs sqlite lifecycles watchers launchers tmux
         docker log_availability last_probe_sweep recent_lost)
    (λ d, (d.(DoctorResponse.version), (d.(DoctorResponse.socket_path),
          (d.(DoctorResponse.uptime_secs), (d.(DoctorResponse.sqlite), (d.(DoctorResponse.lifecycles),
          (d.(DoctorResponse.watchers), (d.(DoctorResponse.launchers), (d.(DoctorResponse.tmux),
          (d.(DoctorResponse.docker), (d.(DoctorResponse.log_availability),
          (d.(DoctorResponse.last_probe_sweep), (d.(DoctorResponse.recent_lost), tt))))))))))))).
#[export] Instance DoctorResponse_codec_ok : CodecOk DoctorResponse_codec.
Proof. solve_struct. Qed.

Definition ErrorCode_codec : Codec ErrorCode :=
  unit_enum ErrorCode_as_str
    [ErrorCode.RuntimeUnavailable; ErrorCode.SessionNotFound; ErrorCode.TmuxPaneDead;
     ErrorCode.HeadlessNudgeUnsupported; ErrorCode.LaunchFailed; ErrorCode.InvalidTarget;
     ErrorCode.DockerImageNotConfigured; ErrorCode.UnsupportedIsolationPolicy;
     ErrorCode.SpawnConflict; ErrorCode.ProtocolMismatch].
#[export] Instance ErrorCode_codec_ok : CodecOk ErrorCode_codec.
Proof. solve_unit_enum. Qed.

Definition ErrorPayload_codec : Codec ErrorPayload :=
  struct (req "code" ErrorCode_codec ⊳ req "message" string_codec ⊳ ∎)
    (λ '(code, (message, _)), ErrorPayload.mk code message)
    (λ p, (p.(ErrorPayload.code), (p.(ErrorPayload.message), tt))).
#[export] Instance ErrorPayload_codec_ok : CodecOk ErrorPayload_codec.
Proof. solve_struct. Qed.

(** ** proto.rs *)

(** [EventsRequest], flattened into its variant: it is read from an object only. *)
Definition EventsRequest_codec : Codec (option N * option N) :=
  struct (opt_skipped "since" u64_codec ⊳ opt_skipped "wait_ms" u32_codec ⊳ ∎)
    (λ '(since, (wait_ms, _)), (since, wait_ms)) (λ '(since, wait_ms), (since, (wait_ms, tt))).
#[export] Instance EventsRequest_codec_ok : CodecOk EventsRequest_codec.
Proof. solve_struct. Qed.

Definition flattened {A} (c : Codec A) : Codec A :=
  mkCodec c.(enc) (λ v, match v with Object _ => c.(dec) v | _ => Err "invalid type" end) c.(fits).
Lemma flattened_struct_ok {P A} (fs : Fields P) (mk : P → A) un :
  CodecOk (struct fs mk un) → CodecOk (flattened (struct fs mk un)).
Proof.
  intros Hc. apply codec_law; [apply Hc|apply Hc|].
  intros v a E. destruct v; try done. by eapply (dec_fits (c := struct fs mk un)).
Qed.
#[export] Instance flattened_events_ok : CodecOk (flattened EventsRequest_codec).
Proof. apply flattened_struct_ok. apply _. Qed.

Definition SpawnConflictKind_codec : Codec SpawnConflictKind :=
  unit_enum (λ k, match k with
                  | SpawnConflictKind.SessionId => "session_id"
                  | SpawnConflictKind.TmuxPaneOccupancy => "tmux_pane_occupancy"
                  end) [SpawnConflictKind.SessionId; SpawnConflictKind.TmuxPaneOccupancy].
#[export] Instance SpawnConflictKind_codec_ok : CodecOk SpawnConflictKind_codec.
Proof. solve_unit_enum. Qed.

(** The requests of one field. *)
Definition ValidateTargetRequest_codec : Codec string := one "target" string_codec.
Definition McpBridgeRequest_codec : Codec string := one "line" string_codec.
Definition ShimLaunchRequest_codec : Codec Uuid := one "session_id" uuid_codec.
#[export] Instance ValidateTargetRequest_codec_ok : CodecOk ValidateTargetRequest_codec := one_ok _ _ _.
#[export] Instance McpBridgeRequest_codec_ok : CodecOk McpBridgeRequest_codec := one_ok _ _ _.
#[export] Instance ShimLaunchRequest_codec_ok : CodecOk ShimLaunchRequest_codec := one_ok _ _ _.

Definition RuntimeRpc_codec : Codec RuntimeRpc :=
  let put name w := adjacent "type" "payload" name w in
  let read {A} (f : A → RuntimeRpc) (c : Codec A) := Payload (λ v, f <$> dec c v) in
  mkCodec
    (λ rpc, match rpc with
     | RuntimeRpc.Spawn r => put "spawn" (Some (enc (one "request" SpawnRequest_codec) r))
     | RuntimeRpc.ValidateTarget t =>
         put "validate_target" (Some (enc (one "request" ValidateTargetRequest_codec) t))
     | RuntimeRpc.Kill r => put "kill" (Some (enc (one "request" KillRequest_codec) r))
     | RuntimeRpc.KillByPid r => put "kill_by_pid" (Some (enc (one "request" KillByPidRequest_codec) r))
     | RuntimeRpc.Nudge r => put "nudge" (Some (enc (one "request" NudgeRequest_codec) r))
     | RuntimeRpc.Capture r => put "capture" (Some (enc (one "request" CaptureRequest_codec) r))
     | RuntimeRpc.Status r => put "status" (Some (enc (one "request" StatusRequest_codec) r))
     | RuntimeRpc.Version => put "version" None
     | RuntimeRpc.Watchers => put "watchers" None
     | RuntimeRpc.Doctor => put "doctor" None
     | RuntimeRpc.Events since wait_ms =>
         put "events" (Some (enc (flattened EventsRequest_codec) (since, wait_ms)))
     | RuntimeRpc.Stop => put "stop" None
     | RuntimeRpc.McpBridge line =>
         put "mcp_bridge" (Some (enc (one "request" McpBridgeRequest_codec) line))
     | RuntimeRpc.ShimLaunch u =>
         put "shim_launch" (Some (enc (one "request" ShimLaunchRequest_codec) u))
     | RuntimeRpc.ShimReady ready => put "shim_ready" (Some (enc (one "ready" ShimReady_codec) ready))
     | RuntimeRpc.ShimExit exit => put "shim_exit" (Some (enc (one "exit" ShimExit_codec) exit))
     end)
    (adjacent_from "type" "payload"
       [("spawn", read RuntimeRpc.Spawn (one "request" SpawnRequest_codec));
        ("validate_target", read RuntimeRpc.ValidateTarget (one "request" ValidateTargetRequest_codec));
        ("kill", read RuntimeRpc.Kill (one "request" KillRequest_codec));
        ("kill_by_pid", read RuntimeRpc.KillByPid (one "request" KillByPidRequest_codec));
        ("nudge", read RuntimeRpc.Nudge (one "request" NudgeRequest_codec));
        ("capture", read RuntimeRpc.Capture (one "request" CaptureRequest_codec));
        ("status", read RuntimeRpc.Status (one "request" StatusRequest_codec));
        ("version", Bare RuntimeRpc.Version);
        ("watchers", Bare RuntimeRpc.Watchers);
        ("doctor", Bare RuntimeRpc.Doctor);
        ("events", read (λ '(since, wait_ms), RuntimeRpc.Events since wait_ms)
                     (flattened EventsRequest_codec));
        ("stop", Bare RuntimeRpc.Stop);
        ("mcp_bridge", read RuntimeRpc.McpBridge (one "request" McpBridgeRequest_codec));
        ("shim_launch", read RuntimeRpc.ShimLaunch (one "request" ShimLaunchRequest_codec));
        ("shim_ready", read RuntimeRpc.ShimReady (one "ready" ShimReady_codec));
        ("shim_exit", read RuntimeRpc.ShimExit (one "exit" ShimExit_codec))])
    (λ rpc, match rpc with
     | RuntimeRpc.Spawn r => fits (one "request" SpawnRequest_codec) r
     | RuntimeRpc.Kill r => fits (one "request" KillRequest_codec) r
     | RuntimeRpc.KillByPid r => fits (one "request" KillByPidRequest_codec) r
     | RuntimeRpc.Nudge r => fits (one "request" NudgeRequest_codec) r
     | RuntimeRpc.Capture r => fits (one "request" CaptureRequest_codec) r
     | RuntimeRpc.Status r => fits (one "request" StatusRequest_codec) r
     | RuntimeRpc.Events since wait_ms => fits (flattened EventsRequest_codec) (since, wait_ms)
     | RuntimeRpc.ShimLaunch u => fits (one "request" ShimLaunchRequest_codec) u
     | RuntimeRpc.ShimReady ready => fits (one "ready" ShimReady_codec) ready
     | RuntimeRpc.ShimExit exit => fits (one "exit" ShimExit_codec) exit
     | _ => True
     end).
#[export] Instance RuntimeRpc_codec_ok : CodecOk RuntimeRpc_codec.
Proof. solve_enum @adjacent_handled. Qed.

Definition SpawnedPayload_codec
    : Codec (Lifecycle * RuntimeEvent * option string * option string * option string) :=
  struct (req "lifecycle" Lifecycle_codec ⊳ req "event" RuntimeEvent_codec ⊳
          opt "log_dir" string_codec ⊳ opt "stdout_path" string_codec ⊳
          opt "stderr_path" string_codec ⊳ ∎)
    (λ '(lifecycle, (event, (log_dir, (stdout, (stderr, _))))), (lifecycle, event, log_dir, stdout, stderr))
    (λ '(lifecycle, event, log_dir, stdout, stderr), (lifecycle, (event, (log_dir, (stdout, (stderr, tt)))))).
#[export] Instance SpawnedPayload_codec_ok : CodecOk SpawnedPayload_codec.
Proof.
  apply struct_ok;
    [apply _|apply (bool_decide_unpack _); vm_compute; exact I|by intros [[[[]]]]
    |intros p; destruct_pairs; done].
Qed.

Definition SpawnConflictPayload_codec : Codec (SpawnConflictKind * Lifecycle) :=
  struct (req "kind" SpawnConflictKind_codec ⊳ req "lifecycle" Lifecycle_codec ⊳ ∎)
    (λ '(kind, (lifecycle, _)), (kind, lifecycle)) (λ '(kind, lifecycle), (kind, (lifecycle, tt))).
#[export] Instance SpawnConflictPayload_codec_ok : CodecOk SpawnConflictPayload_codec.
Proof. solve_struct. Qed.

Definition EventsPayload_codec : Codec (list RuntimeEvent * N) :=
  struct (req "events" (list_codec RuntimeEvent_codec) ⊳ req "cursor" u64_codec ⊳ ∎)
    (λ '(events, (cursor, _)), (events, cursor)) (λ '(events, cursor), (events, (cursor, tt))).
#[export] Instance EventsPayload_codec_ok : CodecOk EventsPayload_codec.
Proof. solve_struct. Qed.

Definition McpBridgeResponse_codec : Codec (option string) :=
  struct (opt "line" string_codec ⊳ ∎) (λ '(line, _), line) (λ line, (line, tt)).
#[export] Instance McpBridgeResponse_codec_ok : CodecOk McpBridgeResponse_codec.
Proof. solve_struct. Qed.

(** The payloads of one field. *)
Definition ValidateTargetPayload_codec : Codec ValidateTargetResponse := one "response" ValidateTargetResponse_codec.
Definition StatusPayload_codec : Codec (list Lifecycle) := one "lifecycles" (list_codec Lifecycle_codec).
Definition KillByPidPayload_codec : Codec KillByPidResponse := one "response" KillByPidResponse_codec.
Definition KilledPayload_codec : Codec KillOutcome := one "outcome" KillOutcome_codec.
Definition NudgePayload_codec : Codec NudgeResponse := one "response" NudgeResponse_codec.
Definition CapturePayload_codec : Codec CaptureResponse := one "response" CaptureResponse_codec.
Definition VersionPayload_codec : Codec VersionInfo := one "version" VersionInfo_codec.
Definition WatchersPayload_codec : Codec WatcherCounts := one "watchers" WatcherCounts_codec.
Definition DoctorPayload_codec : Codec DoctorResponse := one "doctor" DoctorResponse_codec.
Definition CursorExpiredPayload_codec : Codec N := one "oldest" u64_codec.
Definition McpBridgePayload_codec : Codec (option string) := one "response" McpBridgeResponse_codec.
Definition ShimLaunchPayload_codec : Codec LaunchSpec := one "launch" LaunchSpec_codec.
#[export] Instance ValidateTargetPayload_codec_ok : CodecOk ValidateTargetPayload_codec := one_ok _ _ _.
#[export] Instance StatusPayload_codec_ok : CodecOk StatusPayload_codec := one_ok _ _ _.
#[export] Instance KillByPidPayload_codec_ok : CodecOk KillByPidPayload_codec := one_ok _ _ _.
#[export] Instance KilledPayload_codec_ok : CodecOk KilledPayload_codec := one_ok _ _ _.
#[export] Instance NudgePayload_codec_ok : CodecOk NudgePayload_codec := one_ok _ _ _.
#[export] Instance CapturePayload_codec_ok : CodecOk CapturePayload_codec := one_ok _ _ _.
#[export] Instance VersionPayload_codec_ok : CodecOk VersionPayload_codec := one_ok _ _ _.
#[export] Instance WatchersPayload_codec_ok : CodecOk WatchersPayload_codec := one_ok _ _ _.
#[export] Instance DoctorPayload_codec_ok : CodecOk DoctorPayload_codec := one_ok _ _ _.
#[export] Instance CursorExpiredPayload_codec_ok : CodecOk CursorExpiredPayload_codec := one_ok _ _ _.
#[export] Instance McpBridgePayload_codec_ok : CodecOk McpBridgePayload_codec := one_ok _ _ _.
#[export] Instance ShimLaunchPayload_codec_ok : CodecOk ShimLaunchPayload_codec := one_ok _ _ _.

Definition RuntimeResponse_codec : Codec RuntimeResponse :=
  let put name w := adjacent "type" "payload" name w in
  let read {A} (f : A → RuntimeResponse) (c : Codec A) := Payload (λ v, f <$> dec c v) in
  mkCodec
    (λ response, match response with
     | RuntimeResponse.Spawned lifecycle event log_dir stdout stderr =>
         put "spawned" (Some (enc SpawnedPayload_codec (lifecycle, event, log_dir, stdout, stderr)))
     | RuntimeResponse.SpawnConflict kind lifecycle =>
         put "spawn_conflict" (Some (enc SpawnConflictPayload_codec (kind, lifecycle)))
     | RuntimeResponse.ValidateTarget r =>
         put "validate_target" (Some (enc ValidateTargetPayload_codec r))
     | RuntimeResponse.Status ls =>
         put "status" (Some (enc StatusPayload_codec ls))
     | RuntimeResponse.Killed o => put "killed" (Some (enc KilledPayload_codec o))
     | RuntimeResponse.KillByPid r =>
         put "kill_by_pid" (Some (enc KillByPidPayload_codec r))
     | RuntimeResponse.Nudge r => put "nudge" (Some (enc NudgePayload_codec r))
     | RuntimeResponse.Capture r => put "capture" (Some (enc CapturePayload_codec r))
     | RuntimeResponse.Version v => put "version" (Some (enc VersionPayload_codec v))
     | RuntimeResponse.Watchers c => put "watchers" (Some (enc WatchersPayload_codec c))
     | RuntimeResponse.Doctor d => put "doctor" (Some (enc DoctorPayload_codec d))
     | RuntimeResponse.Events es cursor => put "events" (Some (enc EventsPayload_codec (es, cursor)))
     | RuntimeResponse.CursorExpired oldest =>
         put "cursor_expired" (Some (enc CursorExpiredPayload_codec oldest))
     | RuntimeResponse.McpBridge line =>
         put "mcp_bridge" (Some (enc McpBridgePayload_codec line))
     | RuntimeResponse.ShimLaunch launch =>
         put "shim_launch" (Some (enc ShimLaunchPayload_codec launch))
     | RuntimeResponse.Ack => put "ack" None
     | RuntimeResponse.Stopping => put "stopping" None
     | RuntimeResponse.Error payload => put "error" (Some (enc ErrorPayload_codec payload))
     end)
    (adjacent_from "type" "payload"
       [("spawned", read (λ '(lifecycle, event, log_dir, stdout, stderr),
                            RuntimeResponse.Spawned lifecycle event log_dir stdout stderr)
                      SpawnedPayload_codec);
        ("spawn_conflict", read (λ '(kind, lifecycle), RuntimeResponse.SpawnConflict kind lifecycle)
                             SpawnConflictPayload_codec);
        ("validate_target", read RuntimeResponse.ValidateTarget ValidateTargetPayload_codec);
        ("status", read RuntimeResponse.Status StatusPayload_codec);
        ("killed", read RuntimeResponse.Killed KilledPayload_codec);
        ("kill_by_pid", read RuntimeResponse.KillByPid KillByPidPayload_codec);
        ("nudge", read RuntimeResponse.Nudge NudgePayload_codec);
        ("capture", read RuntimeResponse.Capture CapturePayload_codec);
        ("version", read RuntimeResponse.Version VersionPayload_codec);
        ("watchers", read RuntimeResponse.Watchers WatchersPayload_codec);
        ("doctor", read RuntimeResponse.Doctor DoctorPayload_codec);
        ("events", read (λ '(es, cursor), RuntimeResponse.Events es cursor) EventsPayload_codec);
        ("cursor_expired", read RuntimeResponse.CursorExpired CursorExpiredPayload_codec);
        ("mcp_bridge", read RuntimeResponse.McpBridge McpBridgePayload_codec);
        ("shim_launch", read RuntimeResponse.ShimLaunch ShimLaunchPayload_codec);
        ("ack", Bare RuntimeResponse.Ack);
        ("stopping", Bare RuntimeResponse.Stopping);
        ("error", read RuntimeResponse.Error ErrorPayload_codec)])
    (λ response, match response with
     | RuntimeResponse.Spawned lifecycle event log_dir stdout stderr =>
         fits SpawnedPayload_codec (lifecycle, event, log_dir, stdout, stderr)
     | RuntimeResponse.SpawnConflict kind lifecycle => fits SpawnConflictPayload_codec (kind, lifecycle)
     | RuntimeResponse.ValidateTarget r => fits ValidateTargetPayload_codec r
     | RuntimeResponse.Status ls => fits StatusPayload_codec ls
     | RuntimeResponse.KillByPid r => fits KillByPidPayload_codec r
     | RuntimeResponse.Capture r => fits CapturePayload_codec r
     | RuntimeResponse.Version v => fits VersionPayload_codec v
     | RuntimeResponse.Watchers c => fits WatchersPayload_codec c
     | RuntimeResponse.Doctor d => fits DoctorPayload_codec d
     | RuntimeResponse.Events es cursor => fits EventsPayload_codec (es, cursor)
     | RuntimeResponse.CursorExpired oldest => fits CursorExpiredPayload_codec oldest
     | RuntimeResponse.McpBridge line => fits McpBridgePayload_codec line
     | RuntimeResponse.ShimLaunch launch => fits ShimLaunchPayload_codec launch
     | _ => True
     end).
#[export] Instance RuntimeResponse_codec_ok : CodecOk RuntimeResponse_codec.
Proof. solve_enum @adjacent_handled. Qed.
End wire.

(** ** What the codecs guarantee on a stream *)

Lemma codec_message_ok {A} (c : Codec A) a :
  CodecOk c → c.(fits) a → message_ok c.(enc) c.(dec) a.
Proof. intros Hc Ha. split; [by apply enc_json|by apply dec_enc]. Qed.

(** One line written by one side is read by the other, and what follows stays. *)
Lemma codec_line `{Json} {A} (c : Codec A) a rest :
  CodecOk c → c.(fits) a →
  read_json_line c.(dec) (json_line_bytes c.(enc) a +:+ rest) = (Ok a, rest).
Proof. intros Hc Ha. by apply read_json_line_written, codec_message_ok. Qed.

(** C22. The protocol on the wire. After any requests or responses whose numbers fit their
    fields and whose texts parse back have been written one after the other on a stream, the
    other side reads exactly those off it, in order, and what follows is left. And whatever
    the other side reads from any JSON text is such a message: to write it again and read it
    gives it back. *)
Theorem protocol_roundtrip `{External, Json} rpcs responses rest :
  Forall (fits RuntimeRpc_codec) rpcs → Forall (fits RuntimeResponse_codec) responses →
  read_messages (dec RuntimeRpc_codec) (length rpcs)
    (foldl (write_json_line (enc RuntimeRpc_codec)) "" rpcs +:+ rest) = (Ok rpcs, rest) ∧
  read_messages (dec RuntimeResponse_codec) (length responses)
    (foldl (write_json_line (enc RuntimeResponse_codec)) "" responses +:+ rest) = (Ok responses, rest) ∧
  (∀ v rpc, dec RuntimeRpc_codec v = Ok rpc → dec RuntimeRpc_codec (enc RuntimeRpc_codec rpc) = Ok rpc) ∧
  (∀ v response, dec RuntimeResponse_codec v = Ok response →
     dec RuntimeResponse_codec (enc RuntimeResponse_codec response) = Ok response).
Proof.
  intros Hq Hr. split_and!.
  - apply read_written_messages. eapply Forall_impl; [exact Hq|]. intros rpc Hf. exact (codec_message_ok _ _ _ Hf).
  - apply read_written_messages. eapply Forall_impl; [exact Hr|]. intros r Hf. exact (codec_message_ok _ _ _ Hf).
  - intros v rpc Hv. apply dec_enc. by eapply dec_fits.
  - intros v response Hv. apply dec_enc. by eapply dec_fits.
Qed.

Lemma protocol_roundtrip_witness :
  let rpc := RuntimeRpc.Kill (KillRequest.mk (mkUuid 7) RuntimeSignal.Term 2) in
  @fits _ (@RuntimeRpc_codec decimal_external) rpc ∧
  @read_messages code_json _ (dec (@RuntimeRpc_codec decimal_external)) 2
    (foldl (@write_json_line code_json _ (enc (@RuntimeRpc_codec decimal_external))) "" [rpc; RuntimeRpc.Stop] +:+ "x") =
    (Ok [rpc; RuntimeRpc.Stop], "x").
Proof.
  intros rpc.
  assert (@fits _ (@RuntimeRpc_codec decimal_external) rpc) as Hf by (vm_compute; repeat split; discriminate).
  split; [exact Hf|].
  apply (@protocol_roundtrip decimal_external code_json [rpc; RuntimeRpc.Stop] [RuntimeResponse.Ack] "x").
  - constructor; [exact Hf|]. constructor; [exact I|constructor].
  - constructor; [exact I|constructor].
Defined.
