(* ===== verification/Contracts.v ===== *)
(** * The tools of the MCP server (crates/rtm-core/src/tool_contracts.rs, tools.toml)

    The table of tools, the JSON schemas that are made of it, and what the schemas say: a
    value conforms to a schema or not. Objects here are serde_json's maps, which hold each
    key once, in the order of the keys. *)

From S2P Require Import Prelude RustStr Types Json.
From stdpp Require Import options.

(** ** serde_json::Map *)

Fixpoint map_insert (key : string) (v : Value) (fields : list (string * Value))
    : list (string * Value) :=
  match fields with
  | [] => [(key, v)]
  | (k, w) :: rest =>
      match String.compare key k with
      | Eq => (key, v) :: rest
      | Lt => (key, v) :: fields
      | Gt => (k, w) :: map_insert key v rest
      end
  end.

Definition map_of (l : list (string * Value)) : list (string * Value) :=
  foldl (λ m kv, map_insert kv.1 kv.2 m) [] l.

(** [json!({..})] of the fields given. *)
Definition json_object (l : list (string * Value)) : Value := Object (map_of l).

(** [schema[key] = v] on an object. *)
Definition set_field (key : string) (v : Value) (schema : Value) : Value :=
  match schema with Object fields => Object (map_insert key v fields) | w => w end.

(** [Value::get] with a key. *)
Definition get_field (key : string) (v : Value) : option Value :=
  match v with
  | Object fields => snd <$> head (filter (λ kv, kv.1 = key) fields)
  | _ => None
  end.

(** A [Value] read from a document, or made by [serde_json::to_value]. *)
Fixpoint as_map (v : Value) : Value :=
  match v with
  | Array l => Array (map as_map l)
  | Object fields => json_object (map (λ kv, (kv.1, as_map kv.2)) fields)
  | v => v
  end.

(** ** The contracts *)

Module SchemaKind.
Inductive SchemaKind := Array | Boolean | Integer | Object | String.
End SchemaKind.
Notation SchemaKind := SchemaKind.SchemaKind.

Module ToolParam.
Record ToolParam := mk {
  name : string; kind : SchemaKind; required : bool; mcp_description : string;
  format : option string; items_kind : option SchemaKind; items_format : option string;
  cli_flag : option string; cli_help : option string }.
End ToolParam.
Notation ToolParam := ToolParam.ToolParam.

Module ToolOutput.
Record ToolOutput := mk {
  name : string; kind : SchemaKind; description : string; items_kind : option SchemaKind }.
End ToolOutput.
Notation ToolOutput := ToolOutput.ToolOutput.

Module ToolContract.
Record ToolContract := mk {
  cli_name : string; cli_about : string; mcp_description : string; args_type : string;
  response_type : string; response_description : string;
  params : list ToolParam; outputs : list ToolOutput }.
End ToolContract.
Notation ToolContract := ToolContract.ToolContract.

(** The [BTreeMap], in the order of its keys. *)
Notation ToolRegistry := (list (string * ToolContract)).

Definition as_json_type (kind : SchemaKind) : string :=
  match kind with
  | SchemaKind.Array => "array"
  | SchemaKind.Boolean => "boolean"
  | SchemaKind.Integer => "integer"
  | SchemaKind.Object => "object"
  | SchemaKind.String => "string"
  end.

Definition with_format (format : option string) (schema : Value) : Value :=
  match format with Some format => set_field "format" (Str format) schema | None => schema end.

Definition kind_schema (kind : SchemaKind) (format : option string) (items_kind : option SchemaKind)
    (items_format : option string) : Value :=
  let schema := with_format format (json_object [("type", Str (as_json_type kind))]) in
  match kind, items_kind with
  | SchemaKind.Array, Some items_kind =>
      set_field "items"
        (with_format items_format (json_object [("type", Str (as_json_type items_kind))])) schema
  | _, _ => schema
  end.

Definition ToolParam_schema_value (p : ToolParam) : Value :=
  set_field "description" (Str p.(ToolParam.mcp_description))
    (kind_schema p.(ToolParam.kind) p.(ToolParam.format) p.(ToolParam.items_kind)
       p.(ToolParam.items_format)).

Definition ToolOutput_schema_value (o : ToolOutput) : Value :=
  set_field "description" (Str o.(ToolOutput.description))
    (kind_schema o.(ToolOutput.kind) None o.(ToolOutput.items_kind) None).

Definition input_schema_value (c : ToolContract) : Value :=
  let properties :=
    map_of (map (λ p, (p.(ToolParam.name), ToolParam_schema_value p)) c.(ToolContract.params)) in
  let required :=
    map (λ p, Str p.(ToolParam.name))
      (filter (λ p, p.(ToolParam.required) = true) c.(ToolContract.params)) in
  json_object [("type", Str "object"); ("properties", Object properties);
               ("required", Array required); ("additionalProperties", Bool false)].

Definition output_schema_value (c : ToolContract) : Value :=
  let properties :=
    map_of (map (λ o, (o.(ToolOutput.name), ToolOutput_schema_value o)) c.(ToolContract.outputs)) in
  json_object [("type", Str "object"); ("description", Str c.(ToolContract.response_description));
               ("properties", Object properties); ("additionalProperties", Bool false)].

Definition tool_entry_value (c : ToolContract) (name : string) : Value :=
  let entry := json_object [("name", Str name); ("description", Str c.(ToolContract.mcp_description));
                            ("inputSchema", input_schema_value c)] in
  match c.(ToolContract.outputs) with
  | [] => entry
  | _ => set_field "outputSchema" (output_schema_value c) entry
  end.

Definition tool_list_value (registry : ToolRegistry) : Value :=
  json_object [("tools", Array (map (λ '(name, c), tool_entry_value c name) registry))].

Definition admin_tools_markdown (registry : ToolRegistry) : string :=
  join (String newline "")
    (["## Admin MCP Tools"; ""; "| Tool | Purpose |"; "| --- | --- |"] ++
     map (λ '(name, c), "| `" +:+ name +:+ "` | " +:+ c.(ToolContract.mcp_description) +:+ " |") registry ++
     [""]).

(** *** tools.toml *)

Definition rtm_kill_by_pid : ToolContract :=
  ToolContract.mk "kill" "Send an operator signal to a runtime process by pid."
    "Admin escape hatch that signals a runtime process by pid, waits for the grace period, then sends SIGKILL if the process remains alive."
    "RtmKillByPidArgs" "RtmKillByPidResponse" "Signal delivery outcome for the requested pid."
    [
     ToolParam.mk "pid" SchemaKind.Integer true "Runtime process id to signal."
       (Some "u32") None None (Some "pid")
       (Some "Runtime process id to signal.");
     ToolParam.mk "signal" SchemaKind.Integer true "POSIX signal number to send."
       (Some "i32") None None (Some "signal")
       (Some "Signal number to send.");
     ToolParam.mk "grace_secs" SchemaKind.Integer true "Seconds to wait before SIGKILL fallback."
       (Some "u32") None None (Some "grace-secs")
       (Some "Seconds to wait before SIGKILL fallback.")]
    [
     ToolOutput.mk "pid" SchemaKind.Integer "Process id that was signaled." None;
     ToolOutput.mk "signal" SchemaKind.Integer "Signal number sent first." None;
     ToolOutput.mk "killed_after_grace" SchemaKind.Boolean "Whether SIGKILL was sent after the grace period." None].

Definition rtm_status : ToolContract :=
  ToolContract.mk "status" "List lifecycle rows from rtmd."
    "Return rtmd Lifecycle rows, optionally filtered by session id, session set, runtime, lifecycle state, and updated time."
    "RtmStatusArgs" "RtmStatusResponse" "Lifecycle rows visible to rtmd."
    [
     ToolParam.mk "session_id" SchemaKind.String false "Optional session id filter."
       (Some "uuid") None None (Some "session-id")
       (Some "Filter to one session id.");
     ToolParam.mk "session_ids" SchemaKind.Array false "Optional session id set filter."
       None (Some SchemaKind.String) (Some "uuid") None
       None;
     ToolParam.mk "updated_since" SchemaKind.String false "Optional RFC3339 updated_at lower bound."
       (Some "date-time") None None (Some "updated-since")
       (Some "Filter to lifecycles updated at or after this RFC3339 timestamp.");
     ToolParam.mk "runtime" SchemaKind.String false "Optional runtime kind filter."
       None None None (Some "runtime")
       (Some "Filter by runtime kind.");
     ToolParam.mk "state" SchemaKind.String false "Optional lifecycle state filter."
       None None None (Some "state")
       (Some "Filter by lifecycle state.")]
    [
     ToolOutput.mk "lifecycles" SchemaKind.Array "Matching Lifecycle rows." (Some SchemaKind.Object)].

Definition rtm_version : ToolContract :=
  ToolContract.mk "version" "Print rtmd version metadata."
    "Return the rtmd package version, build git sha, protocol version, and advertised capabilities."
    "RtmVersionArgs" "RtmVersionResponse" "Version metadata for the running daemon."
    []
    [
     ToolOutput.mk "version" SchemaKind.String "Package version." None;
     ToolOutput.mk "git_sha" SchemaKind.String "Build git sha." None;
     ToolOutput.mk "protocol_version" SchemaKind.String "Runtime protocol compatibility version." None;
     ToolOutput.mk "capabilities" SchemaKind.Array "Stable runtime protocol capability names." (Some SchemaKind.String)].

Definition rtm_watchers : ToolContract :=
  ToolContract.mk "watchers" "Print rtmd watcher counters."
    "Return rtmd operator visibility counters for process exit watchers, pending shim socket waiters, and Events long poll waiters."
    "RtmWatchersArgs" "RtmWatchersResponse" "Watcher counters for the running daemon."
    []
    [
     ToolOutput.mk "process_exit_watchers" SchemaKind.Integer "Active process exit watchers." None;
     ToolOutput.mk "shim_sockets" SchemaKind.Integer "Pending shim socket waiters." None;
     ToolOutput.mk "event_waiters" SchemaKind.Integer "Active Events long poll waiters." None].

Definition contract_registry : ToolRegistry :=
  [("rtm_kill_by_pid", rtm_kill_by_pid);
   ("rtm_status", rtm_status);
   ("rtm_version", rtm_version);
   ("rtm_watchers", rtm_watchers)].

(** ** What a schema says

    The keywords that occur in the schemas above, on numbers that are integers. Formats are
    read as ranges and as text forms. [fuel] is the depth of the schema. *)

Section schema.
Context `{External}.

Definition type_ok (type : string) (v : Value) : bool :=
  match v with
  | Null => false
  | Bool _ => String.eqb type "boolean"
  | Number _ => String.eqb type "integer"
  | Float _ => false
  | Str _ => String.eqb type "string"
  | Array _ => String.eqb type "array"
  | Object _ => String.eqb type "object"
  end.

Definition format_ok (format : string) (v : Value) : bool :=
  match v with
  | Number z =>
      if String.eqb format "u32" then bool_decide (0 ≤ z ≤ Z.of_N u32_max)%Z
      else if String.eqb format "i32" then bool_decide (i32_min ≤ z ≤ i32_max)%Z
      else true
  | Str s =>
      if String.eqb format "uuid" then is_ok (uuid_parse_str s)
      else if String.eqb format "date-time" then is_ok (parse_from_rfc3339 s)
      else true
  | _ => true
  end.

Definition keyword (name : string) (schema : Value) (holds : Value → bool) : bool :=
  match get_field name schema with Some w => holds w | None => true end.

Definition text_keyword (name : string) (schema : Value) (holds : string → bool) : bool :=
  keyword name schema (λ w, match w with Str s => holds s | _ => false end).

Definition is_closed (schema : Value) : bool :=
  negb (keyword "additionalProperties" schema (λ w, match w with Bool b => b | _ => true end)).

Fixpoint conforms (fuel : nat) (schema v : Value) : bool :=
  match fuel with
  | 0 => false
  | S fuel =>
      text_keyword "type" schema (λ t, type_ok t v) &&
      text_keyword "format" schema (λ f, format_ok f v) &&
      match v with
      | Array l => keyword "items" schema (λ items, forallb (conforms fuel items) l)
      | Object fields =>
          keyword "required" schema (λ w, match w with
            | Array names => forallb (λ n, match n with
                                           | Str n => existsb (String.eqb n) (map fst fields)
                                           | _ => false
                                           end) names
            | _ => false
            end) &&
          forallb (λ kv, match properties ← get_field "properties" schema; get_field kv.1 properties with
                         | Some schema => conforms fuel schema kv.2
                         | None => negb (is_closed schema)
                         end) fields
      | _ => true
      end
  end.
End schema.

(** ** Maps hold a key once *)

Lemma ascii_compare_trans a b c :
  Ascii.compare a b = Lt → Ascii.compare b c = Lt → Ascii.compare a c = Lt.
Proof. unfold Ascii.compare. rewrite !N.compare_lt_iff. lia. Qed.

Lemma ascii_compare_eq a b : Ascii.compare a b = Eq → a = b.
Proof. apply Ascii.compare_eq_iff. Qed.

Lemma string_compare_trans s t u :
  String.compare s t = Lt → String.compare t u = Lt → String.compare s u = Lt.
Proof.
  revert t u. induction s as [|a s IH]; intros [|b t] [|c u]; simpl; try done.
  destruct (Ascii.compare a b) eqn:Eab; [| |done].
  - apply ascii_compare_eq in Eab as ->. destruct (Ascii.compare b c); eauto.
  - intros _. destruct (Ascii.compare b c) eqn:Ebc; [|intros _|done].
    + apply ascii_compare_eq in Ebc as ->. by rewrite Eab.
    + by rewrite (ascii_compare_trans _ _ _ Eab Ebc).
Qed.

Definition key_lt (s t : string) : Prop := String.compare s t = Lt.
#[export] Instance key_lt_trans : Transitive key_lt.
Proof. intros s t u. apply string_compare_trans. Qed.

Definition ordered (fields : list (string * Value)) : Prop := StronglySorted key_lt (map fst fields).

Lemma map_insert_keys key v fields k :
  k ∈ map fst (map_insert key v fields) → k = key ∨ k ∈ map fst fields.
Proof.
  induction fields as [|[k' w] fields IH]; simpl; [set_solver|].
  destruct (String.compare key k'); simpl; set_solver.
Qed.

Lemma map_insert_ordered key v fields : ordered fields → ordered (map_insert key v fields).
Proof.
  unfold ordered. induction fields as [|[k w] fields IH]; simpl; intros Hs; [by repeat constructor|].
  apply StronglySorted_inv in Hs as [Hs Hk].
  destruct (String.compare key k) eqn:E; simpl.
  - apply String.compare_eq_iff in E as ->. by constructor.
  - constructor; [by constructor|]. constructor; [done|]. eapply Forall_impl; [exact Hk|].
    intros k'. by apply string_compare_trans.
  - constructor; [by apply IH|]. apply Forall_forall. intros k' [->|Hin]%map_insert_keys.
    + unfold key_lt. by rewrite String.compare_antisym, E.
    + by eapply Forall_forall in Hk.
Qed.

Lemma map_of_ordered l : ordered (map_of l).
Proof.
  unfold map_of. assert (ordered []) as H by constructor. revert H. generalize (@nil (string * Value)).
  induction l as [|[k v] l IH]; intros m Hm; simpl; [done|]. apply IH. by apply map_insert_ordered.
Qed.

Lemma as_map_ordered v fields : as_map v = Object fields → ordered fields.
Proof. destruct v; simpl; intros [= <-]. apply map_of_ordered. Qed.

(** A field of a map, as derived readers look it up. *)
Lemma field_opt_get name fields :
  ordered fields → field_opt name fields = Ok (get_field name (Object fields)).
Proof.
  unfold ordered, field_opt, get_field. intros Hs.
  assert (NoDup (map fst fields)) as Hnd.
  { clear name. induction fields as [|[k v] l IH]; [constructor|]. simpl in *.
    apply StronglySorted_inv in Hs as [Hs Hk]. constructor; [|by apply IH].
    intros Hin. eapply Forall_forall in Hk; [|exact Hin]. unfold key_lt in Hk.
    pose proof (String.compare_antisym k k) as Ha. by rewrite Hk in Ha. }
  clear Hs. induction fields as [|[k v] l IH]; [done|]. simpl in Hnd. apply NoDup_cons in Hnd as [Hk Hnd].
  rewrite filter_cons. cbn [fst]. case_decide as E; [|by apply IH]. subst name.
  destruct (filter _ l) as [|[k0 w] l'] eqn:E; [done|].
  assert ((k0, w) ∈ filter (λ kv, kv.1 = k) l) as [E' Hin]%list_elem_of_filter by (rewrite E; by left).
  destruct Hk. simpl in E'. subst k0. change k with (k, w).1. by apply list_elem_of_fmap_2.
Qed.

(** A field that is there conforms to the schema of its property. *)
Lemma conforms_field `{External} n schema properties fields k w s :
  conforms (S n) schema (Object fields) = true → get_field "properties" schema = Some properties →
  get_field k properties = Some s → get_field k (Object fields) = Some w → conforms n s w = true.
Proof.
  cbn [conforms]. intros Hc Hp Hs Hw. apply andb_prop in Hc as [_ Hc]. apply andb_prop in Hc as [_ Hc].
  rewrite forallb_forall in Hc. unfold get_field in Hw.
  assert (In (k, w) fields) as Hin.
  { destruct (filter _ fields) as [|[k' w'] l] eqn:E; [done|]. injection Hw as <-.
    assert ((k', w') ∈ filter (λ kv, kv.1 = k) fields) as [<- Hin]%list_elem_of_filter
      by (rewrite E; by left). by apply list_elem_of_In. }
  specialize (Hc _ Hin). cbn [fst snd] in Hc. rewrite Hp in Hc. unfold mbind, option_bind in Hc.
  by rewrite Hs in Hc.
Qed.
