(* ===== verification/Generator.v ===== *)
(** * Build scripts (crates/rtm-cli/build.rs, crates/rtm-core/build.rs and src/generated)

    The code generator that turns the contracts of tools.toml into Rust sources, the skill
    document and a section of the README, and the version that the build stamps on the
    programs. The files under src/generated are definitions too, and the theorems say that
    they are what the generator makes, that a build changes nothing else, and that a second
    build changes nothing at all. *)

From Stdlib Require Import Ascii.
From S2P Require Import Prelude RustStr RustPath Types Json Platform Contracts.
From stdpp Require Import options.

Definition dquote : ascii := "034"%char.

(** ** Characters and searches *)

(** [str::chars], each character as its bytes. *)
Fixpoint chars_from (fuel : nat) (s : string) : list string :=
  match fuel, s with
  | S fuel, String _ _ =>
      let n := (utf8_step (N_of_ascii <$> bytes s)).2 in
      String.substring 0 n s :: chars_from fuel (String.substring n (String.length s - n) s)
  | _, _ => []
  end.
Definition chars (s : string) : list string := chars_from (String.length s) s.

(** [str::find], as the text before the first occurrence and the text from there on. *)
Fixpoint str_find (p s : string) : option (string * string) :=
  if starts_with p s then Some (EmptyString, s) else
  match s with
  | EmptyString => None
  | String a s => '(before, from) ← str_find p s; Some (String a before, from)
  end.

(** ** The generator *)

Definition is_ascii_alphanumeric (a : ascii) : bool :=
  let n := N_of_ascii a in
  in_range 48 57 (Some n) || in_range 65 90 (Some n) || in_range 97 122 (Some n).
Definition is_ascii_hexdigit (a : ascii) : bool :=
  let n := N_of_ascii a in
  in_range 48 57 (Some n) || in_range 65 70 (Some n) || in_range 97 102 (Some n).

Definition const_name (value : string) : string :=
  join EmptyString
    (map (λ ch, match ch with
                | String a EmptyString => if is_ascii_alphanumeric a then String (ascii_upper a) "" else "_"
                | _ => "_"
                end) (chars value)).

Definition hex_digit (n : N) : ascii := ascii_of_N (if (n <? 10)%N then 48 + n else 87 + n).

(** A character in [{:?}] of a string: [wide] is what the tables of Unicode give beyond
    ASCII. *)
Definition debug_char (wide : string → string) (ch : string) : string :=
  match ch with
  | String a EmptyString =>
      let n := N_of_ascii a in
      if (n =? 0)%N then "\0" else if (n =? 9)%N then "\t" else if (n =? 10)%N then "\n"
      else if (n =? 13)%N then "\r" else if (n =? 34)%N then String "\" (String dquote "")
      else if (n =? 92)%N then "\\"
      else if (n <? 32)%N || (n =? 127)%N then
        "\u{" +:+ (if (n <? 16)%N then "" else String (hex_digit (n / 16)) "") +:+
        String (hex_digit (n mod 16)) "}"
      else ch
  | ch => wide ch
  end.

Section generator.
Variable wide : string → string.
(** [serde_json::to_string_pretty]. *)
Variable to_string_pretty : Value → string.

Definition rust_string (value : string) : string :=
  String dquote (join EmptyString (map (debug_char wide) (chars value)) +:+ String dquote "").

Definition cli_help (registry : ToolRegistry) : string :=
  "// @generated by rtm-cli/build.rs" +:+ String newline (String newline "") +:+
  "pub const MCP_ABOUT: &str = " +:+ String dquote ("Run the admin MCP stdio bridge." +:+ String dquote (";" +:+
  String newline "")) +:+
  join EmptyString
    (map (λ '(_, contract),
       "pub const " +:+ const_name contract.(ToolContract.cli_name) +:+ "_ABOUT: &str = " +:+
       rust_string contract.(ToolContract.cli_about) +:+ ";" +:+ String newline "") registry).

(** [None]: the generator panics. *)
Definition contract_aliases (name : string) (contract : ToolContract) : option string :=
  let args_type := contract.(ToolContract.args_type) in
  let response_type := contract.(ToolContract.response_type) in
  let unit_args := "#[derive(Clone, Debug, Default, Eq, PartialEq)]" +:+ String newline
                   ("pub struct " +:+ args_type +:+ ";" +:+ String newline "") in
  let alias target := "pub type " +:+ args_type +:+ " = lilo_rm_core::" +:+ target +:+ ";" +:+ String newline "" in
  let response target :=
    "pub type " +:+ response_type +:+ " = lilo_rm_core::" +:+ target +:+ ";" +:+ String newline (String newline "") in
  if String.eqb name "rtm_kill_by_pid" then Some (alias "KillByPidRequest" +:+ response "KillByPidResponse")
  else if String.eqb name "rtm_status" then Some (alias "StatusFilter" +:+ response "StatusResponse")
  else if String.eqb name "rtm_version" then Some (unit_args +:+ response "VersionInfo")
  else if String.eqb name "rtm_watchers" then Some (unit_args +:+ response "WatcherCounts")
  else None.

Definition contracts (registry : ToolRegistry) : option string :=
  aliases ← mapM (λ '(name, contract), contract_aliases name contract) registry;
  Some (trim_end ("// @generated by rtm-cli/build.rs" +:+ String newline (String newline "") +:+
                  join EmptyString aliases) +:+ String newline "").

Definition mcp_tools (registry : ToolRegistry) : string :=
  let tool_list := to_string_pretty (tool_list_value registry) in
  let names := join (String newline "") (map (λ '(name, _), "    " +:+ rust_string name +:+ ",") registry) in
  "// @generated by rtm-cli/build.rs" +:+ String newline (String newline "") +:+
  "pub const TOOL_LIST_JSON: &str = r#" +:+ String dquote (tool_list +:+ String dquote ("#;" +:+ String newline "")) +:+
  "pub const TOOL_NAMES: &[&str] = &[" +:+ String newline (names +:+ String newline ("];" +:+ String newline "")).

Definition skill_doc (registry : ToolRegistry) : string :=
  "---" +:+ String newline ("name: rtm-admin" +:+ String newline
  ("description: Admin MCP tools for runtime-matters rtmd." +:+ String newline
  ("---" +:+ String newline (String newline (admin_tools_markdown registry))))).

Definition start_marker : string := "<!-- rtm-admin-tools:start -->".
Definition end_marker : string := "<!-- rtm-admin-tools:end -->".

Definition readme_section (registry : ToolRegistry) : string :=
  start_marker +:+ String newline (admin_tools_markdown registry +:+ end_marker).

(** [None]: the start marker has no end marker, and the generator panics. *)
Definition replace_or_append (readme section : string) : option string :=
  match str_find start_marker readme with
  | None => Some (trim_end readme +:+ String newline (String newline (section +:+ String newline "")))
  | Some (before, from) =>
      '(inside, rest) ← str_find end_marker from;
      Some (before +:+ section +:+
            String.substring (String.length end_marker) (String.length rest - String.length end_marker) rest)
  end.
End generator.

(** ** The files of src/generated

    As they are in the repository, with a tilde for each quotation mark. *)

Definition quoted (s : string) : string :=
  of_bytes ((λ a, if decide (a = "~"%char) then dquote else a) <$> bytes s).

Definition TOOL_LIST_JSON : string := quoted "{
  ~tools~: [
    {
      ~description~: ~Admin escape hatch that signals a runtime process by pid, waits for the grace period, then sends SIGKILL if the process remains alive.~,
      ~inputSchema~: {
        ~additionalProperties~: false,
        ~properties~: {
          ~grace_secs~: {
            ~description~: ~Seconds to wait before SIGKILL fallback.~,
            ~format~: ~u32~,
            ~type~: ~integer~
          },
          ~pid~: {
            ~description~: ~Runtime process id to signal.~,
            ~format~: ~u32~,
            ~type~: ~integer~
          },
          ~signal~: {
            ~description~: ~POSIX signal number to send.~,
            ~format~: ~i32~,
            ~type~: ~integer~
          }
        },
        ~required~: [
          ~pid~,
          ~signal~,
          ~grace_secs~
        ],
        ~type~: ~object~
      },
      ~name~: ~rtm_kill_by_pid~,
      ~outputSchema~: {
        ~additionalProperties~: false,
        ~description~: ~Signal delivery outcome for the requested pid.~,
        ~properties~: {
          ~killed_after_grace~: {
            ~description~: ~Whether SIGKILL was sent after the grace period.~,
            ~type~: ~boolean~
          },
          ~pid~: {
            ~description~: ~Process id that was signaled.~,
            ~type~: ~integer~
          },
          ~signal~: {
            ~description~: ~Signal number sent first.~,
            ~type~: ~integer~
          }
        },
        ~type~: ~object~
      }
    },
    {
      ~description~: ~Return rtmd Lifecycle rows, optionally filtered by session id, session set, runtime, lifecycle state, and updated time.~,
      ~inputSchema~: {
        ~additionalProperties~: false,
        ~properties~: {
          ~runtime~: {
            ~description~: ~Optional runtime kind filter.~,
            ~type~: ~string~
          },
          ~session_id~: {
            ~description~: ~Optional session id filter.~,
            ~format~: ~uuid~,
            ~type~: ~string~
          },
          ~session_ids~: {
            ~description~: ~Optional session id set filter.~,
            ~items~: {
              ~format~: ~uuid~,
              ~type~: ~string~
            },
            ~type~: ~array~
          },
          ~state~: {
            ~description~: ~Optional lifecycle state filter.~,
            ~type~: ~string~
          },
          ~updated_since~: {
            ~description~: ~Optional RFC3339 updated_at lower bound.~,
            ~format~: ~date-time~,
            ~type~: ~string~
          }
        },
        ~required~: [],
        ~type~: ~object~
      },
      ~name~: ~rtm_status~,
      ~outputSchema~: {
        ~additionalProperties~: false,
        ~description~: ~Lifecycle rows visible to rtmd.~,
        ~properties~: {
          ~lifecycles~: {
            ~description~: ~Matching Lifecycle rows.~,
            ~items~: {
              ~type~: ~object~
            },
            ~type~: ~array~
          }
        },
        ~type~: ~object~
      }
    },
    {
      ~description~: ~Return the rtmd package version, build git sha, protocol version, and advertised capabilities.~,
      ~inputSchema~: {
        ~additionalProperties~: false,
        ~properties~: {},
        ~required~: [],
        ~type~: ~object~
      },
      ~name~: ~rtm_version~,
      ~outputSchema~: {
        ~additionalProperties~: false,
        ~description~: ~Version metadata for the running daemon.~,
        ~properties~: {
          ~capabilities~: {
            ~description~: ~Stable runtime protocol capability names.~,
            ~items~: {
              ~type~: ~string~
            },
            ~type~: ~array~
          },
          ~git_sha~: {
            ~description~: ~Build git sha.~,
            ~type~: ~string~
          },
          ~protocol_version~: {
            ~description~: ~Runtime protocol compatibility version.~,
            ~type~: ~string~
          },
          ~version~: {
            ~description~: ~Package version.~,
            ~type~: ~string~
          }
        },
        ~type~: ~object~
      }
    },
    {
      ~description~: ~Return rtmd operator visibility counters for process exit watchers, pending shim socket waiters, and Events long poll waiters.~,
      ~inputSchema~: {
        ~additionalProperties~: false,
        ~properties~: {},
        ~required~: [],
        ~type~: ~object~
      },
      ~name~: ~rtm_watchers~,
      ~outputSchema~: {
        ~additionalProperties~: false,
        ~description~: ~Watcher counters for the running daemon.~,
        ~properties~: {
          ~event_waiters~: {
            ~description~: ~Active Events long poll waiters.~,
            ~type~: ~integer~
          },
          ~process_exit_watchers~: {
            ~description~: ~Active process exit watchers.~,
            ~type~: ~integer~
          },
          ~shim_sockets~: {
            ~description~: ~Pending shim socket waiters.~,
            ~type~: ~integer~
          }
        },
        ~type~: ~object~
      }
    }
  ]
}".
Definition TOOL_NAMES : list string := ["rtm_kill_by_pid"; "rtm_status"; "rtm_version"; "rtm_watchers"].

Definition mcp_tools_rs : string :=
  "// @generated by rtm-cli/build.rs

pub const TOOL_LIST_JSON: &str = r#" +:+ String dquote (TOOL_LIST_JSON +:+ String dquote (quoted "#;
pub const TOOL_NAMES: &[&str] = &[
    ~rtm_kill_by_pid~,
    ~rtm_status~,
    ~rtm_version~,
    ~rtm_watchers~,
];
")).
Definition cli_help_rs : string := quoted "// @generated by rtm-cli/build.rs

pub const MCP_ABOUT: &str = ~Run the admin MCP stdio bridge.~;
pub const KILL_ABOUT: &str = ~Send an operator signal to a runtime process by pid.~;
pub const STATUS_ABOUT: &str = ~List lifecycle rows from rtmd.~;
pub const VERSION_ABOUT: &str = ~Print rtmd version metadata.~;
pub const WATCHERS_ABOUT: &str = ~Print rtmd watcher counters.~;
".
Definition contracts_rs : string := "// @generated by rtm-cli/build.rs

pub type RtmKillByPidArgs = lilo_rm_core::KillByPidRequest;
pub type RtmKillByPidResponse = lilo_rm_core::KillByPidResponse;

pub type RtmStatusArgs = lilo_rm_core::StatusFilter;
pub type RtmStatusResponse = lilo_rm_core::StatusResponse;

#[derive(Clone, Debug, Default, Eq, PartialEq)]
pub struct RtmVersionArgs;
pub type RtmVersionResponse = lilo_rm_core::VersionInfo;

#[derive(Clone, Debug, Default, Eq, PartialEq)]
pub struct RtmWatchersArgs;
pub type RtmWatchersResponse = lilo_rm_core::WatcherCounts;
".
Definition mod_rs : string := "pub mod cli_help;
pub mod contracts;
pub mod mcp_tools;
".
Definition SKILL_md : string := "---
name: rtm-admin
description: Admin MCP tools for runtime-matters rtmd.
---

## Admin MCP Tools

| Tool | Purpose |
| --- | --- |
| `rtm_kill_by_pid` | Admin escape hatch that signals a runtime process by pid, waits for the grace period, then sends SIGKILL if the process remains alive. |
| `rtm_status` | Return rtmd Lifecycle rows, optionally filtered by session id, session set, runtime, lifecycle state, and updated time. |
| `rtm_version` | Return the rtmd package version, build git sha, protocol version, and advertised capabilities. |
| `rtm_watchers` | Return rtmd operator visibility counters for process exit watchers, pending shim socket waiters, and Events long poll waiters. |
".

(** The layout of [to_string_pretty]: [indent] levels of two spaces. *)
Definition escape_json (a : ascii) : string :=
  let n := N_of_ascii a in
  if (n =? 34)%N then String "\" (String dquote "") else if (n =? 92)%N then "\\"
  else if (n =? 8)%N then "\b" else if (n =? 9)%N then "\t" else if (n =? 10)%N then "\n"
  else if (n =? 12)%N then "\f" else if (n =? 13)%N then "\r"
  else if (n <? 32)%N then "\u00" +:+ String (hex_digit (n / 16)) (String (hex_digit (n mod 16)) "")
  else String a "".
Definition json_text (s : string) : string :=
  String dquote (join EmptyString (map escape_json (bytes s)) +:+ String dquote "").
Fixpoint spaces (indent : nat) : string :=
  match indent with 0 => EmptyString | S indent => "  " +:+ spaces indent end.

Fixpoint pretty_json (float : N → string) (indent : nat) (v : Value) : string :=
  let items (l : list string) :=
    String newline (join (String "," (String newline "")) (map (String.append (spaces (S indent))) l)) +:+
    String newline (spaces indent) in
  match v with
  | Null => "null"
  | Bool b => if b then "true" else "false"
  | Number z => display_i z
  | Float bits => float bits
  | Str s => json_text s
  | Array [] => "[]"
  | Array l => "[" +:+ items (map (pretty_json float (S indent)) l) +:+ "]"
  | Object [] => "{}"
  | Object fields =>
      "{" +:+ items (map (λ '(key, v), json_text key +:+ ": " +:+ pretty_json float (S indent) v) fields) +:+ "}"
  end.

(** ** The version and the build *)

(** A number of characters in front, all of them hexadecimal digits. *)
Definition short_sha (value : string) : option string :=
  let sha := take 7 (chars (trim value)) in
  if negb (bool_decide (sha = [])) &&
     forallb (λ ch, match ch with String a EmptyString => is_ascii_hexdigit a | _ => false end) sha
  then Some (join EmptyString sha) else None.

(** What the scripts find: the environment, [../../.git/HEAD], and the output of
    [git rev-parse] with the given abbreviation. *)
Module Host.
Record Host := mk { vars : string → option string; git_head : option string; rev_parse : string → option Output }.
End Host.
Notation Host := Host.Host.

Section host.
Variable host : Host.

(** [std::env::var(name).ok()]. *)
Definition var (name : string) : option string :=
  value ← host.(Host.vars) name; if utf8_valid value then Some value else None.

Definition include_git_sha : bool :=
  match var "RTM_VERSION_INCLUDE_GIT_SHA" with
  | Some value => String.eqb value "1" || String.eqb value "true" || String.eqb value "yes"
  | None => false
  end.

Definition explicit_git_sha : option string :=
  match var "RTM_GIT_SHA" ≫= short_sha with
  | Some sha => Some sha
  | None => var "GITHUB_SHA" ≫= short_sha
  end.

(** The text of a successful [git rev-parse]. *)
Definition git_stdout (abbreviation : string) : option string :=
  output ← host.(Host.rev_parse) abbreviation;
  if output.(Output.success) && utf8_valid output.(Output.stdout) then Some output.(Output.stdout) else None.

Definition git_head_sha : option string := git_stdout "--short=7" ≫= short_sha.

Definition build_git_sha : option string :=
  match explicit_git_sha with Some sha => Some sha | None => git_head_sha end.

Definition emit_git_rerun_directives : list string :=
  ["cargo:rerun-if-changed=../../.git/HEAD"; "cargo:rerun-if-changed=../../.git/packed-refs"] ++
  match host.(Host.git_head) with
  | Some head =>
      match strip_prefix "ref: " (trim head) with
      | Some ref_path => ["cargo:rerun-if-changed=../../.git/" +:+ ref_path]
      | None => []
      end
  | None => []
  end.

Definition cli_version (package_version : string) : string :=
  match include_git_sha, build_git_sha with
  | true, Some sha => package_version +:+ "+" +:+ sha
  | _, _ => package_version
  end.

(** [None]: a panic. *)
Definition emit_cli_version : option (list string) :=
  package_version ← var "CARGO_PKG_VERSION";
  Some (emit_git_rerun_directives ++
        ["cargo:rerun-if-env-changed=RTM_GIT_SHA"; "cargo:rerun-if-env-changed=GITHUB_SHA";
         "cargo:rerun-if-env-changed=RTM_VERSION_INCLUDE_GIT_SHA";
         "cargo:rustc-env=RTM_CLI_VERSION=" +:+ cli_version package_version]).

(** crates/rtm-core/build.rs. *)
Definition core_main : list string :=
  let sha := match trim <$> git_stdout "--short=12" with
             | Some sha => if String.eqb sha "" then "unknown" else sha
             | None => "unknown"
             end in
  ["cargo:rerun-if-changed=../../.git/HEAD"; "cargo:rustc-env=RTM_GIT_SHA=" +:+ sha].
End host.

(** The text files of the repository, and the files written so far. A file that is not text
    cannot be read and is not in [files]. *)
Module Fs.
Record Fs := mk { files : gmap string string; written : list string }.
End Fs.
Notation Fs := Fs.Fs.

Section build.
Variable host : Host.
Variable wide : string → string.
Variable to_string_pretty : Value → string.
(** The calls that fail. *)
Variable write_error : string → option IoError.
Variable dir_error : string → option IoError.

(** The error is the panic's message; of a failed read the model has no reason. *)
Notation BuildM := (M Fs string).

Definition write_if_changed (path contents : string) : BuildM unit := λ fs,
  if bool_decide (fs.(Fs.files) !! path = Some contents) then (Ok tt, fs) else
  match write_error path with
  | Some e => (Err ("write " +:+ path +:+ ": " +:+ display_IoError e), fs)
  | None => (Ok tt, Fs.mk (<[path := contents]> fs.(Fs.files)) (fs.(Fs.written) ++ [path]))
  end.

Definition create_dir (what dir : string) : BuildM unit := λ fs,
  (match dir_error dir with
   | Some e => Err ("create " +:+ what +:+ " dir " +:+ dir +:+ ": " +:+ display_IoError e)
   | None => Ok tt
   end, fs).

Definition write_generated_sources (manifest_dir : string) (registry : ToolRegistry) : BuildM unit :=
  let generated_dir := path_join manifest_dir "src/generated" in
  _ ← create_dir "generated" generated_dir;
  _ ← write_if_changed (path_join generated_dir "mod.rs") mod_rs;
  _ ← write_if_changed (path_join generated_dir "cli_help.rs") (cli_help wide registry);
  contracts ← lift (ok_or "unsupported tool contract" (contracts registry));
  _ ← write_if_changed (path_join generated_dir "contracts.rs") contracts;
  write_if_changed (path_join generated_dir "mcp_tools.rs") (mcp_tools wide to_string_pretty registry).

Definition write_skill_doc (manifest_dir : string) (registry : ToolRegistry) : BuildM unit :=
  let templates_dir := path_join manifest_dir "templates" in
  _ ← create_dir "templates" templates_dir;
  write_if_changed (path_join templates_dir "SKILL.md") (skill_doc registry).

Definition write_readme (repo_root : string) (registry : ToolRegistry) : BuildM unit :=
  let readme_path := path_join repo_root "README.md" in
  readme ← gets (λ fs, fs.(Fs.files) !! readme_path);
  readme ← lift (ok_or ("read " +:+ readme_path) readme);
  next ← lift (ok_or "README admin tools section end marker" (replace_or_append readme (readme_section registry)));
  write_if_changed readme_path next.

(** [main] of crates/rtm-cli/build.rs: what it prints. *)
Definition build_main : BuildM (list string) :=
  version ← lift (ok_or "CARGO_PKG_VERSION set" (emit_cli_version host));
  manifest_dir ← lift (ok_or "CARGO_MANIFEST_DIR set" (host.(Host.vars) "CARGO_MANIFEST_DIR"));
  repo_root ← lift (ok_or (manifest_dir +:+ " has a repo root parent") (parent manifest_dir ≫= parent));
  let registry := contract_registry in
  _ ← write_generated_sources manifest_dir registry;
  _ ← write_skill_doc manifest_dir registry;
  _ ← write_readme repo_root registry;
  mret (version ++ ["cargo:rerun-if-changed=../rtm-core/tools.toml"]).
End build.

(** ** Searching *)

Lemma starts_with_long p u y y' :
  String.length p ≤ String.length u → starts_with p (u +:+ y) = starts_with p (u +:+ y').
Proof.
  unfold starts_with. revert u. induction p as [|a p IH]; intros [|b u] Hl; cbn in *; [done..|lia|].
  rewrite !str_app_cons. cbn. case_decide; [|done]. apply IH. lia.
Qed.

Lemma starts_with_sep p s c r :
  c ∉ bytes p → starts_with p (s +:+ String c r) = starts_with p s.
Proof.
  unfold starts_with. revert s. induction p as [|a p IH]; intros [|b s] Hc; cbn in *; try done.
  - rewrite str_app_nil_l. cbn. rewrite decide_False by set_solver. done.
  - rewrite str_app_cons. cbn. case_decide; [|done]. apply IH. set_solver.
Qed.

Lemma starts_with_app p s u : starts_with p s = true → starts_with p (s +:+ u) = true.
Proof. rewrite !starts_with_true. intros [r ->]. exists (r +:+ u). by rewrite str_app_assoc. Qed.

Lemma starts_with_self p s : starts_with p (p +:+ s) = true.
Proof. apply starts_with_true. by exists s. Qed.

Lemma str_find_Some p s a b : str_find p s = Some (a, b) → s = a +:+ b ∧ ∃ r, b = p +:+ r.
Proof.
  revert a. induction s as [|c s IH]; intros a; cbn [str_find]; destruct (starts_with _ _) eqn:E.
  - intros [= <- <-]. split; [done|]. by apply starts_with_true.
  - done.
  - intros [= <- <-]. split; [done|]. by apply starts_with_true.
  - destruct (str_find p s) as [[x y]|]; cbn; [|done]. intros [= <- <-].
    destruct (IH x eq_refl) as [-> Hr]. by rewrite str_app_cons.
Qed.

Lemma str_find_here p y : str_find p (p +:+ y) = Some ("", p +:+ y).
Proof. destruct (p +:+ y) eqn:E; cbn [str_find]; rewrite <- E, starts_with_self; done. Qed.

(** What follows the occurrence does not matter. *)
Lemma str_find_tail p x y y' :
  str_find p (x +:+ p +:+ y) = Some (x, p +:+ y) → str_find p (x +:+ p +:+ y') = Some (x, p +:+ y').
Proof.
  induction x as [|a x IH].
  - intros _. rewrite str_app_nil_l. apply str_find_here.
  - rewrite !str_app_cons. cbn [str_find].
    assert (∀ z, starts_with p (String a (x +:+ p +:+ z)) = starts_with p ((String a x +:+ p) +:+ z)) as Hz
      by (intros z; by rewrite str_app_assoc, str_app_cons).
    rewrite (Hz y'), (Hz y), (starts_with_long p _ y y') by (rewrite length_app_str; lia).
    destruct (starts_with p ((String a x +:+ p) +:+ y')); [by intros [= ?]|].
    destruct (str_find p (x +:+ p +:+ y)) as [[u v]|]; cbn; [|done].
    intros [= -> ->]. by rewrite IH.
Qed.

Lemma str_find_prefix p t u : str_find p (t +:+ u) = None → str_find p t = None.
Proof.
  induction t as [|a t IH].
  - rewrite str_app_nil_l. destruct p as [|b p]; [|done]. by destruct u.
  - rewrite str_app_cons. cbn [str_find]. destruct (starts_with p (String a t)) eqn:E.
    + apply (starts_with_app _ _ u) in E. rewrite str_app_cons in E. by rewrite E.
    + destruct (starts_with p (String a (t +:+ u))); [done|].
      destruct (str_find p (t +:+ u)) as [[]|]; [done|]. intros _. by rewrite IH.
Qed.

(** A search does not cross a character that the pattern lacks. *)
Lemma str_find_sep p s c r :
  p ≠ "" → c ∉ bytes p → str_find p s = None →
  str_find p (s +:+ String c r) = '(x, y) ← str_find p r; Some (s +:+ String c x, y).
Proof.
  intros Hp Hc. induction s as [|a s IH].
  - intros _. rewrite str_app_nil_l. cbn [str_find].
    pose proof (starts_with_sep p "" c r Hc) as E. rewrite str_app_nil_l in E. rewrite E.
    destruct p; [done|]. cbn. by destruct (str_find _ r) as [[]|].
  - rewrite str_app_cons. cbn [str_find]. pose proof (starts_with_sep p (String a s) c r Hc) as E.
    rewrite str_app_cons in E. rewrite E. destruct (starts_with p (String a s)); [done|].
    destruct (str_find p s) as [[]|]; [done|]. intros _. rewrite IH by done.
    by destruct (str_find p r) as [[]|].
Qed.

Lemma strip_any_suffix ps s s' : strip_any ps s = Some s' → ∃ u, s = u +:+ s'.
Proof.
  induction ps as [|p ps IH]; cbn; [done|]. destruct (strip_prefix p s) eqn:E; [|apply IH].
  intros [= <-]. exists p. by apply strip_prefix_Some.
Qed.
Lemma trim_with_suffix fuel ps s : ∃ u, s = u +:+ trim_with fuel ps s.
Proof.
  revert s. induction fuel as [|fuel IH]; intros s; cbn; [by exists ""|].
  destruct (strip_any ps s) as [s'|] eqn:E; [|by exists ""]. apply strip_any_suffix in E as [u ->].
  destruct (IH s') as [v E']. exists (u +:+ v). by rewrite str_app_assoc, <- E'.
Qed.
Lemma rev_app s t : String.rev (s +:+ t) = String.rev t +:+ String.rev s.
Proof.
  rewrite <- (of_bytes_bytes (String.rev (s +:+ t))), <- (of_bytes_bytes (String.rev t +:+ String.rev s)).
  by rewrite bytes_rev, !bytes_app, !bytes_rev, reverse_app.
Qed.
Lemma trim_end_prefix s : ∃ u, s = trim_end s +:+ u.
Proof.
  unfold trim_end. destruct (trim_with_suffix (String.length s) ws_strings_rev (String.rev s)) as [u E].
  exists (String.rev u). by rewrite <- rev_app, <- E, rev_involutive.
Qed.

Lemma substring_whole s : String.substring 0 (String.length s) s = s.
Proof. induction s as [|a s IH]; cbn; [done|]. by rewrite IH. Qed.
Lemma substring_app s t : String.substring (String.length s) (String.length (s +:+ t) - String.length s) (s +:+ t) = t.
Proof.
  rewrite length_app_str, Nat.add_comm, Nat.add_sub. induction s as [|a s IH]; [apply substring_whole|done].
Qed.

(** ** The README *)

Lemma readme_section_closed : ∃ z,
  str_find end_marker (readme_section contract_registry) = Some (z, end_marker).
Proof. eexists. vm_compute. reflexivity. Qed.

Lemma newline_not_marker : newline ∉ bytes start_marker.
Proof. apply (bool_decide_unpack _). vm_compute. exact I. Qed.

Lemma replace_or_append_settles readme section body z next :
  section = start_marker +:+ body → str_find end_marker section = Some (z, end_marker) →
  replace_or_append readme section = Some next → replace_or_append next section = Some next.
Proof.
  intros Hs Hz. pose proof (str_find_Some _ _ _ _ Hz) as [Hsec _].
  assert (∀ x after, str_find start_marker (x +:+ section +:+ after) = Some (x, section +:+ after) →
    replace_or_append (x +:+ section +:+ after) section = Some (x +:+ section +:+ after)) as Hagain.
  { intros x after Hx. unfold replace_or_append. rewrite Hx. rewrite Hsec at 1. rewrite str_app_assoc.
    rewrite (str_find_tail end_marker z "" after) by (by rewrite str_app_nil_r, <- Hsec).
    cbn [mbind option_bind]. by rewrite substring_app. }
  unfold replace_or_append at 1. destruct (str_find start_marker readme) as [[before from]|] eqn:Es.
  - destruct (str_find end_marker from) as [[inside rest]|] eqn:Ee; cbn [mbind option_bind]; [|done].
    intros [= <-]. apply Hagain. rewrite Hs, str_app_assoc.
    apply str_find_Some in Es as Hr. destruct Hr as [-> [r ->]]. by eapply str_find_tail.
  - intros [= <-]. destruct (trim_end_prefix readme) as [u Hu].
    assert (str_find start_marker (trim_end readme) = None) as Ht
      by (apply (str_find_prefix _ _ u); by rewrite <- Hu).
    pose proof (Hagain (trim_end readme +:+ String newline (String newline "")) (String newline "")) as Ha.
    assert (∀ x, (trim_end readme +:+ String newline (String newline "")) +:+ x =
                 trim_end readme +:+ String newline (String newline x)) as Happ
      by (intros x; by rewrite str_app_assoc).
    rewrite Happ in Ha. apply Ha. clear Ha Hagain.
    rewrite str_find_sep; [|done|exact newline_not_marker|done].
    pose proof (str_find_sep start_marker "" newline (section +:+ String newline "")) as E2.
    rewrite str_app_nil_l in E2. rewrite E2; [|done|exact newline_not_marker|done].
    by rewrite Hs, str_app_assoc, str_find_here.
Qed.

(** ** The files of a build *)

Lemma app_tail_ne x y s t : String.length s = String.length t → s ≠ t → x +:+ s ≠ y +:+ t.
Proof.
  intros Hl Hne E. apply Hne. apply (f_equal bytes) in E. rewrite !bytes_app in E.
  assert (∀ u, length (bytes u) = String.length u) as Hlen by (intros u; induction u; cbn; congruence).
  apply app_inj_2 in E as [_ E]; [|by rewrite !Hlen].
  rewrite <- (of_bytes_bytes s), <- (of_bytes_bytes t). by rewrite E.
Qed.

Lemma path_join_tail base p s : is_absolute p = false → (∃ u, p = u +:+ s) → ∃ v, path_join base p = v +:+ s.
Proof.
  intros Ha [u ->]. unfold path_join. rewrite Ha. destruct (_ || _).
  - exists (base +:+ u). by rewrite str_app_assoc.
  - exists (base +:+ "/" +:+ u). by rewrite !str_app_assoc.
Qed.

Lemma tails_NoDup n paths tails :
  Forall2 (λ p t, String.length t = n ∧ ∃ v, p = v +:+ t) paths tails → NoDup tails → NoDup paths.
Proof.
  induction 1 as [|p t paths tails [Hl [v ->]] Hall IH]; [constructor|].
  intros [Hin Hd]%NoDup_cons. apply NoDup_cons. split; [|by apply IH].
  intros Hp. apply Hin. clear IH Hd Hin. induction Hall as [|p' t' paths tails [Hl' [v' ->]] _ IH]; [by apply not_elem_of_nil in Hp|].
  apply elem_of_cons in Hp as [E|Hp]; apply elem_of_cons; [left|by right; apply IH].
  destruct (decide (t = t')) as [|Hne]; [done|]. exfalso. by apply (app_tail_ne v v' t t'); [congruence|..].
Qed.

(** A file with given contents, written unless it has them. *)
Definition put (fs : Fs) (pc : string * string) : Fs :=
  if bool_decide (fs.(Fs.files) !! pc.1 = Some pc.2) then fs
  else Fs.mk (<[pc.1 := pc.2]> fs.(Fs.files)) (fs.(Fs.written) ++ [pc.1]).

Lemma put_files fs pc : (put fs pc).(Fs.files) = <[pc.1 := pc.2]> fs.(Fs.files).
Proof. unfold put. case_bool_decide as E; [|done]. by rewrite insert_id. Qed.

Lemma put_all_lookup l fs p :
  NoDup l.*1 → (foldl put fs l).(Fs.files) !! p = default (fs.(Fs.files) !! p) (Some <$> (list_to_map l : gmap string string) !! p).
Proof.
  revert fs. induction l as [|[q c] l IH]; intros fs; cbn; [done|]. intros [Hq Hl]%NoDup_cons.
  rewrite IH by done. destruct (decide (p = q)) as [->|Hne].
  - rewrite lookup_insert_eq. rewrite not_elem_of_list_to_map_1 by done. cbn. by rewrite put_files, lookup_insert_eq.
  - rewrite (lookup_insert_ne _ q p) by done. by rewrite put_files, lookup_insert_ne.
Qed.

Lemma put_again l fs : Forall (λ pc, fs.(Fs.files) !! pc.1 = Some pc.2) l → foldl put fs l = fs.
Proof.
  induction 1 as [|pc l E _ IH]; [done|]. cbn. unfold put at 2. by rewrite bool_decide_eq_true_2.
Qed.

Section build.
Variable host : Host.
Variable wide : string → string.
Variable to_string_pretty : Value → string.
Variables write_error dir_error : string → option IoError.
Hypothesis writes_work : ∀ path, write_error path = None.
Hypothesis dirs_work : ∀ dir, dir_error dir = None.

(** The files that a build is about. *)
Definition generated_outputs (manifest_dir : string) : list (string * string) :=
  let generated_dir := path_join manifest_dir "src/generated" in
  [(path_join generated_dir "mod.rs", mod_rs);
   (path_join generated_dir "cli_help.rs", cli_help_rs);
   (path_join generated_dir "contracts.rs", contracts_rs);
   (path_join generated_dir "mcp_tools.rs", mcp_tools wide to_string_pretty contract_registry);
   (path_join (path_join manifest_dir "templates") "SKILL.md", SKILL_md)].
Definition build_outputs (manifest_dir repo_root readme : string) : list (string * string) :=
  generated_outputs manifest_dir ++ [(path_join repo_root "README.md", readme)].

Lemma build_outputs_NoDup manifest_dir repo_root readme : NoDup (build_outputs manifest_dir repo_root readme).*1.
Proof.
  apply (tails_NoDup 5 _ ["od.rs"; "lp.rs"; "ts.rs"; "ls.rs"; "LL.md"; "ME.md"]).
  - repeat constructor; apply path_join_tail; try done;
      [by exists "m"|by exists "cli_he"|by exists "contrac"|by exists "mcp_too"|by exists "SKI"|by exists "READ"].
  - apply (bool_decide_unpack _). vm_compute. exact I.
Qed.

Lemma write_then {B} path contents (f : unit → M Fs string B) fs :
  (write_if_changed write_error path contents ≫= f) fs = f tt (put fs (path, contents)).
Proof using writes_work.
  unfold mbind, M_bind, write_if_changed, put. rewrite writes_work. cbn. by case_bool_decide.
Qed.
Lemma dir_then {B} what dir (f : unit → M Fs string B) fs : (create_dir dir_error what dir ≫= f) fs = f tt fs.
Proof using dirs_work. unfold mbind, M_bind, create_dir. by rewrite dirs_work. Qed.
Lemma lift_then {A B} (a : A) (f : A → M Fs string B) fs : (lift (Ok a) ≫= f) fs = f a fs.
Proof. done. Qed.
Lemma gets_then {A B} (f : Fs → A) (g : A → M Fs string B) fs : (gets f ≫= g) fs = g (f fs) fs.
Proof. done. Qed.
Lemma bind_then {A B C} (m : M Fs string A) (f : A → M Fs string B) (g : B → M Fs string C) fs :
  ((m ≫= f) ≫= g) fs = (m ≫= λ a, f a ≫= g) fs.
Proof. unfold mbind, M_bind. by destruct (m fs) as [[] ?]. Qed.

Lemma mcp_tools_current float : mcp_tools wide (pretty_json float 0) contract_registry = mcp_tools_rs.
Proof. vm_compute. reflexivity. Qed.
Lemma tool_names_current : map fst contract_registry = TOOL_NAMES.
Proof. reflexivity. Qed.
Lemma generated_current :
  cli_help wide contract_registry = cli_help_rs ∧ contracts contract_registry = Some contracts_rs ∧
  skill_doc contract_registry = SKILL_md.
Proof. vm_compute. by split_and!. Qed.

#[local] Opaque cli_help contracts mcp_tools skill_doc contract_registry readme_section replace_or_append.

Lemma build_main_run manifest_dir repo_root version readme next fs :
  emit_cli_version host = Some version →
  host.(Host.vars) "CARGO_MANIFEST_DIR" = Some manifest_dir →
  parent manifest_dir ≫= parent = Some repo_root →
  fs.(Fs.files) !! path_join repo_root "README.md" = Some readme →
  replace_or_append readme (readme_section contract_registry) = Some next →
  build_main host wide to_string_pretty write_error dir_error fs =
    (Ok (version ++ ["cargo:rerun-if-changed=../rtm-core/tools.toml"]),
     foldl put fs (build_outputs manifest_dir repo_root next)).
Proof using All.
  intros Hv Hm Hp Hr Hn. destruct generated_current as (Hc & Hk & Hs).
  set (fs5 := foldl put fs (generated_outputs manifest_dir)).
  assert (fs5.(Fs.files) !! path_join repo_root "README.md" = Some readme) as Hr5.
  { pose proof (build_outputs_NoDup manifest_dir repo_root next) as Hd. unfold build_outputs in Hd.
    rewrite fmap_app in Hd. apply NoDup_app in Hd as (Hd & Hnew & _).
    unfold fs5. rewrite put_all_lookup, not_elem_of_list_to_map_1; [done| |done].
    intros Hin. apply (Hnew _ Hin). constructor. }
  unfold build_main. rewrite Hv, Hm. cbn [ok_or]. do 2 rewrite lift_then.
  rewrite Hp. cbn [ok_or]. rewrite lift_then.
  unfold write_generated_sources. rewrite bind_then, dir_then, bind_then, write_then, bind_then, write_then.
  rewrite Hk. cbn [ok_or]. rewrite bind_then, lift_then, bind_then, write_then, write_then.
  unfold write_skill_doc. rewrite bind_then, dir_then, write_then, Hc, Hs.
  unfold build_outputs. rewrite foldl_app. fold fs5. change (foldl put fs5 _) with (put fs5 (path_join repo_root "README.md", next)).
  match goal with |- (_ ≫= _) ?x = _ => change x with fs5 end.
  unfold write_readme. rewrite bind_then, gets_then, Hr5. cbn [ok_or].
  rewrite bind_then, lift_then, Hn. cbn [ok_or]. by rewrite bind_then, lift_then, write_then.
Qed.
End build.

(** C34. Building. What the generator makes of the contracts is what the repository has
    under src/generated and in the skill document. A build writes these files and the
    section of the README between its markers (appended when there are none), nothing else,
    and no file that has its contents already: it leaves the README's other text as it was,
    and a second build writes nothing. *)
Theorem build_settles host wide float write_error dir_error manifest_dir repo_root version readme next fs :
  (∀ path, write_error path = None) → (∀ dir, dir_error dir = None) →
  emit_cli_version host = Some version →
  host.(Host.vars) "CARGO_MANIFEST_DIR" = Some manifest_dir →
  parent manifest_dir ≫= parent = Some repo_root →
  fs.(Fs.files) !! path_join repo_root "README.md" = Some readme →
  replace_or_append readme (readme_section contract_registry) = Some next →
  let build := build_main host wide (pretty_json float 0) write_error dir_error in
  let generated file := path_join (path_join manifest_dir "src/generated") file in
  let outputs :=
    [(generated "mod.rs", mod_rs); (generated "cli_help.rs", cli_help_rs);
     (generated "contracts.rs", contracts_rs); (generated "mcp_tools.rs", mcp_tools_rs);
     (path_join (path_join manifest_dir "templates") "SKILL.md", SKILL_md);
     (path_join repo_root "README.md", next)] in
  ∃ lines fs', build fs = (Ok lines, fs') ∧ build fs' = (Ok lines, fs') ∧
    Forall (λ '(path, contents), fs'.(Fs.files) !! path = Some contents) outputs ∧
    (∀ path, path ∉ outputs.*1 → fs'.(Fs.files) !! path = fs.(Fs.files) !! path) ∧
    (∃ before after, next = before +:+ readme_section contract_registry +:+ after ∧
       ((∃ old, readme = before +:+ (old +:+ end_marker) +:+ after ∧
                str_find start_marker readme = Some (before, (old +:+ end_marker) +:+ after) ∧
                str_find end_marker ((old +:+ end_marker) +:+ after) = Some (old, end_marker +:+ after)) ∨
        (str_find start_marker readme = None ∧
         before = trim_end readme +:+ String newline (String newline "") ∧ after = String newline ""))).
Proof.
  intros Hw Hd Hv Hm Hp Hr Hn build generated outputs.
  pose proof (build_outputs_NoDup wide (pretty_json float 0) manifest_dir repo_root next) as Hnd.
  pose proof (build_main_run host wide (pretty_json float 0) write_error dir_error Hw Hd manifest_dir repo_root
    version) as Hrun.
  assert (outputs = build_outputs wide (pretty_json float 0) manifest_dir repo_root next) as Ho
    by (unfold build_outputs, generated_outputs; by rewrite mcp_tools_current).
  rewrite <- Ho in Hnd.
  set (fs' := foldl put fs outputs).
  assert (Forall (λ pc, fs'.(Fs.files) !! pc.1 = Some pc.2) outputs) as Hall.
  { apply Forall_forall. intros [p c] Hin. unfold fs'. rewrite put_all_lookup by done.
    by rewrite (elem_of_list_to_map_1 outputs p c). }
  exists (version ++ ["cargo:rerun-if-changed=../rtm-core/tools.toml"]), fs'. split_and!.
  - unfold build. by rewrite (Hrun readme next), <- Ho.
  - unfold build. rewrite (Hrun next next); [by rewrite <- Ho, put_again|done..| |].
    + rewrite Forall_forall in Hall. apply (Hall (_, _)). rewrite Ho. apply elem_of_app. right. constructor.
    + destruct readme_section_closed as [z Hz]. by eapply replace_or_append_settles.
  - eapply Forall_impl; [exact Hall|]. by intros [].
  - intros p Hin. unfold fs'. by rewrite put_all_lookup, not_elem_of_list_to_map_1.
  - clear -Hn. unfold replace_or_append in Hn.
    destruct (str_find start_marker readme) as [[before from]|] eqn:Es.
    + destruct (str_find end_marker from) as [[inside rest]|] eqn:Ee; cbn [mbind option_bind] in Hn; [|done].
      pose proof (str_find_Some _ _ _ _ Es) as [-> _]. pose proof (str_find_Some _ _ _ _ Ee) as [-> [after ->]].
      apply (inj Some) in Hn as <-. rewrite substring_app. exists before, after. split; [done|]. left. exists inside.
      rewrite !str_app_assoc in *. by split_and!.
    + injection Hn as <-. exists (trim_end readme +:+ String newline (String newline "")), (String newline "").
      split; [by rewrite str_app_assoc|]. by right.
Qed.

(** ** The version *)

Lemma substring_split n s : String.substring 0 n s +:+ String.substring n (String.length s - n) s = s.
Proof.
  revert n. induction s as [|a s IH]; intros [|n]; cbn; try done.
  - by rewrite str_app_nil_l, substring_whole.
  - by rewrite str_app_cons, IH.
Qed.

Lemma join_cons_empty ch l : join EmptyString (ch :: l) = ch +:+ join EmptyString l.
Proof. destruct l; cbn; by rewrite ?str_app_nil_r. Qed.

Lemma chars_from_take fuel k s : ∃ rest, s = join EmptyString (take k (chars_from fuel s)) +:+ rest.
Proof.
  revert k s. induction fuel as [|fuel IH]; intros k s; [exists s; by destruct k|].
  destruct s as [|a s]; [exists ""; by destruct k|]. destruct k as [|k]; [by exists (String a s)|].
  cbn [chars_from]. set (n := (utf8_step _).2). cbn [take]. rewrite join_cons_empty.
  destruct (IH k (String.substring n (String.length (String a s) - n) (String a s))) as [rest E].
  exists rest. rewrite str_app_assoc, <- E. by rewrite substring_split.
Qed.

Lemma join_hex l :
  forallb (λ ch, match ch with String a EmptyString => is_ascii_hexdigit a | _ => false end) l = true →
  Forall (λ a, is_ascii_hexdigit a = true) (bytes (join EmptyString l)) ∧
  String.length (join EmptyString l) = length l.
Proof.
  induction l as [|ch l IH]; [by split|]. rewrite join_cons_empty. cbn [forallb]. intros [Hc Hl]%andb_prop.
  destruct ch as [|a [|]]; try done. destruct (IH Hl) as [Hf E]. rewrite bytes_app, length_app_str. cbn.
  split; [by constructor|]. by rewrite E.
Qed.

(** The revision in a version: up to seven hexadecimal digits in front of what git or the
    environment says, which is a build metadata of a version. *)
Theorem short_sha_digits value sha :
  short_sha value = Some sha →
  1 ≤ String.length sha ≤ 7 ∧ Forall (λ a, is_ascii_hexdigit a = true) (bytes sha) ∧
  ∃ rest, trim value = sha +:+ rest.
Proof.
  unfold short_sha. destruct (negb _ && _) eqn:E; [|done]. intros [= <-].
  apply andb_prop in E as [Hne Hf]. apply negb_true_iff, bool_decide_eq_false in Hne.
  apply join_hex in Hf as [Hf ->]. split; [|split; [done|apply chars_from_take]].
  rewrite length_take. destruct (take 7 (chars (trim value))) eqn:E; [done|].
  apply (f_equal length) in E. rewrite length_take in E. cbn [length] in E. lia.
Qed.

Section concrete.
Definition demo_host : Host :=
  Host.mk (λ name, if String.eqb name "CARGO_PKG_VERSION" then Some "0.4.0"
                   else if String.eqb name "CARGO_MANIFEST_DIR" then Some "/r/crates/rtm-cli"
                   else if String.eqb name "RTM_VERSION_INCLUDE_GIT_SHA" then Some "1"
                   else if String.eqb name "GITHUB_SHA" then Some "0123456789abcdef" else None)
    (Some ("ref: refs/heads/main" +:+ String newline "")) (λ _, None).
Definition demo_readme : string := "# Runtime matters" +:+ String newline "".
Definition demo_fs : Fs := Fs.mk {["/r/README.md" := demo_readme]} [].

Example demo_version : emit_cli_version demo_host = Some
  ["cargo:rerun-if-changed=../../.git/HEAD"; "cargo:rerun-if-changed=../../.git/packed-refs";
   "cargo:rerun-if-changed=../../.git/refs/heads/main"; "cargo:rerun-if-env-changed=RTM_GIT_SHA";
   "cargo:rerun-if-env-changed=GITHUB_SHA"; "cargo:rerun-if-env-changed=RTM_VERSION_INCLUDE_GIT_SHA";
   "cargo:rustc-env=RTM_CLI_VERSION=0.4.0+0123456"].
Proof. vm_compute. reflexivity. Qed.

Lemma build_settles_witness :
  ∃ lines fs', build_main demo_host id (pretty_json (λ _, EmptyString) 0) (λ _, None) (λ _, None) demo_fs = (Ok lines, fs') ∧
    build_main demo_host id (pretty_json (λ _, EmptyString) 0) (λ _, None) (λ _, None) fs' = (Ok lines, fs').
Proof.
  destruct (emit_cli_version demo_host) as [version|] eqn:Ev; [|exfalso; vm_compute in Ev; discriminate Ev].
  destruct (replace_or_append demo_readme (readme_section contract_registry)) as [next|] eqn:En;
    [|exfalso; vm_compute in En; discriminate En].
  destruct (build_settles demo_host id (λ _, EmptyString) (λ _, None) (λ _, None) "/r/crates/rtm-cli" "/r" version
    demo_readme next demo_fs (λ _, eq_refl) (λ _, eq_refl) Ev eq_refl eq_refl eq_refl En) as (lines & fs' & H1 & H2 & _).
  exists lines, fs'. exact (conj H1 H2).
Defined.
End concrete.
