(* ===== verification/CliOutput.v ===== *)
(** * Rendering for people (crates/rtm-core/src/cli_output.rs)

    [render_human] of every response: the text that is printed with [--format human]. *)

From Stdlib Require Import Ascii.
From S2P Require Import Prelude RustStr RustPath Types Parsers Json Errors Lifecycles Proto.
From stdpp Require Import options.

(** [writeln!] of one line. *)
Definition ln (s : string) : string := s +:+ String newline EmptyString.

(** [{:02}]. *)
Definition two_digits (n : N) : string :=
  if (n <? 10)%N then "0" +:+ display_u n else display_u n.

(** [{:<18}]: the width counts characters, that is bytes which do not continue one. *)
Definition is_continuation (a : ascii) : bool :=
  (128 <=? N_of_ascii a)%N && (N_of_ascii a <? 192)%N.
Definition char_count (s : string) : nat :=
  length (filter (λ a, is_continuation a = false) (bytes s)).
Fixpoint spaces (n : nat) : string :=
  match n with 0 => EmptyString | S n => String " "%char (spaces n) end.
Definition pad_right (width : nat) (s : string) : string := s +:+ spaces (width - char_count s).

Definition option_text {A} (f : A → string) (o : option A) : string :=
  match o with Some a => f a | None => "-" end.
Definition display_optional_u32 : option N → string := option_text display_u.
Definition display_optional_i32 : option Z → string := option_text display_i.
Definition display_optional_path : option string → string := option_text to_string_lossy.
Definition display_bool (b : bool) : string := if b then "true" else "false".

Definition format_migrations (values : list string) : string :=
  match values with [] => "none" | _ => join ", " values end.

Definition format_capabilities (values : list RuntimeCapability) : string :=
  match values with [] => "none" | _ => join ", " (map RuntimeCapability_as_str values) end.

Definition format_tmux (tmux : TmuxStatus) : string :=
  if tmux.(TmuxStatus.available) then
    "available (" +:+ default "version unknown" tmux.(TmuxStatus.version) +:+ ")"
  else match tmux.(TmuxStatus.error) with
       | Some error => "unavailable (" +:+ error +:+ ")"
       | None => "unavailable"
       end.

Definition format_readiness (r : DockerReadiness) : string :=
  if r.(DockerReadiness.ready) then
    match r.(DockerReadiness.detail) with
    | None => "ready"
    | Some detail => "ready (" +:+ detail +:+ ")"
    end
  else
    match r.(DockerReadiness.error) with
    | None => "unavailable"
    | Some error => "unavailable (" +:+ error +:+ ")"
    end.

Definition format_log_availability (value : option LogAvailability) : string :=
  match value with
  | Some (LogAvailability.Headless _ _) => "headless"
  | Some LogAvailability.TmuxPaneSnapshot => "tmux_pane_snapshot"
  | Some (LogAvailability.Unavailable reason) => "unavailable:" +:+ LogsUnavailableReason_as_str reason
  | None => "-"
  end.

Definition format_duration (total_seconds : N) : string :=
  let hours := (total_seconds / 3600)%N in
  let minutes := (total_seconds mod 3600 / 60)%N in
  let seconds := (total_seconds mod 60)%N in
  two_digits hours +:+ ":" +:+ two_digits minutes +:+ ":" +:+ two_digits seconds.

Definition event_name (event : RuntimeEvent) : string :=
  match event with
  | RuntimeEvent.Running _ _ _ => "Running"
  | RuntimeEvent.Terminated _ _ _ _ => "Terminated"
  | RuntimeEvent.Lost _ _ => "Lost"
  end.

Section render.
Context `{External}.

Definition display_uuid (u : Uuid) : string := uuid_to_string u.

Definition render_Ack (session_id : Uuid) : string := ln ("kill OK; session_id=" +:+ display_uuid session_id).

Definition render_VersionInfo (v : VersionInfo) : string :=
  ln ("version=" +:+ v.(VersionInfo.version) +:+ " git_sha=" +:+ v.(VersionInfo.git_sha) +:+
      " protocol=" +:+ v.(VersionInfo.protocol_version)).

Definition print_lifecycle_counts (c : LifecycleCounts) : string :=
  ln "lifecycles" +:+
  ln ("  forking             " +:+ display_u c.(LifecycleCounts.forking)) +:+
  ln ("  running             " +:+ display_u c.(LifecycleCounts.running)) +:+
  ln ("  exited              " +:+ display_u c.(LifecycleCounts.exited)) +:+
  ln ("  lost                " +:+ display_u c.(LifecycleCounts.lost)).

Definition recent_lost_line (e : RecentLostEvent) : string :=
  ln ("  " +:+ display_uuid e.(RecentLostEvent.session_id) +:+ " " +:+
      display_LostEvidence e.(RecentLostEvent.evidence) +:+ " " +:+
      to_rfc3339 e.(RecentLostEvent.occurred_at)).

Definition print_recent_lost (recent_lost : list RecentLostEvent) : string :=
  match recent_lost with
  | [] => ln "recent lost           (none in last 24h)"
  | _ => ln "recent lost" +:+ join EmptyString (map recent_lost_line recent_lost)
  end.

Definition launcher_line (l : LauncherStatus) : string :=
  let value :=
    match l.(LauncherStatus.command), l.(LauncherStatus.error) with
    | Some command, _ => command
    | None, Some error => error
    | None, None => "unavailable"
    end in
  ln ("  " +:+ pad_right 18 l.(LauncherStatus.runtime) +:+ " " +:+ value).

Definition render_DoctorResponse (d : DoctorResponse) : string :=
  let version := d.(DoctorResponse.version) in
  let sqlite := d.(DoctorResponse.sqlite) in
  let watchers := d.(DoctorResponse.watchers) in
  let docker := d.(DoctorResponse.docker) in
  let isolation := docker.(DockerStatus.isolation) in
  ln "rtmd" +:+
  ln ("  version             " +:+ version.(VersionInfo.version) +:+ " (git: " +:+
      version.(VersionInfo.git_sha) +:+ ")") +:+
  ln ("  protocol            " +:+ version.(VersionInfo.protocol_version)) +:+
  ln ("  capabilities        " +:+ format_capabilities version.(VersionInfo.capabilities)) +:+
  ln ("  socket              " +:+ d.(DoctorResponse.socket_path)) +:+
  ln ("  uptime              " +:+ format_duration d.(DoctorResponse.uptime_secs)) +:+
  ln "sqlite" +:+
  ln ("  applied migrations  " +:+ display_u (N.of_nat sqlite.(MigrationState.applied)) +:+ " of " +:+
      display_u (N.of_nat sqlite.(MigrationState.total)) +:+ " (" +:+
      format_migrations sqlite.(MigrationState.applied_descriptions) +:+ ")") +:+
  match sqlite.(MigrationState.pending_descriptions) with
  | [] => EmptyString
  | pending => ln ("  pending migrations  " +:+ format_migrations pending)
  end +:+
  print_lifecycle_counts d.(DoctorResponse.lifecycles) +:+
  ln ("process exit watchers " +:+ display_u (N.of_nat watchers.(WatcherCounts.process_exit_watchers))) +:+
  ln ("shim sockets          " +:+ display_u (N.of_nat watchers.(WatcherCounts.shim_sockets))) +:+
  ln ("event waiters         " +:+ display_u (N.of_nat watchers.(WatcherCounts.event_waiters))) +:+
  ln "launchers" +:+
  join EmptyString (map launcher_line d.(DoctorResponse.launchers)) +:+
  ln ("tmux                  " +:+ format_tmux d.(DoctorResponse.tmux)) +:+
  ln "docker" +:+
  ln ("  cli                 " +:+ format_readiness docker.(DockerStatus.cli)) +:+
  ln ("  daemon              " +:+ format_readiness docker.(DockerStatus.daemon)) +:+
  ln ("  manifest validation " +:+ format_readiness docker.(DockerStatus.manifest_validation)) +:+
  ln ("  isolation           supported=" +:+ display_bool isolation.(DockerIsolationStatus.supported) +:+
      " workspace=" +:+ isolation.(DockerIsolationStatus.default_workspace) +:+
      " experimental=" +:+ display_bool isolation.(DockerIsolationStatus.experimental)) +:+
  ln ("last probe sweep      " +:+
      match d.(DoctorResponse.last_probe_sweep) with None => "never" | Some t => to_rfc3339 t end) +:+
  print_recent_lost d.(DoctorResponse.recent_lost).

Definition lifecycle_text (l : Lifecycle) : string :=
  "session_id=" +:+ display_uuid l.(Lifecycle.session_id) +:+
  " state=" +:+ display_LifecycleState l.(Lifecycle.state) +:+
  " runtime=" +:+ RuntimeKind_as_str l.(Lifecycle.runtime) +:+
  " shim_pid=" +:+ display_optional_u32 l.(Lifecycle.shim_pid) +:+
  " runtime_pid=" +:+ display_optional_u32 l.(Lifecycle.runtime_pid) +:+
  " start_time=" +:+ option_text to_rfc3339 l.(Lifecycle.start_time) +:+
  " tmux_pane=" +:+ option_text display_TmuxAddress l.(Lifecycle.tmux_pane) +:+
  " log_availability=" +:+ format_log_availability l.(Lifecycle.log_availability).

Definition render_lifecycles (ls : list Lifecycle) : string :=
  match ls with
  | [] => ln "no lifecycles"
  | _ => join EmptyString (map (λ l, ln (lifecycle_text l)) ls)
  end.

Definition event_text (event : RuntimeEvent) : string :=
  match event with
  | RuntimeEvent.Running session_id runtime_pid start_time =>
      "runtime event=Running session_id=" +:+ display_uuid session_id +:+
      " runtime_pid=" +:+ display_u runtime_pid +:+ " start_time=" +:+ to_rfc3339 start_time
  | RuntimeEvent.Terminated session_id exit_code signal evidence =>
      "runtime event=Terminated session_id=" +:+ display_uuid session_id +:+
      " exit_code=" +:+ display_optional_i32 exit_code +:+
      " signal=" +:+ display_optional_i32 signal +:+
      " evidence=" +:+ display_TerminationEvidence evidence
  | RuntimeEvent.Lost session_id evidence =>
      "runtime event=Lost session_id=" +:+ display_uuid session_id +:+
      " evidence=" +:+ display_LostEvidence evidence
  end.

Definition render_events (events : list RuntimeEvent) : string :=
  join EmptyString (map (λ e, ln (event_text e)) events).

Definition render_EventsPayload (events : list RuntimeEvent) (cursor : N) : string :=
  render_events events +:+ ln ("cursor: " +:+ display_u cursor).

Definition render_PaneSnapshot (s : PaneSnapshot) : string :=
  ln ("pane snapshot; captured_at_ms=" +:+ display_u s.(PaneSnapshot.captured_at_ms) +:+
      " scrollback_lines_requested=" +:+ display_u s.(PaneSnapshot.scrollback_lines_requested) +:+
      " scrollback_lines_included=" +:+ display_u s.(PaneSnapshot.scrollback_lines_included) +:+
      " pane_history_lines=" +:+ display_u s.(PaneSnapshot.pane_history_lines)) +:+
  s.(PaneSnapshot.content).

(** [debug] is [{other:?}]. *)
Definition render_RuntimeResponse (debug : RuntimeResponse → string) (response : RuntimeResponse) : string :=
  match response with
  | RuntimeResponse.Spawned lifecycle event log_dir stdout_path stderr_path =>
      ln ("spawn OK; lifecycle state=" +:+ display_LifecycleState lifecycle.(Lifecycle.state) +:+
          "; runtime event=" +:+ event_name event +:+
          "; runtime_pid=" +:+ display_optional_u32 lifecycle.(Lifecycle.runtime_pid) +:+
          " log_dir=" +:+ display_optional_path log_dir +:+
          " stdout_path=" +:+ display_optional_path stdout_path +:+
          " stderr_path=" +:+ display_optional_path stderr_path)
  | other => "unexpected runtime response: " +:+ debug other
  end.

Definition render_KillByPidResponse (r : KillByPidResponse) : string :=
  ln ("kill OK; pid=" +:+ display_u r.(KillByPidResponse.pid) +:+
      " signal=" +:+ display_i r.(KillByPidResponse.signal) +:+
      " killed_after_grace=" +:+ display_bool r.(KillByPidResponse.killed_after_grace)).

Definition render_KillOutcome (outcome : KillOutcome) : string :=
  match outcome with
  | KillOutcome.Signalled => ln "signalled"
  | KillOutcome.AlreadyExited => ln "already exited"
  end.

Definition render_KilledPayload (outcome : KillOutcome) : string := render_KillOutcome outcome.

Definition render_NudgeResponse (r : NudgeResponse) : string :=
  match r.(NudgeResponse.outcome) with
  | NudgeOutcome.Delivered => ln "nudge delivered"
  | NudgeOutcome.Unsupported reason => ln ("nudge unsupported; reason=" +:+ NudgeFailureReason_as_str reason)
  | NudgeOutcome.Failed reason => ln ("nudge failed; reason=" +:+ NudgeFailureReason_as_str reason)
  end.
End render.
