(* ===== verification/Client.v ===== *)
(** * The client library (crates/rtm-client)

    [RuntimeClient] and [EventWatcher]. The socket is a parameter: [connect] is
    [UnixStream::connect], and [exchange] sends the bytes of a request and gives the bytes
    that come back until the other side closes. *)

From S2P Require Import Prelude RustStr RustPath Types Parsers Json Serde Errors Platform Proto Wire.
From stdpp Require Import options.

Module ClientError.
Inductive ClientError :=
| DaemonUnavailable (socket_path : string) (source : IoError)
| Protocol (source : ProtocolError)
| ErrorResponse (code : ErrorCode) (message : string)
| SpawnConflict (kind : SpawnConflictKind) (lifecycle : Lifecycle)
| UnexpectedResponse (expected got : string).
End ClientError.
Notation ClientError := ClientError.ClientError.

Definition client_error_code (e : ClientError) : ErrorCode :=
  match e with
  | ClientError.DaemonUnavailable _ _ => ErrorCode.RuntimeUnavailable
  | ClientError.Protocol _ | ClientError.UnexpectedResponse _ _ => ErrorCode.ProtocolMismatch
  | ClientError.ErrorResponse code _ => code
  | ClientError.SpawnConflict _ _ => ErrorCode.SpawnConflict
  end.

Definition response_name (response : RuntimeResponse) : string :=
  match response with
  | RuntimeResponse.Spawned _ _ _ _ _ => "Spawned"
  | RuntimeResponse.SpawnConflict _ _ => "SpawnConflict"
  | RuntimeResponse.ValidateTarget _ => "ValidateTarget"
  | RuntimeResponse.Status _ => "Status"
  | RuntimeResponse.Killed _ => "Killed"
  | RuntimeResponse.KillByPid _ => "KillByPid"
  | RuntimeResponse.Nudge _ => "Nudge"
  | RuntimeResponse.Capture _ => "Capture"
  | RuntimeResponse.Version _ => "Version"
  | RuntimeResponse.Watchers _ => "Watchers"
  | RuntimeResponse.Doctor _ => "Doctor"
  | RuntimeResponse.Events _ _ => "Events"
  | RuntimeResponse.CursorExpired _ => "CursorExpired"
  | RuntimeResponse.McpBridge _ => "McpBridge"
  | RuntimeResponse.ShimLaunch _ => "ShimLaunch"
  | RuntimeResponse.Ack => "Ack"
  | RuntimeResponse.Stopping => "Stopping"
  | RuntimeResponse.Error _ => "Error"
  end.

Definition unexpected_response {A} (expected : string) (response : RuntimeResponse)
    : result ClientError A :=
  Err (ClientError.UnexpectedResponse expected (response_name response)).

(** What the typed calls make of a response. *)
Record SpawnedPayload := mkSpawned {
  spawned_lifecycle : Lifecycle;
  spawned_event : RuntimeEvent;
  spawned_log_dir : option string;
  spawned_stdout : option string;
  spawned_stderr : option string }.

Definition as_spawned (response : RuntimeResponse) : result ClientError SpawnedPayload :=
  match response with
  | RuntimeResponse.Spawned lifecycle event log_dir stdout stderr =>
      Ok (mkSpawned lifecycle event log_dir stdout stderr)
  | RuntimeResponse.SpawnConflict kind lifecycle => Err (ClientError.SpawnConflict kind lifecycle)
  | response => unexpected_response "Spawned" response
  end.
Definition as_killed (response : RuntimeResponse) : result ClientError KillOutcome :=
  match response with
  | RuntimeResponse.Killed outcome => Ok outcome
  | response => unexpected_response "Killed" response
  end.
Definition as_kill_by_pid (response : RuntimeResponse) : result ClientError KillOutcome :=
  match response with
  | RuntimeResponse.KillByPid response => Ok response.(KillByPidResponse.outcome)
  | response => unexpected_response "KillByPid" response
  end.
Definition as_status (response : RuntimeResponse) : result ClientError (list Lifecycle) :=
  match response with
  | RuntimeResponse.Status lifecycles => Ok lifecycles
  | response => unexpected_response "Status" response
  end.
Definition as_nudge (response : RuntimeResponse) : result ClientError NudgeResponse :=
  match response with
  | RuntimeResponse.Nudge response => Ok response
  | response => unexpected_response "Nudge" response
  end.
Definition as_capture (response : RuntimeResponse) : result ClientError CaptureResponse :=
  match response with
  | RuntimeResponse.Capture response => Ok response
  | response => unexpected_response "Capture" response
  end.
Definition as_validate_target (response : RuntimeResponse) : result ClientError ValidateTargetResponse :=
  match response with
  | RuntimeResponse.ValidateTarget response => Ok response
  | response => unexpected_response "ValidateTarget" response
  end.
Definition as_doctor (response : RuntimeResponse) : result ClientError DoctorResponse :=
  match response with
  | RuntimeResponse.Doctor doctor => Ok doctor
  | response => unexpected_response "Doctor" response
  end.
Definition as_version (response : RuntimeResponse) : result ClientError VersionInfo :=
  match response with
  | RuntimeResponse.Version version => Ok version
  | response => unexpected_response "Version" response
  end.

Module EventBatch.
Inductive EventBatch := Events (events : list RuntimeEvent) (cursor : N) | CursorExpired (oldest : N).
End EventBatch.
Notation EventBatch := EventBatch.EventBatch.

Definition as_events (response : RuntimeResponse) : result ClientError EventBatch :=
  match response with
  | RuntimeResponse.Events events cursor => Ok (EventBatch.Events events cursor)
  | RuntimeResponse.CursorExpired oldest => Ok (EventBatch.CursorExpired oldest)
  | response => unexpected_response "Events or CursorExpired" response
  end.

Section client.
Context `{External, Json} {W : Type}.
Variable connect : string → M W IoError unit.
Variable exchange : string → M W IoError string.

Definition map_error {E F A} (f : E → F) (m : M W E A) : M W F A :=
  λ w, let '(r, w) := m w in (map_err f r, w).

Definition request_on_stream (rpc : RuntimeRpc) : M W ClientError RuntimeResponse :=
  bytes ← map_error (λ e, ClientError.Protocol (ProtocolError.Io (display_IoError e)))
            (exchange (json_line_bytes (enc RuntimeRpc_codec) rpc));
  response ← lift (map_err ClientError.Protocol (read_json_line (dec RuntimeResponse_codec) bytes).1);
  match response with
  | RuntimeResponse.Error payload =>
      throw (ClientError.ErrorResponse payload.(ErrorPayload.code) payload.(ErrorPayload.message))
  | response => mret response
  end.

Definition client_request (socket_path : string) (rpc : RuntimeRpc) : M W ClientError RuntimeResponse :=
  _ ← map_error (ClientError.DaemonUnavailable socket_path) (connect socket_path);
  request_on_stream rpc.

(** The methods of [RuntimeClient]; the client is the path of its socket. *)
Section methods.
Variable socket_path : string.

Definition typed {A} (rpc : RuntimeRpc) (read : RuntimeResponse → result ClientError A)
    : M W ClientError A :=
  response ← client_request socket_path rpc; lift (read response).

Definition client_spawn (request : SpawnRequest) := typed (RuntimeRpc.Spawn request) as_spawned.
Definition client_kill (request : KillRequest) := typed (RuntimeRpc.Kill request) as_killed.
Definition client_kill_by_pid (request : KillByPidRequest) :=
  typed (RuntimeRpc.KillByPid request) as_kill_by_pid.
Definition client_status (filter : StatusFilter) := typed (RuntimeRpc.Status filter) as_status.
Definition client_nudge (request : NudgeRequest) := typed (RuntimeRpc.Nudge request) as_nudge.
Definition client_capture (request : CaptureRequest) := typed (RuntimeRpc.Capture request) as_capture.
Definition client_validate_target (target : string) :=
  typed (RuntimeRpc.ValidateTarget target) as_validate_target.
Definition client_doctor := typed RuntimeRpc.Doctor as_doctor.
Definition client_version := typed RuntimeRpc.Version as_version.
Definition client_events (since wait_ms : option N) :=
  typed (RuntimeRpc.Events since wait_ms) as_events.

Definition check_protocol_version : M W ClientError unit :=
  version ← client_version;
  let got := version.(VersionInfo.protocol_version) in
  if String.eqb got RUNTIME_PROTOCOL_VERSION then mret tt
  else throw (ClientError.Protocol (ProtocolError.UnsupportedVersion RUNTIME_PROTOCOL_VERSION got)).

End methods.

(** ** event_watcher.rs *)

Definition DEFAULT_WAIT_MS : N := 30000.

(** The builder and the watcher have the same fields; the watcher also has its client. *)
Record EventWatcherBuilder := mkBuilder { builder_cursor : option N; builder_wait_ms : option N }.
Record EventWatcher := mkWatcher {
  watcher_client : string; watcher_cursor : option N; watcher_wait_ms : option N }.

Definition builder_default : EventWatcherBuilder := mkBuilder None None.
Definition builder_since (cursor : N) (b : EventWatcherBuilder) : EventWatcherBuilder :=
  mkBuilder (Some cursor) b.(builder_wait_ms).
Definition set_wait_ms (ms : N) (b : EventWatcherBuilder) : EventWatcherBuilder :=
  mkBuilder b.(builder_cursor) (Some ms).
Definition build_watcher (b : EventWatcherBuilder) (client : string) : EventWatcher :=
  mkWatcher client b.(builder_cursor)
    (match b.(builder_wait_ms) with Some ms => Some ms | None => Some DEFAULT_WAIT_MS end).
Definition connect_watcher (b : EventWatcherBuilder) (client : string) : M W ClientError EventWatcher :=
  _ ← check_protocol_version client; mret (build_watcher b client).

Definition current_cursor (watcher : EventWatcher) : option N := watcher.(watcher_cursor).
Definition seek (cursor : N) (watcher : EventWatcher) : EventWatcher :=
  mkWatcher watcher.(watcher_client) (Some cursor) watcher.(watcher_wait_ms).

Definition update_cursor (batch : EventBatch) (watcher : EventWatcher) : EventWatcher :=
  match batch with
  | EventBatch.Events _ cursor => seek cursor watcher
  | EventBatch.CursorExpired oldest => seek oldest watcher
  end.

(** [next] takes the watcher by mutable reference: it is left as it was when the call fails. *)
Definition next (watcher : EventWatcher) : M W ClientError (EventBatch * EventWatcher) :=
  batch ← client_events watcher.(watcher_client) watcher.(watcher_cursor) watcher.(watcher_wait_ms);
  mret (batch, update_cursor batch watcher).
End client.
