(* ===== verification/CliFormat.v ===== *)
(** * What the command line prints (crates/rtm-cli/src/cli/output.rs)

    Responses and errors as JSON or as text, the format asked for, and the redaction that the
    snapshots of the JSON contract use. The pretty printer of serde_json is a parameter. *)

From Stdlib Require Import Ascii.
From S2P Require Import Prelude RustStr RustPath Types Parsers Json Serde Errors Lifecycles Platform.
From S2P Require Import Proto Wire Contracts CliOutput Client.
From stdpp Require Import options.

Module OutputFormat.
Inductive OutputFormat := Json | Human.
#[export] Instance OutputFormat_eq_dec : EqDecision OutputFormat.
Proof. solve_decision. Defined.
End OutputFormat.
Export (hints) OutputFormat.
Notation OutputFormat := OutputFormat.OutputFormat.

(** ** The format asked for *)

Definition parse_format (value : string) : OutputFormat :=
  if String.eqb value "human" then OutputFormat.Human else OutputFormat.Json.

Fixpoint requested_format_from (previous_was_format : bool) (args : list string) : OutputFormat :=
  match args with
  | [] => OutputFormat.Json
  | arg :: args =>
      let value := to_string_lossy arg in
      if previous_was_format then parse_format value else
      match strip_prefix "--format=" value with
      | Some value => parse_format value
      | None => requested_format_from (String.eqb value "--format") args
      end
  end.
Definition requested_format (args : list string) : OutputFormat := requested_format_from false args.

(** ** Errors *)

(** An [anyhow::Error] of a command: the client's error, or any other. *)
Inductive CliError :=
| OfClient (error : ClientError)
| OfError (error : Error).

Section errors.
Context `{External}.
(** [{:?}] of a spawn conflict. *)
Variable debug_conflict : SpawnConflictKind → Lifecycle → string.

Definition display_ClientError (e : ClientError) : string :=
  match e with
  | ClientError.DaemonUnavailable socket_path source =>
      "rtmd unavailable at " +:+ to_string_lossy socket_path +:+ ": " +:+ display_IoError source
  | ClientError.Protocol source => "rtmd protocol error: " +:+ display_ProtocolError source
  | ClientError.ErrorResponse code message =>
      "rtmd returned " +:+ ErrorCode_as_str code +:+ ": " +:+ message
  | ClientError.SpawnConflict kind lifecycle => "rtmd spawn conflict: " +:+ debug_conflict kind lifecycle
  | ClientError.UnexpectedResponse expected got =>
      "expected " +:+ expected +:+ " response, got " +:+ got
  end.

(** The chain of [Error::source] below an error. *)
Definition protocol_sources (e : ProtocolError) : list string :=
  match e with
  | ProtocolError.Io message | ProtocolError.Json message => [message]
  | ProtocolError.Eof | ProtocolError.UnsupportedVersion _ _ => []
  end.
Definition client_sources (e : ClientError) : list string :=
  match e with
  | ClientError.DaemonUnavailable _ source => [display_IoError source]
  | ClientError.Protocol source => display_ProtocolError source :: protocol_sources source
  | _ => []
  end.

Definition display_CliError (e : CliError) : string :=
  match e with OfClient e => display_ClientError e | OfError e => display_Error e end.

(** [error.chain().skip(1)]. *)
Definition error_chain (e : CliError) : list string :=
  match e with
  | OfClient e => client_sources e
  | OfError e => map display_Source e.(sources)
  end.

Definition error_message (e : CliError) : string :=
  match e with
  | OfClient (ClientError.DaemonUnavailable socket_path IoError.NotFound) =>
      "rtmd is not running; start it with `rtm daemon start` (socket: " +:+
      to_string_lossy socket_path +:+ ")"
  | e => display_CliError e
  end.

Definition error_code (e : CliError) : string :=
  match e with
  | OfClient e => ErrorCode_as_str (client_error_code e)
  | OfError _ => "runtime_error"
  end.

Definition spawn_conflict (e : CliError) : option (SpawnConflictKind * Lifecycle) :=
  match e with
  | OfClient (ClientError.SpawnConflict kind lifecycle) => Some (kind, lifecycle)
  | _ => None
  end.

Definition error_details (e : CliError) : option Value :=
  match spawn_conflict e with
  | Some conflict => Some (json_object [("conflict", as_map (enc SpawnConflictPayload_codec conflict))])
  | None =>
      match error_chain e with
      | [] => None
      | details => Some (json_object [("causes", Array (map Str details))])
      end
  end.

Definition debug_SpawnConflictKind (kind : SpawnConflictKind) : string :=
  match kind with
  | SpawnConflictKind.SessionId => "SessionId"
  | SpawnConflictKind.TmuxPaneOccupancy => "TmuxPaneOccupancy"
  end.

(** [RtmError], as it is serialised. *)
Definition RtmError_value (e : CliError) : Value :=
  Object ([("code", Str (error_code e)); ("message", Str (error_message e))] ++
          match error_details e with Some details => [("details", details)] | None => [] end).

Variable to_string_pretty : Value → string.

(** What goes to standard error. *)
Definition emit_error (format : OutputFormat) (e : CliError) : string :=
  match format with
  | OutputFormat.Json => ln (to_string_pretty (RtmError_value e))
  | OutputFormat.Human =>
      match spawn_conflict e with
      | Some (kind, lifecycle) =>
          ln ("Error: spawn conflict; kind=" +:+ debug_SpawnConflictKind kind +:+
              " session_id=" +:+ uuid_to_string lifecycle.(Lifecycle.session_id) +:+
              " state=" +:+ display_LifecycleState lifecycle.(Lifecycle.state) +:+
              " runtime_pid=" +:+ display_optional_u32 lifecycle.(Lifecycle.runtime_pid) +:+
              " tmux_pane=" +:+ option_text display_TmuxAddress lifecycle.(Lifecycle.tmux_pane))
      | None => ln ("Error: " +:+ error_message e)
      end
  end.

(** What goes to standard output. *)
Definition emit (format : OutputFormat) (json : Value) (human : string) : string :=
  match format with
  | OutputFormat.Json => ln (to_string_pretty json)
  | OutputFormat.Human => human
  end.
End errors.

(** ** Redaction *)

Definition CLI_JSON_SNAPSHOT_REDACTIONS : list (string * string) :=
  [("session_id", "[uuid]"); ("pid", "[pid]"); ("shim_pid", "[pid]");
   ("runtime_pid", "[pid]"); ("started_at", "[timestamp]"); ("start_time", "[timestamp]");
   ("applied_at", "[timestamp]"); ("last_probe_sweep", "[timestamp]"); ("uptime_ms", "[uptime]");
   ("uptime_secs", "[uptime]"); ("socket", "[socket]"); ("socket_path", "[socket]");
   ("log_dir", "[path]"); ("stdout_path", "[path]"); ("stderr_path", "[path]");
   ("git_sha", "[git_sha]"); ("tmux_pane", "[tmux_pane]"); ("tmux", "[tmux]");
   ("available", "[tmux]"); ("ready", "[readiness]"); ("detail", "[detail]");
   ("supported", "[support]"); ("default_workspace", "[workspace]"); ("experimental", "[experimental]");
   ("version", "[version]"); ("forking", "[count]"); ("running", "[count]");
   ("exited", "[count]"); ("lost", "[count]"); ("process_exit_watchers", "[count]");
   ("shim_sockets", "[count]"); ("command", "[command]"); ("error", "[launcher_error]");
   ("message", "[message]"); ("cause", "[cause]")].

Definition is_scalar (v : Value) : bool :=
  match v with Object _ | Array _ => false | _ => true end.

(** [get_mut(field)] and an assignment to what it gives. *)
Definition update_field (field : string) (f : Value → Value) (fields : list (string * Value))
    : list (string * Value) :=
  map (λ kv, if String.eqb kv.1 field then (kv.1, f kv.2) else kv) fields.

Definition redact_field (fields : list (string * Value)) (row : string * string) : list (string * Value) :=
  update_field row.1 (λ v, if is_scalar v then Str row.2 else v) fields.

Definition redact_causes (v : Value) : Value :=
  match v with Array causes => Array (map (λ _, Str "[cause]") causes) | v => v end.

(** The fields of an object before its values are redacted in turn. *)
Definition redact_fields (fields : list (string * Value)) : list (string * Value) :=
  update_field "causes" redact_causes (foldl redact_field fields CLI_JSON_SNAPSHOT_REDACTIONS).

(** [fuel] bounds the depth of the value. *)
Fixpoint redact_fuel (fuel : nat) (v : Value) : Value :=
  match fuel with
  | 0 => v
  | S fuel =>
      match v with
      | Object fields => Object (map (λ kv, (kv.1, redact_fuel fuel kv.2)) (redact_fields fields))
      | Array values => Array (map (redact_fuel fuel) values)
      | v => v
      end
  end.

Fixpoint depth (v : Value) : nat :=
  match v with
  | Object fields => S (foldr (λ kv n, Nat.max (depth kv.2) n) 0 fields)
  | Array values => S (foldr (λ v n, Nat.max (depth v) n) 0 values)
  | _ => 0
  end.

Definition redact_cli_json_snapshot (v : Value) : Value := redact_fuel (depth v) v.

(** ** Theorems *)

(** [sub] is [v] or one of the values inside it. *)
Inductive inside (sub : Value) : Value → Prop :=
| inside_here : inside sub sub
| inside_field k v fields : (k, v) ∈ fields → inside sub v → inside sub (Object fields)
| inside_item v values : v ∈ values → inside sub v → inside sub (Array values).

(** What [redact_fields] does to one field. *)
Definition redact_scalar (k : string) (rows : list (string * string)) (v : Value) : Value :=
  foldl (λ v row, if String.eqb k row.1 then if is_scalar v then Str row.2 else v else v) v rows.
Definition redact_entry (k : string) (v : Value) : Value :=
  let v := redact_scalar k CLI_JSON_SNAPSHOT_REDACTIONS v in
  if String.eqb k "causes" then redact_causes v else v.

Lemma redact_field_map rows fields :
  foldl redact_field fields rows = map (λ kv, (kv.1, redact_scalar kv.1 rows kv.2)) fields.
Proof.
  revert fields. induction rows as [|row rows IH]; intros fields; cbn [foldl].
  - induction fields as [|[] fields IH]; [done|]. cbn [map fst snd]. by rewrite <- IH.
  - rewrite IH. unfold redact_field, update_field. rewrite map_map. apply map_ext. intros [k v]. cbn [fst snd].
    unfold redact_scalar. cbn [foldl]. by destruct (String.eqb k row.1).
Qed.

Lemma redact_fields_map fields :
  redact_fields fields = map (λ kv, (kv.1, redact_entry kv.1 kv.2)) fields.
Proof.
  unfold redact_fields, update_field. rewrite redact_field_map, map_map. apply map_ext. intros [k v].
  unfold redact_entry. cbn [fst snd]. by destruct (String.eqb k "causes").
Qed.

Lemma redact_scalar_nested k rows v : is_scalar v = false → redact_scalar k rows v = v.
Proof.
  unfold redact_scalar. intros Hv. induction rows as [|row rows IH]; [done|]. cbn [foldl].
  rewrite Hv. by destruct (String.eqb k row.1).
Qed.

(** A scalar stays, whatever it is, or becomes a text that does not depend on it. *)
Lemma redact_scalar_const k rows :
  (∀ v, is_scalar v = true → redact_scalar k rows v = v) ∨
  ∃ s, ∀ v, is_scalar v = true → redact_scalar k rows v = Str s.
Proof.
  unfold redact_scalar. induction rows as [|row rows [IH|[s IH]]]; [by left|..]; cbn [foldl];
    destruct (String.eqb k row.1).
  - right. exists row.2. intros v ->. by apply IH.
  - by left.
  - right. exists s. intros v ->. by apply IH.
  - right. by exists s.
Qed.

Lemma redact_entry_scalar k v : is_scalar v = true → is_scalar (redact_entry k v) = true.
Proof.
  intros Hv. unfold redact_entry.
  assert (is_scalar (redact_scalar k CLI_JSON_SNAPSHOT_REDACTIONS v) = true) as Hs
    by (destruct (redact_scalar_const k CLI_JSON_SNAPSHOT_REDACTIONS) as [E|[s E]]; by rewrite E).
  destruct (String.eqb k "causes"); [|done]. by destruct (redact_scalar _ _ _).
Qed.

Lemma redact_entry_idem k v : redact_entry k (redact_entry k v) = redact_entry k v.
Proof.
  unfold redact_entry. destruct (is_scalar v) eqn:Hv.
  - assert (∀ v, is_scalar v = true → redact_causes v = v) as Hc by (by intros []).
    destruct (redact_scalar_const k CLI_JSON_SNAPSHOT_REDACTIONS) as [E|[s E]]; rewrite (E v Hv);
      destruct (String.eqb k "causes"); rewrite ?(Hc v) by done; rewrite ?E by done; by rewrite ?Hc.
  - rewrite (redact_scalar_nested _ _ v) by done. destruct (String.eqb k "causes").
    + rewrite redact_scalar_nested by (by destruct v). destruct v; try done. cbn [redact_causes].
      by rewrite map_map.
    + by rewrite redact_scalar_nested.
Qed.

(** What a row of the table does to every scalar under its key. *)
Lemma redact_entry_row k s v :
  (k, s) ∈ CLI_JSON_SNAPSHOT_REDACTIONS → is_scalar v = true → redact_entry k v = Str s.
Proof.
  intros Hk Hv.
  assert (forallb (λ row, match redact_entry row.1 Null with Str s => String.eqb s row.2 | _ => false end)
            CLI_JSON_SNAPSHOT_REDACTIONS = true) as Hall by (vm_compute; reflexivity).
  rewrite forallb_forall in Hall. specialize (Hall (k, s) (proj1 (list_elem_of_In _ _) Hk)). cbn [fst snd] in Hall.
  unfold redact_entry in *.
  destruct (redact_scalar_const k CLI_JSON_SNAPSHOT_REDACTIONS) as [E|[s' E]]; rewrite E in Hall by done.
  - by destruct (String.eqb k "causes").
  - rewrite E by done. assert (s' = s) as -> by (destruct (String.eqb k "causes"); by apply String.eqb_eq in Hall).
    by destruct (String.eqb k "causes").
Qed.

Lemma redact_fuel_scalar n v : is_scalar v = true → redact_fuel n v = v.
Proof. by destruct n, v. Qed.

Lemma redact_fuel_kind n v : is_scalar (redact_fuel n v) = is_scalar v.
Proof. by destruct n, v. Qed.

Lemma redact_fuel_causes n values :
  redact_fuel n (Array (map (λ _ : Value, Str "[cause]") values)) = Array (map (λ _, Str "[cause]") values).
Proof.
  destruct n as [|n]; [done|]. cbn [redact_fuel]. rewrite map_map. f_equal. apply map_ext. intros v.
  by apply redact_fuel_scalar.
Qed.

(** The redaction of a field's value does not disturb that of the field. *)
Lemma redact_entry_fuel k n v :
  redact_entry k (redact_fuel n (redact_entry k v)) = redact_fuel n (redact_entry k v).
Proof.
  destruct (is_scalar v) eqn:Hv.
  - rewrite redact_fuel_scalar by (by apply redact_entry_scalar). apply redact_entry_idem.
  - unfold redact_entry. rewrite (redact_scalar_nested _ _ v) by done.
    destruct (String.eqb k "causes"); [|by rewrite redact_scalar_nested by (by rewrite redact_fuel_kind)].
    rewrite redact_scalar_nested by (by rewrite redact_fuel_kind; destruct v).
    destruct v; try done; [|by destruct n]. cbn [redact_causes]. rewrite redact_fuel_causes. cbn [redact_causes].
    by rewrite map_map.
Qed.

Lemma redact_fuel_object n fields :
  redact_fuel (S n) (Object fields) =
    Object (map (λ kv, (kv.1, redact_fuel n (redact_entry kv.1 kv.2))) fields).
Proof. cbn [redact_fuel]. by rewrite redact_fields_map, map_map. Qed.

Lemma redact_fuel_idem n v : redact_fuel n (redact_fuel n v) = redact_fuel n v.
Proof.
  revert v. induction n as [|n IH]; intros v; [done|]. destruct v as [| | | | |values|fields]; try done.
  - cbn [redact_fuel]. rewrite map_map. f_equal. by apply map_ext.
  - rewrite !redact_fuel_object, map_map. f_equal. apply map_ext. intros [k v]. cbn [fst snd].
    by rewrite redact_entry_fuel, IH.
Qed.

(** *** Depth *)

Lemma depth_item v values : v ∈ values → depth v < depth (Array values).
Proof.
  cbn [depth]. induction values as [|w values IH]; [by intros ?%elem_of_nil|].
  cbn [foldr]. intros [->|Hv]%elem_of_cons; [lia|]. specialize (IH Hv). lia.
Qed.
Lemma depth_field k v fields : (k, v) ∈ fields → depth v < depth (Object fields).
Proof.
  cbn [depth]. induction fields as [|[k' w] fields IH]; [by intros ?%elem_of_nil|].
  cbn [foldr snd]. intros [[= -> ->]|Hv]%elem_of_cons; [lia|]. specialize (IH Hv). lia.
Qed.

Lemma redact_entry_depth k v : depth (redact_entry k v) ≤ depth v.
Proof.
  destruct (is_scalar v) eqn:Hv.
  - apply (redact_entry_scalar k) in Hv. by destruct (redact_entry k v); simpl; try lia.
  - unfold redact_entry. rewrite redact_scalar_nested by done. destruct (String.eqb k "causes"); [|done].
    destruct v as [| | | | |values|]; try done. cbn [redact_causes depth].
    induction values as [|w values IH]; [done|]. cbn [map foldr depth]. lia.
Qed.

(** Fuel beyond the depth makes no difference. *)
Lemma redact_fuel_enough n m v : depth v ≤ n → n ≤ m → redact_fuel m v = redact_fuel n v.
Proof.
  revert m v. induction n as [|n IH]; intros m v Hd Hm.
  - destruct v; try (by destruct m); cbn [depth] in Hd; lia.
  - destruct m as [|m]; [lia|]. destruct v as [| | | | |values|fields]; try done.
    + cbn [redact_fuel]. f_equal. apply map_ext_in. intros v Hv%list_elem_of_In.
      pose proof (depth_item _ _ Hv). apply IH; lia.
    + rewrite !redact_fuel_object. f_equal. apply map_ext_in. intros [k v] Hv%list_elem_of_In. cbn [fst snd].
      pose proof (depth_field _ _ _ Hv). pose proof (redact_entry_depth k v). f_equal. apply IH; lia.
Qed.

Lemma redact_fuel_depth n v : depth (redact_fuel n v) ≤ depth v.
Proof.
  revert v. induction n as [|n IH]; intros v; [done|]. destruct v as [| | | | |values|fields]; try done.
  - cbn [redact_fuel depth]. apply le_n_S. induction values as [|v values IHv]; [done|]. cbn [map foldr].
    specialize (IH v). lia.
  - rewrite redact_fuel_object. cbn [depth]. apply le_n_S. induction fields as [|[k v] fields IHv]; [done|].
    cbn [map foldr fst snd]. specialize (IH (redact_entry k v)). pose proof (redact_entry_depth k v). lia.
Qed.

Lemma inside_redacted n v fields :
  depth v ≤ n → inside (Object fields) (redact_fuel n v) →
  ∀ k w, (k, w) ∈ fields → redact_entry k w = w.
Proof.
  revert v. induction n as [|n IH]; intros v Hd Hi.
  { destruct v; cbn [depth] in Hd; try lia; inversion Hi. }
  destruct v as [| | | | |values|fields']; [inversion Hi..| |].
  - cbn [redact_fuel] in Hi. inversion Hi as [| |v' ? Hv Hi']; subst.
    apply list_elem_of_In, in_map_iff in Hv as (v & <- & Hv). apply list_elem_of_In in Hv.
    pose proof (depth_item _ _ Hv). apply (IH v); [lia|done].
  - rewrite redact_fuel_object in Hi. inversion Hi as [|k' v' ? Hv Hi'|]; subst.
    + intros k w Hk. apply list_elem_of_In, in_map_iff in Hk as ([k0 w0] & [= <- <-] & _). apply redact_entry_fuel.
    + apply list_elem_of_In, in_map_iff in Hv as ([k0 w0] & [= <- <-] & Hv). apply list_elem_of_In in Hv.
      cbn [fst snd] in Hi'. pose proof (depth_field _ _ _ Hv). pose proof (redact_entry_depth k0 w0).
      apply (IH (redact_entry k0 w0)); [lia|done].
Qed.

(** Redaction. At every depth of a redacted snapshot a field of the table that holds no
    object or array holds the placeholder of its row, so that nothing which varies from run
    to run shows; and to redact a second time changes nothing. *)
Theorem redaction_complete v :
  (∀ fields k s w, inside (Object fields) (redact_cli_json_snapshot v) → (k, w) ∈ fields →
     (k, s) ∈ CLI_JSON_SNAPSHOT_REDACTIONS → is_scalar w = true → w = Str s) ∧
  redact_cli_json_snapshot (redact_cli_json_snapshot v) = redact_cli_json_snapshot v.
Proof.
  unfold redact_cli_json_snapshot. split.
  - intros fields k s w Hi Hw Hk Hs. eapply inside_redacted in Hi; [|done|exact Hw].
    rewrite <- Hi. by apply redact_entry_row.
  - etrans; [symmetry; apply (redact_fuel_enough _ (depth v)); [done|apply redact_fuel_depth]|].
    apply redact_fuel_idem.
Qed.
