(* ===== verification/Cli.v ===== *)
(** * The commands (crates/rtm-cli: main.rs, shared.rs, mcp.rs and cli/)

    Each command over its terminal: what it asks the daemon, what it prints and how it exits.
    The daemon's side of the socket is the pair [connect] and [exchange] of Client.v; what a
    command asks of the system besides is the class [CliOs]. *)

From Stdlib Require Import Ascii.
From S2P Require Import Prelude RustStr RustPath Types Parsers Json Serde Launch Errors Platform.
From S2P Require Import Paths CliSpawn Proto Wire CliOutput Client CliFormat.
From stdpp Require Import options.

(** The world of a command: the other processes, and its own three streams. *)
Module Terminal.
Record Terminal (W : Type) := mk { world : W; stdin : string; stdout : string; stderr : string }.
Arguments mk {W} _ _ _ _.
Arguments world {W} _.
Arguments stdin {W} _.
Arguments stdout {W} _.
Arguments stderr {W} _.
End Terminal.
Notation Terminal := Terminal.Terminal.

(** How a command ends early: an error for [main], or [std::process::exit]. *)
Inductive Halt :=
| Failed (error : CliError)
| Exit (code : Z).

Class CliOs (W : Type) := {
  (** [Path::exists] *)
  path_exists : string → W → bool * W;
  (** [Instant::now] and [sleep], in milliseconds *)
  cli_instant : W → N * W;
  cli_sleep : N → W → W;
}.

(** ** The arguments, as clap parses them *)

Module KillArgs.
Record KillArgs := mk {
  session_id : option Uuid; pid : option N; signal : RuntimeSignal; grace_secs : N }.
End KillArgs.
Notation KillArgs := KillArgs.KillArgs.

Module StatusArgs.
Record StatusArgs := mk {
  session_ids : list Uuid; updated_since : option DateTime; runtime : option string; state : option string }.
End StatusArgs.
Notation StatusArgs := StatusArgs.StatusArgs.

Inductive DaemonCommand := DaemonStart | DaemonStop | DaemonStatus | DaemonLogs.

Module CliCommand.
Inductive CliCommand :=
| Daemon (command : DaemonCommand)
| Spawn (format : OutputFormat) (args : SpawnArgs)
| Kill (format : OutputFormat) (args : KillArgs)
| Nudge (format : OutputFormat) (session_id : Uuid) (content : string)
| Capture (format : OutputFormat) (session_id : Uuid) (scrollback_lines : option N)
| ValidateTarget (format : OutputFormat) (target : string)
| Status (format : OutputFormat) (args : StatusArgs)
| Mcp
| Version (format : OutputFormat)
| Doctor (format : OutputFormat)
| Events (format : OutputFormat) (since wait_ms : option N)
| Initdb
| Shim (session_id : Uuid).
End CliCommand.
Notation CliCommand := CliCommand.CliCommand.

Definition parse_updated_since `{External} (value : string) : result string DateTime :=
  parse_from_rfc3339 value.

Section cli.
Context {W : Type} `{CliOs W, External, Json}.
Variable connect : string → M W IoError unit.
Variable exchange : string → M W IoError string.
(** The environment, file system and directory of the command. *)
Variable environ : Environ.
Variable canonical_path : string → result IoError string.
Variable is_dir : string → bool.
Variable current_dir : result IoError string.
(** [to_string_pretty], and [{:?}] of a conflict, a response, a capture error and a nudge
    response. *)
Variable to_string_pretty : Value → string.
Variable debug_conflict : SpawnConflictKind → Lifecycle → string.
Variable debug : RuntimeResponse → string.
Variable debug_capture : CaptureError → string.
Variable debug_nudge : NudgeResponse → string.

Notation Cmd := (M (Terminal W) Halt).

Definition on_world {E A} (f : E → Halt) (m : M W E A) : Cmd A := λ t,
  let '(r, w) := m t.(Terminal.world) in
  (map_err f r, Terminal.mk w t.(Terminal.stdin) t.(Terminal.stdout) t.(Terminal.stderr)).
Definition in_client {A} : M W ClientError A → Cmd A := on_world (λ e, Failed (OfClient e)).
Definition of_result {A} (r : result Error A) : Cmd A := lift (map_err (λ e, Failed (OfError e)) r).
Definition bail {A} (message : string) : Cmd A := throw (Failed (OfError (anyhow message))).
Definition exit_process {A} (code : Z) : Cmd A := throw (Exit code).

Definition print (s : string) : Cmd unit := λ t,
  (Ok tt, Terminal.mk t.(Terminal.world) t.(Terminal.stdin) (t.(Terminal.stdout) +:+ s) t.(Terminal.stderr)).
Definition eprint (s : string) : Cmd unit := λ t,
  (Ok tt, Terminal.mk t.(Terminal.world) t.(Terminal.stdin) t.(Terminal.stdout) (t.(Terminal.stderr) +:+ s)).

Definition emitted (format : OutputFormat) (json : Value) (human : string) : Cmd unit :=
  print (emit to_string_pretty format json human).

(** ** shared.rs *)

Definition cli_socket_path : Cmd string :=
  of_result (of_path_error (unix_socket_path (env_from_process (var_os environ)))).

Definition shared_request (socket_path : string) (rpc : RuntimeRpc) : Cmd RuntimeResponse :=
  in_client (client_request connect exchange socket_path rpc).

Definition status_filtered (socket_path : string) (filter : StatusFilter) : Cmd RuntimeResponse :=
  shared_request socket_path (RuntimeRpc.Status filter).

Definition shared_status (socket_path : string) (session_id : option Uuid) : Cmd RuntimeResponse :=
  status_filtered socket_path (StatusFilter.mk session_id [] None None None).

Definition shared_events (socket_path : string) (since wait_ms : option N) : Cmd EventBatch :=
  in_client (client_events connect exchange socket_path since wait_ms).

Definition os_step {A} (f : W → A * W) : Cmd A :=
  on_world (E := Halt) id (λ w, let '(a, w) := f w in (Ok a, w)).

Definition SOCKET_REMOVED_POLL : N := 25.

(** One turn of the loop: whether it ends, and how. *)
Definition poll_removed (path : string) (deadline : N) : Cmd (option bool) :=
  now ← os_step cli_instant;
  if (now <? deadline)%N then
    exists_ ← os_step (path_exists path);
    if (exists_ : bool) then
      _ ← os_step (λ w, (tt, cli_sleep SOCKET_REMOVED_POLL w));
      mret None
    else mret (Some true)
  else mret (Some false).

(** The loop; [None] when it has not ended after [fuel] turns. *)
Fixpoint removed_loop (fuel : nat) (path : string) (deadline : N) : Cmd (option bool) :=
  match fuel with
  | 0 => mret None
  | S fuel =>
      ended ← poll_removed path deadline;
      match ended with Some removed => mret (Some removed) | None => removed_loop fuel path deadline end
  end.

(** The result is [None] when the loop has not ended. *)
Definition wait_for_socket_removed (fuel : nat) (path : string) (timeout : N) : Cmd (option unit) :=
  now ← os_step cli_instant;
  removed ← removed_loop fuel path (now + timeout);
  match removed with
  | None => mret None
  | Some true => mret (Some tt)
  | Some false => bail ("socket " +:+ to_string_lossy path +:+ " still exists after daemon stop")
  end.

(** ** The commands *)

Definition run_capture (format : OutputFormat) (session_id : Uuid) (scrollback_lines : option N) : Cmd unit :=
  socket_path ← cli_socket_path;
  response ← shared_request socket_path (RuntimeRpc.Capture (CaptureRequest.mk session_id scrollback_lines));
  match response with
  | RuntimeResponse.Capture (CaptureResponse.Captured snapshot) =>
      emitted format (enc PaneSnapshot_codec snapshot) (render_PaneSnapshot snapshot)
  | RuntimeResponse.Capture (CaptureResponse.Failed error) =>
      bail ("capture failed; error=" +:+ debug_capture error +:+ " session_id=" +:+ uuid_to_string session_id)
  | other => bail ("unexpected capture response: " +:+ debug other)
  end.

Definition run_doctor (format : OutputFormat) : Cmd unit :=
  socket_path ← cli_socket_path;
  response ← shared_request socket_path RuntimeRpc.Doctor;
  match response with
  | RuntimeResponse.Doctor doctor => emitted format (enc DoctorResponse_codec doctor) (render_DoctorResponse doctor)
  | other => bail ("unexpected doctor response: " +:+ debug other)
  end.

Definition run_version (format : OutputFormat) : Cmd unit :=
  socket_path ← cli_socket_path;
  response ← shared_request socket_path RuntimeRpc.Version;
  match response with
  | RuntimeResponse.Version version => emitted format (enc VersionInfo_codec version) (render_VersionInfo version)
  | other => bail ("unexpected version response: " +:+ debug other)
  end.

Definition run_status (format : OutputFormat) (args : StatusArgs) : Cmd unit :=
  socket_path ← cli_socket_path;
  response ← status_filtered socket_path
    (StatusFilter.mk None args.(StatusArgs.session_ids) args.(StatusArgs.updated_since)
       args.(StatusArgs.runtime) args.(StatusArgs.state));
  match response with
  | RuntimeResponse.Status lifecycles =>
      emitted format (enc (list_codec Lifecycle_codec) lifecycles) (render_lifecycles lifecycles)
  | other => bail ("unexpected status response: " +:+ debug other)
  end.

Definition CURSOR_EXPIRED_EXIT_CODE : Z := 2.

(** [CursorExpiredOutput], as it is serialised. *)
Definition CursorExpiredOutput_value (latest_cursor : N) : Value :=
  Object [("cursor_expired", Bool true); ("latest_cursor", Number (Z.of_N latest_cursor))].

Definition emit_cursor_expired (format : OutputFormat) (latest_cursor : N) : Cmd unit :=
  _ ← match format with
      | OutputFormat.Json => print (ln (to_string_pretty (CursorExpiredOutput_value latest_cursor)))
      | OutputFormat.Human => eprint (ln ("cursor expired (latest_cursor: " +:+ display_u latest_cursor +:+ ")"))
      end;
  exit_process CURSOR_EXPIRED_EXIT_CODE.

Definition run_events (format : OutputFormat) (since wait_ms : option N) : Cmd unit :=
  socket_path ← cli_socket_path;
  batch ← shared_events socket_path since wait_ms;
  match batch with
  | EventBatch.Events events cursor =>
      emitted format (enc EventsPayload_codec (events, cursor)) (render_EventsPayload events cursor)
  | EventBatch.CursorExpired oldest => emit_cursor_expired format oldest
  end.

Definition kill_command_pid (format : OutputFormat) (args : KillArgs) (pid : N) : Cmd unit :=
  socket_path ← cli_socket_path;
  outcome ← in_client (client_kill_by_pid connect exchange socket_path
    (KillByPidRequest.mk pid (signal_number args.(KillArgs.signal)) args.(KillArgs.grace_secs)));
  emitted format (enc KilledPayload_codec outcome) (render_KilledPayload outcome).

Definition run_kill (format : OutputFormat) (args : KillArgs) : Cmd unit :=
  match args.(KillArgs.pid) with
  | Some pid => kill_command_pid format args pid
  | None =>
      session_id ← of_result (ok_or (anyhow "session id or --pid is required") args.(KillArgs.session_id));
      socket_path ← cli_socket_path;
      outcome ← in_client (client_kill connect exchange socket_path
        (KillRequest.mk session_id args.(KillArgs.signal) args.(KillArgs.grace_secs)));
      emitted format (enc KilledPayload_codec outcome) (render_KilledPayload outcome)
  end.

Definition nudge_failed_message (reason : NudgeFailureReason) (session_id : Uuid) : string :=
  match reason with
  | NudgeFailureReason.SessionEnded =>
      "nudge failed; reason=" +:+ NudgeFailureReason_as_str reason +:+ " session_id=" +:+
      uuid_to_string session_id +:+ " detail=session is no longer running"
  | _ =>
      "nudge failed; reason=" +:+ NudgeFailureReason_as_str reason +:+ " session_id=" +:+
      uuid_to_string session_id
  end.

Definition run_nudge (format : OutputFormat) (session_id : Uuid) (content : string) : Cmd unit :=
  socket_path ← cli_socket_path;
  response ← shared_request socket_path (RuntimeRpc.Nudge (NudgeRequest.mk session_id content));
  match response with
  | RuntimeResponse.Nudge response =>
      if response.(NudgeResponse.delivered) then
        emitted format (enc NudgeResponse_codec response) (render_NudgeResponse response)
      else
        match response.(NudgeResponse.outcome) with
        | NudgeOutcome.Unsupported reason =>
            bail ("nudge unsupported; reason=" +:+ NudgeFailureReason_as_str reason +:+ " session_id=" +:+
                  uuid_to_string session_id)
        | NudgeOutcome.Failed reason => bail (nudge_failed_message reason session_id)
        | NudgeOutcome.Delivered => bail ("inconsistent nudge response: " +:+ debug_nudge response)
        end
  | other => bail ("unexpected nudge response: " +:+ debug other)
  end.

Definition validate_target_outcome_name (outcome : ValidateTargetOutcome) : string :=
  match outcome with
  | ValidateTargetOutcome.Valid => "Valid"
  | ValidateTargetOutcome.InvalidTarget _ => "InvalidTarget"
  | ValidateTargetOutcome.TmuxPaneDead _ => "TmuxPaneDead"
  | ValidateTargetOutcome.UnsupportedTarget _ => "UnsupportedTarget"
  end.

Definition emit_validate_target (format : OutputFormat) (target : string) (response : ValidateTargetResponse)
    : Cmd unit :=
  match format with
  | OutputFormat.Json => print (ln (to_string_pretty (enc ValidateTargetResponse_codec response)))
  | OutputFormat.Human =>
      let validity := if response.(ValidateTargetResponse.valid) then "valid" else "invalid" in
      print (ln (target +:+ ": " +:+ validity +:+ " (" +:+
                 validate_target_outcome_name response.(ValidateTargetResponse.outcome) +:+ ")"))
  end.

Definition run_validate_target (format : OutputFormat) (target : string) : Cmd unit :=
  socket_path ← cli_socket_path;
  response ← in_client (client_validate_target connect exchange socket_path target);
  _ ← emit_validate_target format target response;
  if response.(ValidateTargetResponse.valid) then mret tt else exit_process 1.

Definition run_spawn (format : OutputFormat) (args : SpawnArgs) : Cmd unit :=
  '(socket_path, request) ← of_result (spawn_request_of_args canonical_path is_dir current_dir environ args);
  payload ← in_client (client_spawn connect exchange socket_path request);
  let response := RuntimeResponse.Spawned payload.(spawned_lifecycle) payload.(spawned_event)
    payload.(spawned_log_dir) payload.(spawned_stdout) payload.(spawned_stderr) in
  emitted format (enc RuntimeResponse_codec response) (render_RuntimeResponse debug response).

(** *** daemon.rs *)

Definition STOP_TIMEOUT : N := 2000.

(** [fuel] is that of the wait, and the result its. *)
Definition daemon_stop (fuel : nat) : Cmd (option unit) :=
  socket_path ← cli_socket_path;
  response ← shared_request socket_path RuntimeRpc.Stop;
  match response with
  | RuntimeResponse.Stopping =>
      removed ← wait_for_socket_removed fuel socket_path STOP_TIMEOUT;
      match removed with
      | None => mret None
      | Some tt => _ ← print (ln "rtmd stopped"); mret (Some tt)
      end
  | other => bail ("unexpected stop response: " +:+ debug other)
  end.

Definition daemon_status : Cmd unit :=
  socket_path ← cli_socket_path;
  present ← os_step (path_exists socket_path);
  if (present : bool) then print (ln ("rtmd socket present at " +:+ to_string_lossy socket_path))
  else print (ln "rtmd not running").

Definition daemon_logs : Cmd unit := print (ln "daemon logs are not persisted in pass 1").

(** *** mcp.rs *)

Definition bridge_line (socket_path line : string) : Cmd (option string) :=
  response ← shared_request socket_path (RuntimeRpc.McpBridge line);
  match response with
  | RuntimeResponse.McpBridge line => mret line
  | other => bail ("unexpected MCP bridge response: " +:+ debug other)
  end.

(** [reader.read_line]: the line, empty at the end of the input. *)
Definition read_stdin_line : Cmd string := λ t,
  let '(line, rest) := read_until_newline t.(Terminal.stdin) in
  let t := Terminal.mk t.(Terminal.world) rest t.(Terminal.stdout) t.(Terminal.stderr) in
  if utf8_valid line then (Ok line, t)
  else (Err (Failed (OfError (anyhow "stream did not contain valid UTF-8"))), t).

(** One turn of the loop: whether the input goes on. *)
Definition bridge_turn (socket_path : string) : Cmd bool :=
  line ← read_stdin_line;
  if String.eqb line "" then mret false else
  let request_line := trim_end line in
  if String.eqb request_line "" then mret true else
  response ← bridge_line socket_path request_line;
  match response with
  | Some response_line => _ ← print (ln response_line); mret true
  | None => mret true
  end.

(** [fuel] bounds the lines of the input; [false] when it ran out. *)
Fixpoint run_stdio (fuel : nat) (socket_path : string) : Cmd bool :=
  match fuel with
  | 0 => mret false
  | S fuel =>
      more ← bridge_turn socket_path;
      if (more : bool) then run_stdio fuel socket_path else mret true
  end.

Definition run_mcp (fuel : nat) : Cmd bool := socket_path ← cli_socket_path; run_stdio fuel socket_path.

(** ** main.rs *)

(** [shim_session_id] of the arguments, the first of which is the program. *)
Definition shim_session_id (args : list string) : result Error (option Uuid) :=
  match drop 1 args with
  | shim :: args =>
      if negb (String.eqb shim "__shim") then Ok None else
      flag ← ok_or (anyhow "__shim requires --session-id") (head args);
      if negb (String.eqb flag "--session-id") then
        Err (anyhow ("__shim expects --session-id, got " +:+ to_string_lossy flag))
      else
      session_id ← ok_or (anyhow "__shim requires a session id") (head (tail args));
      if negb (utf8_valid session_id) then
        Err (anyhow ("invalid unicode session id: " +:+ to_string_lossy session_id))
      else
      session_id ← context "invalid shim session id" (map_err anyhow (uuid_parse_str session_id));
      Ok (Some session_id)
  | [] => Ok None
  end.

(** What this file does not run: the daemon, [LifecycleStore::open] and the shim. *)
Variable run_daemon : Cmd unit.
Variable open_store : string → Cmd unit.
Variable run_shim : Uuid → Cmd unit.

Definition run_initdb : Cmd unit :=
  path ← of_result (of_path_error (db_path (env_from_process (var_os environ))));
  _ ← open_store path;
  print (ln ("rtm db initialized at " +:+ to_string_lossy path)).

(** [Cli::run]; [None] when a loop of the command has not ended after [fuel] turns. *)
Definition run_command (fuel : nat) (command : CliCommand) : Cmd (option unit) :=
  match command with
  | CliCommand.Daemon DaemonStart => _ ← run_daemon; mret (Some tt)
  | CliCommand.Daemon DaemonStop => daemon_stop fuel
  | CliCommand.Daemon DaemonStatus => _ ← daemon_status; mret (Some tt)
  | CliCommand.Daemon DaemonLogs => _ ← daemon_logs; mret (Some tt)
  | CliCommand.Spawn format args => _ ← run_spawn format args; mret (Some tt)
  | CliCommand.Kill format args => _ ← run_kill format args; mret (Some tt)
  | CliCommand.Nudge format session_id content => _ ← run_nudge format session_id content; mret (Some tt)
  | CliCommand.Capture format session_id lines => _ ← run_capture format session_id lines; mret (Some tt)
  | CliCommand.ValidateTarget format target => _ ← run_validate_target format target; mret (Some tt)
  | CliCommand.Status format args => _ ← run_status format args; mret (Some tt)
  | CliCommand.Mcp => ended ← run_mcp fuel; mret (if (ended : bool) then Some tt else None)
  | CliCommand.Version format => _ ← run_version format; mret (Some tt)
  | CliCommand.Doctor format => _ ← run_doctor format; mret (Some tt)
  | CliCommand.Events format since wait_ms => _ ← run_events format since wait_ms; mret (Some tt)
  | CliCommand.Initdb => _ ← run_initdb; mret (Some tt)
  | CliCommand.Shim session_id => _ ← run_shim session_id; mret (Some tt)
  end.

(** The rest of [main]: the exit status, if the command ended, and the terminal. [args] are
    the arguments that [command] was parsed from. *)
Definition run_main (fuel : nat) (args : list string) (command : CliCommand) (t : Terminal W)
    : option Z * Terminal W :=
  match run_command fuel command t with
  | (Ok ended, t) => ((λ _, 0%Z) <$> ended, t)
  | (Err (Exit code), t) => (Some code, t)
  | (Err (Failed error), t) =>
      (Some 1%Z, (eprint (emit_error debug_conflict to_string_pretty (requested_format (drop 1 args)) error) t).2)
  end.
End cli.

(** ** What a command reports *)

Section reports.
Context {W : Type} `{CliOs W, External, Json}.
Variable to_string_pretty : Value → string.
Variable debug_conflict : SpawnConflictKind → Lifecycle → string.

Notation Cmd := (M (Terminal W) Halt).

Definition streams (i o e : string) (t : Terminal W) : Prop :=
  t.(Terminal.stdin) = i ∧ t.(Terminal.stdout) = o ∧ t.(Terminal.stderr) = e.

(** A step that prints nothing, reads nothing and does not exit. *)
Definition silent {A} (m : Cmd A) : Prop := ∀ i o e,
  hoare (streams i o e) m (λ _, streams i o e) (λ h t, streams i o e t ∧ ∃ error, h = Failed error).

(** One document is printed, or nothing and there is an error to report; or the command
    exits by itself: with 1 after a document, with 2 after the message of an expired cursor. *)
Definition one_document (format : OutputFormat) (s : string) : Prop :=
  format = OutputFormat.Json → ∃ json, s = ln (to_string_pretty json).
Definition reports {A} (format : OutputFormat) (m : Cmd A) : Prop := ∀ i o e,
  hoare (streams i o e) m
    (λ _ t, ∃ s, one_document format s ∧ streams i (o +:+ s) e t)
    (λ h t, match h with
            | Failed _ => streams i o e t
            | Exit code =>
                (code = 1%Z ∧ ∃ s, one_document format s ∧ streams i (o +:+ s) e t) ∨
                (code = CURSOR_EXPIRED_EXIT_CODE ∧ ∃ oldest,
                   match format with
                   | OutputFormat.Json =>
                       streams i (o +:+ ln (to_string_pretty (CursorExpiredOutput_value oldest))) e t
                   | OutputFormat.Human =>
                       streams i o (e +:+ ln ("cursor expired (latest_cursor: " +:+ display_u oldest +:+ ")")) t
                   end)
            end).

Lemma silent_bind {A B} (m : Cmd A) (f : A → Cmd B) : silent m → (∀ a, silent (f a)) → silent (m ≫= f).
Proof. intros Hm Hf i o e. by eapply hoare_bind; [apply Hm|intros a; apply Hf]. Qed.
Lemma silent_of_result {A} (r : result Error A) : silent (of_result r).
Proof. intros i o e t Ht. destruct r; cbn; eauto. Qed.
Lemma silent_ret {A} (a : A) : silent (mret a).
Proof. by intros i o e t Ht. Qed.
Lemma silent_bail {A} message : silent (bail (A := A) message).
Proof. intros i o e t Ht. cbn. eauto. Qed.
Lemma silent_in_client {A} (m : M W ClientError A) : silent (in_client m).
Proof.
  intros i o e [w si so se] Ht. unfold in_client, on_world. cbn [Terminal.world].
  destruct (m w) as [[a|err] w']; cbn [map_err]; [exact Ht|]. split; [exact Ht|by eexists].
Qed.

Lemma reports_bind {A B} format (m : Cmd A) (f : A → Cmd B) :
  silent m → (∀ a, reports format (f a)) → reports format (m ≫= f).
Proof.
  intros Hm Hf i o e. eapply hoare_bind; [|intros a; apply Hf]. eapply hoare_conseq; [apply Hm|done..|].
  by intros h t [Ht [error ->]].
Qed.
Lemma reports_bail {A} format message : reports format (bail (A := A) message).
Proof. intros i o e t Ht. exact Ht. Qed.

Lemma reports_emitted format json human : reports format (emitted to_string_pretty format json human).
Proof.
  intros i o e t (<- & <- & <-). unfold emitted, print. cbn. eexists. split; [|by repeat split].
  intros ->. by eexists.
Qed.

Lemma reports_validate format target response :
  reports format (_ ← emit_validate_target to_string_pretty format target response;
                  if response.(ValidateTargetResponse.valid) then mret tt else exit_process 1).
Proof.
  intros i o e t (<- & <- & <-).
  assert (∃ s, one_document format s ∧
            emit_validate_target (W := W) to_string_pretty format target response = print s) as (s & Hs & ->).
  { destruct format; cbn [emit_validate_target]; eexists; (split; [|reflexivity]); [|done]. intros _. by eexists. }
  unfold mbind, M_bind, print. cbv beta iota. destruct (ValidateTargetResponse.valid response); cbn.
  - exists s. split; [done|by repeat split].
  - left. split; [done|]. exists s. split; [done|by repeat split].
Qed.

Lemma reports_expired format oldest : reports format (emit_cursor_expired (W := W) to_string_pretty format oldest).
Proof.
  intros i o e t (<- & <- & <-). unfold emit_cursor_expired, mbind, M_bind.
  destruct format; cbn; right; (split; [done|]); exists oldest; by repeat split.
Qed.
End reports.

Create HintDb cli discriminated.
#[export] Hint Resolve silent_bind silent_of_result silent_ret silent_bail silent_in_client : cli.
#[export] Hint Resolve reports_bail reports_emitted reports_validate reports_expired : cli.

(** The commands that ask the daemon one thing and print the answer. *)
Definition command_format (command : CliCommand) : option OutputFormat :=
  match command with
  | CliCommand.Spawn format _ | CliCommand.Kill format _ | CliCommand.Nudge format _ _
  | CliCommand.Capture format _ _ | CliCommand.ValidateTarget format _ | CliCommand.Status format _
  | CliCommand.Version format | CliCommand.Doctor format | CliCommand.Events format _ _ => Some format
  | CliCommand.Daemon _ | CliCommand.Mcp | CliCommand.Initdb | CliCommand.Shim _ => None
  end.

Section commands.
Context {W : Type} `{CliOs W, External, Json}.
Variable connect : string → M W IoError unit.
Variable exchange : string → M W IoError string.
Variable environ : Environ.
Variable canonical_path : string → result IoError string.
Variable is_dir : string → bool.
Variable current_dir : result IoError string.
Variable to_string_pretty : Value → string.
Variable debug_conflict : SpawnConflictKind → Lifecycle → string.
Variable debug : RuntimeResponse → string.
Variable debug_capture : CaptureError → string.
Variable debug_nudge : NudgeResponse → string.
Variable run_daemon : M (Terminal W) Halt unit.
Variable open_store : string → M (Terminal W) Halt unit.
Variable run_shim : Uuid → M (Terminal W) Halt unit.

Notation run_command := (run_command connect exchange environ canonical_path is_dir current_dir to_string_pretty
  debug debug_capture debug_nudge run_daemon open_store run_shim).
Notation run_main := (run_main connect exchange environ canonical_path is_dir current_dir to_string_pretty
  debug_conflict debug debug_capture debug_nudge run_daemon open_store run_shim).

Ltac reports_step :=
  match goal with
  | |- reports _ _ (_ ← cli_socket_path _; _) => apply reports_bind; [apply silent_of_result|intros ?]
  | |- reports _ _ (_ ← emit_validate_target _ _ _ _; _) => apply reports_validate
  | |- reports _ _ (_ ← _; _) => apply reports_bind; [eauto with cli|intros ?]
  | |- reports _ _ (match ?r with _ => _ end) => destruct r
  | |- _ => solve [auto with cli]
  end.

Lemma ended_command (m : M (Terminal W) Halt unit) t ended t' :
  (_ ← m; mret (Some tt)) t = (Ok ended, t') → ended = Some tt.
Proof. unfold mbind, M_bind. destruct (m t) as [[[]|h] t1]; by intros [= <- _]. Qed.

Lemma command_reports_once fuel command format :
  command_format command = Some format → reports to_string_pretty format (run_command fuel command).
Proof.
  assert (∀ m : M (Terminal W) Halt unit, reports to_string_pretty format m →
            reports to_string_pretty format (_ ← m; mret (Some tt))) as Hret.
  { intros m Hm i o e t Ht. specialize (Hm i o e t Ht). unfold mbind, M_bind.
    by destruct (m t) as [[[]|h] t']. }
  destruct command; cbn [command_format]; intros [= ->]; cbn [Cli.run_command]; apply Hret.
  - unfold run_spawn. repeat reports_step.
  - unfold run_kill, kill_command_pid. repeat reports_step.
  - unfold run_nudge, shared_request. repeat reports_step.
  - unfold run_capture, shared_request. repeat reports_step.
  - unfold run_validate_target. repeat reports_step.
  - unfold run_status, status_filtered, shared_request. repeat reports_step.
  - unfold run_version, shared_request. repeat reports_step.
  - unfold run_doctor, shared_request. repeat reports_step.
  - unfold run_events, shared_events. repeat reports_step.
Qed.

End commands.

(** ** Stopping the daemon *)

Section stopping.
Context {W : Type} `{CliOs W, External, Json}.
(** No call turns the clock back, and a sleep advances it. *)
Variable time : W → N.
Hypothesis instant_time : ∀ w, (cli_instant w).1 = time w ∧ (time w ≤ time (cli_instant w).2)%N.
Hypothesis sleep_time : ∀ ms w, (time w + ms ≤ time (cli_sleep ms w))%N.
Hypothesis exists_time : ∀ path w, (time w ≤ time (path_exists path w).2)%N.

Notation Cmd := (M (Terminal W) Halt).

(** What the loop leaves behind. *)
Definition removed_after (path : string) (deadline : N) (t : Terminal W) (r : result Halt (option bool))
    (t' : Terminal W) : Prop :=
  ∃ w', t' = Terminal.mk w' t.(Terminal.stdin) t.(Terminal.stdout) t.(Terminal.stderr) ∧
  match r with
  | Ok (Some true) => ∃ w, path_exists path w = (false, w')
  | Ok (Some false) => (deadline ≤ time w')%N
  | _ => False
  end.

Lemma poll_removed_spec path deadline t :
  match poll_removed path deadline t with
  | (Ok None, t') => ∃ w', t' = Terminal.mk w' t.(Terminal.stdin) t.(Terminal.stdout) t.(Terminal.stderr) ∧
                           (time t.(Terminal.world) + SOCKET_REMOVED_POLL ≤ time w')%N
  | (r, t') => removed_after path deadline t r t'
  end ∧ ((deadline ≤ time t.(Terminal.world))%N → (poll_removed path deadline t).1 = Ok (Some false)).
Proof using All.
  destruct t as [w si so se]. unfold poll_removed, os_step, on_world, mbind, M_bind, removed_after.
  pose proof (instant_time w) as [Et Hw]. destruct (cli_instant w) as [now w1] eqn:E1. cbn [fst snd] in Et, Hw. subst now.
  pose proof (exists_time path w1) as He. destruct (path_exists path w1) as [b w2] eqn:E2. cbn [snd] in He.
  pose proof (sleep_time SOCKET_REMOVED_POLL w2) as Hs.
  cbn. rewrite E1. cbn. destruct (N.ltb_spec (time w) deadline); cbn; rewrite ?E2; [destruct b|]; cbn.
  - split; [|lia]. eexists. split; [reflexivity|]. lia.
  - split; [|lia]. eexists. split; [reflexivity|]. by exists w1.
  - split; [|done]. eexists. split; [reflexivity|]. lia.
Qed.

Lemma removed_loop_spec fuel path deadline t :
  (deadline ≤ time t.(Terminal.world) + SOCKET_REMOVED_POLL * N.of_nat fuel)%N →
  let '(r, t') := removed_loop (S fuel) path deadline t in removed_after path deadline t r t'.
Proof using All.
  revert t. induction fuel as [|fuel IH]; intros t Hd; cbn [removed_loop]; unfold mbind at 1, M_bind at 1;
    pose proof (poll_removed_spec path deadline t) as [Hp Hend];
    destruct (poll_removed path deadline t) as [[[b|]|h] t1]; try done.
  - exfalso. cbn [fst] in Hend. specialize (Hend ltac:(lia)). done.
  - destruct Hp as (w1 & -> & Hw1). apply (IH (Terminal.mk w1 _ _ _)). cbn [Terminal.world].
    unfold SOCKET_REMOVED_POLL in *. lia.
Qed.

Lemma wait_removed_spec fuel path timeout t :
  (timeout ≤ SOCKET_REMOVED_POLL * N.of_nat fuel)%N →
  ∃ w', (wait_for_socket_removed (S fuel) path timeout t).2 =
          Terminal.mk w' t.(Terminal.stdin) t.(Terminal.stdout) t.(Terminal.stderr) ∧
  match (wait_for_socket_removed (S fuel) path timeout t).1 with
  | Ok (Some tt) => ∃ w, path_exists path w = (false, w')
  | Ok None => False
  | Err h => ∃ error, h = Failed error
  end.
Proof using All.
  intros Hf. destruct t as [w si so se]. pose proof (instant_time w) as [Et Hw].
  unfold wait_for_socket_removed, os_step, on_world, mbind, M_bind.
  destruct (cli_instant w) as [now w1] eqn:E1. cbn [fst snd] in Et, Hw. subst now.
  cbn -[removed_loop]. rewrite E1. cbn -[removed_loop].
  pose proof (removed_loop_spec fuel path (time w + timeout) (Terminal.mk w1 si so se)) as Hl.
  cbn [Terminal.world] in Hl. specialize (Hl ltac:(lia)).
  destruct (removed_loop _ _ _ _) as [r t1]. destruct Hl as (w2 & -> & Hr).
  destruct r as [[[]|]|h]; cbn; [| |done..]; exists w2; (split; [done|]); [done|by eexists].
Qed.
End stopping.

(** Stopping. [rtm daemon stop] ends: 81 turns of its wait are enough on any clock that
    no call turns back and that a sleep advances. It says that the daemon has stopped exactly
    when the daemon answered that it would and a look at the socket's path then found it
    gone; otherwise it fails and prints nothing. *)
Theorem daemon_stop_total {W : Type} `{!CliOs W, !External, !Json} (time : W → N) connect exchange environ debug
    fuel t :
  (∀ w, (cli_instant w).1 = time w ∧ (time w ≤ time (cli_instant w).2)%N) →
  (∀ ms w, (time w + ms ≤ time (cli_sleep ms w))%N) →
  (∀ path w, (time w ≤ time (path_exists path w).2)%N) →
  81 ≤ fuel →
  match daemon_stop connect exchange environ debug fuel t with
  | (Ok None, _) => False
  | (Ok (Some tt), t') =>
      t'.(Terminal.stdout) = t.(Terminal.stdout) +:+ ln "rtmd stopped" ∧
      ∃ path w w1, unix_socket_path (env_from_process (var_os environ)) = Ok path ∧
        client_request connect exchange path RuntimeRpc.Stop t.(Terminal.world) = (Ok RuntimeResponse.Stopping, w) ∧
        path_exists path w1 = (false, t'.(Terminal.world))
  | (Err h, t') => t'.(Terminal.stdout) = t.(Terminal.stdout) ∧ ∃ error, h = Failed error
  end.
Proof.
  intros Hi Hs He Hf. destruct t as [w si so se].
  unfold daemon_stop, cli_socket_path, of_result, lift, mbind at 1, M_bind at 1.
  destruct (unix_socket_path _) as [path|e]; cbn [of_path_error map_err]; [|split; [done|by eexists]].
  unfold shared_request, in_client, on_world, mbind at 1, M_bind at 1. cbn [Terminal.world Terminal.stdin
    Terminal.stdout Terminal.stderr].
  destruct (client_request connect exchange path RuntimeRpc.Stop w) as [[response|e] w1] eqn:Er;
    cbn [map_err]; [|split; [done|by eexists]].
  destruct response; try (split; [done|by eexists]).
  destruct fuel as [|fuel]; [lia|].
  destruct (wait_removed_spec time Hi Hs He fuel path STOP_TIMEOUT (Terminal.mk w1 si so se)) as (w2 & Et & Hr);
    [unfold STOP_TIMEOUT, SOCKET_REMOVED_POLL; lia|].
  unfold mbind at 1, M_bind at 1. destruct (wait_for_socket_removed _ _ _ _) as [r t2].
  cbn [fst snd] in Et, Hr. subst t2. destruct r as [[[]|]|h]; cbn; [|done|by split].
  split; [done|]. destruct Hr as (w' & Hr). exists path, w1, w'. by split_and!.
Qed.

(** ** The stdio bridge *)

(** The lines of an input, each with its newline. *)
Fixpoint stdin_lines (fuel : nat) (input : string) : list string :=
  match fuel with
  | 0 => []
  | S fuel =>
      let '(line, rest) := read_until_newline input in
      if String.eqb line "" then [] else line :: stdin_lines fuel rest
  end.

Lemma read_until_newline_rest input line rest :
  read_until_newline input = (line, rest) → input = line +:+ rest ∧ (line = "" ↔ input = "").
Proof.
  revert line rest. induction input as [|a input IH]; intros line rest; cbn [read_until_newline].
  - by intros [= <- <-].
  - case_decide.
    + by intros [= <- <-].
    + destruct (read_until_newline input) as [line' rest'] eqn:E. intros [= <- <-].
      destruct (IH _ _ eq_refl) as [-> _]. by rewrite str_app_cons.
Qed.

Lemma stdin_lines_concat fuel input :
  String.length input < fuel → join EmptyString (stdin_lines fuel input) = input.
Proof.
  revert input. induction fuel as [|fuel IH]; intros input Hf; [lia|]. cbn [stdin_lines].
  destruct (read_until_newline input) as [line rest] eqn:E. apply read_until_newline_rest in E as [-> Hl].
  destruct (String.eqb_spec line "") as [->|Hne].
  - cbn. symmetry. by apply Hl.
  - rewrite length_app_str in Hf. destruct line as [|a line]; [done|]. cbn [String.length] in Hf.
    specialize (IH rest ltac:(lia)). cbn [join]. rewrite IH. destruct (stdin_lines fuel rest).
    + cbn in IH. by rewrite <- IH, str_app_nil_r.
    + by rewrite ?str_app_nil_l.
Qed.

(** ** Concrete runs *)

Section concrete.
#[local] Existing Instance decimal_external.
#[local] Existing Instance code_json.

(** A clock in milliseconds; the socket is there for the first tenth of a second. *)
#[local] Instance stopping_os : CliOs N := {|
  path_exists := λ _ w, ((w <? 100)%N, w);
  cli_instant := λ w, (w, w);
  cli_sleep := λ ms w, (w + ms)%N |}.

Definition stopping_environ : Environ := [("RTM_SOCKET_PATH", "/d/sock")].
Definition stopping_exchange : string → M N IoError string := λ _ w,
  (Ok (json_line_bytes (enc RuntimeResponse_codec) RuntimeResponse.Stopping), w).

Lemma daemon_stop_total_witness :
  let t := Terminal.mk 0%N "" "" "" in
  let stopped := daemon_stop (λ _, mret tt) stopping_exchange stopping_environ (λ _, "") 81 t in
  (∀ ms w : N, (w + ms ≤ cli_sleep ms w)%N) ∧ stopped.1 = Ok (Some tt) ∧
  stopped.2.(Terminal.stdout) = ln "rtmd stopped".
Proof.
  intros t stopped.
  assert (∀ ms w : N, (w + ms ≤ cli_sleep ms w)%N) as Hs by (intros ms w; apply N.le_refl).
  split; [exact Hs|].
  assert (stopped.1 = Ok (Some tt)) as E by (vm_compute; reflexivity). split; [exact E|].
  pose proof (daemon_stop_total (λ w : N, w) (λ _, mret tt) stopping_exchange stopping_environ (λ _, "") 81 t
    (λ w, conj eq_refl (N.le_refl w)) Hs (λ _ w, N.le_refl w) (Nat.le_refl 81)) as Ht.
  fold stopped in Ht. destruct stopped as [r t']. cbn [fst snd] in *. subst r. exact (proj1 Ht).
Defined.

End concrete.
