(* ===== verification/Shim.v ===== *)
(** * The shim (crates/rtm-cli/src/cli/shim.rs, and the calls of rtm-daemon/src/shim_socket.rs)

    The process between the daemon and a runtime: it fetches the launch, starts the runtime,
    reports it ready, waits for it and reports its exit. What it asks of the system and is
    not asked elsewhere is the class [ShimOs]; the daemon's side of the socket is the pair
    [connect] and [exchange], as in Client.v. *)

From S2P Require Import Prelude RustStr RustPath Types Parsers Json Serde Launch Errors Platform.
From S2P Require Import Paths Proto Wire.
From stdpp Require Import options.

(** [std::process::Command] after [env_clear], the [env] calls and [current_dir]; the
    [pre_exec] closure restores the dispositions of SIGINT and SIGQUIT. *)
Record Command := mkCommand {
  cmd_program : string;
  cmd_args : list string;
  cmd_env : list LaunchEnv;
  cmd_cwd : string;
  cmd_restores_interrupts : bool }.

(** [ExitStatus::code] and [ExitStatus::signal]. *)
Record ExitStatus := mkExitStatus { status_code : option Z; status_signal : option Z }.

Inductive Disposition := SIG_IGN | SIG_DFL | MarkSigterm.

Definition SIGINT : Z := 2.
Definition SIGQUIT : Z := 3.
Definition SIGTERM : Z := 15.

Class ShimOs (O : Type) := {
  (** [libc::signal]: the error, if any *)
  sys_signal : Z → Disposition → O → option IoError * O;
  command_spawn : Command → O → result IoError N * O;
  (** [Command::exec] comes back with an error or not at all *)
  command_exec : Command → O → option IoError * O;
  child_try_wait : N → O → result IoError (option ExitStatus) * O;
  child_wait : N → O → result IoError ExitStatus * O;
  (** [SIGTERM_RECEIVED.swap(false)] *)
  sigterm_swap : O → bool * O;
  process_id : O → N * O;
  utc_now_os : O → DateTime * O;
}.

Section shim.
Context {O : Type} `{Os O, ShimOs O, External, Json}.
Notation ShimM := (M O Error).

Variable connect : string → M O IoError unit.
Variable exchange : string → M O IoError string.
(** chrono's [timestamp_opt]. *)
Variable timestamp_opt : Z → N → option DateTime.
(** [{response:?}]. *)
Variable debug : RuntimeResponse → string.

(** ** shim_socket.rs: one request to the daemon *)

Definition io_result {A} (m : M O IoError A) : ShimM A :=
  λ o, let '(r, o) := m o in (map_err (λ e, anyhow (display_IoError e)) r, o).
Definition io_context {A} (message : string) (m : O → result IoError A * O) : ShimM A :=
  λ o, let '(r, o) := m o in (context message (map_err (λ e, anyhow (display_IoError e)) r), o).

(** A call with no result, and the context of its error. *)
Definition io_unit (message : string) (m : O → option IoError * O) : ShimM unit :=
  io_context message (λ o, let '(e, o) := m o in (match e with Some e => Err e | None => Ok tt end, o)).

Definition shim_request (socket_path : string) (rpc : RuntimeRpc) : ShimM RuntimeResponse :=
  _ ← io_context ("failed to connect to " +:+ to_string_lossy socket_path) (connect socket_path);
  bytes ← io_result (exchange (write_json_line_blocking (enc RuntimeRpc_codec) EmptyString rpc));
  lift (map_err (λ e, anyhow (display_ProtocolError e)) (read_json_line_blocking (dec RuntimeResponse_codec) bytes).1).

Definition request_launch_blocking (socket_path : string) (session_id : Uuid) : ShimM LaunchSpec :=
  response ← shim_request socket_path (RuntimeRpc.ShimLaunch session_id);
  lift (launch_from_response debug response).

Definition send_ready_blocking (socket_path : string) (ready : ShimReady) : ShimM unit :=
  response ← shim_request socket_path (RuntimeRpc.ShimReady ready);
  lift (ack_from_response debug response "ShimReady").

Definition send_exit_blocking (socket_path : string) (exit : ShimExit) : ShimM unit :=
  response ← shim_request socket_path (RuntimeRpc.ShimExit exit);
  lift (ack_from_response debug response "ShimExit").

(** *** The same for callers within the runtime of tokio *)

Definition shim_call (socket_path : string) (rpc : RuntimeRpc) : ShimM RuntimeResponse :=
  _ ← io_context ("failed to connect to " +:+ to_string_lossy socket_path) (connect socket_path);
  bytes ← io_result (exchange (write_json_line (enc RuntimeRpc_codec) EmptyString rpc));
  lift (map_err (λ e, anyhow (display_ProtocolError e)) (read_json_line (dec RuntimeResponse_codec) bytes).1).

Definition request_launch (socket_path : string) (session_id : Uuid) : ShimM LaunchSpec :=
  response ← shim_call socket_path (RuntimeRpc.ShimLaunch session_id);
  lift (launch_from_response debug response).

Definition send_shim_rpc (socket_path : string) (rpc : RuntimeRpc) (label : string) : ShimM unit :=
  response ← shim_call socket_path rpc;
  lift (ack_from_response debug response label).

Definition send_ready (socket_path : string) (ready : ShimReady) : ShimM unit :=
  send_shim_rpc socket_path (RuntimeRpc.ShimReady ready) "ShimReady".
Definition send_exit (socket_path : string) (exit : ShimExit) : ShimM unit :=
  send_shim_rpc socket_path (RuntimeRpc.ShimExit exit) "ShimExit".

(** ** shim.rs *)

Definition SHIM_RECONNECT_MAX_ATTEMPTS : nat := 10.
Definition SHIM_RECONNECT_INITIAL_DELAY : N := 1000.
Definition SHIM_RECONNECT_MAX_DELAY : N := 30000.
Definition RUNTIME_WAIT_POLL : N := 100.

(** [thread::sleep], in milliseconds. *)
Definition sleep (ms : N) : ShimM unit := λ o, (Ok tt, os_sleep ms o).

(** The loop of [reconnecting] with [remaining] attempts to go. *)
Fixpoint reconnect_loop {T} (label : string) (operation : ShimM T) (remaining : nat) (delay : N)
    : ShimM T :=
  match remaining with
  | 0 => throw (anyhow (label +:+ " failed: reconnect loop exhausted without success or final failure"))
  | S remaining =>
      r ← attempt operation;
      match r with
      | Ok value => mret value
      | Err error =>
          if decide (remaining = 0) then
            throw (anyhow (label +:+ " failed after " +:+
                           display_u (N.of_nat SHIM_RECONNECT_MAX_ATTEMPTS) +:+ " attempts: " +:+
                           display_Error error))
          else
            _ ← sleep delay;
            reconnect_loop label operation remaining (N.min (delay * 2) SHIM_RECONNECT_MAX_DELAY)
      end
  end.

Definition reconnecting {T} (label : string) (operation : ShimM T) : ShimM T :=
  reconnect_loop label operation SHIM_RECONNECT_MAX_ATTEMPTS SHIM_RECONNECT_INITIAL_DELAY.

Definition set_signal_disposition (signal : Z) (handler : Disposition) : ShimM unit :=
  io_unit ("failed to update signal disposition for " +:+ display_i signal) (sys_signal signal handler).

Definition set_user_interrupt_disposition (handler : Disposition) : ShimM unit :=
  _ ← set_signal_disposition SIGINT handler;
  set_signal_disposition SIGQUIT handler.

Definition ignore_user_interrupts : ShimM unit := set_user_interrupt_disposition SIG_IGN.

Definition install_sigterm_handler : ShimM unit :=
  io_unit "failed to install SIGTERM handler" (sys_signal SIGTERM MarkSigterm).

Definition runtime_command (launch : LaunchSpec) : result Error Command :=
  program ← map_err of_launcher (LaunchSpec_command launch);
  Ok (mkCommand program (drop 1 launch.(LaunchSpec.argv)) launch.(LaunchSpec.env)
        launch.(LaunchSpec.cwd) true).

Definition shell_resume_command (resume : ShellResume) : result Error Command :=
  program ← map_err of_launcher (ShellResume_command resume);
  Ok (mkCommand program (drop 1 resume.(ShellResume.argv)) resume.(ShellResume.env)
        resume.(ShellResume.cwd) true).

(** The process is replaced; what follows is the error of a failed replacement. *)
Definition exec_shell_resume (resume : ShellResume) : ShimM unit :=
  command ← lift (shell_resume_command resume);
  io_unit "failed to exec shell after runtime exit" (command_exec command).

(** One turn of the loop of [wait_for_runtime]: the status, if the loop ends. *)
Definition poll_runtime (pid : N) : ShimM (option ExitStatus) :=
  status ← io_context "failed to poll runtime child" (child_try_wait pid);
  match status with
  | Some status => mret (Some status)
  | None =>
      received ← os_call sigterm_swap;
      if (received : bool) then
        _ ← send_signal pid RuntimeSignal.Term;
        status ← io_context "failed to wait for runtime child after SIGTERM" (child_wait pid);
        mret (Some status)
      else _ ← sleep RUNTIME_WAIT_POLL; mret None
  end.

(** The loop; [None] when the runtime still runs after [fuel] turns. *)
Fixpoint poll_loop (fuel : nat) (pid : N) : ShimM (option ExitStatus) :=
  match fuel with
  | 0 => mret None
  | S fuel =>
      status ← poll_runtime pid;
      match status with Some status => mret (Some status) | None => poll_loop fuel pid end
  end.

Definition wait_for_runtime (fuel : nat) (pid : N) : ShimM (option ExitStatus) :=
  _ ← install_sigterm_handler; poll_loop fuel pid.

Definition runtime_exit (status : ExitStatus) : RuntimeExit :=
  RuntimeExit.mk status.(status_code) status.(status_signal).

(** [var_os] is the shim's environment. The result is [None] when the runtime still runs. *)
Definition run_for_session_blocking (fuel : nat) (var_os : string → option string) (session_id : Uuid)
    : ShimM (option unit) :=
  _ ← ignore_user_interrupts;
  socket_path ← lift (of_path_error (unix_socket_path (env_from_process var_os)));
  launch ← reconnecting "ShimLaunch" (request_launch_blocking socket_path session_id);
  command ← lift (runtime_command launch);
  runtime_pid ← io_context "failed to spawn runtime" (command_spawn command);
  shim_pid ← os_call process_id;
  start_time ← start_time_for_pid timestamp_opt runtime_pid;
  start_time ← match start_time with Some t => mret t | None => os_call utc_now_os end;
  let ready := ShimReady.mk session_id shim_pid runtime_pid start_time None in
  _ ← reconnecting "ShimReady" (send_ready_blocking socket_path ready);
  status ← wait_for_runtime fuel runtime_pid;
  match status with
  | None => mret None
  | Some status =>
      let exit := ShimExit.mk session_id (runtime_exit status) in
      _ ← reconnecting "ShimExit" (send_exit_blocking socket_path exit);
      match launch.(LaunchSpec.shell_resume) with
      | Some shell_resume => _ ← exec_shell_resume shell_resume; mret (Some tt)
      | None => mret (Some tt)
      end
  end.
End shim.

(** The twins say and understand the same. *)
Lemma blocking_twins {O} `{External, Json} connect exchange debug path :
  (∀ u, request_launch (O := O) connect exchange debug path u = request_launch_blocking connect exchange debug path u) ∧
  (∀ ready, send_ready (O := O) connect exchange debug path ready = send_ready_blocking connect exchange debug path ready) ∧
  (∀ exit, send_exit (O := O) connect exchange debug path exit = send_exit_blocking connect exchange debug path exit).
Proof. done. Qed.

(** ** Retrying *)

(** The wait after the failure of attempt [k], counted from 0. *)
Definition backoff (k : nat) : N := N.min (1000 * 2 ^ N.of_nat k) SHIM_RECONNECT_MAX_DELAY.

Section retry.
Context {O : Type} `{Os O, External}.

(** [k] attempts failed one after the other, each followed by its wait. *)
Inductive failed {T} (operation : M O Error T) : nat → O → O → Prop :=
| failed_none o : failed operation 0 o o
| failed_more k o o1 e o2 :
    failed operation k o o1 → operation o1 = (Err e, o2) →
    failed operation (S k) o (os_sleep (backoff k) o2).

Lemma backoff_next k : N.min (backoff k * 2) SHIM_RECONNECT_MAX_DELAY = backoff (S k).
Proof.
  unfold backoff, SHIM_RECONNECT_MAX_DELAY. rewrite Nat2N.inj_succ, N.pow_succ_r'. lia.
Qed.

Lemma reconnect_loop_spec {T} label (operation : M O Error T) remaining k o o0 :
  failed operation k o0 o → k + remaining = SHIM_RECONNECT_MAX_ATTEMPTS → 0 < remaining →
  match reconnect_loop label operation remaining (backoff k) o with
  | (Ok v, o') => ∃ k o1, k < SHIM_RECONNECT_MAX_ATTEMPTS ∧ failed operation k o0 o1 ∧
                          operation o1 = (Ok v, o')
  | (Err e, o') => ∃ o1 e0, failed operation (SHIM_RECONNECT_MAX_ATTEMPTS - 1) o0 o1 ∧
                            operation o1 = (Err e0, o') ∧
                            e = anyhow (label +:+ " failed after 10 attempts: " +:+ display_Error e0)
  end.
Proof.
  revert k o. induction remaining as [|remaining IH]; intros k o Hf Hk Hr; [lia|].
  cbn [reconnect_loop]. unfold attempt, mbind, M_bind. destruct (operation o) as [[v|e] o'] eqn:E.
  - exists k, o. split; [lia|done].
  - destruct (decide (remaining = 0)) as [->|Hne].
    + cbv [throw]. exists o, e. split; [|split; [done|reflexivity]]. by replace (_ - 1) with k by lia.
    + cbv [sleep]. rewrite backoff_next. apply IH; [|lia|lia]. by econstructor.
Qed.

(** C26. Retries. A call to the daemon is attempted at most ten times, in a row, with waits of
    1, 2, 4, 8, 16 and then four times 30 seconds between them (151 seconds at most): the
    value is that of the first attempt that succeeds, after the waits of those that failed
    and no other call, and an error means that all ten failed and tells the last one. *)
Theorem reconnecting_exact {T} label (operation : M O Error T) o :
  match reconnecting label operation o with
  | (Ok v, o') => ∃ k o1, k < SHIM_RECONNECT_MAX_ATTEMPTS ∧ failed operation k o o1 ∧
                          operation o1 = (Ok v, o')
  | (Err e, o') => ∃ o1 e0, failed operation 9 o o1 ∧ operation o1 = (Err e0, o') ∧
                            e = anyhow (label +:+ " failed after 10 attempts: " +:+ display_Error e0)
  end ∧
  map backoff (seq 0 9) = [1000; 2000; 4000; 8000; 16000; 30000; 30000; 30000; 30000]%N.
Proof.
  split; [|reflexivity]. apply (reconnect_loop_spec label operation 10 0 o o); [constructor|done|lia].
Qed.
End retry.

(** ** Waiting for the runtime *)

Section waiting.
Context {O : Type} `{Os O, ShimOs O, External}.

(** The runtime is found running [n] times in a row, without a SIGTERM for the shim. *)
Inductive undisturbed (pid : N) : nat → O → O → Prop :=
| undisturbed_none o : undisturbed pid 0 o o
| undisturbed_more n o o1 o2 o3 :
    child_try_wait pid o = (Ok None, o1) → sigterm_swap o1 = (false, o2) →
    undisturbed pid n (os_sleep RUNTIME_WAIT_POLL o2) o3 → undisturbed pid (S n) o o3.

Lemma poll_runtime_undisturbed pid o o1 o2 :
  child_try_wait pid o = (Ok None, o1) → sigterm_swap o1 = (false, o2) →
  poll_runtime pid o = (Ok None, os_sleep RUNTIME_WAIT_POLL o2).
Proof.
  intros E1 E2. unfold poll_runtime, io_context, os_call, sleep, mbind, M_bind. rewrite E1. cbn.
  by rewrite E2.
Qed.

Lemma poll_loop_undisturbed pid n fuel o o' :
  undisturbed pid n o o' → poll_loop (n + fuel) pid o = poll_loop fuel pid o'.
Proof.
  induction 1 as [|n o o1 o2 o3 E1 E2 _ IH]; [done|]. cbn [Nat.add poll_loop].
  unfold mbind at 1, M_bind at 1. by rewrite (poll_runtime_undisturbed _ _ _ _ E1 E2).
Qed.

(** C27. Waiting. However long the runtime runs, the shim polls it ten times a second and
    returns its status as soon as a poll finds it; a SIGTERM that the shim receives first is
    passed to the runtime once, and the shim then waits for the runtime and nothing else. *)
Theorem wait_for_runtime_total pid n fuel o0 o o' status :
  sys_signal SIGTERM MarkSigterm o0 = (None, o) → undisturbed pid n o o' → n < fuel →
  (∀ o1, child_try_wait pid o' = (Ok (Some status), o1) →
         wait_for_runtime fuel pid o0 = (Ok (Some status), o1)) ∧
  (∀ o1 o2 o3 o4, child_try_wait pid o' = (Ok None, o1) → sigterm_swap o1 = (true, o2) →
         send_signal pid RuntimeSignal.Term o2 = (Ok tt, o3) →
         child_wait pid o3 = (Ok status, o4) →
         wait_for_runtime fuel pid o0 = (Ok (Some status), o4)).
Proof.
  intros Es Hu Hf. destruct (Nat.le_exists_sub (S n) fuel) as (k & -> & _); [lia|].
  assert (wait_for_runtime (k + S n) pid o0 = poll_loop (S k) pid o') as ->.
  { unfold wait_for_runtime, install_sigterm_handler, io_unit, io_context, mbind, M_bind.
    rewrite Es. cbn [map_err context]. replace (k + S n) with (n + S k) by lia.
    by apply poll_loop_undisturbed. }
  cbn [poll_loop]. unfold poll_runtime, io_context, os_call, mbind, M_bind. split.
  - intros o1 E. by rewrite E.
  - intros o1 o2 o3 o4 E1 E2 E3 E4. rewrite E1. cbn. rewrite E2. rewrite E3. by rewrite E4.
Qed.
End waiting.

(** ** A concrete run *)

(** The milliseconds since the runtime started, and the signals it was sent. *)
Record Desk := mkDesk { desk_clock : N; desk_kills : list (Z * Z) }.

(** A runtime that runs for [life] milliseconds or until it is signalled, and a shim that
    receives a SIGTERM after [term] milliseconds. *)
Definition desk_os : Os Desk := {|
  exec := λ _ _ o, (Err IoError.NotFound, o);
  sys_kill := λ pid signal o, (None, mkDesk o.(desk_clock) (o.(desk_kills) ++ [(pid, signal)]));
  read_to_string := λ _ o, (Err IoError.NotFound, o);
  canonicalize := λ p o, (Ok p, o);
  is_file := λ _ o, (false, o);
  create_dir_all := λ _ o, (None, o);
  create_file := λ _ o, (None, o);
  spawn_child := λ _ _ _ o, (None, o);
  clock_ticks := λ o, (100%Z, o);
  os_instant := λ o, (o.(desk_clock), o);
  os_epoch_ms := λ o, (o.(desk_clock), o);
  os_sleep := λ ms o, mkDesk (o.(desk_clock) + ms) o.(desk_kills) |}.

Definition desk_shim (life term : N) : ShimOs Desk := {|
  sys_signal := λ _ _ o, (None, o);
  command_spawn := λ _ o, (Ok 200%N, o);
  command_exec := λ _ o, (None, o);
  child_try_wait := λ _ o,
    (Ok (if (life <=? o.(desk_clock))%N then Some (mkExitStatus (Some 0%Z) None) else None), o);
  child_wait := λ _ o, (Ok (mkExitStatus (Some 0%Z) None), o);
  sigterm_swap := λ o, ((term <=? o.(desk_clock))%N, o);
  process_id := λ o, (100%N, o);
  utc_now_os := λ o, (0%Z, o) |}.

(** A SIGTERM after 100 milliseconds, found after one undisturbed poll. *)
Lemma wait_for_runtime_total_witness :
  let status := mkExitStatus (Some 0%Z) None in
  let start := mkDesk 0 [] in
  @undisturbed Desk desk_os (desk_shim 1000 100) 200 1 start (mkDesk 100 []) ∧
  @wait_for_runtime Desk desk_os (desk_shim 1000 100) 2 200 start =
    (Ok (Some status), mkDesk 100 [(200%Z, 15%Z)]).
Proof.
  intros status start.
  assert (@undisturbed Desk desk_os (desk_shim 1000 100) 200 1 start (mkDesk 100 [])) as Hu.
  { eapply (@undisturbed_more Desk desk_os (desk_shim 1000 100)); [reflexivity..|].
    apply (@undisturbed_none Desk desk_os (desk_shim 1000 100)). }
  split; [exact Hu|].
  destruct (@wait_for_runtime_total Desk desk_os (desk_shim 1000 100) 200 1 2 start start _
              status eq_refl Hu (Nat.lt_succ_diag_r 1)) as [_ Ht].
  apply (Ht (mkDesk 100 []) (mkDesk 100 []) (mkDesk 100 [(200%Z, 15%Z)])); reflexivity.
Defined.
