(* ===== verification/Doctor.v ===== *)
(** * Diagnostics (crates/rtm-daemon/src/doctor.rs) *)

From S2P Require Import Prelude RustStr RustPath Types Parsers Launch Errors Lifecycles Interfaces.
From S2P Require Import Prog Platform Paths Docker Server Proto.
From stdpp Require Import options.

(** 24 hours, in the units of [DateTime] (nanoseconds). *)
Definition RECENT_LOST_WINDOW : Z := 24 * 60 * 60 * 1000000000.

Definition command_detail (stdout label : string) : string :=
  let detail := trim (to_string_lossy stdout) in
  if String.eqb detail "" then label +:+ " is available" else detail.

Definition command_error (stderr label : string) : string :=
  let message := trim (to_string_lossy stderr) in
  if String.eqb message "" then label +:+ " check failed without stderr" else message.

Section checks.
Context {O : Type} `{Os O, External}.

Definition command_status (command : string) (args : list string) (label : string)
    : M O Error DockerReadiness :=
  r ← os_call (exec command args);
  mret (match r with
        | Ok output =>
            if output.(Output.success) then docker_ready (command_detail output.(Output.stdout) label)
            else docker_unavailable (command_error output.(Output.stderr) label)
        | Err error => docker_unavailable (display_IoError error)
        end).

Definition tmux_status : M O Error TmuxStatus :=
  r ← attempt tmux_version;
  mret (match r with
        | Ok (Some version) => TmuxStatus.mk true (Some version) None
        | Ok None => TmuxStatus.mk false None None
        | Err error => TmuxStatus.mk false None (Some (display_Error error))
        end).
End checks.

Section doctor.
Context {S L O : Type} `{LifecycleStore S, StoreDiagnostics S, EventSink L, Os O, External, Build}.
Variable config : DaemonConfig.
Variable which : nat → string → WhichOutput.
Variable event_waiter_count : L → nat.
(** [RuntimePathEnv::from_process], [Utc::now] and [ServerState::started_instant]. *)
Variable path_env : RuntimePathEnv.
Variable utc_now : M O Error DateTime.
Variable started_instant : N.

Notation W := (Server S L O).
Notation Task := (Prog W Error).

Definition launcher_status (launcher : RuntimeLauncher Registry) : M W Error LauncherStatus := λ w,
  let request := SpawnRequest.mk uuid_nil launcher.(rl_kind) IsolationPolicy.Host None [] []
                   launcher_probe_cwd SpawnTarget.Headless false None in
  let runtime := RuntimeKind_as_str launcher.(rl_kind) in
  let '(argv, r) := launcher.(rl_argv) request w.(launchers) in
  (Ok (match argv with
       | Ok argv => LauncherStatus.mk runtime (head argv) None
       | Err error => LauncherStatus.mk runtime None (Some (display_LauncherError error))
       end), set_launchers r w).

Fixpoint launcher_statuses (l : list (RuntimeLauncher Registry)) : Task (list LauncherStatus) :=
  match l with
  | [] => mret []
  | launcher :: l =>
      status ← atomic (launcher_status launcher); rest ← launcher_statuses l; mret (status :: rest)
  end.

Definition docker_status : Task DockerStatus :=
  cli ← atomic (on_os (command_status "docker" ["--version"] "docker CLI"));
  daemon ← atomic (on_os (command_status "docker" ["version"; "--format"; "{{.Server.Version}}"]
                            "docker daemon"));
  manifest_validation ← atomic (on_os (command_status "docker" ["manifest"; "inspect"; "--help"]
                                         "docker manifest inspect"));
  mret (DockerStatus.mk cli daemon manifest_validation
          (DockerIsolationStatus.mk true "/workspace" true)).

Definition uptime_secs : M W Error N :=
  now ← on_os (os_call os_instant); mret ((now - started_instant) / 1000)%N.

Definition collect : Task DoctorResponse :=
  let socket_path := display_label config.(DaemonConfig.endpoint) path_env in
  uptime ← atomic uptime_secs;
  sqlite ← atomic (on_store migration_state);
  lifecycles ← atomic (on_store lifecycle_counts);
  watchers ← watcher_counts event_waiter_count;
  launchers ← launcher_statuses (registered_launchers which);
  tmux ← atomic (on_os tmux_status);
  docker ← docker_status;
  log_availability ← log_availability_statuses config;
  last_sweep ← atomic (on_store last_probe_sweep);
  now ← atomic (on_os utc_now);
  recent_lost ← atomic (on_store (recent_lost_since (now - RECENT_LOST_WINDOW)%Z));
  mret (DoctorResponse.mk runtime_version_info socket_path uptime sqlite lifecycles watchers launchers
          tmux docker log_availability last_sweep recent_lost).
End doctor.
