(* ===== verification/Kill.v ===== *)
(** * Killing runtimes (crates/rtm-daemon/src/runtime_kill.rs, and [kill_pid] of
    server/termination.rs)

    A signal, then polling until the target is gone or a grace period is over, then SIGKILL.
    The loops have fuel for every poll of the grace period; [wait_until_total] shows that it
    is enough on any clock that sleeping advances. An addition to the clock that overflows
    panics in the source, which ends the task without a response; here it is an error. *)

From S2P Require Import Prelude RustStr RustPath Types Parsers Launch Errors Lifecycles Interfaces.
From S2P Require Import Prog Platform Paths Docker Server.
From stdpp Require Import options.

Definition KILL_POLL_INTERVAL : N := 25.

(** ** The traits *)

Record KillTarget (W : Type) := mkKillTarget {
  send_signal : RuntimeSignal → Prog W Error KillOutcome;
  send_kill : Prog W Error unit;
  target_alive : Prog W Error bool }.
Arguments send_signal {W}.
Arguments send_kill {W}.
Arguments target_alive {W}.

Record Clock (W : Type) := mkClock {
  clock_now : M W Error N;
  clock_sleep : N → M W Error unit }.
Arguments clock_now {W}.
Arguments clock_sleep {W}.

Section kill_loop.
Context {W : Type}.
Variable clock : Clock W.

(** [Instant + Duration]; an [Instant] counts seconds in 64 signed bits. *)
Definition instant_add (now secs : N) : result Error N :=
  if (Z.of_N (now / 1000 + secs) <=? i64_max)%Z then Ok (now + secs * 1000)%N
  else Err (anyhow "overflow when adding duration to instant").

(** [while Instant::now() < deadline { if stop { return .. } sleep(25ms) }]; the result
    tells whether it stopped before the deadline. *)
Fixpoint wait_until (fuel : nat) (deadline : N) (stop : Prog W Error bool) : Prog W Error bool :=
  match fuel with
  | 0 => fail (anyhow "out of fuel")
  | S fuel =>
      now ← atomic clock.(clock_now);
      if (deadline <=? now)%N then mret false else
      stopped ← stop;
      if (stopped : bool) then mret true else
      _ ← atomic (clock.(clock_sleep) KILL_POLL_INTERVAL);
      wait_until fuel deadline stop
  end.

(** One poll per 25 ms of grace, and two. *)
Definition wait_fuel (grace_secs : N) : nat := N.to_nat (grace_secs * 40 + 2).

(** [terminal.is_terminal().await? || !target.is_alive().await?]. *)
Definition stopped (target : KillTarget W) (terminal : Prog W Error bool) : Prog W Error bool :=
  t ← terminal;
  if (t : bool) then mret true else alive ← target.(target_alive); mret (negb alive).

Definition run_kill_loop (target : KillTarget W) (terminal : Prog W Error bool)
    (signal : RuntimeSignal) (grace_secs : N) : Prog W Error KillOutcome :=
  outcome ← target.(send_signal) signal;
  if decide (outcome = KillOutcome.AlreadyExited) then mret outcome else
  now ← atomic clock.(clock_now);
  deadline ← lift_result (instant_add now grace_secs);
  gone ← wait_until (wait_fuel grace_secs) deadline (stopped target terminal);
  if (gone : bool) then mret outcome else
  alive ← target.(target_alive);
  _ ← prog_when (alive && negb (bool_decide (signal = RuntimeSignal.Kill))) target.(send_kill);
  mret outcome.

(** ** The loop ends *)

(** The time shown by a state; reading and sleeping advance it. *)
Variable time : W → N.
Hypothesis now_time : ∀ w, ∃ w', clock.(clock_now) w = (Ok (time w), w') ∧ (time w ≤ time w')%N.
Hypothesis sleep_time :
  ∀ ms w, ∃ w', clock.(clock_sleep) ms w = (Ok tt, w') ∧ (time w + ms ≤ time w')%N.

(** The polling of a kill ends: on a clock that no call turns back and that a sleep
    advances by its length, with one poll per 25 ms left until the deadline and one more it
    stops at the deadline or before, or fails because a poll failed. *)
Theorem wait_until_total fuel deadline stop w :
  (∀ w, (time w ≤ time (run stop w).2)%N) →
  (deadline ≤ time w + 25 * N.of_nat (fuel - 1))%N → 0 < fuel →
  match (run (wait_until fuel deadline stop) w).1 with
  | Ok _ => True
  | Err e => ∃ w', (run stop w').1 = Err e
  end.
Proof using All.
  intros Hstop. revert w. induction fuel as [|fuel IH]; intros w Hd Hf; [lia|].
  cbn [wait_until]. rewrite run_bind_match, run_atomic.
  destruct (now_time w) as (w1 & -> & Hw1). destruct (N.leb_spec deadline (time w)); [done|].
  rewrite run_bind_match. pose proof (Hstop w1) as Hw2.
  destruct (run stop w1) as [[b|e] w2] eqn:Es; simpl in Hw2; [|exists w1; by rewrite Es].
  destruct b; [done|]. rewrite run_bind_match, run_atomic.
  destruct (sleep_time KILL_POLL_INTERVAL w2) as (w3 & -> & Hw3).
  unfold KILL_POLL_INTERVAL in Hw3.
  destruct fuel as [|fuel]; [simpl in Hd; lia|]. apply IH; lia.
Qed.
End kill_loop.

(** ** runtime_kill.rs: targets *)

Section server_kill.
Context {S L O : Type} `{LifecycleStore S, EventSink L, Os O, External}.

Notation W := (Server S L O).
Notation Task := (Prog W Error).

Definition os_clock : Clock W :=
  mkClock W (on_os (os_call os_instant)) (λ ms, on_os (os_call (λ o, (tt, os_sleep ms o)))).

Definition HostKillTarget (runtime_pid : N) : KillTarget W :=
  mkKillTarget W
    (λ signal, atomic (on_os (send_signal_for_kill runtime_pid signal)))
    (atomic (on_os (Platform.send_signal runtime_pid RuntimeSignal.Kill)))
    (atomic (on_os (pid_alive runtime_pid))).

Definition DockerKillTarget (session_id : Uuid) : KillTarget W :=
  mkKillTarget W
    (λ signal, atomic (on_os (kill_container session_id signal)))
    (_ ← atomic (on_os (kill_container session_id RuntimeSignal.Kill)); mret tt)
    (atomic (on_os (container_running session_id))).

Definition kill_runtime (request : KillRequest) : Task KillOutcome :=
  let session_id := request.(KillRequest.session_id) in
  lifecycle ← get_session session_id;
  match lifecycle.(Lifecycle.isolation) with
  | IsolationPolicy.Host =>
      runtime_pid ← lift_result (ok_or (session_not_found session_id) lifecycle.(Lifecycle.runtime_pid));
      run_kill_loop os_clock (HostKillTarget runtime_pid) (is_terminal session_id)
        request.(KillRequest.signal) request.(KillRequest.grace_secs)
  | IsolationPolicy.Docker _ =>
      run_kill_loop os_clock (DockerKillTarget session_id) (is_terminal session_id)
        request.(KillRequest.signal) request.(KillRequest.grace_secs)
  end.

(** [TerminationCoordinator::kill_pid]. *)
Definition kill_pid (request : KillByPidRequest) : Task KillByPidResponse :=
  let pid := request.(KillByPidRequest.pid) in
  let signal := request.(KillByPidRequest.signal) in
  outcome ← atomic (on_os (send_raw_signal_for_kill pid signal));
  if decide (outcome = KillOutcome.AlreadyExited) then mret (KillByPidResponse.mk pid signal false outcome)
  else
  now ← atomic (on_os (os_call os_instant));
  deadline ← lift_result (instant_add now request.(KillByPidRequest.grace_secs));
  gone ← wait_until os_clock (wait_fuel request.(KillByPidRequest.grace_secs)) deadline
           (alive ← atomic (on_os (pid_alive pid)); mret (negb alive));
  if (gone : bool) then mret (KillByPidResponse.mk pid signal false outcome) else
  let kill_signal := signal_number RuntimeSignal.Kill in
  alive ← atomic (on_os (pid_alive pid));
  if (alive : bool) && negb (signal =? kill_signal)%Z then
    _ ← atomic (on_os (send_raw_signal pid kill_signal));
    mret (KillByPidResponse.mk pid signal true outcome)
  else mret (KillByPidResponse.mk pid signal false outcome).
End server_kill.

(** ** Escalation

    A target whose life is a function of the time, on a clock that only sleeping advances. *)

Record Sim := mkSim { sim_clock : N; sim_sent : list (N * RuntimeSignal) }.

Section escalation.
Variables (alive terminal : N → bool).

Definition sim_time : Clock Sim :=
  mkClock Sim (λ w, (Ok w.(sim_clock), w)) (λ ms w, (Ok tt, mkSim (w.(sim_clock) + ms) w.(sim_sent))).

Definition sim_send (signal : RuntimeSignal) (w : Sim) : Sim :=
  mkSim w.(sim_clock) (w.(sim_sent) ++ [(w.(sim_clock), signal)]).

Definition sim_target : KillTarget Sim :=
  mkKillTarget Sim
    (λ signal, atomic (λ w, if alive w.(sim_clock) then (Ok KillOutcome.Signalled, sim_send signal w)
                            else (Ok KillOutcome.AlreadyExited, w)))
    (atomic (modify (sim_send RuntimeSignal.Kill)))
    (atomic (gets (λ w, alive w.(sim_clock)))).

Definition sim_terminal : Prog Sim Error bool := atomic (gets (λ w, terminal w.(sim_clock))).

(** The target counts as gone at a time. *)
Definition gone_at (t : N) : bool := terminal t || negb (alive t).

(** The first of [n] polls from [t] that finds the target gone. *)
Fixpoint first_gone (t : N) (n : nat) : option N :=
  match n with
  | 0 => None
  | S n => if gone_at t then Some t else first_gone (t + 25) n
  end.

Lemma wait_sim fuel n t sent :
  n < fuel →
  run (wait_until sim_time fuel (t + 25 * N.of_nat n) (stopped sim_target sim_terminal)) (mkSim t sent) =
    match first_gone t n with
    | Some t' => (Ok true, mkSim t' sent)
    | None => (Ok false, mkSim (t + 25 * N.of_nat n) sent)
    end.
Proof.
  revert fuel t. induction n as [|n IH]; intros fuel t Hf; (destruct fuel as [|fuel]; [lia|]).
  - rewrite N.mul_0_r, N.add_0_r. simpl. by rewrite N.leb_refl.
  - cbn [wait_until first_gone]. simpl. destruct (N.leb_spec (t + 25 * N.of_nat (S n)) t); [lia|].
    unfold gone_at. simpl. destruct (terminal t); simpl; [done|]. destruct (alive t); simpl; [|done].
    replace (t + 25 * N.of_nat (S n))%N with (t + 25 + 25 * N.of_nat n)%N by lia.
    unfold KILL_POLL_INTERVAL. apply IH. lia.
Qed.

Lemma first_gone_Some t n t' :
  first_gone t n = Some t' → gone_at t' = true ∧ (t ≤ t' < t + 25 * N.of_nat n)%N.
Proof.
  revert t. induction n as [|n IH]; intros t; simpl; [done|]. destruct (gone_at t) eqn:E.
  - intros [= <-]. split; [done|lia].
  - intros Hg. destruct (IH _ Hg). split; [done|lia].
Qed.

(** C15. Escalation. A target that is dead when it is first signalled gets nothing more. One
    that is alive gets the signal once; then, if some poll before the end of the grace
    period finds it dead or its session over, nothing more; and otherwise one SIGKILL, not
    before the end of the grace period, exactly when it is still alive and the signal was
    not already SIGKILL. The answer is that of the first signal. *)
Theorem kill_escalation signal grace_secs t0 :
  (t0 + grace_secs * 1000 ≤ u64_max)%N →
  let d := (t0 + grace_secs * 1000)%N in
  run (run_kill_loop sim_time sim_target sim_terminal signal grace_secs) (mkSim t0 []) =
    if negb (alive t0) then (Ok KillOutcome.AlreadyExited, mkSim t0 []) else
    match first_gone t0 (N.to_nat (grace_secs * 40)) with
    | Some t => (Ok KillOutcome.Signalled, mkSim t [(t0, signal)])
    | None =>
        (Ok KillOutcome.Signalled,
         mkSim d ([(t0, signal)] ++
                  (if alive d && negb (bool_decide (signal = RuntimeSignal.Kill))
                   then [(d, RuntimeSignal.Kill)] else [])))
    end.
Proof.
  intros Hmax d. unfold run_kill_loop. rewrite run_bind_match. unfold sim_target at 1. cbn [send_signal].
  rewrite run_atomic. simpl sim_clock. destruct (alive t0); simpl negb; [|done]. cbv iota beta.
  rewrite decide_False by done. rewrite run_bind_match, run_atomic. cbn [clock_now sim_time sim_clock sim_send].
  rewrite run_bind_match. assert (instant_add t0 grace_secs = Ok d) as ->.
  { unfold instant_add. pose proof (N.div_mod t0 1000). unfold u64_max, i64_max in *.
    destruct (Z.leb_spec (Z.of_N (t0 / 1000 + grace_secs)) 9223372036854775807); [done|]. lia. }
  cbn [lift_result run]. rewrite run_bind_match. unfold sim_send. cbn [sim_clock sim_sent].
  assert (d = t0 + 25 * N.of_nat (N.to_nat (grace_secs * 40)))%N as Ed by lia. rewrite Ed.
  rewrite wait_sim by (unfold wait_fuel; lia).
  destruct (first_gone t0 (N.to_nat (grace_secs * 40))) as [t|]; [done|].
  rewrite <- Ed. cbv iota beta. rewrite run_bind_match. cbn [sim_target target_alive]. rewrite run_atomic.
  unfold gets. cbn [sim_clock]. destruct (alive d && negb (bool_decide (signal = RuntimeSignal.Kill))); done.
Qed.
End escalation.

Lemma kill_escalation_witness :
  (run (run_kill_loop sim_time (sim_target (λ t, (t <? 3000)%N)) (sim_terminal (λ _, false))
          RuntimeSignal.Term 2) (mkSim 0 [])).2.(sim_sent) =
    [(0%N, RuntimeSignal.Term); (2000%N, RuntimeSignal.Kill)].
Proof.
  rewrite (kill_escalation (λ t, (t <? 3000)%N) (λ _, false) RuntimeSignal.Term 2 0) by (by vm_compute).
  by vm_compute.
Defined.

Lemma wait_until_total_witness :
  let p := wait_until sim_time (wait_fuel 2) 2000 (mret false) in
  match (run p (mkSim 0 [])).1 with
  | Ok _ => True
  | Err e => ∃ w', (run (mret false : Prog Sim Error bool) w').1 = Err e
  end.
Proof.
  apply (wait_until_total sim_time sim_clock).
  - intros w. exists w. split; [done|lia].
  - intros ms w. eexists. split; [done|]. simpl. lia.
  - intros w. simpl. lia.
  - simpl. unfold wait_fuel. lia.
  - unfold wait_fuel. lia.
Defined.

(** A grace period that the clock cannot add: the signal has been sent when the task ends
    without an answer. *)
Theorem kill_grace_overflow alive terminal signal grace_secs t0 :
  alive t0 = true → (i64_max < Z.of_N (t0 / 1000 + grace_secs))%Z →
  run (run_kill_loop sim_time (sim_target alive) (sim_terminal terminal) signal grace_secs) (mkSim t0 []) =
    (Err (anyhow "overflow when adding duration to instant"), mkSim t0 [(t0, signal)]).
Proof.
  intros Ha Hg. unfold run_kill_loop. rewrite run_bind_match. unfold sim_target at 1. cbn [send_signal].
  rewrite run_atomic. simpl sim_clock. rewrite Ha. rewrite decide_False by done.
  rewrite run_bind_match, run_atomic. cbn [clock_now sim_time sim_clock sim_send]. rewrite run_bind_match.
  unfold instant_add. destruct (Z.leb_spec (Z.of_N (t0 / 1000 + grace_secs)) i64_max); [lia|]. done.
Qed.
