(* ===== verification/Mcp.v ===== *)
(** * The bridge for MCP (crates/rtm-daemon/src/mcp_bridge.rs, crates/rtm-core/src/mcp.rs)

    One line of JSON-RPC in, at most one line out. The tools are calls to the coordinators of
    Server.v and Kill.v. The texts of decoding errors are serde's and are stand-ins here. *)

From S2P Require Import Prelude RustStr RustPath Types Parsers Json Serde Errors Lifecycles.
From S2P Require Import Interfaces Prog Platform Docker Server Proto Wire Contracts Kill.
From stdpp Require Import options.

(** ** mcp.rs *)

Definition MCP_PROTOCOL_VERSION : string := "2025-06-18".

Module JsonRpcRequest.
Record JsonRpcRequest := mk {
  jsonrpc : string; id : option Value; method : string; params : option Value }.
End JsonRpcRequest.
Notation JsonRpcRequest := JsonRpcRequest.JsonRpcRequest.

Module JsonRpcError.
Record JsonRpcError := mk { code : Z; message : string; data : option Value }.
End JsonRpcError.
Notation JsonRpcError := JsonRpcError.JsonRpcError.

Module JsonRpcResponse.
Record JsonRpcResponse := mk {
  jsonrpc : string; id : Value; result : option Value; error : option JsonRpcError }.
End JsonRpcResponse.
Notation JsonRpcResponse := JsonRpcResponse.JsonRpcResponse.

(** A field of type [Value]. *)
Definition value_codec : Codec Value := mkCodec (λ v, v) (λ v, Ok (as_map v)) (λ v, as_map v = v).

Definition JsonRpcRequest_codec : Codec JsonRpcRequest :=
  struct (req "jsonrpc" string_codec ⊳ opt "id" value_codec ⊳ req "method" string_codec ⊳
          defaulted "params" None (option_codec value_codec) ⊳ ∎)
    (λ '(jsonrpc, (id, (method, (params, _)))), JsonRpcRequest.mk jsonrpc id method params)
    (λ r, (r.(JsonRpcRequest.jsonrpc), (r.(JsonRpcRequest.id), (r.(JsonRpcRequest.method),
          (r.(JsonRpcRequest.params), tt))))).

Definition JsonRpcError_codec : Codec JsonRpcError :=
  struct (req "code" i32_codec ⊳ req "message" string_codec ⊳ opt_skipped "data" value_codec ⊳ ∎)
    (λ '(code, (message, (data, _))), JsonRpcError.mk code message data)
    (λ e, (e.(JsonRpcError.code), (e.(JsonRpcError.message), (e.(JsonRpcError.data), tt)))).

Definition JsonRpcResponse_codec : Codec JsonRpcResponse :=
  struct (req "jsonrpc" string_codec ⊳ req "id" value_codec ⊳ opt_skipped "result" value_codec ⊳
          opt_skipped "error" JsonRpcError_codec ⊳ ∎)
    (λ '(jsonrpc, (id, (result, (error, _)))), JsonRpcResponse.mk jsonrpc id result error)
    (λ r, (r.(JsonRpcResponse.jsonrpc), (r.(JsonRpcResponse.id), (r.(JsonRpcResponse.result),
          (r.(JsonRpcResponse.error), tt))))).

Definition json_rpc_result (id result : Value) : JsonRpcResponse :=
  JsonRpcResponse.mk "2.0" id (Some result) None.
Definition json_rpc_failure (id : Value) (error : JsonRpcError) : JsonRpcResponse :=
  JsonRpcResponse.mk "2.0" id None (Some error).
Definition json_rpc_error (code : Z) (message : string) : JsonRpcError :=
  JsonRpcError.mk code message None.

(** [serde_json::to_value]. *)
Definition to_value {A} (c : Codec A) (a : A) : Value := as_map (enc c a).

Definition text_content (text : string) : Value :=
  Array [json_object [("type", Str "text"); ("text", Str text)]].

Definition tool_success {A} (text : string) (c : Codec A) (structured : A) : Value :=
  json_object [("content", text_content text); ("structuredContent", to_value c structured)].

Definition tool_error (message : string) : Value :=
  json_object
    [("content", text_content ("ERROR: " +:+ message));
     ("_meta", json_object [("rtm_tool_error",
        json_object [("is_error", Bool true); ("message", Str message)])])].

(** ** mcp_bridge.rs *)

Section bridge.
Context {S L O : Type} `{LifecycleStore S, EventSink L, Os O, External, Json, Build}.
Variable config : DaemonConfig.
Variable event_waiter_count : L → nat.

Notation Task := (Prog (Server S L O) Error).

Definition initialize_result : Value :=
  json_object
    [("protocolVersion", Str MCP_PROTOCOL_VERSION);
     ("capabilities", json_object [("tools", json_object [])]);
     ("serverInfo", json_object [("name", Str "rtm");
                                 ("version", Str runtime_version_info.(VersionInfo.version))]);
     ("instructions", Str "runtime-matters admin MCP exposes rtmd substrate operations only.")].

Definition ensure_empty_arguments (arguments : Value) : result Error unit :=
  match arguments with
  | Object [] => Ok tt
  | _ => Err (anyhow "tool does not accept arguments")
  end.

(** [serde_json::from_value]. *)
Definition arguments_as {A} (c : Codec A) (arguments : Value) : result Error A :=
  map_err anyhow (dec c arguments).

Definition success {A} (c : Codec A) (response : A) : Value :=
  tool_success (json_to_string (enc c response)) c response.

Definition tool_kill_by_pid (arguments : Value) : Task Value :=
  request ← lift_result (arguments_as KillByPidRequest_codec arguments);
  response ← kill_pid request;
  mret (success KillByPidResponse_codec response).

Definition tool_status (arguments : Value) : Task Value :=
  filter ← lift_result (arguments_as StatusFilter_codec arguments);
  lifecycles ← status config filter;
  mret (tool_success (json_to_string (enc (list_codec Lifecycle_codec) lifecycles))
          (one "lifecycles" (list_codec Lifecycle_codec)) lifecycles).

Definition tool_version (arguments : Value) : Task Value :=
  _ ← lift_result (ensure_empty_arguments arguments);
  mret (success VersionInfo_codec runtime_version_info).

Definition tool_watchers (arguments : Value) : Task Value :=
  _ ← lift_result (ensure_empty_arguments arguments);
  response ← watcher_counts event_waiter_count;
  mret (success WatcherCounts_codec response).

Definition call_tool (name : string) (arguments : Value) : Task Value :=
  if String.eqb name "rtm_kill_by_pid" then tool_kill_by_pid arguments
  else if String.eqb name "rtm_status" then tool_status arguments
  else if String.eqb name "rtm_version" then tool_version arguments
  else if String.eqb name "rtm_watchers" then tool_watchers arguments
  else mret (tool_error ("Unknown tool: " +:+ name)).

(** The tool and its arguments. *)
Definition tool_call_of (params : option Value) : result JsonRpcError (string * Value) :=
  params ← ok_or (json_rpc_error (-32602) "Missing params") params;
  name ← ok_or (json_rpc_error (-32602) "Missing tool name")
           (name ← get_field "name" params; match name with Str s => Some s | _ => None end);
  Ok (name, default (json_object []) (get_field "arguments" params)).

Definition handle_tool_call (params : option Value) : Task (result JsonRpcError Value) :=
  match tool_call_of params with
  | Err error => mret (Err error)
  | Ok (name, arguments) =>
      r ← attempted (call_tool name arguments);
      mret (Ok (match r with Ok value => value | Err error => tool_error (display_Error error) end))
  end.

Definition handle_method (method : string) (params : option Value) : Task (result JsonRpcError Value) :=
  if String.eqb method "initialize" then mret (Ok initialize_result)
  else if String.eqb method "ping" then mret (Ok (json_object []))
  else if String.eqb method "tools/list" then mret (Ok (tool_list_value contract_registry))
  else if String.eqb method "tools/call" then handle_tool_call params
  else mret (Err (json_rpc_error (-32601) ("Method not found: " +:+ method))).

Definition handle_request (request : JsonRpcRequest) : Task (option JsonRpcResponse) :=
  let id := default Null request.(JsonRpcRequest.id) in
  if starts_with "notifications/" request.(JsonRpcRequest.method) then mret None else
  r ← handle_method request.(JsonRpcRequest.method) request.(JsonRpcRequest.params);
  mret (Some (match r with
              | Ok value => json_rpc_result id value
              | Err error => json_rpc_failure id error
              end)).

(** A response is always written: its keys are strings and its numbers finite. *)
Definition handle_line (line : string) : Task (option string) :=
  response ←
    match from_str (dec JsonRpcRequest_codec) line with
    | Ok request => handle_request request
    | Err error => mret (Some (json_rpc_failure Null (json_rpc_error (-32700) ("Parse error: " +:+ error))))
    end;
  mret ((λ r, json_to_string (enc JsonRpcResponse_codec r)) <$> response).
End bridge.

(** ** What a line is answered *)

Section answers.
Context {S L O : Type} `{!LifecycleStore S, !EventSink L, !Os O, !External, !Json, !Build}.
Variable config : DaemonConfig.
Variable event_waiter_count : L → nat.

Notation W := (Server S L O).

Definition is_notification (request : JsonRpcRequest) : bool :=
  starts_with "notifications/" request.(JsonRpcRequest.method).

Definition known_methods : list string := ["initialize"; "ping"; "tools/list"; "tools/call"].

(** Why a request is refused before anything of it is run. *)
Definition refusal (request : JsonRpcRequest) : option JsonRpcError :=
  if decide (request.(JsonRpcRequest.method) ∈ known_methods) then
    if String.eqb request.(JsonRpcRequest.method) "tools/call" then
      match tool_call_of request.(JsonRpcRequest.params) with Err e => Some e | Ok _ => None end
    else None
  else Some (json_rpc_error (-32601) ("Method not found: " +:+ request.(JsonRpcRequest.method))).

Definition success_text (id value : Value) : string :=
  json_to_string (Object [("jsonrpc", Str "2.0"); ("id", id); ("result", value)]).
Definition failure_text (id : Value) (e : JsonRpcError) : string :=
  json_to_string (Object [("jsonrpc", Str "2.0"); ("id", id);
    ("error", Object [("code", Number e.(JsonRpcError.code)); ("message", Str e.(JsonRpcError.message))])]).

Lemma failure_text_enc id e :
  e.(JsonRpcError.data) = None →
  json_to_string (enc JsonRpcResponse_codec (json_rpc_failure id e)) = failure_text id e.
Proof. destruct e as [c m d]. simpl. intros ->. done. Qed.

Lemma tool_call_of_data params e : tool_call_of params = Err e → e.(JsonRpcError.data) = None.
Proof.
  unfold tool_call_of. destruct params as [params|]; simpl; [|by intros [= <-]].
  destruct (get_field "name" params) as [[| | | |s| |]|]; simpl; by intros [= <-] || done.
Qed.

Lemma handle_tool_call_run params (w : W) :
  match tool_call_of params with
  | Err e => run (handle_tool_call config event_waiter_count params) w = (Ok (Err e), w)
  | Ok (name, arguments) =>
      ∃ v, run (handle_tool_call config event_waiter_count params) w =
             (Ok (Ok v), (run (call_tool config event_waiter_count name arguments) w).2) ∧
        match (run (call_tool config event_waiter_count name arguments) w).1 with
        | Ok v' => v = v'
        | Err e => v = tool_error (display_Error e)
        end
  end.
Proof.
  unfold handle_tool_call. destruct (tool_call_of params) as [[name arguments]|e]; [|done].
  rewrite run_bind_match, run_attempted. unfold attempt. destruct (run (call_tool _ _ _ _) w) as [[v|e] w']; by eexists.
Qed.

(** The tool that a request calls has run, and its failure is part of the result. *)
Definition called (request : JsonRpcRequest) (w : W) (v : Value) (w' : W) : Prop :=
  request.(JsonRpcRequest.method) = "tools/call" → ∀ name arguments,
  tool_call_of request.(JsonRpcRequest.params) = Ok (name, arguments) →
  let r := run (call_tool config event_waiter_count name arguments) w in
  w' = r.2 ∧ v = match r.1 with Ok v => v | Err e => tool_error (display_Error e) end.

Lemma handle_method_run request (w : W) :
  let r := run (handle_method config event_waiter_count request.(JsonRpcRequest.method)
                  request.(JsonRpcRequest.params)) w in
  match refusal request with
  | Some e => r = (Ok (Err e), w) ∧ e.(JsonRpcError.data) = None
  | None => ∃ v w', r = (Ok (Ok v), w') ∧ called request w v w'
  end.
Proof.
  unfold handle_method, refusal, called. set (m := JsonRpcRequest.method request).
  destruct (String.eqb_spec m "initialize") as [->|Ne1]; [do 2 eexists; split; [reflexivity|done]|].
  destruct (String.eqb_spec m "ping") as [->|Ne2]; [do 2 eexists; split; [reflexivity|done]|].
  destruct (String.eqb_spec m "tools/list") as [->|Ne3]; [do 2 eexists; split; [reflexivity|done]|].
  destruct (String.eqb_spec m "tools/call") as [->|Ne4].
  - rewrite decide_True by (unfold known_methods; set_solver).
    pose proof (handle_tool_call_run (JsonRpcRequest.params request) w) as Hc.
    destruct (tool_call_of _) as [[name arguments]|e] eqn:E.
    + destruct Hc as (v & -> & Hv). do 2 eexists. split; [reflexivity|]. intros _ ? ? [= <- <-].
      split; [done|]. by destruct (run _ _).1.
    + split; [done|]. by eapply tool_call_of_data.
  - rewrite decide_False by (unfold known_methods; set_solver). done.
Qed.

(** A line is always answered or passed over, and an answer is one line. *)
Lemma handle_line_total line (w : W) :
  ∃ answer w', run (handle_line config event_waiter_count line) w = (Ok answer, w') ∧
    option_fits (λ text, newline ∉ bytes text) answer.
Proof.
  unfold handle_line. destruct (from_str _ line) as [request|e].
  2:{ do 2 eexists. split; [reflexivity|]. apply json_no_newline. }
  unfold handle_request. destruct (starts_with _ _); [by do 2 eexists|].
  rewrite run_bind_match, run_bind_match. pose proof (handle_method_run request w) as Hm. cbv zeta in Hm.
  destruct (refusal request) as [e|].
  - destruct Hm as [-> _]. do 2 eexists. split; [reflexivity|]. apply json_no_newline.
  - destruct Hm as (v & w' & -> & _). do 2 eexists. split; [reflexivity|]. apply json_no_newline.
Qed.

(** C18. One answer a line. A line of the bridge is answered with one line of text at most,
    whatever the tools do: what is not a request gets the error -32700 with a null id, a
    notification gets nothing, and any other request is answered under its own id, with an
    error exactly when it is refused (-32601 for a method that does not exist, -32602 for a
    call without parameters or without a tool name), in which case nothing was run, and with
    a result otherwise: that of the tool it calls, which has run once, or a result that
    tells the tool's failure. *)
Theorem mcp_line_answered line (w : W) :
  ∃ answer w', run (handle_line config event_waiter_count line) w = (Ok answer, w') ∧
    option_fits (λ text, newline ∉ bytes text) answer ∧
    match from_str (dec JsonRpcRequest_codec) line with
    | Err e => answer = Some (failure_text Null (json_rpc_error (-32700) ("Parse error: " +:+ e))) ∧ w' = w
    | Ok request =>
        let id := default Null request.(JsonRpcRequest.id) in
        if is_notification request then answer = None ∧ w' = w else
        match refusal request with
        | Some e => answer = Some (failure_text id e) ∧ w' = w
        | None => ∃ v, answer = Some (success_text id v) ∧ called request w v w'
        end
    end.
Proof.
  unfold handle_line. destruct (from_str _ line) as [request|e].
  2:{ do 2 eexists. split; [reflexivity|]. split; [apply json_no_newline|done]. }
  unfold handle_request. fold (is_notification request). destruct (is_notification request).
  { do 2 eexists. by split. }
  rewrite run_bind_match, run_bind_match. pose proof (handle_method_run request w) as Hm. cbv zeta in Hm.
  destruct (refusal request) as [e|].
  - destruct Hm as [-> He]. do 2 eexists. split; [reflexivity|]. split; [apply json_no_newline|].
    split; [|done]. apply (f_equal Some). by apply failure_text_enc.
  - destruct Hm as (v & w' & -> & Hv). do 2 eexists. split; [reflexivity|]. split; [apply json_no_newline|].
    by exists v.
Qed.
End answers.

(** ** Schemas *)

(** The part of a tool's result that its output schema describes. *)
Definition structured_content (v : Value) : option Value := get_field "structuredContent" v.

Lemma structured_success {A} text (c : Codec A) a :
  structured_content (tool_success text c a) = Some (to_value c a).
Proof. done. Qed.

Lemma conforms_closed `{External} n schema properties fields :
  get_field "type" schema = Some (Str "object") → get_field "format" schema = None →
  get_field "required" schema = None → get_field "additionalProperties" schema = Some (Bool false) →
  get_field "properties" schema = Some properties →
  conforms (S n) schema (Object fields) =
    forallb (λ kv, match get_field kv.1 properties with Some s => conforms n s kv.2 | None => false end)
      fields.
Proof.
  intros Et Ef Er Ea Ep. cbn [conforms]. unfold is_closed, text_keyword, keyword.
  rewrite Et, Ef, Er, Ea, Ep. done.
Qed.

Lemma conforms_any_object `{External} n fields :
  conforms (S n) (Object [("type", Str "object")]) (Object fields) = true.
Proof. cbn. by induction fields. Qed.

Lemma conforms_array `{External} n schema items l :
  get_field "type" schema = Some (Str "array") → get_field "format" schema = None →
  get_field "items" schema = Some items →
  conforms (S n) schema (Array l) = forallb (conforms n items) l.
Proof.
  intros Et Ef Ei. cbn [conforms]. unfold text_keyword, keyword. by rewrite Et, Ef, Ei.
Qed.

Lemma forallb_map_true {A B} (f : B → bool) (g : A → B) l :
  (∀ a, f (g a) = true) → forallb f (map g l) = true.
Proof. intros Hf. induction l as [|a l IH]; [done|]. simpl. by rewrite Hf, IH. Qed.

(** A known object against a schema of the table: each field on its own. *)
Ltac conforms_fields :=
  match goal with |- context [conforms _ (output_schema_value ?c) _] =>
    let s := eval vm_compute in (output_schema_value c) in change (output_schema_value c) with s
  end;
  erewrite conforms_closed by reflexivity; cbn [forallb fst snd];
  repeat match goal with |- context [get_field ?k ?ps] =>
    let r := eval vm_compute in (get_field k ps) in change (get_field k ps) with r
  end; cbv iota.

(** Tool results. The structured results of [rtm_status], [rtm_version] and
    [rtm_watchers] conform to the output schemas that the server lists for them, whatever
    the daemon answers. No result of [rtm_kill_by_pid] conforms to its schema: the schema
    closes the object without the field [outcome] that every response has. *)
Theorem tool_results_conform `{External, Json} :
  (∀ v, option_map (conforms 3 (output_schema_value rtm_version))
          (structured_content (success VersionInfo_codec v)) = Some true) ∧
  (∀ c, option_map (conforms 3 (output_schema_value rtm_watchers))
          (structured_content (success WatcherCounts_codec c)) = Some true) ∧
  (∀ text ls, option_map (conforms 3 (output_schema_value rtm_status))
          (structured_content (tool_success text (one "lifecycles" (list_codec Lifecycle_codec)) ls)) =
        Some true) ∧
  (∀ r, option_map (conforms 3 (output_schema_value rtm_kill_by_pid))
          (structured_content (success KillByPidResponse_codec r)) = Some false).
Proof.
  unfold success. split_and!.
  - intros [version sha protocol capabilities]. rewrite structured_success. unfold option_map. apply (f_equal Some).
    change (to_value _ _) with (Object [
      ("capabilities", Array (map as_map (map (enc RuntimeCapability_codec) capabilities)));
      ("git_sha", Str sha); ("protocol_version", Str protocol); ("version", Str version)]).
    conforms_fields. erewrite conforms_array by reflexivity. rewrite map_map.
    by rewrite forallb_map_true by (intros []; reflexivity).
  - intros [exits sockets waiters]. rewrite structured_success. unfold option_map. apply (f_equal Some).
    change (to_value _ _) with (Object [
      ("event_waiters", Number (Z.of_nat waiters)); ("process_exit_watchers", Number (Z.of_nat exits));
      ("shim_sockets", Number (Z.of_nat sockets))]).
    by conforms_fields.
  - intros text ls. rewrite structured_success. unfold option_map. apply (f_equal Some).
    change (to_value _ _) with (Object [("lifecycles", Array (map as_map (map (enc Lifecycle_codec) ls)))]).
    conforms_fields. erewrite conforms_array by reflexivity. rewrite map_map.
    rewrite forallb_map_true; [done|]. intros l.
    assert (∃ fields, as_map (enc Lifecycle_codec l) = Object fields) as [fields ->] by (by eexists).
    by apply conforms_any_object.
  - intros [pid signal killed outcome]. rewrite structured_success. unfold option_map. apply (f_equal Some).
    change (to_value _ _) with (Object [("killed_after_grace", Bool killed);
      ("outcome", as_map (enc KillOutcome_codec outcome)); ("pid", Number (Z.of_N pid)); ("signal", Number signal)]).
    by conforms_fields.
Qed.

(** *** Arguments *)

Section arguments.
Context `{External}.

(** Reading one field of a map. *)
Definition present (fields : list (string * Value)) (k : string) : option Value :=
  get_field k (Object fields).

Lemma required_present n schema fields k names :
  conforms (S n) schema (Object fields) = true → get_field "required" schema = Some (Array names) →
  Str k ∈ names → is_Some (present fields k).
Proof.
  cbn [conforms]. intros Hc Hr Hk. apply andb_prop in Hc as [_ Hc]. apply andb_prop in Hc as [Hc _].
  unfold keyword in Hc. rewrite Hr in Hc. rewrite forallb_forall in Hc.
  specialize (Hc _ (proj1 (list_elem_of_In _ _) Hk)). cbv beta iota in Hc. apply existsb_exists in Hc as (k' & Hin & E).
  apply String.eqb_eq in E as <-. apply in_map_iff in Hin as ([k' v] & <- & Hin).
  unfold present, get_field. destruct (filter _ fields) as [|[k0 w] l] eqn:E; [|by eexists].
  assert ((k', v) ∈ filter (λ kv, kv.1 = k') fields) as Hf
    by (apply list_elem_of_filter; split; [done|by apply list_elem_of_In]).
  simpl in E. rewrite E in Hf. by apply elem_of_nil in Hf.
Qed.

Lemma integer_schema n lo hi format schema v :
  conforms (S n) schema v = true →
  get_field "type" schema = Some (Str "integer") → get_field "format" schema = Some (Str format) →
  (∀ z, format_ok format (Number z) = bool_decide (lo ≤ z ≤ hi)%Z) →
  ∃ z, v = Number z ∧ (lo ≤ z ≤ hi)%Z.
Proof.
  cbn [conforms]. unfold text_keyword, keyword. intros Hc Et Ef Hf. rewrite Et, Ef in Hc. destruct v; try discriminate Hc.
  cbn [type_ok String.eqb] in Hc. rewrite Hf, andb_true_r in Hc. cbn in Hc.
  apply bool_decide_eq_true in Hc. by eexists.
Qed.

Lemma text_schema n schema v :
  conforms (S n) schema v = true → get_field "type" schema = Some (Str "string") →
  ∃ s, v = Str s ∧ ∀ f, get_field "format" schema = Some (Str f) → format_ok f v = true.
Proof.
  cbn [conforms]. unfold text_keyword, keyword. intros Hc Ht. rewrite Ht in Hc. destruct v; try discriminate Hc.
  eexists. split; [done|]. intros f Hf. rewrite Hf in Hc. cbn in Hc. by rewrite andb_true_r in Hc.
Qed.

Lemma list_schema n schema items v :
  conforms (S n) schema v = true → get_field "type" schema = Some (Str "array") →
  get_field "items" schema = Some items →
  ∃ l, v = Array l ∧ ∀ w, w ∈ l → conforms n items w = true.
Proof.
  cbn [conforms]. unfold text_keyword, keyword. intros Hc Ht Hi. rewrite Ht in Hc. destruct v as [| | | | |l|]; try discriminate Hc.
  exists l. split; [done|]. intros w Hw. apply andb_prop in Hc as [_ Hc]. rewrite Hi in Hc.
  rewrite forallb_forall in Hc. apply Hc. by apply list_elem_of_In.
Qed.

Lemma object_of n schema v :
  conforms (S n) schema v = true → get_field "type" schema = Some (Str "object") →
  ∃ fields, v = Object fields.
Proof.
  cbn [conforms]. unfold text_keyword, keyword. intros Hc Ht. rewrite Ht in Hc. destruct v; try done. by eexists.
Qed.

Lemma read_struct_map names fields :
  ordered fields →
  read_struct names (Object fields) = Ok (map (λ name, slot_of (present fields name)) names).
Proof.
  intros Ho. cbn [read_struct]. rewrite (try_map_total _ (present fields)) by (intros name _; by apply field_opt_get).
  unfold mbind, result_bind. f_equal. unfold fmap. by rewrite map_map.
Qed.

Lemma struct_accepts {P A} (fs : Fields P) (mk : P → A) un fields :
  ordered fields →
  is_ok (fs.(fields_read) (map (λ name, slot_of (present fields name)) fs.(fields_names))) = true →
  is_ok (arguments_as (struct fs mk un) (Object fields)) = true.
Proof.
  intros Ho Hr. unfold arguments_as. cbn [struct dec]. rewrite read_struct_map by done.
  unfold mbind, result_bind. by destruct (fields_read _ _).
Qed.

Lemma field_accepts {A B} (f : Field A) (fs : Fields B) slot slots :
  is_ok (f.(field_read) slot) = true → is_ok (fs.(fields_read) slots) = true →
  is_ok ((f ⊳ fs)%fields.(fields_read) (slot :: slots)) = true.
Proof. cbn [fields_cons fields_read]. by destruct (field_read f slot), (fields_read fs slots). Qed.

Lemma req_accepts {A} name (c : Codec A) o w :
  o = Some w → is_ok (dec c w) = true → is_ok ((req name c).(field_read) (slot_of o)) = true.
Proof. by intros ->. Qed.

Lemma option_accepts {A} (c : Codec A) w : is_ok (dec c w) = true → is_ok (dec (option_codec c) w) = true.
Proof. intros Hw. cbn [option_codec dec]. destruct w; try done; by destruct (dec c _). Qed.

Lemma field_or_default_accepts {A} name skip ended (d : A) (c : Codec A) o :
  (∀ w, o = Some w → is_ok (dec c w) = true) →
  is_ok ((field name skip (Some d) ended c).(field_read) (slot_of o)) = true.
Proof. intros Hw. destruct o as [w|]; [by apply Hw|done]. Qed.

Lemma text_accepts schema w n :
  conforms (S n) schema w = true → get_field "type" schema = Some (Str "string") →
  is_ok (dec string_codec w) = true.
Proof. intros Hc Ht. by destruct (text_schema _ _ _ Hc Ht) as (s & -> & _). Qed.

Lemma uuid_accepts schema w n :
  conforms (S n) schema w = true → get_field "type" schema = Some (Str "string") →
  get_field "format" schema = Some (Str "uuid") → is_ok (dec uuid_codec w) = true.
Proof.
  intros Hc Ht Hf. destruct (text_schema _ _ _ Hc Ht) as (s & -> & Hs). apply Hs in Hf. exact Hf.
Qed.

Lemma time_accepts schema w n :
  conforms (S n) schema w = true → get_field "type" schema = Some (Str "string") →
  get_field "format" schema = Some (Str "date-time") → is_ok (dec time_codec w) = true.
Proof.
  intros Hc Ht Hf. destruct (text_schema _ _ _ Hc Ht) as (s & -> & Hs). apply Hs in Hf. exact Hf.
Qed.

Lemma list_accepts {A} (c : Codec A) l :
  (∀ w, w ∈ l → is_ok (dec c w) = true) → is_ok (dec (list_codec c) (Array l)) = true.
Proof.
  cbn [list_codec dec]. induction l as [|w l IH]; intros Hl; [done|]. cbn [try_map].
  pose proof (Hl w (list_elem_of_here _ _)) as Hw. destruct (dec c w); [|done].
  assert (is_ok (try_map (dec c) l) = true) as Hr by (apply IH; intros w' ?; apply Hl; by right). unfold mbind, result_bind.
  by destruct (try_map (dec c) l).
Qed.

Lemma no_arguments schema fields n :
  conforms (S n) schema (Object fields) = true →
  get_field "additionalProperties" schema = Some (Bool false) →
  get_field "properties" schema = Some (Object []) → ensure_empty_arguments (Object fields) = Ok tt.
Proof.
  cbn [conforms]. intros Hc Ha Hp. destruct fields as [|[k w] fields]; [done|]. exfalso.
  apply andb_prop in Hc as [_ Hc]. apply andb_prop in Hc as [_ Hc]. cbn [forallb fst snd] in Hc.
  rewrite Hp in Hc. unfold is_closed, keyword in Hc. rewrite Ha in Hc. done.
Qed.

(** Tool arguments. Arguments that conform to the input schema which the server lists for
    a tool are accepted by it: those of [rtm_kill_by_pid] and [rtm_status] are read as a
    request, the other two tools take none. *)
Theorem tool_arguments_accepted v :
  (conforms 3 (input_schema_value rtm_kill_by_pid) (as_map v) = true →
   is_ok (arguments_as KillByPidRequest_codec (as_map v)) = true) ∧
  (conforms 3 (input_schema_value rtm_status) (as_map v) = true →
   is_ok (arguments_as StatusFilter_codec (as_map v)) = true) ∧
  (conforms 3 (input_schema_value rtm_version) (as_map v) = true →
   ensure_empty_arguments (as_map v) = Ok tt) ∧
  (conforms 3 (input_schema_value rtm_watchers) (as_map v) = true →
   ensure_empty_arguments (as_map v) = Ok tt).
Proof.
  split_and!; intros Hc; destruct (object_of _ _ _ Hc eq_refl) as [fields E]; rewrite E in *;
    [apply as_map_ordered in E; apply struct_accepts; [exact E|]..
    |by eapply (no_arguments _ _ _ Hc)|by eapply (no_arguments _ _ _ Hc)].
  - pose proof (λ k, required_present _ _ _ k [Str "pid"; Str "signal"; Str "grace_secs"] Hc eq_refl) as Hr.
    destruct (Hr "pid") as [w1 E1]; [set_solver|]. destruct (Hr "signal") as [w2 E2]; [set_solver|].
    destruct (Hr "grace_secs") as [w3 E3]; [set_solver|]. clear Hr.
    pose proof (conforms_field _ _ _ _ "pid" _ _ Hc eq_refl eq_refl E1) as C1.
    pose proof (conforms_field _ _ _ _ "signal" _ _ Hc eq_refl eq_refl E2) as C2.
    pose proof (conforms_field _ _ _ _ "grace_secs" _ _ Hc eq_refl eq_refl E3) as C3.
    apply (integer_schema _ 0 (Z.of_N u32_max) "u32") in C1 as (z1 & -> & B1); [|done..].
    apply (integer_schema _ i32_min i32_max "i32") in C2 as (z2 & -> & B2); [|done..].
    apply (integer_schema _ 0 (Z.of_N u32_max) "u32") in C3 as (z3 & -> & B3); [|done..].
    repeat apply field_accepts; [eapply req_accepts; [eassumption|]..|done];
      cbn [dec u32_codec i32_codec u64_codec]; unfold u32_from_value, i32_from_value, u64_from_value, int_from_value;
      rewrite decide_True by (unfold u32_max, u64_max in *; lia); done.
  - repeat apply field_accepts; [apply field_or_default_accepts; intros w Ew..|done]; try apply option_accepts;
      match type of Ew with present _ ?k = _ =>
        pose proof (conforms_field _ _ _ _ k _ _ Hc eq_refl eq_refl Ew) as C end.
    + by eapply uuid_accepts in C.
    + eapply list_schema in C as (l & -> & Hl); [|done..]. apply list_accepts. intros u Hu.
      apply Hl in Hu. by eapply uuid_accepts in Hu.
    + by eapply time_accepts in C.
    + by eapply text_accepts in C.
    + by eapply text_accepts in C.
Qed.
End arguments.

Lemma tool_arguments_accepted_witness :
  let arguments := Object [("grace_secs", Number 2); ("pid", Number 4242); ("signal", Number 15)] in
  @conforms decimal_external 3 (input_schema_value rtm_kill_by_pid) (as_map arguments) = true ∧
  is_ok (arguments_as KillByPidRequest_codec (as_map arguments)) = true.
Proof.
  intros arguments.
  assert (@conforms decimal_external 3 (input_schema_value rtm_kill_by_pid) (as_map arguments) = true) as Hc
    by (vm_compute; reflexivity).
  split; [exact Hc|]. exact (proj1 (@tool_arguments_accepted decimal_external arguments) Hc).
Defined.
