(* ===== verification/Reconcile.v ===== *)
(** * Reconciliation with the processes that still run (crates/rtm-daemon/src/reconcile.rs)

    The sweep over the running sessions at startup and periodically, and its schedule. Times
    are milliseconds of the monotonic clock, and nanoseconds of wall time as everywhere. *)

From S2P Require Import Prelude RustStr RustPath Types Parsers Json Launch Errors Lifecycles.
From S2P Require Import Interfaces Prog Platform Paths Docker Server.
From stdpp Require Import options.

(** ** Configuration *)

Definition PROBE_SWEEP_INTERVAL : N := 30000.
Definition RESUME_POLL_INTERVAL : N := 1000.
Definition RESUME_GAP_THRESHOLD : Z := 3000.

Definition ReconcileConfig_default : ReconcileConfig :=
  ReconcileConfig.mk PROBE_SWEEP_INTERVAL RESUME_POLL_INTERVAL RESUME_GAP_THRESHOLD.

(** [var_os] is [std::env::var_os]. The text of the parse error is the standard library's. *)
Definition duration_env (var_os : string → option string) (name : string) (default : N)
    : result Error N :=
  match var_os name with
  | None => Ok default
  | Some value =>
      let text := to_string_lossy value in
      ok_or (anyhow (name +:+ " must be milliseconds: " +:+ parse_unsigned_error u64_max text))
        (parse_u64 text)
  end.

Section config.
(** The text of the error of a signed parse. *)
Variable parse_signed_error : string → string.

Definition chrono_duration_env (var_os : string → option string) (name : string) (default : Z)
    : result Error Z :=
  match var_os name with
  | None => Ok default
  | Some value =>
      let text := to_string_lossy value in
      ok_or (anyhow (name +:+ " must be milliseconds: " +:+ parse_signed_error text)) (parse_i64 text)
  end.

Definition reconcile_config_from_env (var_os : string → option string) : result Error ReconcileConfig :=
  sweep_interval ← duration_env var_os "RTM_PROBE_SWEEP_INTERVAL_MS" PROBE_SWEEP_INTERVAL;
  resume_poll_interval ← duration_env var_os "RTM_RESUME_POLL_INTERVAL_MS" RESUME_POLL_INTERVAL;
  resume_gap_threshold ← chrono_duration_env var_os "RTM_RESUME_GAP_THRESHOLD_MS" RESUME_GAP_THRESHOLD;
  Ok (ReconcileConfig.mk sweep_interval resume_poll_interval resume_gap_threshold).
End config.

(** ** The sweep *)

(** [trait RuntimeLiveness]. *)
Definition RuntimeLiveness (O : Type) : Type := Lifecycle → M O Error (option LostEvidence).

Section liveness.
Context {O : Type}.

(** [trait ProcessProbe]. *)
Record ProcessProbe := mkProcessProbe {
  probe_alive : N → M O Error bool;
  probe_start_time : N → M O Error ProcessStartTime }.

Definition host_lost_evidence (lifecycle : Lifecycle) (probe : ProcessProbe)
    : M O Error (option LostEvidence) :=
  runtime_pid ← lift (ok_or (anyhow "running lifecycle missing runtime pid") lifecycle.(Lifecycle.runtime_pid));
  alive ← probe.(probe_alive) runtime_pid;
  if negb alive then mret (Some LostEvidence.PidNotAlive) else
  match lifecycle.(Lifecycle.start_time) with
  | None => mret None
  | Some stored_start_time =>
      current ← attempt (probe.(probe_start_time) runtime_pid);
      match current with
      | Ok (Known current_start_time) =>
          mret (if bool_decide (current_start_time = stored_start_time) then None
                else Some LostEvidence.PidReuseDetected)
      | Ok Gone => mret (Some LostEvidence.PidNotAlive)
      | Ok Unsupported =>
          alive ← probe.(probe_alive) runtime_pid;
          mret (if (alive : bool) then None else Some LostEvidence.PidNotAlive)
      | Err error =>
          alive ← probe.(probe_alive) runtime_pid;
          if (alive : bool) then throw error else mret (Some LostEvidence.PidNotAlive)
      end
  end.

Context `{Os O, External}.
Variable timestamp_opt : Z → N → option DateTime.

Definition SystemProcessProbe : ProcessProbe :=
  mkProcessProbe pid_alive (start_time_probe_for_pid timestamp_opt).

(** [DockerCliLiveness::lost_evidence]. *)
Definition docker_lost_evidence : RuntimeLiveness O := λ lifecycle,
  running ← container_running lifecycle.(Lifecycle.session_id);
  mret (if (running : bool) then None else Some LostEvidence.PidNotAlive).

(** [ReconcileLiveness::lost_evidence]. *)
Definition ReconcileLiveness (probe : ProcessProbe) (docker : RuntimeLiveness O) : RuntimeLiveness O :=
  λ lifecycle,
  match lifecycle.(Lifecycle.isolation) with
  | IsolationPolicy.Host => host_lost_evidence lifecycle probe
  | IsolationPolicy.Docker _ => docker lifecycle
  end.
End liveness.
Arguments ProcessProbe : clear implicits.

Section sweep.
Context {S L O : Type} `{LifecycleStore S, EventSink L, Os O, External}.

Notation W := (Server S L O).
Notation Task := (Prog W Error).

(** [Utc::now]: the clock of the sweep. *)
Variable utc_now : M O Error DateTime.
Variable liveness : RuntimeLiveness O.

(** The body of the loop, and the loop. *)
Definition reconcile_session (lifecycle : Lifecycle) : Task (option RuntimeEvent) :=
  evidence ← atomic (on_os (liveness lifecycle));
  match evidence with
  | Some evidence => record_lost lifecycle.(Lifecycle.session_id) evidence
  | None =>
      runtime_pid ← lift_result (ok_or (anyhow "running lifecycle missing runtime pid")
                                   lifecycle.(Lifecycle.runtime_pid));
      _ ← start_exit_watcher lifecycle.(Lifecycle.session_id) runtime_pid;
      mret None
  end.

Fixpoint reconcile_sessions (ls : list Lifecycle) : Task (list RuntimeEvent) :=
  match ls with
  | [] => mret []
  | l :: ls =>
      event ← reconcile_session l;
      events ← reconcile_sessions ls;
      mret (option_list event ++ events)
  end.

Definition reconcile_once : Task (list RuntimeEvent) :=
  ls ← atomic (on_store running);
  events ← reconcile_sessions ls;
  now ← atomic (on_os utc_now);
  _ ← atomic (on_store (record_probe_sweep now));
  mret events.
End sweep.

(** [reconcile_startup]. *)
Definition reconcile_startup {S L O} `{LifecycleStore S, EventSink L, Os O, External}
    (timestamp_opt : Z → N → option DateTime) (utc_now : M O Error DateTime)
    : Prog (Server S L O) Error (list RuntimeEvent) :=
  reconcile_once utc_now (ReconcileLiveness (SystemProcessProbe timestamp_opt) docker_lost_evidence).

(** ** The schedule *)

(** The loop of [advance_deadline]: [None] when the fuel runs out. *)
Fixpoint advance_loop (fuel : nat) (deadline interval now : N) : option N :=
  if (deadline <=? now)%N then
    match fuel with
    | 0 => None
    | S fuel => advance_loop fuel (deadline + interval) interval now
    end
  else Some deadline.

Definition advance_deadline (fuel : nat) (deadline interval now : N) : option N :=
  advance_loop fuel (deadline + interval) interval now.

Record Schedule := mkSchedule { next_deadline : N; last_wall_tick : DateTime }.

(** When the loop sleeps until. *)
Definition poll_deadline (config : ReconcileConfig) (s : Schedule) (now : N) : N :=
  N.min s.(next_deadline) (now + config.(ReconcileConfig.resume_poll_interval)).

(** A wake-up at [now] and [wall_now]: whether it sweeps, and the schedule after it. *)
Definition sweep_due (config : ReconcileConfig) (s : Schedule) (now : N) (wall_now : DateTime) : bool :=
  let resumed := (config.(ReconcileConfig.resume_gap_threshold) * 1000000 <? wall_now - s.(last_wall_tick))%Z in
  (s.(next_deadline) <=? now)%N || resumed.

Definition next_schedule (fuel : nat) (config : ReconcileConfig) (s : Schedule) (now : N) (wall_now : DateTime)
    : option Schedule :=
  if sweep_due config s now wall_now then
    next ← (if (s.(next_deadline) <=? now)%N
            then advance_deadline fuel s.(next_deadline) config.(ReconcileConfig.sweep_interval) now
            else Some (now + config.(ReconcileConfig.sweep_interval))%N);
    Some (mkSchedule next wall_now)
  else Some (mkSchedule s.(next_deadline) wall_now).

Section periodic.
Context {St L O : Type} `{LifecycleStore St, EventSink L, Os O, External}.

Notation Task := (Prog (Server St L O) Error).

Variable utc_now : M O Error DateTime.
Variable liveness : RuntimeLiveness O.
Variable config : ReconcileConfig.
Variable fuel : nat.

(** The loop, told to shut down after [wakeups] wake-ups; [false] when the fuel of
    [advance_deadline] runs out. A sweep that fails is only logged. *)
Fixpoint periodic_loop (wakeups : nat) (s : Schedule) : Task bool :=
  match wakeups with
  | 0 => mret true
  | S wakeups =>
      started ← atomic (on_os (os_call os_instant));
      _ ← atomic (on_os (os_call (λ o, (tt, os_sleep (poll_deadline config s started - started) o))));
      now ← atomic (on_os (os_call os_instant));
      wall_now ← atomic (on_os utc_now);
      _ ← prog_when (sweep_due config s now wall_now)
            (_ ← attempted (reconcile_once utc_now liveness); mret tt);
      match next_schedule fuel config s now wall_now with
      | Some s => periodic_loop wakeups s
      | None => mret false
      end
  end.

Definition run_periodic_with_config (wakeups : nat) : Task bool :=
  now ← atomic (on_os (os_call os_instant));
  wall_now ← atomic (on_os utc_now);
  periodic_loop wakeups (mkSchedule (now + config.(ReconcileConfig.sweep_interval)) wall_now).
End periodic.

(** [run_periodic]. *)
Definition run_periodic {S L O} `{LifecycleStore S, EventSink L, Os O, External}
    (timestamp_opt : Z → N → option DateTime) (utc_now : M O Error DateTime) (config : ReconcileConfig)
    (fuel wakeups : nat) : Prog (Server S L O) Error bool :=
  run_periodic_with_config utc_now (ReconcileLiveness (SystemProcessProbe timestamp_opt) docker_lost_evidence)
    config fuel wakeups.

(** The wake-ups of the loop, and which of them sweep. *)
Fixpoint schedule_run (fuel : nat) (config : ReconcileConfig) (s : Schedule) (wakes : list (N * DateTime))
    : option (list bool * Schedule) :=
  match wakes with
  | [] => Some ([], s)
  | (now, wall_now) :: wakes =>
      s' ← next_schedule fuel config s now wall_now;
      '(sweeps, s') ← schedule_run fuel config s' wakes;
      Some (sweep_due config s now wall_now :: sweeps, s')
  end.

(** ** Theorems on the schedule *)

Lemma advance_loop_spec fuel deadline interval now d :
  advance_loop fuel deadline interval now = Some d →
  ∃ k, d = (deadline + k * interval)%N ∧ (now < d)%N ∧ (0 < k → d ≤ now + interval)%N.
Proof.
  revert deadline. induction fuel as [|fuel IH]; intros deadline; simpl;
    destruct (N.leb_spec deadline now) as [Hle|Hgt].
  - done.
  - intros [= <-]. exists 0%N. split_and!; lia.
  - intros Hd. destruct (IH _ Hd) as (k & -> & Hk & Hm). exists (k + 1)%N. split_and!; [lia|lia|].
    intros _. destruct (decide (0 < k)%N) as [Hk0|]; [specialize (Hm Hk0)|]; [lia|].
    assert (k = 0)%N as -> by lia. lia.
  - intros [= <-]. exists 0%N. split_and!; lia.
Qed.

Lemma advance_loop_total fuel deadline interval now :
  (0 < interval)%N → (now < deadline + N.of_nat fuel * interval)%N →
  is_Some (advance_loop fuel deadline interval now).
Proof.
  intros Hi. revert deadline. induction fuel as [|fuel IH]; intros deadline Hf; simpl;
    destruct (N.leb_spec deadline now); [lia|by eexists| |by eexists].
  apply IH. lia.
Qed.

(** The next sweep after a late one is the first multiple of the interval after now:
    missed sweeps are not made up for, the rhythm is kept, and the loop that finds it ends
    for every positive interval. With an interval of zero milliseconds, which the
    environment variable accepts, it never does. *)
Theorem advance_deadline_next deadline interval now :
  (deadline ≤ now)%N →
  if decide (interval = 0%N) then ∀ fuel, advance_deadline fuel deadline interval now = None
  else ∀ fuel, (now ≤ N.of_nat fuel)%N →
       ∃ k, advance_deadline fuel deadline interval now = Some (deadline + k * interval)%N ∧
            (now < deadline + k * interval ≤ now + interval)%N.
Proof.
  intros Hd. unfold advance_deadline. case_decide as Hi.
  - subst interval. intros fuel. rewrite N.add_0_r. revert deadline Hd.
    induction fuel as [|fuel IH]; intros deadline Hd; simpl;
      (destruct (N.leb_spec deadline now); [|lia]); [done|]. rewrite N.add_0_r. by apply IH.
  - intros fuel Hf.
    destruct (advance_loop_total fuel (deadline + interval) interval now) as [d Hl]; [lia|nia|].
    rewrite Hl. destruct (advance_loop_spec _ _ _ _ _ Hl) as (k & -> & Hgt & Hm).
    exists (k + 1)%N. split; [f_equal; lia|]. destruct (decide (0 < k)%N) as [Hk|Hk].
    + specialize (Hm Hk). lia.
    + assert (k = 0)%N as -> by lia. lia.
Qed.

(** *** The rhythm of the sweeps *)

Section rhythm.
Variables (fuel : nat) (config : ReconcileConfig).
Notation interval := config.(ReconcileConfig.sweep_interval).

Lemma schedule_run_cons s wake wakes sweeps s' :
  schedule_run fuel config s (wake :: wakes) = Some (sweeps, s') →
  ∃ s1 sweeps1, next_schedule fuel config s wake.1 wake.2 = Some s1 ∧
    schedule_run fuel config s1 wakes = Some (sweeps1, s') ∧
    sweeps = sweep_due config s wake.1 wake.2 :: sweeps1.
Proof.
  destruct wake as [now wall_now]. cbn [schedule_run fst snd]. intros E. apply bind_Some in E as (s1 & E1 & E).
  apply bind_Some in E as ([sweeps1 s2] & E2 & [= <- <-]). eauto.
Qed.

Lemma next_schedule_idle s now wall_now s1 :
  next_schedule fuel config s now wall_now = Some s1 →
  s1.(last_wall_tick) = wall_now ∧
  (sweep_due config s now wall_now = false → s1.(next_deadline) = s.(next_deadline)).
Proof.
  unfold next_schedule. destruct (sweep_due _ _ _ _).
  - intros (d & _ & [= <-])%bind_Some. by split.
  - by intros [= <-].
Qed.

(** A wake-up at or after the deadline sweeps, unless one before has. *)
Lemma sweeps_by_deadline s wakes sweeps s' j wake :
  schedule_run fuel config s wakes = Some (sweeps, s') → wakes !! j = Some wake →
  (s.(next_deadline) ≤ wake.1)%N → ∃ k, k ≤ j ∧ sweeps !! k = Some true.
Proof.
  revert s sweeps j. induction wakes as [|w wakes IH]; intros s sweeps j E Hj Hd; [done|].
  apply schedule_run_cons in E as (s1 & sweeps1 & E1 & E2 & ->). apply next_schedule_idle in E1 as [_ Hidle].
  destruct (sweep_due config s w.1 w.2) eqn:Edue; [by exists 0; split; [lia|]|].
  destruct j as [|j]; cbn in Hj.
  - injection Hj as ->. unfold sweep_due in Edue. destruct (N.leb_spec (next_deadline s) wake.1); [done|lia].
  - rewrite <- Hidle in Hd by done. destruct (IH s1 sweeps1 j E2 Hj Hd) as (k & Hk & Ek).
    exists (S k). split; [lia|done].
Qed.

(** Sweeps that no gap in the wall clock asked for. *)
Fixpoint no_gaps (last_wall : DateTime) (wakes : list (N * DateTime)) : Prop :=
  match wakes with
  | [] => True
  | w :: wakes =>
      (w.2 - last_wall ≤ config.(ReconcileConfig.resume_gap_threshold) * 1000000)%Z ∧ no_gaps w.2 wakes
  end.

Lemma schedule_run_rate s wakes sweeps s' :
  schedule_run fuel config s wakes = Some (sweeps, s') → no_gaps s.(last_wall_tick) wakes →
  (s.(next_deadline) + N.of_nat (length (filter (λ b, b = true) sweeps)) * interval ≤ s'.(next_deadline))%N.
Proof.
  revert s sweeps. induction wakes as [|[now wall_now] wakes IH]; intros s sweeps E Hg.
  { injection E as <- <-. cbn. lia. }
  apply schedule_run_cons in E as (s1 & sweeps1 & E1 & E2 & ->). destruct Hg as [Hg Hgs].
  cbn [fst snd] in *. pose proof (next_schedule_idle _ _ _ _ E1) as [Hw Hidle]. rewrite <- Hw in Hgs.
  specialize (IH _ _ E2 Hgs). rewrite filter_cons. destruct (sweep_due config s now wall_now) eqn:Edue.
  - rewrite decide_True by done. unfold next_schedule in E1. rewrite Edue in E1.
    unfold sweep_due in Edue. apply orb_true_iff in Edue as [Hle|Hgap]; [|lia]. rewrite Hle in E1.
    apply bind_Some in E1 as (d & E1 & [= <-]). apply advance_loop_spec in E1 as (k & -> & _). cbn in *. lia.
  - rewrite decide_False by done. by rewrite <- (Hidle eq_refl).
Qed.

Hypothesis interval_positive : (0 < interval)%N.

(** The next sweep is ahead, and at most an interval away. *)
Definition on_time (now : N) (s : Schedule) : Prop := (now < s.(next_deadline) ≤ now + interval)%N.

Lemma next_schedule_on_time s before now wall_now :
  on_time before s → (before ≤ now)%N → (now ≤ N.of_nat fuel)%N →
  ∃ s', next_schedule fuel config s now wall_now = Some s' ∧ on_time now s' ∧
        s'.(last_wall_tick) = wall_now ∧
        (sweep_due config s now wall_now = false → s'.(next_deadline) = s.(next_deadline)).
Proof using interval_positive.
  intros [Hb Hd] Hn Hf. unfold next_schedule, sweep_due, on_time.
  destruct (N.leb_spec (next_deadline s) now) as [Hle|Hgt]; cbn [orb].
  - pose proof (advance_deadline_next (next_deadline s) interval now Hle) as Ha.
    rewrite decide_False in Ha by lia. destruct (Ha fuel Hf) as (k & -> & Hk). eexists. split; [reflexivity|]. split; [exact Hk|]. by split.
  - destruct (_ <? _)%Z; (eexists; split; [reflexivity|]; cbn; split; [lia|by split]).
Qed.

Lemma schedule_run_on_time s before wakes :
  on_time before s → Sorted N.le (before :: wakes.*1) → Forall (λ w, w.1 ≤ N.of_nat fuel)%N wakes →
  ∃ sweeps s', schedule_run fuel config s wakes = Some (sweeps, s') ∧ length sweeps = length wakes ∧
    on_time (default before (last wakes.*1)) s'.
Proof using interval_positive.
  revert s before. induction wakes as [|[now wall_now] wakes IH]; intros s before Hs Hsorted Hf; cbn [schedule_run].
  { by eexists [], s. }
  apply Forall_cons in Hf as [Hf1 Hf]. cbn in Hsorted. apply Sorted_inv in Hsorted as [Hsorted Hhd].
  apply HdRel_inv in Hhd.
  destruct (next_schedule_on_time s before now wall_now Hs Hhd Hf1) as (s1 & -> & Hs1 & _). cbn [mbind option_bind].
  destruct (IH s1 now Hs1 Hsorted Hf) as (sweeps & s' & -> & Hl & Hs'). do 2 eexists. split; [reflexivity|].
  split; [by cbn; rewrite Hl|]. cbn [fmap list_fmap fst]. rewrite last_cons. by destruct (last _).
Qed.
End rhythm.

(** C35. The rhythm of the sweeps. With a positive interval, whenever the loop's sleeps end
    and whatever the wall clock does, each wake-up is decided on in a bounded number of turns
    and the loop goes on. Of two wake-ups that are an interval or more apart one after the
    first, up to the second, sweeps; a wake-up at which the wall clock has advanced by more
    than the threshold since the one before sweeps at once; and while there is no such gap,
    sweeps are not made up for: there are at most as many as intervals have begun. *)
Theorem periodic_sweeps fuel config s start wakes :
  let interval := config.(ReconcileConfig.sweep_interval) in
  (0 < interval)%N → (start < s.(next_deadline) ≤ start + interval)%N →
  Sorted N.le (start :: wakes.*1) → Forall (λ w, w.1 ≤ N.of_nat fuel)%N wakes →
  ∃ sweeps s', schedule_run fuel config s wakes = Some (sweeps, s') ∧ length sweeps = length wakes ∧
    (∀ i j wi wj, i < j → wakes !! i = Some wi → wakes !! j = Some wj → (wi.1 + interval ≤ wj.1)%N →
       ∃ k, i < k ≤ j ∧ sweeps !! k = Some true) ∧
    (∀ i wi wj, wakes !! i = Some wi → wakes !! S i = Some wj →
       (config.(ReconcileConfig.resume_gap_threshold) * 1000000 < wj.2 - wi.2)%Z →
       sweeps !! S i = Some true) ∧
    (no_gaps config s.(last_wall_tick) wakes →
       (N.of_nat (length (filter (λ b, b = true) sweeps)) * interval <
        default start (last wakes.*1) + interval - start)%N).
Proof.
  intros interval Hi Hs Hsorted Hf.
  destruct (schedule_run_on_time fuel config Hi s start wakes Hs Hsorted Hf) as (sweeps & s' & E & Hl & Hs').
  exists sweeps, s'. split; [done|]. split; [done|]. split_and!.
  - intros i. clear Hl Hs'. revert s start wakes sweeps Hs Hsorted Hf E.
    induction i as [|i IH]; intros s start [|[now wall] wakes] sweeps Hs Hsorted Hf E j wi wj Hij Hwi Hwj Hd; try done;
      apply Forall_cons in Hf as [Hf1 Hf]; cbn in Hsorted; apply Sorted_inv in Hsorted as [Hsorted Hhd%HdRel_inv];
      destruct (next_schedule_on_time fuel config Hi s start now wall Hs Hhd Hf1) as (s2 & E1' & Hs2 & _);
      apply schedule_run_cons in E as (s1 & sweeps1 & E1 & E2 & ->); cbn [fst snd] in *;
      rewrite E1' in E1; injection E1 as ->; (destruct j as [|j]; [lia|]); cbn in Hwi, Hwj.
    + injection Hwi as <-. destruct (sweeps_by_deadline fuel config s1 wakes sweeps1 s' j wj E2 Hwj) as (k & Hk & Ek).
      { unfold on_time in Hs2. cbn in Hd. lia. }
      exists (S k). split; [lia|done].
    + destruct (IH s1 now wakes sweeps1 Hs2 Hsorted Hf E2 j wi wj ltac:(lia) Hwi Hwj Hd) as (k & Hk & Ek).
      exists (S k). split; [lia|done].
  - intros i. clear Hl Hs' Hs Hsorted Hf. revert s wakes sweeps E.
    induction i as [|i IH]; intros s [|w wakes] sweeps E wi wj Hwi Hwj Hg; try done;
      apply schedule_run_cons in E as (s1 & sweeps1 & E1 & E2 & ->); cbn in Hwi, Hwj.
    + injection Hwi as ->. destruct wakes as [|w' wakes]; [done|]. injection Hwj as ->.
      apply schedule_run_cons in E2 as (s2 & sweeps2 & _ & _ & ->). apply next_schedule_idle in E1 as [Ew _].
      cbn. unfold sweep_due. rewrite Ew. apply Z.ltb_lt in Hg. by rewrite Hg, orb_true_r.
    + cbn. by eapply IH.
  - intros Hg. pose proof (schedule_run_rate fuel config s wakes sweeps s' E Hg) as Hr.
    unfold on_time in Hs'. fold interval in Hr, Hs'. lia.
Qed.

(** Wake-ups every second; the machine sleeps for a minute of wall time after the fourth. *)
Lemma periodic_sweeps_witness :
  let config := ReconcileConfig.mk 3 1 3000 in
  let s := mkSchedule 3 0 in
  let wakes := [(1%N, 1000000000%Z); (2%N, 2000000000%Z); (3%N, 3000000000%Z); (4%N, 4000000000%Z);
                (5%N, 65000000000%Z); (7%N, 67000000000%Z)] in
  ∃ s', schedule_run 100 config s wakes = Some ([false; false; true; false; true; false], s') ∧
  ∃ k, 2 < k ≤ 5 ∧ [false; false; true; false; true; false] !! k = Some true.
Proof.
  intros config s wakes.
  destruct (periodic_sweeps 100 config s 0 wakes) as (sweeps & s' & E & _ & Hc & _).
  - done.
  - done.
  - repeat constructor; discriminate.
  - repeat constructor; discriminate.
  - exists s'. assert (sweeps = [false; false; true; false; true; false]) as -> by (vm_compute in E; congruence).
    split; [exact E|]. apply (Hc 2 5 (3%N, 3000000000%Z) (7%N, 67000000000%Z)); [lia|reflexivity..|done].
Defined.
