(* ===== verification/Handler.v ===== *)
(** * Requests (crates/rtm-daemon/src/handler.rs, backend.rs, spawn_preflight.rs and the
    launching half of shim_socket.rs)

    The task of a connection, from the request that was read to the response that is
    written. *)

From S2P Require Import Prelude RustStr RustPath Types Parsers Json Launch Errors Lifecycles.
From S2P Require Import Interfaces EventLog Prog Platform Paths Docker Server Proto Doctor Kill Mcp.
From stdpp Require Import options.

Record SpawnEvidence := mkEvidence { log_paths : option HeadlessLogPaths }.

(** A connection besides its request: what [fill_buf] returns once the request was read, the
    number of actions the request's task makes before that, and the outcome of writing the
    response. *)
Record Link := mkLink
  { after_request : list (result IoError string); gone_after : nat; written : result IoError unit }.

(** A client that stays, and reads its response. *)
Definition steady : Link := mkLink [] 0 (Ok tt).

(** [wait_for_disconnect]: [None] while the client is there. *)
Fixpoint wait_for_disconnect (reads : list (result IoError string)) : option (result IoError unit) :=
  match reads with
  | [] => None
  | Err e :: _ => Some (Err e)
  | Ok buffer :: reads => if String.eqb buffer "" then Some (Ok tt) else wait_for_disconnect reads
  end.

Section handler.
Context {S L O : Type}
  `{LifecycleStore S, StoreDiagnostics S, EventSink L, Os O, External, Json, Build}.
Variable config : DaemonConfig.
Variable which : nat → string → WhichOutput.
(** The variable [PATH] of the daemon and [std::env::consts::ARCH]. *)
Variable path_var : option string.
Variable arch : string.

Notation W := (Server S L O).
Notation Task := (Prog W Error).

(** ** shim_socket.rs: launching *)

Definition shim_argv (request : SpawnRequest) : list string :=
  [to_string_lossy config.(DaemonConfig.shim_path); "__shim"; "--session-id";
   uuid_to_string request.(SpawnRequest.session_id)].

Definition shim_env : result Error (list LaunchEnv) :=
  socket_path ← context "headless shim transport requires a Unix socket endpoint" (socket_path config);
  Ok [LaunchEnv.mk "RTM_SOCKET_PATH" (to_string_lossy socket_path)].

Definition classify_tmux_respawn_error (address : TmuxAddress) (error : Error) : Task Error :=
  alive ← attempted (atomic (on_os (tmux_is_alive address)));
  mret (match alive with
        | Ok false => of_failure (RuntimeFailure.TmuxPaneDead address)
        | Ok true | Err _ =>
            mkError (Message ("failed to respawn tmux pane " +:+ display_TmuxAddress address)) (chain error)
        end).

Definition launch_tmux_shim (request : SpawnRequest) (address : TmuxAddress) (env : list LaunchEnv)
    : Task unit :=
  respawned ← attempted (atomic (on_os (tmux_respawn_pane address (shim_argv request) env)));
  match respawned with
  | Ok tt => mret tt
  | Err error => error ← classify_tmux_respawn_error address error; fail error
  end.

(** An I/O call with a context. *)
Definition io_step (message : string) (call : O → option IoError * O) : Task unit :=
  atomic (on_os (e ← os_call call;
    lift (context message (match e with
                           | None => Ok tt
                           | Some e => Err (anyhow (display_IoError e))
                           end)))).

(** The tasks that copy the child's output to the log files are not modelled. *)
Definition launch_headless_shim (request : SpawnRequest) (env : list LaunchEnv) : Task HeadlessLogPaths :=
  let paths := session_log_paths config request.(SpawnRequest.session_id) in
  _ ← io_step ("failed to create log directory " +:+ to_string_lossy paths.(HeadlessLogPaths.log_dir))
        (create_dir_all paths.(HeadlessLogPaths.log_dir));
  _ ← io_step "failed to create headless stdout log" (create_file paths.(HeadlessLogPaths.stdout_path));
  _ ← io_step "failed to create headless stderr log" (create_file paths.(HeadlessLogPaths.stderr_path));
  _ ← io_step ("failed to spawn shim " +:+ to_string_lossy config.(DaemonConfig.shim_path))
        (spawn_child config.(DaemonConfig.shim_path)
           ["__shim"; "--session-id"; uuid_to_string request.(SpawnRequest.session_id)] env);
  mret paths.

Definition launch_shim (request : SpawnRequest) : Task (option HeadlessLogPaths) :=
  env ← lift_result shim_env;
  match request.(SpawnRequest.target) with
  | SpawnTarget.Tmux address => _ ← launch_tmux_shim request address env; mret None
  | SpawnTarget.Headless => paths ← launch_headless_shim request env; mret (Some paths)
  end.

(** ** backend.rs

    The backends: both start the shim on the host, and that of Docker wraps what it launches. *)

Definition host_prepare_launch (request : SpawnRequest) (launch : LaunchSpec) : Task LaunchSpec :=
  mret launch.
Definition docker_prepare_launch (request : SpawnRequest) (launch : LaunchSpec) : Task LaunchSpec :=
  match request.(SpawnRequest.isolation) with
  | IsolationPolicy.Host => mret launch
  | IsolationPolicy.Docker profile =>
      image ← lift_result (image_for config.(DaemonConfig.docker_preflight) request);
      command ← atomic (on_os (docker_command path_var));
      lift_result (docker_run_launch request.(SpawnRequest.session_id) profile image launch
        request.(SpawnRequest.mounts) request.(SpawnRequest.target) command)
  end.

Definition host_spawn (request : SpawnRequest) (launch : LaunchSpec) : Task SpawnEvidence :=
  log_paths ← launch_shim request; mret (mkEvidence log_paths).
Definition docker_spawn (request : SpawnRequest) (launch : LaunchSpec) : Task SpawnEvidence :=
  log_paths ← launch_shim request; mret (mkEvidence log_paths).

Definition prepare_launch (request : SpawnRequest) (launch : LaunchSpec) : Task LaunchSpec :=
  match request.(SpawnRequest.isolation) with
  | IsolationPolicy.Host => host_prepare_launch request launch
  | IsolationPolicy.Docker _ => docker_prepare_launch request launch
  end.
Definition backends_spawn (request : SpawnRequest) (launch : LaunchSpec) : Task SpawnEvidence :=
  match request.(SpawnRequest.isolation) with
  | IsolationPolicy.Host => host_spawn request launch
  | IsolationPolicy.Docker _ => docker_spawn request launch
  end.

(** ** spawn_preflight.rs

    The request with its canonical directory and mounts, and the conflict found. *)
Definition check (request : SpawnRequest) : Task (SpawnRequest * option RuntimeResponse) :=
  request ← atomic (on_os (check_isolation_policy config.(DaemonConfig.docker_preflight) arch request));
  existing ← atomic (on_store (get request.(SpawnRequest.session_id)));
  match existing with
  | Some lifecycle =>
      mret (request, Some (RuntimeResponse.SpawnConflict SpawnConflictKind.SessionId lifecycle))
  | None =>
      match tmux_address request.(SpawnRequest.target) with
      | None => mret (request, None)
      | Some address =>
          occupant ← atomic (on_store (running_tmux_occupant address));
          match occupant with
          | None => mret (request, None)
          | Some occupant =>
              if negb request.(SpawnRequest.force) then
                mret (request, Some (RuntimeResponse.SpawnConflict SpawnConflictKind.TmuxPaneOccupancy
                                       occupant))
              else
              _ ← kill_runtime (KillRequest.mk occupant.(Lifecycle.session_id) RuntimeSignal.Term 2);
              mret (request, None)
          end
      end
  end.

(** ** handler.rs *)

(** [rtm_launchers::dispatch(&request.runtime)?.launch_spec(&request)?]. *)
Definition dispatched (request : SpawnRequest) : Task LaunchSpec :=
  atomic (λ w, let '(r, l) := dispatch_launch_spec which request w.(launchers) in
               (map_err of_launcher r, set_launchers l w)).

(** [timeout(10s, ready_rx).await]: the outcome of the channel, or the end of the wait, which
    drops the receiver. *)
Definition await_ready (chan : nat) : M W Error ShimReady := λ w,
  match w.(channels) !! chan with
  | Some (Sent ready) => (Ok ready, w)
  | Some Waiting =>
      (context "timed out waiting for ShimReady" (Err (anyhow "deadline has elapsed")),
       set_ready w.(pending_ready) (drop_receiver chan w.(channels)) w)
  | _ => (context "shim ready channel closed" (Err (anyhow "channel closed")), w)
  end.

Definition spawned_response (lifecycle : Lifecycle) (event : RuntimeEvent)
    (log_paths : option HeadlessLogPaths) : RuntimeResponse :=
  RuntimeResponse.Spawned lifecycle event (HeadlessLogPaths.log_dir <$> log_paths)
    (HeadlessLogPaths.stdout_path <$> log_paths) (HeadlessLogPaths.stderr_path <$> log_paths).

(** The rest of the arm of [RuntimeRpc::Spawn] once the shim has been started. *)
Definition finish_spawn (request : SpawnRequest) (ready_rx : nat) (evidence : SpawnEvidence)
    : Task RuntimeResponse :=
  ready ← atomic (await_ready ready_rx);
  running ← record_running config request ready;
  mret (spawned_response running.1 running.2 evidence.(log_paths)).

(** The arm of [RuntimeRpc::Spawn]. *)
Definition handle_spawn (request : SpawnRequest) : Task RuntimeResponse :=
  checked ← check request;
  match checked with
  | (_, Some conflict) => mret conflict
  | (request, None) =>
      launch ← dispatched request;
      launch ← prepare_launch request launch;
      ready_rx ← begin_spawn request launch;
      spawned ← attempted (backends_spawn request launch);
      match spawned with
      | Err error => _ ← cancel_spawn request.(SpawnRequest.session_id); fail error
      | Ok evidence => finish_spawn request ready_rx evidence
      end
  end.

(** The other parts of a running daemon. *)
Variable event_waiter_count : L → nat.
Variable path_env : RuntimePathEnv.
Variable utc_now : M O Error DateTime.
Variable started_instant : N.
(** Which branch of the [select!] of a long poll completes: the notification, or the end of
    the wait. *)
Variable notified_first : bool.

Definition page_is_empty (page : result N (list RuntimeEvent * N)) : bool :=
  match page with Ok ([], _) => true | _ => false end.

(** [EventLog::events_since_or_wait]. Between two reads any number of appends can happen;
    EventLog.v relates the branches to them. *)
Definition events (since wait_ms : option N) : Task (result N (list RuntimeEvent * N)) :=
  let wait_ms := clamped_event_wait_ms wait_ms in
  let read := atomic (gets (λ w : W, events_page since w.(log))) in
  immediate ← read;
  if (wait_ms =? 0)%N || negb (page_is_empty immediate) then mret immediate else
  second_check ← read;
  if negb (page_is_empty second_check) then mret second_check else
  if notified_first then read else mret second_check.

Definition handle_rpc_result (rpc : RuntimeRpc) : Task RuntimeResponse :=
  match rpc with
  | RuntimeRpc.Spawn request => handle_spawn request
  | RuntimeRpc.ValidateTarget target => RuntimeResponse.ValidateTarget <$> validate_target_request target
  | RuntimeRpc.Kill request => RuntimeResponse.Killed <$> kill_runtime request
  | RuntimeRpc.KillByPid request => RuntimeResponse.KillByPid <$> kill_pid request
  | RuntimeRpc.Nudge request => RuntimeResponse.Nudge <$> nudge_runtime request
  | RuntimeRpc.Capture request => RuntimeResponse.Capture <$> capture_pane request
  | RuntimeRpc.Status request => RuntimeResponse.Status <$> status config request
  | RuntimeRpc.Version => mret (RuntimeResponse.Version runtime_version_info)
  | RuntimeRpc.Watchers => RuntimeResponse.Watchers <$> watcher_counts event_waiter_count
  | RuntimeRpc.Doctor =>
      RuntimeResponse.Doctor <$>
        collect config which event_waiter_count path_env utc_now started_instant
  | RuntimeRpc.Events since wait_ms =>
      batch ← events since wait_ms;
      mret (match batch with
            | Ok (events, cursor) => RuntimeResponse.Events events cursor
            | Err oldest => RuntimeResponse.CursorExpired oldest
            end)
  | RuntimeRpc.Stop => mret RuntimeResponse.Stopping
  | RuntimeRpc.McpBridge line => RuntimeResponse.McpBridge <$> handle_line config event_waiter_count line
  | RuntimeRpc.ShimLaunch session_id => RuntimeResponse.ShimLaunch <$> take_launch_spec session_id
  | RuntimeRpc.ShimReady ready => _ ← complete_shim_ready ready; mret RuntimeResponse.Ack
  | RuntimeRpc.ShimExit exit => _ ← record_shim_exit exit; mret RuntimeResponse.Ack
  end.

Definition error_context (rpc : RuntimeRpc) : RpcErrorContext :=
  match rpc with
  | RuntimeRpc.Spawn _ => RpcErrorContext.Spawn
  | _ => RpcErrorContext.Other
  end.

Definition handle_rpc (rpc : RuntimeRpc) : Task RuntimeResponse :=
  r ← attempted (handle_rpc_result rpc);
  mret (match r with
        | Ok response => response
        | Err error => RuntimeResponse.Error (rpc_error_response (error_context rpc) error)
        end).

(** The [select!] of a request for events that may wait: the response, unless the client is
    gone (or reading from it fails) before the task has made its next action. *)
Definition handle_rpc_or_disconnect (link : Link) (rpc : RuntimeRpc) : Task (option RuntimeResponse) :=
  match rpc with
  | RuntimeRpc.Events _ wait_ms =>
      if (0 <? clamped_event_wait_ms wait_ms)%N then
        match wait_for_disconnect link.(after_request) with
        | None => Some <$> handle_rpc rpc
        | Some disconnected =>
            raced ← upto link.(gone_after) (handle_rpc rpc);
            match raced with
            | Some response => mret (Some response)
            | None => _ ← lift_result (map_err (λ e, anyhow (display_IoError e)) disconnected); mret None
            end
        end
      else Some <$> handle_rpc rpc
  | other => Some <$> handle_rpc other
  end.

(** The response that was written to what was read, if the client was still there, and
    whether the daemon is told to stop: only once its response is written. *)
Definition handle_connection (link : Link) (read : result ProtocolError RuntimeRpc)
    : Task (option (RuntimeResponse * bool)) :=
  response ← match read with
             | Ok rpc => handle_rpc_or_disconnect link rpc
             | Err error => mret (Some (RuntimeResponse.Error (protocol_error_response error)))
             end;
  match response with
  | None => mret None
  | Some response =>
      let should_stop := match response with RuntimeResponse.Stopping => true | _ => false end in
      _ ← lift_result (map_err (λ e, mkError (Message ("io error: " +:+ display_IoError e))
                                       [Message (display_IoError e)]) link.(written));
      mret (Some (response, should_stop))
  end.

(** ** Theorems on connections *)

(** A request for events only reads. *)
Lemma observes_handle_events since wait_ms : observes (handle_rpc (RuntimeRpc.Events since wait_ms)).
Proof.
  unfold handle_rpc. apply observes_bind; [|by intros []]. apply observes_attempted.
  cbn [handle_rpc_result]. apply observes_bind; [|by intros [[]|]]. unfold events.
  repeat (apply observes_bind; [by apply observes_gets|intros ?; case_match; [done|]]).
  case_match; [by apply observes_gets|done].
Qed.

(** What a task returns in every state. *)
Definition gives {A} (P : A → Prop) (p : Task A) : Prop :=
  ∀ w, match (run p w).1 with Ok a => P a | Err _ => True end.

Lemma gives_any {A} (p : Task A) : gives (λ _, True) p.
Proof. intros w. by destruct (run p w) as [[] ?]. Qed.
Lemma gives_ret {A} (P : A → Prop) a : P a → gives P (mret a).
Proof. by intros Hp w. Qed.
Lemma gives_fail {A} (P : A → Prop) e : gives P (fail e).
Proof. by intros w. Qed.
Lemma gives_bind {A B} (Q : A → Prop) (P : B → Prop) (p : Task A) (f : A → Task B) :
  gives Q p → (∀ a, Q a → gives P (f a)) → gives P (p ≫= f).
Proof.
  intros Hp Hf w. rewrite run_bind_match. specialize (Hp w).
  destruct (run p w) as [[a|e] w']; [by apply Hf|done].
Qed.
Lemma gives_then {A B} (P : B → Prop) (p : Task A) (f : A → Task B) :
  (∀ a, gives P (f a)) → gives P (p ≫= f).
Proof. intros Hf. apply (gives_bind (λ _, True)); [apply gives_any|by intros]. Qed.
Lemma gives_fmap {A} (P : RuntimeResponse → Prop) (wrap : A → RuntimeResponse) (p : Task A) :
  (∀ a, P (wrap a)) → gives P (wrap <$> p).
Proof. intros Hp w. rewrite run_fmap. by destruct (run p w) as [[] ?]; cbn. Qed.

Ltac gives :=
  repeat match goal with
         | |- gives _ (mret _) => apply gives_ret
         | |- gives _ (fail _) => apply gives_fail
         | |- gives _ (_ <$> _) => apply gives_fmap; intros ?
         | |- gives _ (_ ≫= _) => apply gives_then; intros ?
         | |- gives _ _ => case_match
         end.

(** The conflicts of the preflight. *)
Lemma check_gives request :
  gives (λ checked, ∀ response, checked.2 = Some response → ∃ kind l, response = RuntimeResponse.SpawnConflict kind l)
    (check request).
Proof.
  unfold check. gives; cbn; intros response E; inversion E; eauto.
Qed.

Lemma handle_spawn_gives request : gives (λ response, response ≠ RuntimeResponse.Stopping) (handle_spawn request).
Proof.
  unfold handle_spawn, finish_spawn. eapply gives_bind; [apply check_gives|]. intros [request' [conflict|]] Hc.
  - apply gives_ret. by destruct (Hc _ eq_refl) as (kind & l & ->).
  - gives. discriminate.
Qed.

(** Only [Stop] is answered with [Stopping]. *)
Lemma handle_rpc_result_gives rpc :
  gives (λ response, response = RuntimeResponse.Stopping ↔ rpc = RuntimeRpc.Stop) (handle_rpc_result rpc).
Proof.
  destruct rpc; cbn [handle_rpc_result]; gives; try (repeat case_match; split; discriminate); [|done].
  intros w. pose proof (handle_spawn_gives request w) as Hs.
  destruct (run (handle_spawn request) w) as [[response|e] w']; [|done]. by split.
Qed.

(** The response to what was read, and the daemon after it. *)
Definition answer (read : result ProtocolError RuntimeRpc) (w : W) : RuntimeResponse * W :=
  match read with
  | Ok rpc =>
      let '(r, w') := run (handle_rpc_result rpc) w in
      (match r with
       | Ok response => response
       | Err e => RuntimeResponse.Error (rpc_error_response (error_context rpc) e)
       end, w')
  | Err e => (RuntimeResponse.Error (protocol_error_response e), w)
  end.

Lemma run_handle_rpc rpc (w : W) :
  run (handle_rpc rpc) w = (Ok (answer (Ok rpc) w).1, (answer (Ok rpc) w).2).
Proof.
  unfold handle_rpc, answer. rewrite run_bind_match, run_attempted. unfold attempt.
  by destruct (run (handle_rpc_result rpc) w) as [[]].
Qed.

Lemma answer_stopping read (w : W) :
  (answer read w).1 = RuntimeResponse.Stopping ↔ read = Ok RuntimeRpc.Stop.
Proof.
  destruct read as [rpc|e]; [|by split].
  assert (rpc = RuntimeRpc.Stop ∨ rpc ≠ RuntimeRpc.Stop) as [->|Hne]
    by (destruct rpc; auto; right; discriminate); [by split|].
  pose proof (handle_rpc_result_gives rpc w) as Hg. cbn [answer].
  destruct (run (handle_rpc_result rpc) w) as [[response|e] w']; cbn in *.
  - rewrite Hg. split; congruence.
  - split; congruence.
Qed.

(** What the connection reports once there is a response. *)
Definition write_outcome (link : Link) (response : RuntimeResponse) (stop : bool)
    : result Error (option (RuntimeResponse * bool)) :=
  match link.(written) with
  | Ok _ => Ok (Some (response, stop))
  | Err e => Err (mkError (Message ("io error: " +:+ display_IoError e)) [Message (display_IoError e)])
  end.
Definition stops (read : result ProtocolError RuntimeRpc) : bool :=
  match read with Ok RuntimeRpc.Stop => true | _ => false end.

Lemma write_run link read w (w' : W) :
  run (_ ← lift_result (map_err (λ e, mkError (Message ("io error: " +:+ display_IoError e))
                                            [Message (display_IoError e)]) link.(written));
       mret (Some ((answer read w).1,
         match (answer read w).1 with RuntimeResponse.Stopping => true | _ => false end))) w' =
  (write_outcome link (answer read w).1 (stops read), w').
Proof.
  unfold write_outcome. destruct (written link) as [[]|e]; [|done]. cbn.
  replace (stops read) with (match (answer read w).1 with RuntimeResponse.Stopping => true | _ => false end); [done|].
  pose proof (answer_stopping read w) as [Hs Hr].
  destruct (answer read w).1; try (destruct read as [[]|]; try done; by discriminate Hr).
  by rewrite Hs.
Qed.

(** C16. A connection. Whatever is read, the daemon becomes what the request's task makes of
    it and the client is told the task's response, an error as its code and message, what
    cannot be read as such; only a client that goes away (or cannot be read from) while it
    waits for events has no response, and that leaves the daemon as it was. The daemon is
    told to stop exactly by a [Stop] whose response was written. *)
Theorem connection_answers link read (w : W) :
  let '(response, w') := answer read w in
  ∃ r, run (handle_connection link read) w = (r, w') ∧
    (r = write_outcome link response (stops read) ∨
     ∃ since wait_ms gone, read = Ok (RuntimeRpc.Events since wait_ms) ∧
       (0 < clamped_event_wait_ms wait_ms)%N ∧
       wait_for_disconnect link.(after_request) = Some gone ∧ w' = w ∧
       r = match gone with Ok _ => Ok None | Err e => Err (anyhow (display_IoError e)) end).
Proof.
  pose proof (write_run link read w) as Hw. unfold handle_connection.
  destruct (answer read w) as [response w'] eqn:Ea. cbn [fst] in Hw. rewrite run_bind_match.
  destruct read as [rpc|e]; [|injection Ea as <- <-; eexists; split; [exact (Hw w)|by left]].
  assert (∀ rpc, run (handle_rpc rpc) w = (Ok response, w') → run (Some <$> handle_rpc rpc) w = (Ok (Some response), w'))
    as Hsome by (intros rpc' E; by rewrite run_fmap, E).
  pose proof (run_handle_rpc rpc w) as Hr. rewrite Ea in Hr.
  assert (handle_rpc_or_disconnect link rpc = Some <$> handle_rpc rpc ∨
    ∃ since wait_ms gone, rpc = RuntimeRpc.Events since wait_ms ∧ (0 < clamped_event_wait_ms wait_ms)%N ∧
      wait_for_disconnect link.(after_request) = Some gone) as [E|(since & wait_ms & gone & -> & Hwait & Hg)].
  { destruct rpc; auto. cbn [handle_rpc_or_disconnect]. destruct (N.ltb_spec 0 (clamped_event_wait_ms wait_ms)); [|auto].
    destruct (wait_for_disconnect _) eqn:Eg; eauto 10. }
  - rewrite E, (Hsome _ Hr), Hw. eauto.
  - pose proof (observes_handle_events since wait_ms) as Ho.
    pose proof (run_observes _ w Ho) as Hsame. rewrite Hr in Hsame. cbn in Hsame. subst w'.
    destruct (run_upto_observes link.(gone_after) _ w Ho) as (r & Er & Hor).
    cbn [handle_rpc_or_disconnect]. apply N.ltb_lt in Hwait as Hb. rewrite Hb, Hg, run_bind_match, Er.
    destruct Hor as [->| ->]; [|rewrite Hr; cbn; rewrite Hw; eauto].
    destruct gone as [[]|e]; cbn; eauto 15.
Qed.
End handler.
