(* ===== verification/Frames.v ===== *)
(** * Tasks that leave the sessions alone

    Most requests to the daemon only look at its sessions: status, doctor, validation,
    captures, kills (whose signals go to processes), the tools of the bridge and the checks of
    a spawn. An invariant of the shared state that survives what the system and the launchers
    do and the queries of the store, [Frame], survives these tasks. Races.v and Isolation.v
    instantiate it. *)

From S2P Require Import Prelude RustStr RustPath Types Parsers Json Launch Errors Lifecycles.
From S2P Require Import Interfaces EventLog Prog Platform Paths Docker Server Proto.
From S2P Require Import Doctor Kill Mcp Handler.
From stdpp Require Import options.

(** The session whose records a request is to change. *)
Definition rpc_session (rpc : RuntimeRpc) : option Uuid :=
  match rpc with
  | RuntimeRpc.Spawn request => Some request.(SpawnRequest.session_id)
  | RuntimeRpc.ShimLaunch session_id => Some session_id
  | RuntimeRpc.ShimReady ready => Some ready.(ShimReady.session_id)
  | RuntimeRpc.ShimExit exit => Some exit.(ShimExit.session_id)
  | _ => None
  end.

Class Frame {S L O : Type} `{!LifecycleStore S, !StoreDiagnostics S} {X K : Type} `{Countable K}
    (inv : X → gset K → Server S L O → Prop) : Prop := {
  frame_os x T w o : inv x T w → inv x T (set_os o w);
  frame_launchers x T w r : inv x T w → inv x T (set_launchers r w);
  frame_get u : inert inv (on_store (get u));
  frame_list filter : inert inv (on_store (list_lifecycles filter));
  frame_running : inert inv (on_store running);
  frame_occupant a : inert inv (on_store (running_tmux_occupant a));
  frame_sweep t : inert inv (on_store (record_probe_sweep t));
  frame_counts : inert inv (on_store lifecycle_counts);
  frame_recent t : inert inv (on_store (recent_lost_since t));
  frame_last_sweep : inert inv (on_store last_probe_sweep);
  frame_migrations : inert inv (on_store migration_state);
}.

Create HintDb quiet discriminated.
#[export] Hint Resolve quiet_ret quiet_done : quiet.
#[export] Hint Resolve frame_get frame_list frame_running frame_occupant frame_sweep frame_counts frame_recent
  frame_last_sweep frame_migrations : quiet.

(** Goes through a task; the hints know the tasks it calls. *)
Ltac quiet_one :=
  first
    [ solve [eauto with quiet nocore]
    | lazymatch goal with
      | |- Prog.quiet _ (_ ≫= _) => apply quiet_bind; [|intros ?]
      | |- Prog.quiet _ (_ <$> _) => apply quiet_fmap
      | |- Prog.quiet _ (attempted _) => apply quiet_attempted
      | |- Prog.quiet _ (prog_when ?b _) => destruct b; simpl
      | |- Prog.quiet _ (atomic (on_store _)) => apply quiet_atomic
      end
    | progress cbv zeta | case_match | case_decide ].
Ltac quiet := repeat quiet_one.

Section frame.
#[local] Set Default Proof Using "Type*".
Context {S L O : Type}
  `{!LifecycleStore S, !StoreDiagnostics S, !EventSink L, !Os O, !External, !Json, !Build}.
Context {X K : Type} `{Countable K} (inv : X → gset K → Server S L O → Prop) `{!Frame inv}.

Notation W := (Server S L O).
Notation inert := (inert inv).
Notation quiet := (quiet inv).

(** ** Actions *)

Lemma quiet_fail {A} (e : Error) : quiet (fail e : Prog W Error A).
Proof. apply quiet_done. Qed.
Lemma quiet_lift {A} (r : result Error A) : quiet (lift_result r : Prog W Error A).
Proof. apply quiet_done. Qed.
Lemma quiet_os {A} (m : M O Error A) : quiet (atomic (on_os m)).
Proof.
  apply quiet_atomic. intros x T w Hw. unfold on_os. pose proof (frame_os x T w (m (os w)).2 Hw).
  by destruct (m (os w)).
Qed.
Lemma quiet_gets {A} (f : W → A) : quiet (atomic (gets f) : Prog W Error A).
Proof. apply quiet_atomic. by intros x T w. Qed.
#[local] Hint Resolve quiet_fail quiet_lift quiet_os quiet_gets : quiet.

(** ** The coordinators *)

Lemma quiet_get_some u : quiet (get_session u).
Proof. unfold get_session. quiet. Qed.
Lemma quiet_is_terminal u : quiet (is_terminal u).
Proof. unfold is_terminal. quiet. Qed.
Lemma quiet_watcher_evidence u : quiet (watcher_evidence u).
Proof. unfold watcher_evidence. quiet. Qed.
Lemma quiet_populate config l : quiet (populate_log_availability config l).
Proof. unfold populate_log_availability. quiet. Qed.
#[local] Hint Resolve quiet_get_some quiet_is_terminal quiet_watcher_evidence quiet_populate : quiet.
Lemma quiet_populate_for config ls : quiet (populate_log_availability_for config ls).
Proof. induction ls; simpl; quiet. Qed.
#[local] Hint Resolve quiet_populate_for : quiet.
Lemma quiet_status config filter : quiet (status config filter).
Proof. unfold status. quiet. Qed.
Lemma quiet_validate_target target : quiet (validate_target target).
Proof. unfold validate_target. quiet. Qed.
#[local] Hint Resolve quiet_status quiet_validate_target : quiet.
Lemma quiet_validate_target_request target : quiet (validate_target_request target).
Proof. unfold validate_target_request. quiet. Qed.
Lemma quiet_validate_spawn_target request : quiet (validate_spawn_target request).
Proof. unfold validate_spawn_target. quiet. Qed.
Lemma quiet_nudge request : quiet (nudge_runtime request).
Proof. unfold nudge_runtime. quiet. Qed.
Lemma quiet_capture request : quiet (capture_pane request).
Proof.
  unfold capture_pane. quiet; apply quiet_atomic; intros x T w Hw; unfold capture_from;
    destruct (tmux_capture_pane _ _ (os w)); by apply frame_os.
Qed.
Lemma quiet_watcher_counts count : quiet (watcher_counts count).
Proof. unfold watcher_counts. quiet. Qed.
#[local] Hint Resolve quiet_validate_target_request quiet_validate_spawn_target quiet_nudge quiet_capture
  quiet_watcher_counts : quiet.

(** ** Kills *)

Lemma quiet_wait_until fuel deadline stop : quiet stop → quiet (wait_until os_clock fuel deadline stop).
Proof.
  intros Hs. assert (∀ ms, quiet (atomic (os_clock.(clock_sleep) ms))) as Hsleep by (intros; apply quiet_os).
  assert (quiet (atomic (os_clock.(clock_now)))) as Hnow by apply quiet_os.
  induction fuel; cbn [wait_until]; quiet.
Qed.

Lemma quiet_run_kill_loop target terminal signal grace_secs :
  (∀ s, quiet (target.(send_signal) s)) → quiet target.(send_kill) → quiet target.(target_alive) →
  quiet terminal → quiet (run_kill_loop os_clock target terminal signal grace_secs).
Proof.
  intros Hs Hk Ha Ht. unfold run_kill_loop.
  assert (quiet (atomic (os_clock.(clock_now)))) as Hnow by apply quiet_os.
  assert (quiet (stopped target terminal)) as Hst by (unfold stopped; quiet).
  quiet; by apply quiet_wait_until.
Qed.
Lemma quiet_kill_runtime request : quiet (kill_runtime request).
Proof.
  unfold kill_runtime. quiet; apply quiet_run_kill_loop; intros; unfold HostKillTarget, DockerKillTarget;
    cbn [send_signal send_kill target_alive]; quiet.
Qed.
Lemma quiet_kill_pid request : quiet (kill_pid request).
Proof. unfold kill_pid. quiet; apply quiet_wait_until; quiet. Qed.
#[local] Hint Resolve quiet_kill_runtime quiet_kill_pid : quiet.

(** ** Requests *)

Lemma quiet_check config arch request : quiet (check config arch request).
Proof. unfold check. quiet. Qed.
Lemma quiet_launch_shim config request : quiet (launch_shim config request).
Proof.
  unfold launch_shim, launch_tmux_shim, classify_tmux_respawn_error, launch_headless_shim, io_step. quiet.
Qed.
Lemma quiet_prepare_launch config path_var request launch : quiet (prepare_launch config path_var request launch).
Proof. unfold prepare_launch, host_prepare_launch, docker_prepare_launch. quiet. Qed.
Lemma quiet_backends_spawn config request launch : quiet (backends_spawn config request launch).
Proof.
  unfold backends_spawn, host_spawn, docker_spawn.
  destruct (SpawnRequest.isolation request); (apply quiet_bind; [apply quiet_launch_shim|quiet]).
Qed.
Lemma quiet_dispatched which request : quiet (dispatched which request).
Proof.
  apply quiet_atomic. intros x T w Hw. destruct (dispatch_launch_spec _ _ _). by apply frame_launchers.
Qed.
Lemma quiet_handle_line config count line : quiet (handle_line config count line).
Proof.
  unfold handle_line, handle_request, handle_method, handle_tool_call, call_tool, tool_kill_by_pid,
    tool_status, tool_version, tool_watchers. quiet.
Qed.
Lemma quiet_events notified_first since wait_ms : quiet (events notified_first since wait_ms).
Proof. unfold events. quiet. Qed.
Lemma quiet_launcher_statuses ls : quiet (launcher_statuses ls).
Proof.
  induction ls; cbn [launcher_statuses]; quiet. apply quiet_atomic. intros x T w Hw. unfold launcher_status.
  destruct (rl_argv _ _ _). by apply frame_launchers.
Qed.
Lemma quiet_uptime t : quiet (atomic (uptime_secs t)).
Proof.
  apply quiet_atomic. intros x T w Hw. unfold uptime_secs, on_os, os_call, mbind, M_bind.
  destruct (os_instant (os w)). by apply frame_os.
Qed.
#[local] Hint Resolve quiet_launcher_statuses quiet_uptime : quiet.
Lemma quiet_collect config which count path_env utc_now t :
  quiet (collect config which count path_env utc_now t).
Proof. unfold collect, docker_status, log_availability_statuses. quiet. Qed.
End frame.

#[export] Hint Resolve quiet_fail quiet_lift quiet_os quiet_gets quiet_get_some quiet_is_terminal
  quiet_watcher_evidence quiet_populate quiet_populate_for quiet_status quiet_validate_target
  quiet_validate_target_request quiet_validate_spawn_target quiet_nudge quiet_capture quiet_watcher_counts
  quiet_kill_runtime quiet_kill_pid quiet_check quiet_launch_shim quiet_prepare_launch quiet_backends_spawn
  quiet_dispatched quiet_handle_line quiet_events quiet_launcher_statuses quiet_uptime quiet_collect : quiet.

(** ** Connections *)

Section connections.
Context {S L O : Type}
  `{!LifecycleStore S, !StoreDiagnostics S, !EventSink L, !Os O, !External, !Json, !Build}.
Context {X K : Type} `{Countable K} (inv : X → gset K → Server S L O → Prop) `{!Frame inv}.
Variables (config : DaemonConfig) (which : nat → string → WhichOutput) (path_var : option string)
  (arch : string) (event_waiter_count : L → nat) (path_env : RuntimePathEnv)
  (utc_now : M O Error DateTime) (started_instant : N) (notified_first : bool).
#[local] Set Default Proof Using "Type*".
#[local] Hint Resolve Frame0 : quiet.

Notation handle_rpc_result := (handle_rpc_result config which path_var arch event_waiter_count path_env utc_now
  started_instant notified_first).
Notation handle_rpc := (handle_rpc config which path_var arch event_waiter_count path_env utc_now
  started_instant notified_first).
Notation handle_rpc_or_disconnect := (handle_rpc_or_disconnect config which path_var arch event_waiter_count
  path_env utc_now started_instant notified_first).
Notation handle_connection := (handle_connection config which path_var arch event_waiter_count path_env utc_now
  started_instant notified_first).

Lemma quiet_handle_rpc rpc : quiet inv (handle_rpc_result rpc) → quiet inv (handle_rpc rpc).
Proof.
  intros Hr. unfold Handler.handle_rpc. apply quiet_bind; [by apply quiet_attempted|]. intros r. quiet.
Qed.

Lemma quiet_rpc_alone rpc : rpc_session rpc = None → quiet inv (handle_rpc_result rpc).
Proof. destruct rpc; cbn [rpc_session]; (discriminate || intros _; cbn [Handler.handle_rpc_result]; quiet). Qed.

Lemma safe_handle_rpc_or_disconnect link rpc :
  quiet inv (handle_rpc rpc) → wp inv ∅ (handle_rpc_or_disconnect link rpc) (λ _ _, True).
Proof.
  intros Hq. assert (wp inv ∅ (Some <$> handle_rpc rpc) (λ _ _, True)) as Hall.
  { eapply wp_mono; [apply quiet_fmap, Hq|done]. }
  destruct rpc; try exact Hall. cbn [Handler.handle_rpc_or_disconnect]. destruct (_ <? _)%N; [|exact Hall].
  destruct (wait_for_disconnect _); [|exact Hall]. apply wp_bind.
  eapply wp_mono; [eapply wp_upto, Hq|].
  intros [[response|]|e] T' _; [done| |done]. by destruct r.
Qed.

(** A connection whose request keeps the invariant, or whose request cannot be read. *)
Lemma safe_connection link read :
  (∀ rpc, read = Ok rpc → quiet inv (handle_rpc_result rpc)) →
  wp inv ∅ (handle_connection link read) (λ _ _, True).
Proof.
  intros Hread.
  assert (∀ T (response : option RuntimeResponse),
    wp inv T (match response with
      | None => mret None
      | Some response =>
          let should_stop := match response with RuntimeResponse.Stopping => true | _ => false end in
          _ ← lift_result (map_err (λ e, mkError (Message ("io error: " +:+ display_IoError e))
                                           [Message (display_IoError e)]) link.(written));
          mret (Some (response, should_stop))
      end : Prog (Server S L O) Error _) (λ _ _, True)) as Hwrite
    by (intros T [response|]; [|done]; cbn; by destruct (written link)).
  unfold Handler.handle_connection. apply wp_bind. destruct read as [rpc|e]; [|by apply (Hwrite _ (Some _))].
  eapply wp_mono; [by apply safe_handle_rpc_or_disconnect, quiet_handle_rpc, Hread|].
  intros [response|e] T' _; [apply Hwrite|done].
Qed.
End connections.
