(* ===== verification/Races.v ===== *)
(** * The daemon's tasks together

    Every connection, watcher and sweep is a task of its own over the one shared state.
    [daemon_task] are the tasks that can arrive at any time; the theorems are about every
    state that any interleaving of any number of them can reach, including interleavings in
    which clients go away and tasks are dropped half way. *)

From S2P Require Import Prelude RustStr RustPath Types Parsers Json Launch Errors Lifecycles.
From S2P Require Import Interfaces EventLog LogSink Store Prog Platform Paths Docker Server Proto.
From S2P Require Import Doctor Kill Mcp Reconcile Handler Frames.
From stdpp Require Import options.

Section tasks.
Context {S L O : Type}
  `{LifecycleStore S, StoreDiagnostics S, EventSink L, Os O, External, Json, Build}.
Variable config : DaemonConfig.
Variable which : nat → string → WhichOutput.
Variable path_var : option string.
Variable arch : string.
Variable event_waiter_count : L → nat.
Variable path_env : RuntimePathEnv.
Variable utc_now : M O Error DateTime.
Variable started_instant : N.
Variable liveness : RuntimeLiveness O.

Notation Task := (Prog (Server S L O) Error).

Definition connection (read : result ProtocolError RuntimeRpc) (notified_first : bool) (link : Link)
    : Task (option (RuntimeResponse * bool)) :=
  handle_connection config which path_var arch event_waiter_count path_env utc_now started_instant
    notified_first link read.

Definition ignore {A} (p : Task A) : Task unit := _ ← p; mret tt.

(** A connection, a process that exits, a sweep. *)
Inductive daemon_task : Task unit → Prop :=
| task_connection read notified_first link : daemon_task (ignore (connection read notified_first link))
| task_watcher session_id : daemon_task (record_watcher_exit session_id)
| task_sweep : daemon_task (ignore (reconcile_once utc_now liveness)).
End tasks.

(** ** Terminal events *)

Definition event_session (e : RuntimeEvent) : Uuid :=
  match e with
  | RuntimeEvent.Running u _ _ | RuntimeEvent.Terminated u _ _ _ | RuntimeEvent.Lost u _ => u
  end.
Definition is_terminal_event (e : RuntimeEvent) : bool :=
  match e with RuntimeEvent.Running _ _ _ => false | _ => true end.

(** The terminal events of a session in a history. *)
Definition terminals (u : Uuid) (h : list RuntimeEvent) : list RuntimeEvent :=
  filter (λ e, is_terminal_event e = true ∧ event_session e = u) h.

Lemma terminals_app u h h' : terminals u (h ++ h') = terminals u h ++ terminals u h'.
Proof. apply filter_app. Qed.

Lemma terminals_other u e : is_terminal_event e = false ∨ event_session e ≠ u → terminals u [e] = [].
Proof.
  unfold terminals. rewrite filter_cons. case_decide as Hd; [|done]. destruct Hd as [Ht Hu].
  intros [He|He]; congruence.
Qed.

Lemma terminals_own e : is_terminal_event e = true → terminals (event_session e) [e] = [e].
Proof. intros He. unfold terminals. rewrite filter_cons, decide_True by done. done. Qed.

(** ** Invariants of every task

    What an invariant has to survive so that every task of the daemon keeps it: the writes of
    the store, the tables of launches, senders and watchers, and the appends of events. *)

Class Keeper {S L O : Type} `{!LifecycleStore S, !StoreDiagnostics S, !EventSink L, !Os O, !External}
    {X K : Type} `{Countable K} (inv : X → gset K → Server S L O → Prop) : Prop := {
  keeper_frame :: Frame inv;
  keeper_get u : yields inv (λ l, l.(Lifecycle.session_id) = u) (get_session u);
  keeper_insert l : inert inv (on_store (insert_forking l));
  keeper_update l : inert inv (on_store (update_lifecycle l));
  keeper_delete u : inert inv (on_store (delete u));
  keeper_launches x T w m : inv x T w → inv x T (set_launches m w);
  keeper_watchers x T w m : inv x T w → inv x T (set_watchers m w);
  keeper_append e : is_terminal_event e = false → quiet inv (server_append_event e);
  keeper_finish u l evidence : l.(Lifecycle.session_id) = u → quiet inv (finish_terminal u l evidence);
  keeper_begin_ready u : quiet inv (begin_ready_wait u);
  keeper_remove_ready u : quiet inv (remove_pending_ready u);
  keeper_take_sender x T w u : inv x T w → inv x T (set_ready (base.delete u w.(pending_ready)) w.(channels) w);
  keeper_send x T w chan ready :
    inv x T w → w.(channels) !! chan = Some Waiting →
    inv x T (set_ready w.(pending_ready) (<[chan := Sent ready]> w.(channels)) w);
  keeper_drop_receiver x T w chan :
    inv x T w → inv x T (set_ready w.(pending_ready) (drop_receiver chan w.(channels)) w);
}.

Lemma mark_exited_session l e : (mark_exited l e).1.(Lifecycle.session_id) = l.(Lifecycle.session_id).
Proof. apply (apply_op_session l (MarkExited e)). Qed.
Lemma mark_lost_session l e : (mark_lost l e).1.(Lifecycle.session_id) = l.(Lifecycle.session_id).
Proof. apply (apply_op_session l (MarkLost e)). Qed.
Lemma running_event_not_terminal l e : running_event l = Ok e → is_terminal_event e = false.
Proof. unfold running_event. intros (p & _ & (s & _ & [= <-])%bind_Ok)%bind_Ok. done. Qed.

Lemma preserves_get {S} `{!LifecycleStore S, !StoreDiagnostics S, !StoreKeys S} u : preserves keyed (get u).
Proof. eapply hoare_conseq; [apply keyed_get|done|by intros ?? []|done]. Qed.

(** What [get_session] returns is of that session. *)
Lemma yields_get_session {S L O X K : Type} `{!LifecycleStore S, !StoreDiagnostics S, !StoreKeys S}
    `{Countable K} (inv : X → gset K → Server S L O → Prop) `{!Frame inv} u :
  (∀ x T w, inv x T w → keyed w.(store)) → yields inv (λ l, l.(Lifecycle.session_id) = u) (get_session u).
Proof.
  intros Hkeyed. unfold get_session. apply (yields_bind _ (λ o, ∀ l, o = Some l → l.(Lifecycle.session_id) = u)).
  - apply yields_atomic. intros x T w Hw. split; [by apply (frame_get (inv := inv))|].
    unfold on_store. pose proof (keyed_get u _ (Hkeyed _ _ _ Hw)) as Hg.
    destruct (get u (store w)) as [[o|e] s]; [exact (proj2 Hg)|done].
  - intros [l|] Hl; [apply yields_ret; by apply Hl|apply yields_fail].
Qed.

Section keeper.
Context {S L O : Type}
  `{!LifecycleStore S, !StoreDiagnostics S, !EventSink L, !Os O, !External, !Json, !Build}.
Context {X K : Type} `{Countable K} (inv : X → gset K → Server S L O → Prop) `{!Keeper inv}.
#[local] Set Default Proof Using "Type*".

Notation W := (Server S L O).
Notation quiet := (quiet inv).

#[local] Hint Resolve keeper_frame keeper_insert keeper_update keeper_delete keeper_append keeper_begin_ready
  keeper_remove_ready : quiet.

Lemma quiet_get_session {A} u (f : Lifecycle → Prog W Error A) :
  (∀ l, l.(Lifecycle.session_id) = u → quiet (f l)) → quiet (get_session u ≫= f).
Proof. apply quiet_bind_yields, keeper_get. Qed.

(** Appending after [lift_result (running_event l)]. *)
Lemma quiet_running_event {A} l (f : RuntimeEvent → Prog W Error A) :
  (∀ e, is_terminal_event e = false → quiet (f e)) → quiet (lift_result (running_event l) ≫= f).
Proof.
  intros Hf. destruct (running_event l) as [e|err] eqn:E; [|apply quiet_done].
  apply Hf. by eapply running_event_not_terminal.
Qed.

Ltac quiet_step :=
  lazymatch goal with
  | |- Prog.quiet _ (lift_result (running_event _) ≫= _) => apply quiet_running_event; intros ??
  | |- Prog.quiet _ (get_session _ ≫= _) => apply quiet_get_session; intros ??
  end.
Ltac quiet := repeat first [quiet_step | quiet_one].

(** *** The coordinators *)

Lemma quiet_launches (f : W → gmap Uuid LaunchSpec) :
  quiet (atomic (modify (λ w, set_launches (f w) w)) : Prog W Error unit).
Proof. apply quiet_atomic. intros x T w Hw. by apply keeper_launches. Qed.
Lemma quiet_remove_watcher u : quiet (remove_watcher u).
Proof. apply quiet_atomic. intros x T w Hw. by apply keeper_watchers. Qed.
Lemma quiet_start_exit_watcher u pid : quiet (start_exit_watcher u pid).
Proof.
  apply quiet_atomic. intros x T w Hw. cbn. destruct (exit_watchers w !! u); [done|]. by apply keeper_watchers.
Qed.
#[local] Hint Resolve quiet_launches quiet_remove_watcher quiet_start_exit_watcher : quiet.
Lemma quiet_cancel_spawn u : quiet (cancel_spawn u).
Proof. unfold cancel_spawn. quiet. Qed.
#[local] Hint Resolve quiet_cancel_spawn : quiet.
Lemma quiet_begin_spawn request launch : quiet (begin_spawn request launch).
Proof. unfold begin_spawn. quiet. Qed.
Lemma quiet_take_launch_spec u : quiet (take_launch_spec u).
Proof.
  unfold take_launch_spec. apply quiet_bind; [|intros; quiet]. apply quiet_atomic. intros x T w Hw.
  by apply keeper_launches.
Qed.
Lemma quiet_record_running config request ready : quiet (record_running config request ready).
Proof. unfold record_running. quiet. Qed.
Lemma quiet_record_reconnected ready : quiet (record_reconnected_ready ready).
Proof. unfold record_reconnected_ready. quiet. Qed.
#[local] Hint Resolve quiet_begin_spawn quiet_take_launch_spec quiet_record_running
  quiet_record_reconnected : quiet.
Lemma quiet_complete_shim_ready ready : quiet (complete_shim_ready ready).
Proof.
  unfold complete_shim_ready. apply quiet_bind.
  { apply quiet_atomic. intros x T w Hw. by apply keeper_take_sender. }
  intros [chan|]; [|quiet]. apply quiet_bind; [|intros; quiet]. apply quiet_atomic. intros x T w Hw.
  destruct (channels w !! chan) as [[]|] eqn:E; try done. by apply keeper_send.
Qed.
Lemma quiet_record_exited u exit evidence : quiet (record_exited u exit evidence).
Proof.
  unfold record_exited. apply quiet_get_session. intros l Hl.
  pose proof (mark_exited_session l exit) as Hs. destruct (mark_exited l exit) as [l' []]; cbn [negb]; [|quiet].
  quiet. apply keeper_finish. simpl in Hs. congruence.
Qed.
Lemma quiet_record_lost u evidence : quiet (record_lost u evidence).
Proof.
  unfold record_lost. apply quiet_get_session. intros l Hl.
  pose proof (mark_lost_session l evidence) as Hs. destruct (mark_lost l evidence) as [l' []]; cbn [negb]; [|quiet].
  quiet. apply keeper_finish. simpl in Hs. congruence.
Qed.
#[local] Hint Resolve quiet_complete_shim_ready quiet_record_exited quiet_record_lost : quiet.
Lemma quiet_record_shim_exit exit : quiet (record_shim_exit exit).
Proof. apply quiet_record_exited. Qed.
Lemma quiet_record_watcher_exit u : quiet (record_watcher_exit u).
Proof. unfold record_watcher_exit. quiet. Qed.
#[local] Hint Resolve quiet_record_shim_exit : quiet.

(** *** Sweeps and requests *)

Lemma quiet_reconcile_sessions liveness ls : quiet (reconcile_sessions liveness ls).
Proof. induction ls; cbn [reconcile_sessions]; unfold reconcile_session; quiet. Qed.
#[local] Hint Resolve quiet_reconcile_sessions : quiet.
Lemma quiet_reconcile_once utc_now liveness : quiet (reconcile_once utc_now liveness).
Proof. unfold reconcile_once. quiet. Qed.

Lemma quiet_await_ready chan : quiet (atomic (await_ready chan)).
Proof.
  apply quiet_atomic. intros x T w Hw. unfold await_ready.
  destruct (channels w !! chan) as [[]|]; try done. by apply keeper_drop_receiver.
Qed.
#[local] Hint Resolve quiet_await_ready : quiet.
Lemma quiet_handle_spawn config which path_var arch request :
  quiet (handle_spawn config which path_var arch request).
Proof. unfold handle_spawn, finish_spawn. quiet. Qed.
#[local] Hint Resolve quiet_handle_spawn : quiet.

Section requests.
Variables (config : DaemonConfig) (which : nat → string → WhichOutput) (path_var : option string)
  (arch : string) (event_waiter_count : L → nat) (path_env : RuntimePathEnv)
  (utc_now : M O Error DateTime) (started_instant : N) (liveness : RuntimeLiveness O).

Notation daemon_task := (daemon_task config which path_var arch event_waiter_count path_env utc_now
  started_instant liveness).

Lemma quiet_handle_rpc_result notified_first rpc :
  quiet (handle_rpc_result config which path_var arch event_waiter_count path_env utc_now started_instant
           notified_first rpc).
Proof.
  destruct (rpc_session rpc) eqn:E; [|by apply quiet_rpc_alone; [apply keeper_frame|]].
  destruct rpc; try discriminate; cbn [handle_rpc_result]; quiet.
Qed.

Lemma daemon_task_safe p : daemon_task p → safe inv ∅ p.
Proof.
  destruct 1; unfold ignore.
  - apply wp_bind. eapply wp_mono.
    { apply (safe_connection inv). intros rpc _. apply quiet_handle_rpc_result. }
    by intros [] T' _.
  - apply quiet_safe. apply quiet_record_watcher_exit.
  - apply quiet_safe, quiet_bind; [apply quiet_reconcile_once|]; quiet.
Qed.
End requests.
End keeper.

Section one_terminal.
#[local] Set Default Proof Using "Type*".
Context {S L O : Type}
  `{!LifecycleStore S, !StoreDiagnostics S, !StoreKeys S, !EventSink L, !EventSpec L, Os O, External,
    Json, Build}.
Variable h0 : list RuntimeEvent.

Notation W := (Server S L O).

(** The sessions [H] are between the insertion into [terminated_events] and the append. *)
Definition terminal_inv (H : gset Uuid) (w : W) : Prop :=
  keyed w.(store) ∧ H ⊆ w.(terminated_events) ∧
  ∃ h, event_repr (h0 ++ h) w.(log) ∧
    ∀ u, length (terminals u h) ≤ 1 ∧ (terminals u h ≠ [] → u ∈ w.(terminated_events) ∖ H).

Lemma terminal_inv_drop T G w : terminal_inv (T ∪ G) w → terminal_inv G w.
Proof.
  intros (Hk & HH & h & Hr & Hh). split; [done|]. split; [set_solver|]. exists h. split; [done|].
  intros u. destruct (Hh u) as [? Hu]. split; [done|]. intros ?%Hu. set_solver.
Qed.

Notation family := (λ _ : unit, terminal_inv).
Notation inert := (inert family).
Notation quiet := (quiet family).

Lemma inert_store {A} (m : M S Error A) : preserves keyed m → inert (on_store m).
Proof.
  intros Hm _ T w (Hk & HT). unfold on_store. specialize (Hm _ Hk).
  destruct (m (store w)) as [[] s]; by split.
Qed.

#[export] Instance terminal_frame : Frame family.
Proof.
  split; [done|done|..]; intros; apply inert_store; eauto using preserves_get, keyed_list, keyed_running,
    keyed_running_tmux_occupant, keyed_record_probe_sweep, keyed_lifecycle_counts, keyed_recent_lost_since,
    keyed_last_probe_sweep, keyed_migration_state.
Qed.

(** Appending an event that is not terminal. *)
Lemma quiet_append e : is_terminal_event e = false → quiet (server_append_event e).
Proof.
  intros He. apply quiet_atomic. intros _ T w (Hk & HT & h & Hr & Hh). unfold on_log.
  pose proof (append_event_spec (h0 ++ h) e (log w) Hr) as Ha.
  destruct (append_event e (log w)) as [r l]. split; [done|]. split; [done|]. exists (h ++ [e]). split.
  - rewrite app_assoc. destruct r; [by destruct Ha|done].
  - intros u. rewrite terminals_app, terminals_other, app_nil_r by auto. apply Hh.
Qed.

(** The token of a session is taken when the session enters [terminated_events], which
    happens once, and given back with the append. *)
Lemma quiet_finish_terminal u l evidence :
  l.(Lifecycle.session_id) = u →
  quiet (finish_terminal u l evidence).
Proof.
  intros Hu. unfold finish_terminal. apply quiet_bind; [by apply quiet_atomic; intros T w|]. intros _ T. apply wp_bind. simpl.
  intros G w HT [_ (Hk & HG & h & Hr & Hh)]. case_bool_decide as Hin; simpl.
  - set (e := match evidence with TerminationEvidence.Lost lost => lost_event l lost
              | _ => terminated_event l evidence end).
    assert (is_terminal_event e = true ∧ event_session e = u) as [He Heu].
    { unfold e. destruct evidence; simpl; [| |done]; unfold terminated_event; repeat case_match; done. }
    exists ({[u]} ∪ T). split; [clear -HG HT Hin; set_solver|]. split.
    { intros _ _. split; [done|]. split; [clear -HG; set_solver|]. exists h. split; [done|]. intros v. destruct (Hh v) as [? Hv].
      split; [done|]. intros Hv'%Hv. clear -Hv' Hin. simpl. set_solver. }
    intros G' w' HT' [_ (Hk' & HG' & h' & Hr' & Hh')]. unfold on_log.
    pose proof (append_event_spec (h0 ++ h') e (log w') Hr') as Ha.
    destruct (append_event e (log w')) as [r l']. exists T. split; [clear -HT'; set_solver|]. split.
    + intros _ _. split; [done|]. split; [clear -HG'; simpl; set_solver|]. exists (h' ++ [e]). split.
      { rewrite app_assoc. simpl. destruct r; [by destruct Ha|done]. }
      intros v. rewrite terminals_app. destruct (decide (v = u)) as [->|Hv].
      * destruct (Hh' u) as [_ Hu']. destruct (terminals u h') as [|x t].
        -- assert (terminals u [e] = [e]) as -> by (rewrite <- Heu; by apply terminals_own).
           split; [done|]. simpl. intros _.
           clear -HG HG' HT' Hin HT. set_solver.
        -- exfalso. assert (u ∈ terminated_events w' ∖ ({[u]} ∪ T ∪ G')) as Hx by (by apply Hu').
           clear -Hx. set_solver.
      * rewrite (terminals_other v e), app_nil_r by (right; congruence).
        destruct (Hh' v) as [? Hv']. split; [done|]. simpl. intros Hx%Hv'. clear -Hx. set_solver.
    + by destruct r.
  - exists T. split; [done|]. split; [intros _ _|done]. split; [done|]. split; [simpl; clear -HG; set_solver|]. exists h.
    split; [done|]. intros v. destruct (Hh v) as [? Hv]. split; [done|]. simpl. intros Hx%Hv.
    clear -Hx. set_solver.
Qed.

#[export] Instance terminal_keeper : Keeper family.
Proof.
  split; [apply terminal_frame|intros u; apply (yields_get_session family); by intros _ T w [? _]|..]; try done.
  - intros l. apply inert_store, keyed_insert_forking.
  - intros l. apply inert_store, keyed_update_lifecycle.
  - intros u. apply inert_store, keyed_delete.
  - apply quiet_append.
  - apply quiet_finish_terminal.
  - intros u. unfold begin_ready_wait. apply quiet_bind; [by apply quiet_atomic; intros T w|].
    intros [? []]; [apply quiet_done|apply quiet_ret].
  - intros u. apply quiet_atomic. intros _ T w Hw. cbn. by destruct (pending_ready w !! u).
Qed.

Section requests.
Variables (config : DaemonConfig) (which : nat → string → WhichOutput) (path_var : option string)
  (arch : string) (event_waiter_count : L → nat) (path_env : RuntimePathEnv)
  (utc_now : M O Error DateTime) (started_instant : N) (liveness : RuntimeLiveness O).

Notation daemon_task := (daemon_task config which path_var arch event_waiter_count path_env utc_now
  started_instant liveness).

Lemma daemon_invariant w l w' :
  terminal_inv ∅ w → rtc (pool_step daemon_task) ([], w) (l, w') → terminal_inv ∅ w'.
Proof. apply (pool_invariant _ family); [intros _; exact terminal_inv_drop|apply daemon_task_safe, terminal_keeper|exact tt]. Qed.
End requests.
End one_terminal.

(** C1. One terminal event. However the tasks of the daemon interleave (several exit
    reports, watchers and sweeps for the same session at once, retries, clients that go
    away half way), the events a run of the daemon adds to the log contain at most one
    terminal event, [Terminated] or [Lost], for each session, whatever store statements,
    log writes and system calls fail. *)
Theorem one_terminal_event {S L O : Type}
    `{!LifecycleStore S, !StoreDiagnostics S, !StoreKeys S, !EventSink L, !EventSpec L, Os O, External,
      Json, Build}
    config which path_var arch event_waiter_count path_env utc_now started_instant liveness h0
    (w : Server S L O) tasks w' :
  keyed w.(store) → event_repr h0 w.(log) → w.(terminated_events) = ∅ →
  rtc (pool_step (daemon_task config which path_var arch event_waiter_count path_env utc_now
                    started_instant liveness)) ([], w) (tasks, w') →
  ∃ h, event_repr (h0 ++ h) w'.(log) ∧
    ∀ u, length (terminals u h) ≤ 1 ∧ (terminals u h ≠ [] → u ∈ w'.(terminated_events)).
Proof.
  intros Hk Hr Ht Hsteps. apply (daemon_invariant h0) in Hsteps as (_ & _ & h & Hr' & Hh).
  - exists h. split; [done|]. intros u. destruct (Hh u) as [? Hu]. split; [done|].
    intros ?%Hu. set_solver.
  - split; [done|]. split; [set_solver|]. exists []. rewrite app_nil_r. split; [done|].
    intros u. unfold terminals. simpl. split; [lia|done].
Qed.

(** ** A concrete daemon

    SQL tables and the event log, on an operating system where every call succeeds at once. *)

Section concrete.
#[local] Existing Instance decimal_external.
#[local] Existing Instance code_json.
#[local] Existing Instance idle_os.

Definition steady_io : Io := mkIo (λ _, None) (λ _, 0%Z) (λ _, 0%N).
#[local] Instance demo_build : Build := {| core_pkg_version := "0"; daemon_pkg_version := "0"; RTM_GIT_SHA := "git" |}.
#[local] Instance demo_store : LifecycleStore Db := sqlite_store quiet_db.
#[local] Instance demo_diagnostics : StoreDiagnostics Db := sqlite_diagnostics quiet_db [] [].
#[local] Instance demo_sink : EventSink Log := log_sink steady_io "/d/events.jsonl".

Definition demo_config : DaemonConfig :=
  DaemonConfig.mk (RuntimeEndpoint.UnixSocket "/d/sock") "/bin/rtm" "/d/logs" "/d/db.sqlite"
    ReconcileConfig_default (DockerPreflightConfig.mk None false false).
Definition demo_task : Prog (Server Db Log N) Error unit → Prop :=
  daemon_task demo_config (λ _ binary, Ok (true, "/bin/" +:+ binary)) None "x86_64" (λ _, 0)
    (RuntimePathEnv.mk None None None None None None) (mret 0%Z) 0 (λ _, mret None).
Definition demo_connection (rpc : RuntimeRpc) : Prog (Server Db Log N) Error unit :=
  ignore (connection demo_config (λ _ binary, Ok (true, "/bin/" +:+ binary)) None "x86_64" (λ _, 0)
    (RuntimePathEnv.mk None None None None None None) (mret 0%Z) 0 (Ok rpc) true steady).
Definition demo_server : Server Db Log N := new_server empty_db (new_log 0) 0%N (mkRegistry None None 0).

Definition demo_spawn : SpawnRequest :=
  SpawnRequest.mk (mkUuid 7) RuntimeKind.Claude IsolationPolicy.Host None [] [] "/w"
    SpawnTarget.Headless false None.
(** A shim that reports its runtime as started and, once that report is answered, as exited. *)
Definition demo_tasks : list (Prog (Server Db Log N) Error unit) :=
  demo_connection <$>
    [RuntimeRpc.Spawn demo_spawn;
     RuntimeRpc.ShimReady (ShimReady.mk (mkUuid 7) 100 200 0 None);
     RuntimeRpc.ShimExit (ShimExit.mk (mkUuid 7) (RuntimeExit.mk (Some 0%Z) None))].
Definition demo_pool : list (Prog (Server Db Log N) Error unit) * Server Db Log N :=
  pool_run (repeat 0 11 ++ [1; 1; 0; 0] ++ repeat 2 5 ++ [0; 0; 0] ++ repeat 3 20)
    (demo_tasks ++ [record_watcher_exit (mkUuid 7)]) demo_server.

Lemma demo_pool_reached : rtc (pool_step demo_task) ([], demo_server) (demo_pool.1, demo_pool.2).
Proof.
  rewrite <- (surjective_pairing demo_pool).
  unfold demo_pool. set (l := demo_tasks ++ [record_watcher_exit (mkUuid 7)]).
  assert (Forall demo_task l) as Hl by (unfold l; repeat constructor).
  pose proof (pool_arrive_all demo_task l [] demo_server Hl) as Ha. rewrite app_nil_r in Ha.
  eapply rtc_trans; [exact Ha|exact (pool_run_steps demo_task _ l demo_server)].
Qed.

Definition ended {W E A} (p : Prog W E A) : bool := match p with Done _ => true | _ => false end.

(** C39. A runtime that exits at once. The answer to [ShimReady] is sent when the waiting spawn is
    woken, so the report of the exit can be recorded between the spawn's read of the record
    and its write; the write then puts the session back to running. The log ends with
    [Running] after [Terminated], the process watcher finds the process gone and records the
    session as lost, and the exit code that was reported is gone. *)
Theorem exit_report_overwritten :
  ∃ tasks w', rtc (pool_step demo_task) ([], demo_server) (tasks, w') ∧
    forallb ended tasks = true ∧
    EventLogEntry.event <$> w'.(log).(EventLog.events) =
      [RuntimeEvent.Terminated (mkUuid 7) (Some 0%Z) None TerminationEvidence.ShimExit;
       RuntimeEvent.Running (mkUuid 7) 200 0] ∧
    (λ row, Lifecycle.state <$> try_from_row row) <$> table w'.(store) =
      [Ok (LifecycleState.Lost LostEvidence.ShimDiedBeforeReport)].
Proof.
  exists demo_pool.1, demo_pool.2. split; [exact demo_pool_reached|].
  split; [|split]; vm_compute; reflexivity.
Qed.

(** A shim that reports ready after the spawn has stopped waiting. The spawn's entries are
    not cancelled when the wait times out, so the report finds a waiter that is gone and is
    refused, the row stays forking (which no sweep looks at), and the session can neither be
    reported ready nor be spawned again. *)
Theorem late_ready_strands :
  let spawn := connection demo_config (λ _ binary, Ok (true, "/bin/" +:+ binary)) None "x86_64" (λ _, 0)
    (RuntimePathEnv.mk None None None None None None) (mret 0%Z) 0
    (Ok (RuntimeRpc.Spawn demo_spawn)) true steady : Prog (Server Db Log N) Error (option (RuntimeResponse * bool)) in
  let ready := connection demo_config (λ _ binary, Ok (true, "/bin/" +:+ binary)) None "x86_64" (λ _, 0)
    (RuntimePathEnv.mk None None None None None None) (mret 0%Z) 0
    (Ok (RuntimeRpc.ShimReady (ShimReady.mk (mkUuid 7) 100 200 0 None))) true steady
    : Prog (Server Db Log N) Error (option (RuntimeResponse * bool)) in
  let '(r1, w1) := run spawn demo_server in
  let '(r2, w2) := run ready w1 in
  let '(r3, w3) := run (reconcile_once (mret 0%Z) (λ _, mret (Some LostEvidence.PidNotAlive))) w2 in
  let '(r4, w4) := run spawn w3 in
  r1 = Ok (Some (RuntimeResponse.Error (ErrorPayload.mk ErrorCode.LaunchFailed "timed out waiting for ShimReady"), false)) ∧
  r2 = Ok (Some (RuntimeResponse.Error (ErrorPayload.mk ErrorCode.ProtocolMismatch
             "spawn waiter dropped for session 7"), false)) ∧
  r3 = Ok [] ∧
  r4 = Ok (Some (RuntimeResponse.SpawnConflict SpawnConflictKind.SessionId (forking (mkUuid 7) RuntimeKind.Claude), false)).
Proof. vm_compute. repeat split. Qed.

Lemma one_terminal_event_witness :
  keyed demo_server.(store) ∧
  ∃ h, shows ([] ++ h) demo_pool.2.(log) ∧
    ∀ u, length (terminals u h) ≤ 1 ∧ (terminals u h ≠ [] → u ∈ demo_pool.2.(terminated_events)).
Proof.
  assert (keyed demo_server.(store)) as Hk by (unfold keyed; intros k row Hk; simpl in Hk; by rewrite lookup_empty in Hk).
  split; [exact Hk|].
  assert (shows [] demo_server.(log)) as Hs by constructor.
  apply (@one_terminal_event Db Log N demo_store demo_diagnostics (sqlite_keys quiet_db [] []) demo_sink
           (log_sink_spec steady_io "/d/events.jsonl") idle_os decimal_external code_json demo_build
           demo_config (λ _ binary, Ok (true, "/bin/" +:+ binary)) None "x86_64" (λ _, 0)
           (RuntimePathEnv.mk None None None None None None) (mret 0%Z) 0%N (λ _, mret None) [] demo_server demo_pool.1 demo_pool.2 Hk Hs eq_refl).
  exact demo_pool_reached.
Defined.
End concrete.
