(* ===== verification/Isolation.v ===== *)
(** * Sessions do not interfere

    What the daemon knows of a session, its record, its pending launch and waiting spawn, its
    watcher and its events, changes through the requests and the watcher of that session and
    through nothing else: whatever connections about other sessions, watchers of other
    sessions and sweeps run and interleave, and whatever fails, it stays as it is. *)

From S2P Require Import Prelude RustStr RustPath Types Parsers Json Launch Errors Lifecycles.
From S2P Require Import Interfaces EventLog LogSink Store Prog Platform Paths Docker Server Proto.
From S2P Require Import Doctor Kill Mcp Reconcile Handler Frames Races.
From stdpp Require Import options.

Section isolation.
Context {S L O : Type}
  `{!LifecycleStore S, !StoreDiagnostics S, !StoreKeys S, !StoreRecords S, !EventSink L, !EventSpec L,
    !Os O, !External, !Json, !Build}.
#[local] Set Default Proof Using "Type*".

Notation W := (Server S L O).

(** The session, the channel that its spawn waits on, and the states to look back to. *)
Variables (u : Uuid) (waits : option nat) (bases : W → Prop).

(** The daemon knows the same of the session, and has issued no event of it. *)
Record untouched (w0 w : W) : Prop := {
  same_record : record_of u w.(store) = record_of u w0.(store);
  same_launch : w.(pending_launches) !! u = w0.(pending_launches) !! u;
  same_ready : w.(pending_ready) !! u = w0.(pending_ready) !! u;
  same_channel c : waits = Some c → w.(channels) !! c = w0.(channels) !! c;
  same_watcher : w.(exit_watchers) !! u = w0.(exit_watchers) !! u;
  same_terminated : u ∈ w.(terminated_events) ↔ u ∈ w0.(terminated_events);
  same_events h0 : event_repr h0 w0.(log) →
    ∃ h, event_repr (h0 ++ h) w.(log) ∧ Forall (λ e, event_session e ≠ u) h }.

(** The channel of the session's spawn is known to no other session. *)
Definition channel_apart (w : W) : Prop :=
  ∀ c, waits = Some c →
    is_Some (w.(channels) !! c) ∧ ∀ v, v ≠ u → w.(pending_ready) !! v ≠ Some c.

Definition apart (w0 : W) (T : gset Uuid) (w : W) : Prop :=
  bases w0 ∧ keyed w.(store) ∧ untouched w0 w ∧ channel_apart w.

Notation inert := (inert apart).
Notation quiet := (quiet apart).
Notation yields := (yields apart).

Lemma apart_drop w0 T G w : apart w0 (T ∪ G) w → apart w0 G w.
Proof. done. Qed.

(** ** Actions *)

(** Calls of the store that leave the session's record. *)
Definition leaves_record {A} (m : M S Error A) : Prop :=
  ∀ r, preserves (λ s, keyed s ∧ record_of u s = r) m.

Lemma leaves_record_both {A} (m : M S Error A) :
  preserves keyed m → (∀ r, preserves (λ s, record_of u s = r) m) → leaves_record m.
Proof.
  intros Hk Hr r s [Hs Hs']. specialize (Hk _ Hs). specialize (Hr _ _ Hs'). by destruct (m s) as [[] s1].
Qed.

Lemma leaves_record_running : leaves_record running.
Proof.
  intros r s Hs. pose proof (keyed_running s (proj1 Hs)) as Hk. pose proof (kept_running u r s Hs) as Hr.
  cbv beta in Hk, Hr. destruct (running s) as [[] s1]; [split; [done|apply Hr]|by split].
Qed.

Lemma apart_store {A} (m : M S Error A) : leaves_record m → inert (on_store m).
Proof.
  intros Hm w0 T w (Hb & Hw & [] & Hc). unfold on_store. specialize (Hm _ (store w) (conj Hw eq_refl)).
  cbv beta in Hm. destruct (m (store w)) as [r s].
  assert (keyed s ∧ record_of u s = record_of u (store w)) as [Hk Hr] by by destruct r.
  split; [done|]. split; [done|]. split; [|done]. split; try done. cbn. congruence.
Qed.

#[export] Instance apart_frame : Frame apart.
Proof.
  split; [by intros w0 T w o (? & ? & [] & ?)|by intros w0 T w o (? & ? & [] & ?)|..]; intros; apply apart_store;
    first [apply leaves_record_running | apply leaves_record_both];
    eauto using preserves_get, keyed_list, keyed_running_tmux_occupant, keyed_record_probe_sweep,
      keyed_lifecycle_counts, keyed_recent_lost_since, keyed_last_probe_sweep, keyed_migration_state,
      kept_get_any, kept_list, kept_running_tmux_occupant, kept_record_probe_sweep,
      kept_lifecycle_counts, kept_recent_lost_since, kept_last_probe_sweep, kept_migration_state.
Qed.

#[local] Hint Resolve apart_frame : quiet.

(** Writes of another session's record. *)
Lemma quiet_insert_forking l :
  l.(Lifecycle.session_id) ≠ u → quiet (atomic (on_store (insert_forking l))).
Proof.
  intros. apply quiet_atomic, apart_store, leaves_record_both; [apply keyed_insert_forking|].
  intros. by apply kept_insert_forking.
Qed.
Lemma quiet_update_lifecycle l :
  l.(Lifecycle.session_id) ≠ u → quiet (atomic (on_store (update_lifecycle l))).
Proof.
  intros. apply quiet_atomic, apart_store, leaves_record_both; [apply keyed_update_lifecycle|].
  intros. by apply kept_update_lifecycle.
Qed.
Lemma quiet_delete v : v ≠ u → quiet (atomic (on_store (delete v))).
Proof.
  intros. apply quiet_atomic, apart_store, leaves_record_both; [apply keyed_delete|].
  intros. by apply kept_delete.
Qed.

Lemma apart_get_session {A} v (f : Lifecycle → Prog W Error A) :
  (∀ l, l.(Lifecycle.session_id) = v → quiet (f l)) → quiet (get_session v ≫= f).
Proof. apply quiet_bind_yields, (yields_get_session apart). by intros w0 T w (_ & ? & _). Qed.

Lemma apart_append e : event_session e ≠ u → quiet (server_append_event e).
Proof.
  intros He. apply quiet_atomic. intros w0 T w (Hb & Hk & [] & Hc). unfold on_log.
  split; [done|]. split; [by destruct (append_event _ _)|]. split; [|by destruct (append_event _ _)].
  split; try (by destruct (append_event _ _)). intros h0 Hh. destruct (same_events0 h0 Hh) as (h & Hr & Hh').
  exists (h ++ [e]). pose proof (append_event_spec (h0 ++ h) e (log w) Hr) as Ha.
  rewrite app_assoc. split; [destruct (append_event _ _) as [[] l]; apply Ha|].
  apply Forall_app. by split; [|constructor].
Qed.

(** Actions on the tables of other sessions. *)
Lemma quiet_modify (f : W → W) : (∀ w0 T w, apart w0 T w → apart w0 T (f w)) → quiet (atomic (modify f) : Prog W Error unit).
Proof. intros Hf. apply quiet_atomic. intros w0 T w Hw. by apply (Hf w0 T). Qed.

Lemma apart_remove_watcher v : v ≠ u → quiet (remove_watcher v).
Proof.
  intros Hv. apply quiet_modify. intros w0 T w (Hb & Hk & [] & Hc). split; [done|]. split; [done|]. split; [|done].
  split; try done. cbn. by rewrite lookup_delete_ne.
Qed.
Lemma apart_start_exit_watcher v pid : v ≠ u → quiet (start_exit_watcher v pid).
Proof.
  intros Hv. apply quiet_modify. intros w0 T w (Hb & Hk & [] & Hc). destruct (exit_watchers w !! v) eqn:E; [done|].
  split; [done|]. split; [done|]. split; [|done]. split; try done. cbn. by rewrite lookup_insert_ne.
Qed.

(** A table of channels that changes at one channel of another session. *)
Lemma apart_channels ready chans w0 T w :
  apart w0 T w → ready !! u = w.(pending_ready) !! u →
  (∀ c, waits = Some c →
     chans !! c = w.(channels) !! c ∧
     ∀ v, v ≠ u → ready !! v = Some c → w.(pending_ready) !! v = Some c) →
  apart w0 T (set_ready ready chans w).
Proof.
  intros (Hb & Hk & [] & Hc) Hr Hf. split; [done|]. split; [done|]. split.
  - split; try done; cbn; [congruence|]. intros c Hw. destruct (Hf c Hw) as [-> _]. auto.
  - intros c Hw. destruct (Hc c Hw) as [? Hv]. destruct (Hf c Hw) as [Hc' Hf']. cbn. rewrite Hc'.
    split; [done|]. intros v Hne E. apply (Hv v Hne), Hf'; done.
Qed.

Definition not_waited (c : nat) : Prop := waits ≠ Some c.

Lemma drop_sender_other c c' m : c ≠ c' → drop_sender c m !! c' = m !! c'.
Proof. intros Hc. unfold drop_sender. repeat case_match; by rewrite ?lookup_insert_ne. Qed.
Lemma drop_receiver_other c c' m : c ≠ c' → drop_receiver c m !! c' = m !! c'.
Proof. intros Hc. unfold drop_receiver. repeat case_match; by rewrite ?lookup_insert_ne. Qed.

(** The channel that another session registered. *)
Lemma apart_registered w0 T w v c : apart w0 T w → v ≠ u → w.(pending_ready) !! v = Some c → not_waited c.
Proof. intros (_ & _ & _ & Hc) Hv Hr Hw. by apply (Hc c Hw) in Hr. Qed.

Lemma quiet_remove_pending v : v ≠ u → quiet (remove_pending_ready v).
Proof.
  intros Hv. apply quiet_modify. intros w0 T w Hw. destruct (pending_ready w !! v) as [chan|] eqn:E; [|done].
  pose proof (apart_registered w0 T w v chan Hw Hv E) as Hn.
  apply apart_channels; [done|..].
  - by rewrite lookup_delete_ne.
  - intros c Hc. split; [apply drop_sender_other; congruence|]. by intros v' _ [_ ?]%lookup_delete_Some.
Qed.

Lemma yields_begin_ready_wait v : v ≠ u → yields not_waited (begin_ready_wait v).
Proof.
  intros Hv. unfold begin_ready_wait. apply (yields_bind _ (λ inserted, not_waited inserted.1)).
  - apply yields_atomic. intros w0 T w Hw. cbn [fst snd].
    assert (∀ c, waits = Some c → fresh (dom w.(channels)) ≠ c) as Hfresh.
    { intros c Hu <-. destruct Hw as (_ & _ & _ & Hc). destruct (Hc _ Hu) as [Hin%elem_of_dom _].
      by apply is_fresh in Hin. }
    split; [|intros Hu; by apply (Hfresh _ Hu)].
    apply apart_channels; [done|by rewrite lookup_insert_ne|]. intros c Hu.
    rewrite lookup_insert_ne by auto. split.
    + destruct (pending_ready w !! v) as [p|] eqn:E; [|done]. apply drop_sender_other. intros ->.
      by apply (apart_registered w0 T w v c) in E.
    + intros v' _ [[_ E]|[_ ?]]%lookup_insert_Some; [by destruct (Hfresh c Hu)|done].
  - intros [chan [p|]] Hn; [apply yields_fail|by apply yields_ret].
Qed.

Lemma apart_cancel_spawn v : v ≠ u → quiet (cancel_spawn v).
Proof.
  intros Hv. unfold cancel_spawn. apply quiet_bind; [|intros _].
  { apply quiet_modify. intros w0 T w (Hb & Hk & [] & Hc). split; [done|]. split; [done|]. split; [|done]. split; try done. cbn.
    by rewrite lookup_delete_ne. }
  apply quiet_bind; [by apply quiet_remove_pending|intros _].
  apply quiet_bind; [by apply quiet_attempted, quiet_delete|intros ?; apply quiet_ret].
Qed.

Lemma yields_begin_spawn request launch :
  request.(SpawnRequest.session_id) ≠ u → yields not_waited (begin_spawn request launch).
Proof.
  intros Hv. unfold begin_spawn. apply (yields_bind _ (λ _, True)); [apply yields_any; quiet|]. intros [l|] _.
  { apply yields_fail. }
  apply (yields_bind _ (λ _, True)); [apply yields_any; quiet|]. intros _ _.
  apply (yields_bind _ (λ _, True)); [by apply yields_any, quiet_insert_forking|]. intros _ _.
  apply (yields_bind _ (λ _, True)).
  { apply yields_any, quiet_modify. intros w0 T w (Hb & Hk & [] & Hc). split; [done|]. split; [done|]. split; [|done]. split; try done.
    cbn. by rewrite lookup_insert_ne. }
  intros _ _. eapply yields_bind; [by apply yields_attempted, yields_begin_ready_wait|].
  intros [chan|e] Hn; [by apply yields_ret|].
  apply (yields_bind _ (λ _, True)); [by apply yields_any, apart_cancel_spawn|]. intros _ _. apply yields_fail.
Qed.

(** ** The tasks of other sessions *)

Lemma apart_take_launch_spec v : v ≠ u → quiet (take_launch_spec v).
Proof.
  intros Hv. unfold take_launch_spec. apply quiet_bind; [|intros; quiet]. apply quiet_atomic.
  intros w0 T w (Hb & Hk & [] & Hc). split; [done|]. split; [done|]. split; [|done]. split; try done. cbn. by rewrite lookup_delete_ne.
Qed.

Lemma mark_running_session l ready : (mark_running l ready).1.(Lifecycle.session_id) = l.(Lifecycle.session_id).
Proof. apply (apply_op_session l (MarkRunning ready)). Qed.

Lemma running_event_session l e : running_event l = Ok e → event_session e = l.(Lifecycle.session_id).
Proof. unfold running_event. by intros (p & _ & (s & _ & [= <-])%bind_Ok)%bind_Ok. Qed.

(** From the update of a record on, as [record_running] and [record_reconnected_ready] end. *)
Lemma quiet_announce {A} l pid (f : RuntimeEvent → Prog W Error A) v :
  l.(Lifecycle.session_id) = v → v ≠ u → (∀ e, quiet (f e)) →
  quiet (_ ← atomic (on_store (update_lifecycle l));
         event ← lift_result (running_event l);
         _ ← start_exit_watcher v pid;
         event ← server_append_event event; f event).
Proof.
  intros <- Hv Hf. apply quiet_bind; [by apply quiet_update_lifecycle|intros _].
  destruct (running_event l) as [e|err] eqn:E; [|apply quiet_done].
  change (lift_result (Ok e) ≫= ?g) with (g e).
  apply quiet_bind; [by apply apart_start_exit_watcher|intros _].
  apply quiet_bind; [apply apart_append; by rewrite (running_event_session _ _ E)|done].
Qed.

Lemma yields_populate config l v :
  l.(Lifecycle.session_id) = v → yields (λ l', l'.(Lifecycle.session_id) = v) (populate_log_availability config l).
Proof.
  intros <-. unfold populate_log_availability. apply (yields_bind _ (λ _, True)); [apply yields_any; quiet|].
  intros a _. apply yields_ret. by destruct l.
Qed.

Lemma apart_record_running config request ready :
  request.(SpawnRequest.session_id) ≠ u → quiet (record_running config request ready).
Proof.
  intros Hv. unfold record_running. apply apart_get_session. intros l Hl. case_match; [quiet|].
  destruct (mark_running l ready) as [l' marked] eqn:E. case_match; [quiet|].
  assert (l'.(Lifecycle.session_id) = SpawnRequest.session_id request) as Hl'
    by (by rewrite <- Hl, <- (mark_running_session l ready), E).
  eapply quiet_bind_yields; [apply yields_populate; by destruct l'|]. intros l2 Hl2.
  apply quiet_announce; [by destruct l'|done|]. intros e. quiet.
Qed.

Lemma apart_record_reconnected ready :
  ready.(ShimReady.session_id) ≠ u → quiet (record_reconnected_ready ready).
Proof.
  intros Hv. unfold record_reconnected_ready. apply apart_get_session. intros l Hl.
  pose proof (mark_running_session l ready) as Hm. destruct (Lifecycle.state l); [|..|quiet|quiet].
  - rewrite Hm. apply quiet_announce; [done|congruence|]. intros e. quiet.
  - apply quiet_bind; [apply apart_start_exit_watcher; congruence|intros _; quiet].
Qed.

Lemma apart_complete_shim_ready ready :
  ready.(ShimReady.session_id) ≠ u → quiet (complete_shim_ready ready).
Proof.
  intros Hv. unfold complete_shim_ready.
  eapply (quiet_bind_yields _ (λ sender, ∀ chan, sender = Some chan → not_waited chan)).
  { apply yields_atomic. intros w0 T w Hw. cbn [fst snd]. split; [|intros chan; by eapply apart_registered].
    apply apart_channels; [done|by rewrite lookup_delete_ne|]. intros c Hc. split; [done|].
    by intros v _ [_ ?]%lookup_delete_Some. }
  intros [chan|] Hn; [|apply quiet_bind; [by apply apart_record_reconnected|intros; quiet]].
  specialize (Hn chan eq_refl). apply quiet_bind; [|intros []; quiet]. apply quiet_atomic. intros w0 T w Hw.
  destruct (channels w !! chan) as [[]|]; try done.
  apply apart_channels; [done..|]. intros c Hc. split; [|done]. rewrite lookup_insert_ne; [done|].
  intros ->. by apply Hn.
Qed.

Lemma apart_finish_terminal v l evidence :
  v ≠ u → l.(Lifecycle.session_id) = v → quiet (finish_terminal v l evidence).
Proof.
  intros Hv Hl. unfold finish_terminal. apply quiet_bind; [by apply apart_remove_watcher|intros _].
  apply quiet_bind.
  { apply quiet_atomic. intros w0 T w (Hb & Hk & [] & Hc). split; [done|]. split; [done|]. split; [|done]. split; try done. cbn.
    rewrite <- same_terminated0. clear -Hv. set_solver. }
  intros inserted. case_match; [quiet|]. cbv zeta.
  apply quiet_bind; [apply apart_append|intros; quiet].
  destruct evidence; [..|by rewrite <- Hl in Hv]; unfold terminated_event; case_match; cbn; congruence.
Qed.

Lemma quiet_record_terminal v evidence (mark : Lifecycle → Lifecycle * bool) :
  v ≠ u → (∀ l, (mark l).1.(Lifecycle.session_id) = l.(Lifecycle.session_id)) →
  quiet (lifecycle ← get_session v;
         let '(lifecycle, marked) := mark lifecycle in
         if negb marked then mret None else
         _ ← atomic (on_store (update_lifecycle lifecycle));
         finish_terminal v lifecycle evidence).
Proof.
  intros Hv Hm. apply apart_get_session. intros l Hl. specialize (Hm l). destruct (mark l) as [l' marked].
  cbn in Hm. case_match; [quiet|].
  apply quiet_bind; [apply quiet_update_lifecycle; congruence|intros _; apply apart_finish_terminal; congruence].
Qed.

Lemma apart_record_exited v exit evidence : v ≠ u → quiet (record_exited v exit evidence).
Proof. intros Hv. apply (quiet_record_terminal _ _ (λ l, mark_exited l exit)); [done|]. intros l. apply mark_exited_session. Qed.
Lemma apart_record_lost v evidence : v ≠ u → quiet (record_lost v evidence).
Proof.
  intros Hv. apply (quiet_record_terminal _ _ (λ l, mark_lost l evidence)); [done|]. intros l.
  apply mark_lost_session.
Qed.
Lemma apart_record_watcher_exit v : v ≠ u → quiet (record_watcher_exit v).
Proof.
  intros Hv. unfold record_watcher_exit. quiet; (apply apart_record_lost || apply apart_record_exited); done.
Qed.

(** *** Spawns *)

Lemma yields_check config arch request :
  yields (λ checked, checked.1.(SpawnRequest.session_id) = request.(SpawnRequest.session_id))
    (check config arch request).
Proof.
  unfold check. apply (yields_bind _ (λ r, r.(SpawnRequest.session_id) = request.(SpawnRequest.session_id))).
  { apply yields_atomic. intros w0 T w Hw. unfold on_os.
    pose proof (frame_os (inv := apart) w0 T w (check_isolation_policy (DaemonConfig.docker_preflight config) arch request (os w)).2 Hw).
    destruct (check_isolation_policy _ _ _ _) as [[request'|e] o] eqn:E; (split; [done|]); [|done].
    by apply check_isolation_request in E as (? & _). }
  intros request' Hr. apply (yields_bind _ (λ _, True)); [apply yields_any; quiet|]. intros [l|] _; [by apply yields_ret|].
  case_match; [|by apply yields_ret].
  apply (yields_bind _ (λ _, True)); [apply yields_any; quiet|]. intros [l|] _; [|by apply yields_ret].
  case_match; [by apply yields_ret|].
  apply (yields_bind _ (λ _, True)); [apply yields_any; quiet|]. intros _ _. by apply yields_ret.
Qed.

Lemma apart_await_ready c : not_waited c → quiet (atomic (await_ready c)).
Proof.
  intros Hn. apply quiet_atomic. intros w0 T w Hw. unfold await_ready.
  destruct (channels w !! c) as [[]|] eqn:E; try done. cbn [snd].
  apply apart_channels; [done..|]. intros c' Hc. split; [|done]. apply drop_receiver_other. intros ->. by apply Hn.
Qed.

Lemma quiet_finish_spawn config request chan evidence :
  request.(SpawnRequest.session_id) ≠ u → not_waited chan → quiet (finish_spawn config request chan evidence).
Proof.
  intros Hv Hn. unfold finish_spawn. apply quiet_bind; [by apply apart_await_ready|intros ready].
  apply quiet_bind; [by apply apart_record_running|intros; quiet].
Qed.

Lemma apart_handle_spawn config which path_var arch request :
  request.(SpawnRequest.session_id) ≠ u → quiet (handle_spawn config which path_var arch request).
Proof.
  intros Hv. unfold handle_spawn. eapply quiet_bind_yields; [apply yields_check|].
  intros [request' [conflict|]] Hr; [quiet|]. cbn in Hr. rewrite <- Hr in Hv.
  apply quiet_bind; [quiet|intros launch]. apply quiet_bind; [quiet|intros launch'].
  eapply quiet_bind_yields; [by apply yields_begin_spawn|]. intros chan Hn.
  apply quiet_bind; [quiet|intros [evidence|e]]; [by apply quiet_finish_spawn|].
  apply quiet_bind; [by apply apart_cancel_spawn|intros; quiet].
Qed.

(** *** Sweeps

    A sweep looks at running sessions only. *)
Definition settled (w0 : W) : Prop :=
  ∀ l, decoded (record_of u w0.(store)) = Ok (Some l) → is_running l = false.

Lemma yields_running :
  (∀ w0, bases w0 → settled w0) → yields (Forall (λ l, l.(Lifecycle.session_id) ≠ u)) (atomic (on_store running)).
Proof.
  intros Hset. apply yields_atomic. intros w0 T w Hw. split; [by apply (frame_running (inv := apart))|].
  destruct Hw as (Hb & Hk & [Hr _ _ _ _ _ _] & _). unfold on_store.
  pose proof (kept_running u _ (store w) (conj Hk eq_refl)) as Hls.
  destruct (running (store w)) as [[ls|e] s]; [|done]. destruct Hls as [_ Hls]. cbn. apply Forall_forall.
  intros l Hl Hu. destruct (Hls l Hl Hu) as [Hd Hrun]. rewrite Hr in Hd. by rewrite (Hset w0 Hb l Hd) in Hrun.
Qed.

Lemma apart_reconcile_sessions liveness ls :
  Forall (λ l, l.(Lifecycle.session_id) ≠ u) ls → quiet (reconcile_sessions liveness ls).
Proof.
  induction 1 as [|l ls Hl _ IH]; cbn [reconcile_sessions]; [quiet|]. apply quiet_bind; [|intros; quiet].
  unfold reconcile_session. quiet; (by apply apart_record_lost || by apply apart_start_exit_watcher).
Qed.

Lemma apart_reconcile_once utc_now liveness : (∀ w0, bases w0 → settled w0) → quiet (reconcile_once utc_now liveness).
Proof.
  intros Hset. unfold reconcile_once. eapply quiet_bind_yields; [by apply yields_running|]. intros ls Hls.
  apply quiet_bind; [by apply apart_reconcile_sessions|intros events]. quiet.
Qed.

(** *** Any of them *)

Section tasks.
Variables (config : DaemonConfig) (which : nat → string → WhichOutput) (path_var : option string)
  (arch : string) (event_waiter_count : L → nat) (path_env : RuntimePathEnv)
  (utc_now : M O Error DateTime) (started_instant : N) (liveness : RuntimeLiveness O).

Lemma quiet_other_rpc notified_first rpc :
  rpc_session rpc ≠ Some u →
  quiet (handle_rpc_result config which path_var arch event_waiter_count path_env utc_now started_instant
           notified_first rpc).
Proof.
  intros Hu. destruct (rpc_session rpc) as [v|] eqn:E; [|by apply quiet_rpc_alone; [apply apart_frame|]].
  assert (v ≠ u) as Hv by congruence. destruct rpc; try discriminate; injection E as <-; cbn [handle_rpc_result].
  - by apply apart_handle_spawn.
  - by apply quiet_fmap, apart_take_launch_spec.
  - apply quiet_bind; [by apply apart_complete_shim_ready|intros; quiet].
  - apply quiet_bind; [by apply apart_record_exited|intros; quiet].
Qed.

(** The tasks of a daemon that are not about the session: connections with other requests,
    the watchers of other processes, and, if the session does not run meanwhile, sweeps. *)
Inductive other_task (sweeps : Prop) : Prog W Error unit → Prop :=
| other_connection read notified_first link :
    (∀ rpc, read = Ok rpc → rpc_session rpc ≠ Some u) →
    other_task sweeps (ignore (connection config which path_var arch event_waiter_count path_env utc_now
                          started_instant read notified_first link))
| other_watcher v : v ≠ u → other_task sweeps (record_watcher_exit v)
| other_sweep : sweeps → other_task sweeps (ignore (reconcile_once utc_now liveness)).

Lemma other_task_safe (sweeps : Prop) p :
  (sweeps → ∀ w0, bases w0 → settled w0) → other_task sweeps p → safe apart ∅ p.
Proof.
  intros Hsweep. destruct 1 as [read nf link Hr|v Hv|Hset]; unfold ignore.
  - apply wp_bind. eapply wp_mono.
    { apply (safe_connection apart). intros rpc E. by apply quiet_other_rpc, Hr. }
    by intros [] T' _.
  - by apply quiet_safe, apart_record_watcher_exit.
  - by apply quiet_safe, quiet_bind; [by apply apart_reconcile_once, Hsweep|intros; quiet].
Qed.
End tasks.
End isolation.

(** ** Waiting channels

    The sender of a channel is registered for one session, and the channel is there. *)

Section channels.
Context {S L O : Type}
  `{!LifecycleStore S, !StoreDiagnostics S, !StoreKeys S, !EventSink L, !Os O, !External, !Json, !Build}.
#[local] Set Default Proof Using "Type*".

Notation W := (Server S L O).

Definition channels_ok (T : gset Uuid) (w : W) : Prop :=
  keyed w.(store) ∧
  (∀ u c, w.(pending_ready) !! u = Some c → is_Some (w.(channels) !! c)) ∧
  (∀ u v c, w.(pending_ready) !! u = Some c → w.(pending_ready) !! v = Some c → u = v).

Notation family := (λ _ : unit, channels_ok).
Notation inert := (Prog.inert family).
Notation quiet := (Prog.quiet family).

Lemma channels_ok_apart u w : channels_ok ∅ w → channel_apart u (w.(pending_ready) !! u) w.
Proof. intros (_ & Hc & Hi) c Hu. split; [by eapply Hc|]. intros v Hv Hr. apply Hv. by eapply Hi. Qed.

Lemma channels_ok_frame {A} (m : M W Error A) :
  (∀ w, keyed w.(store) → keyed (m w).2.(store)) →
  (∀ w, (m w).2.(pending_ready) = w.(pending_ready) ∧ (m w).2.(channels) = w.(channels)) →
  inert m.
Proof. intros Hk Hm _ T w (Hw & Hc). destruct (Hm w) as [Er Ec]. split; [auto|]. by rewrite Er, Ec. Qed.

Lemma channels_ok_store {A} (m : M S Error A) : preserves keyed m → inert (on_store m).
Proof.
  intros Hm. apply channels_ok_frame; intros w; unfold on_store; [|by destruct (m (store w))].
  intros Hk. specialize (Hm _ Hk). by destruct (m (store w)) as [[] s].
Qed.

(** Channels change in what they hold, and senders go. *)
Lemma channels_ok_shrink T w ready chans :
  channels_ok T w → ready ⊆ w.(pending_ready) → (∀ c, is_Some (w.(channels) !! c) → is_Some (chans !! c)) →
  channels_ok T (set_ready ready chans w).
Proof.
  intros (Hk & Hc & Hi) Hr Hch. split; [done|]. split; cbn.
  - intros u c Hu. apply Hch, (Hc u). by eapply lookup_weaken.
  - intros u v c Hu Hv. by apply (Hi u v c); eapply lookup_weaken.
Qed.

Lemma drop_sender_keeps p c m : is_Some (m !! c) → is_Some (drop_sender p m !! c).
Proof.
  intros Hc. unfold drop_sender. repeat case_match; try done.
  destruct (decide (p = c)) as [->|]; [by rewrite lookup_insert_eq|by rewrite lookup_insert_ne].
Qed.
Lemma drop_receiver_keeps p c m : is_Some (m !! c) → is_Some (drop_receiver p m !! c).
Proof.
  intros Hc. unfold drop_receiver. repeat case_match; try done.
  destruct (decide (p = c)) as [->|]; [by rewrite lookup_insert_eq|by rewrite lookup_insert_ne].
Qed.

Lemma channels_ok_begin T w u c' state :
  channels_ok T w → (∀ c, is_Some (w.(channels) !! c) → is_Some (c' !! c)) →
  let chan := fresh (dom w.(channels)) in
  channels_ok T (set_ready (<[u := chan]> w.(pending_ready)) (<[chan := state]> c') w).
Proof.
  intros (Hk & Hc & Hi) Hch chan.
  assert (∀ v, w.(pending_ready) !! v ≠ Some chan) as Hfresh.
  { intros v Hin%Hc%elem_of_dom. by apply is_fresh in Hin. }
  split; [done|]. split; cbn.
  - intros v c [[_ <-]|[_ Hv]]%lookup_insert_Some; [by rewrite lookup_insert_eq|].
    rewrite lookup_insert_ne; [by eapply Hch, Hc|]. intros <-. by apply (Hfresh v).
  - intros v v' c [[<- <-]|[Hv Ev]]%lookup_insert_Some [[<- E]|[Hv' Ev']]%lookup_insert_Some; [done|..].
    + by destruct (Hfresh v').
    + by destruct (Hfresh v); subst c.
    + by apply (Hi v v' c).
Qed.

#[export] Instance channels_ok_is_frame : Frame family.
Proof.
  split; [done|done|..]; intros; apply channels_ok_store; eauto using preserves_get, keyed_list, keyed_running,
    keyed_running_tmux_occupant, keyed_record_probe_sweep, keyed_lifecycle_counts, keyed_recent_lost_since,
    keyed_last_probe_sweep, keyed_migration_state.
Qed.

Lemma channels_ok_append e : quiet (server_append_event e).
Proof. apply quiet_atomic, channels_ok_frame; intros w; unfold on_log; by destruct (append_event e (log w)). Qed.

#[export] Instance channels_ok_keeper : Keeper family.
Proof.
  split; [apply channels_ok_is_frame|intros u; apply (yields_get_session family); by intros _ T w [? _]|..].
  - intros l. apply channels_ok_store, keyed_insert_forking.
  - intros l. apply channels_ok_store, keyed_update_lifecycle.
  - intros u. apply channels_ok_store, keyed_delete.
  - done.
  - done.
  - intros e _. apply channels_ok_append.
  - intros u l evidence _. unfold finish_terminal. apply quiet_bind; [by apply quiet_atomic; intros T w|intros _].
    apply quiet_bind; [by apply quiet_atomic; intros T w|]. intros []; cbn [negb]; [|apply quiet_ret].
    apply quiet_bind; [apply channels_ok_append|intros; apply quiet_ret].
  - intros u. unfold begin_ready_wait. apply quiet_bind; [|intros [? []]; [apply quiet_done|apply quiet_ret]].
    apply quiet_atomic. intros _ T w Hw. apply channels_ok_begin; [done|]. intros c Hc.
    destruct (pending_ready w !! u); [by apply drop_sender_keeps|done].
  - intros u. apply quiet_atomic. intros _ T w Hw. cbn. destruct (pending_ready w !! u); [|done].
    apply channels_ok_shrink; [done|apply delete_subseteq|intros c; apply drop_sender_keeps].
  - intros _ T w u Hw. apply channels_ok_shrink; [done|apply delete_subseteq|done].
  - intros _ T w chan ready Hw Hc. apply channels_ok_shrink; [done|done|]. intros c Hs.
    destruct (decide (chan = c)) as [->|]; [by rewrite lookup_insert_eq|by rewrite lookup_insert_ne].
  - intros _ T w chan Hw. apply channels_ok_shrink; [done|done|intros c; apply drop_receiver_keeps].
Qed.
End channels.

(** C3. Sessions do not interfere. Let a daemon that starts with no waiting spawn run any
    tasks to some state, and from there on let tasks of other sessions than [u] arrive, run in
    any interleaving and be dropped: connections with any request but a spawn or a shim's
    report for [u] (kills, nudges and captures of [u] among them), the exit watchers of other
    sessions and, unless [u] runs, sweeps. Whatever fails, the daemon then has the same record
    of [u], the same pending launch, the same waiting spawn on a channel with the same content
    and the same watcher, has not counted it as terminated, and has added no event of it to
    the history. *)
Theorem sessions_do_not_interfere {S L O : Type}
    `{!LifecycleStore S, !StoreDiagnostics S, !StoreKeys S, !StoreRecords S, !EventSink L, !EventSpec L,
      !Os O, !External, !Json, !Build}
    u config which path_var arch event_waiter_count path_env utc_now started_instant liveness
    (start w w' : Server S L O) tasks tasks' :
  keyed start.(store) → start.(pending_ready) = ∅ →
  rtc (pool_step (daemon_task config which path_var arch event_waiter_count path_env utc_now
                    started_instant liveness)) ([], start) (tasks, w) →
  rtc (pool_step (other_task u config which path_var arch event_waiter_count path_env utc_now
                    started_instant liveness (settled u w))) ([], w) (tasks', w') →
  untouched u (w.(pending_ready) !! u) w w'.
Proof.
  intros Hk Hp Hrun Hsteps.
  assert (channels_ok ∅ start) as Hstart by (split; [done|]; rewrite Hp; by split).
  eapply (pool_invariant _ (λ _ : unit, channels_ok)) with (x := tt) in Hrun;
    [|done|apply daemon_task_safe, channels_ok_keeper|exact Hstart].
  set (waits := pending_ready w !! u). set (bases := λ w0, w0 = w).
  assert (apart u waits bases w ∅ w) as Hw.
  { split; [done|]. split; [apply Hrun|]. split; [|by apply channels_ok_apart]. split; try done.
    intros h0 Hh. exists []. by rewrite app_nil_r. }
  eapply (pool_invariant _ (apart u waits bases)) in Hsteps; [apply Hsteps|done| |exact Hw].
  intros p. apply other_task_safe. by intros Hset w0 ->.
Qed.

(** ** A concrete run

    A spawn of session 7 has begun; session 9 is spawned meanwhile, killed and swept. *)

Section concrete.
#[local] Existing Instance decimal_external.
#[local] Existing Instance code_json.
#[local] Existing Instance idle_os.
#[local] Existing Instances demo_store demo_diagnostics demo_sink demo_build.
#[local] Instance demo_keys : StoreKeys Db := sqlite_keys quiet_db [] [].
#[local] Instance demo_records : StoreRecords Db := sqlite_records quiet_db [] [].
#[local] Instance demo_events : EventSpec Log := log_sink_spec steady_io "/d/events.jsonl".

Definition demo_waiting : Server Db Log N := (pool_run (repeat 0 9) demo_tasks demo_server).2.
Definition demo_other : SpawnRequest :=
  SpawnRequest.mk (mkUuid 9) RuntimeKind.Claude IsolationPolicy.Host None [] [] "/w"
    SpawnTarget.Headless false None.
Definition demo_others : list (Prog (Server Db Log N) Error unit) :=
  demo_connection <$>
    [RuntimeRpc.Spawn demo_other; RuntimeRpc.ShimLaunch (mkUuid 9);
     RuntimeRpc.ShimReady (ShimReady.mk (mkUuid 9) 100 200 0 None);
     RuntimeRpc.Kill (KillRequest.mk (mkUuid 7) RuntimeSignal.Term 1);
     RuntimeRpc.ShimExit (ShimExit.mk (mkUuid 9) (RuntimeExit.mk (Some 0%Z) None))].
Definition demo_others_run : list (Prog (Server Db Log N) Error unit) * Server Db Log N :=
  pool_run (repeat 0 9 ++ repeat 1 4 ++ repeat 2 6 ++ repeat 0 12 ++ repeat 3 9 ++ repeat 4 9)
    demo_others demo_waiting.

Lemma sessions_do_not_interfere_witness :
  let waits := demo_waiting.(channels) !! 0 in
  waits = Some Waiting ∧
  (λ row, Lifecycle.state <$> try_from_row row) <$> demo_others_run.2.(store).(lifecycle) !! "9" =
    Some (Ok (LifecycleState.Exited (RuntimeExit.mk (Some 0%Z) None))) ∧
  demo_others_run.2.(channels) !! 0 = waits ∧ untouched (mkUuid 7) (demo_waiting.(pending_ready) !! mkUuid 7) demo_waiting demo_others_run.2.
Proof.
  intros waits. assert (waits = Some Waiting) as Hw by (vm_compute; reflexivity).
  assert (keyed demo_server.(store)) as Hk by (unfold keyed; intros k row Hk; simpl in Hk; by rewrite lookup_empty in Hk).
  assert (rtc (pool_step demo_task) ([], demo_server) ((pool_run (repeat 0 9) demo_tasks demo_server).1, demo_waiting))
    as Hrun.
  { unfold demo_waiting. rewrite <- surjective_pairing. assert (Forall demo_task demo_tasks) as Hl by repeat constructor.
    pose proof (pool_arrive_all demo_task demo_tasks [] demo_server Hl) as Ha. rewrite app_nil_r in Ha.
    eapply rtc_trans; [exact Ha|apply pool_run_steps]. }
  set (other := other_task (mkUuid 7) demo_config (λ _ binary, Ok (true, "/bin/" +:+ binary)) None "x86_64"
    (λ _, 0) (RuntimePathEnv.mk None None None None None None) (mret 0%Z) 0 (λ _, mret None) (settled (mkUuid 7) demo_waiting)).
  assert (rtc (pool_step other) ([], demo_waiting) (demo_others_run.1, demo_others_run.2)) as Hothers.
  { rewrite <- (surjective_pairing demo_others_run). unfold demo_others_run.
    assert (Forall other demo_others) as Hl.
    { repeat constructor; intros rpc E; injection E as <-; discriminate. }
    pose proof (pool_arrive_all other demo_others [] demo_waiting Hl) as Ha. rewrite app_nil_r in Ha.
    eapply rtc_trans; [exact Ha|apply pool_run_steps]. }
  pose proof (sessions_do_not_interfere (mkUuid 7) demo_config (λ _ binary, Ok (true, "/bin/" +:+ binary)) None "x86_64"
    (λ _, 0) (RuntimePathEnv.mk None None None None None None) (mret 0%Z) 0 (λ _, mret None)
    demo_server demo_waiting demo_others_run.2 _ _ Hk eq_refl Hrun Hothers) as Hun.
  split; [exact Hw|]. split; [vm_compute; reflexivity|]. split; [|exact Hun].
  apply (same_channel _ _ _ _ Hun). vm_compute. reflexivity.
Defined.
End concrete.
