(* ===== verification/Daemon.v ===== *)
(** * The daemon process (crates/rtm-daemon: server/runner.rs, socket.rs and
    DaemonConfig::from_env)

    Start-up, in the order of its steps, the accept loop as a step relation around the tasks
    of Races.v, and the end. Opening the event log is a parameter, which EventLog.v models
    over the file system; [LifecycleStore_open] is that of rtm-store, over sqlx's calls. *)

From S2P Require Import Prelude RustStr RustPath Types Parsers Json Launch Errors Lifecycles.
From S2P Require Import Interfaces EventLog LogSink Store Prog Platform Paths Docker Server Proto Doctor Kill Mcp.
From S2P Require Import Reconcile Handler Races.
From stdpp Require Import options.

(** The calls on the socket's file, and standard output. A process is known by its pid. *)
Class SocketOs (O : Type) := {
  (** [std::fs::remove_file] *)
  remove_file : string → O → option IoError * O;
  (** [UnixListener::bind] by a process *)
  bind_socket : N → string → O → option IoError * O;
  println : string → O → O;
}.

(** [DaemonConfig::from_env]; [current_exe] is that of the process, [parse_signed_error] the
    text of the error of a signed parse. *)
Definition daemon_config_from_env (parse_signed_error : string → string) (environ : Environ)
    (current_exe : result string string) : result Error DaemonConfig :=
  let env := env_from_process (var_os environ) in
  endpoint ← of_path_error (runtime_endpoint env);
  shim_path ← of_path_error (Paths.shim_path env current_exe);
  log_root ← of_path_error (Paths.log_root env);
  db_path ← of_path_error (Paths.db_path env);
  reconcile ← reconcile_config_from_env parse_signed_error (var_os environ);
  Ok (DaemonConfig.mk endpoint shim_path log_root db_path reconcile (docker_config_from_env (env_var environ))).

Section socket.
Context {O : Type} `{Os O, SocketOs O}.

Definition remove_socket_file (path : string) : M O Error unit :=
  removed ← os_call (remove_file path);
  match removed with
  | None | Some IoError.NotFound => mret tt
  | Some error => throw (anyhow ("failed to remove " +:+ to_string_lossy path +:+ ": " +:+ display_IoError error))
  end.

(** A call with the context of its error. *)
Definition io_call (message : string) (call : O → option IoError * O) : M O Error unit :=
  e ← os_call call;
  lift (context message (match e with None => Ok tt | Some e => Err (anyhow (display_IoError e)) end)).

Definition prepare_socket (path : string) : M O Error unit :=
  parent ← lift (ok_or (anyhow ("socket path " +:+ to_string_lossy path +:+ " has no parent")) (parent path));
  _ ← io_call ("failed to create " +:+ to_string_lossy parent) (create_dir_all parent);
  remove_socket_file path.

(** The two steps of the start that concern the socket. *)
Definition listen (pid : N) (path : string) : M O Error unit :=
  _ ← prepare_socket path;
  io_call ("failed to bind " +:+ to_string_lossy path) (bind_socket pid path).
End socket.

(** ** Opening the store (crates/rtm-store: config.rs, schema.rs, LifecycleStore::open)

    [connect_with] is sqlx's pool on the file of that name, which is created if it is missing,
    in the WAL journal mode, and [run_migrations] what sqlx makes of the migrations. *)

Record StoreConfig := mkStoreConfig { store_db_path : string }.

Definition store_config_from_env (env : RuntimePathEnv) : result Error StoreConfig :=
  db_path ← of_path_error (Paths.db_path env); Ok (mkStoreConfig db_path).

Section opening.
Context {S O : Type} `{Os O}.
Variable connect_with : string → M O Error S.
Variable run_migrations : S → M O Error S.

Definition migrate (pool : S) : M O Error S :=
  with_context "failed to run rtm-store migrations" (run_migrations pool).

Definition db_directory (db_path : string) : M O Error unit :=
  match parent db_path with
  | Some parent => io_call ("failed to create rtm db directory " +:+ to_string_lossy parent) (create_dir_all parent)
  | None => mret tt
  end.

Definition LifecycleStore_open (config : StoreConfig) : M O Error S :=
  let db_path := config.(store_db_path) in
  _ ← db_directory db_path;
  pool ← with_context ("failed to open sqlite db " +:+ to_string_lossy db_path) (connect_with db_path);
  migrate pool.

Definition path_open (path : string) : M O Error S := LifecycleStore_open (mkStoreConfig path).

(** What holds of every store that sqlx opens and survives its migrations. *)
Lemma path_open_opens (P : S → Prop) path o s o' :
  (∀ o s o', connect_with path o = (Ok s, o') → P s) →
  (∀ s o s' o', P s → run_migrations s o = (Ok s', o') → P s') →
  path_open path o = (Ok s, o') → P s.
Proof.
  intros Hc Hm. unfold path_open, LifecycleStore_open, migrate, with_context, mbind, M_bind. cbn [store_db_path].
  intros E. destruct (db_directory path o) as [[[]|e] o1]; [|done].
  destruct (connect_with path o1) as [[pool|e] o2] eqn:Ec; [|done]. cbn in E.
  destruct (run_migrations pool o2) as [[s1|e] o3] eqn:Em; [|done]. injection E as -> ->.
  eapply Hm; [|exact Em]. by eapply Hc.
Qed.
End opening.

Section runner.
Context {S L O : Type}
  `{LifecycleStore S, StoreDiagnostics S, EventSink L, Os O, SocketOs O, External, Json, Build}.
Variable config : DaemonConfig.
Variable which : nat → string → WhichOutput.
Variable path_var : option string.
Variable arch : string.
Variable event_waiter_count : L → nat.
Variable path_env : RuntimePathEnv.
Variable utc_now : M O Error DateTime.
Variable timestamp_opt : Z → N → option DateTime.
(** [LifecycleStore::open] and [EventLog::open]. *)
Variable open_store : string → M O Error S.
Variable open_log : string → M O Error L.
Variable pid : N.

Notation W := (Server S L O).
Notation Task := (Prog W Error).

(** The first part of [run_daemon]: the state, with the socket bound. The launcher registry
    belongs to the process. *)
Definition start_steps (warmed : result LauncherError unit) (registry : Registry) : M O Error W :=
  _ ← lift (context "failed to initialize launcher registry" (map_err of_launcher warmed));
  store ← open_store config.(DaemonConfig.db_path);
  socket_path ← lift (socket_path config);
  _ ← listen pid socket_path;
  _ ← os_call (λ o, (tt, println ("rtmd listening on " +:+
                                  display_label config.(DaemonConfig.endpoint) path_env) o));
  log ← open_log (data_dir config);
  o ← gets id;
  mret (new_server store log o registry).
Definition start_server (registry : Registry) : M O Error W :=
  let '(warmed, registry) := warm_registry which registry in start_steps warmed registry.

(** Up to the accept loop: the startup sweep is done before any connection is accepted. *)
Definition start_daemon (registry : Registry) (o : O) : result Error W * O :=
  match start_server registry o with
  | (Ok w, _) =>
      match run (reconcile_startup timestamp_opt utc_now) w with
      | (Ok _, w) => (Ok w, w.(os))
      | (Err e, w) => (Err e, w.(os))
      end
  | (Err e, o) => (Err e, o)
  end.

(** What is left to do after the accept loop; then the process ends, and its tasks with it. *)
Definition stop_daemon : M O Error unit :=
  socket_path ← lift (socket_path config); remove_socket_file socket_path.

Variable started_instant : N.

(** A daemon that accepts connections, or the outcome of [run_daemon]. *)
Inductive Daemon :=
| Serving (tasks : list (Task unit)) (w : W)
| Returned (outcome : result Error unit) (o : O).

Definition liveness : RuntimeLiveness O :=
  ReconcileLiveness (SystemProcessProbe timestamp_opt) docker_lost_evidence.

(** Connections, exit watchers and sweeps, and what each of them does. *)
Definition served : Task unit → Prop :=
  daemon_task config which path_var arch event_waiter_count path_env utc_now started_instant liveness.

(** The loop's [select!]: other tasks run, a connection arrives, accepting one fails, or the
    end is asked for by [Stop], by SIGINT or by SIGTERM. *)
Inductive daemon_step : Daemon → Daemon → Prop :=
| step_tasks tasks w tasks' w' :
    pool_step served (tasks, w) (tasks', w') → daemon_step (Serving tasks w) (Serving tasks' w')
| step_accept_failed tasks w e :
    daemon_step (Serving tasks w)
      (Returned (context "failed to accept daemon connection" (Err (anyhow (display_IoError e)))) w.(os))
| step_shutdown tasks w :
    daemon_step (Serving tasks w) (let '(r, o) := stop_daemon w.(os) in Returned r o).

(** [run_daemon]. *)
Inductive run_daemon (registry : Registry) (o : O) : Daemon → Prop :=
| run_failed e o' :
    start_daemon registry o = (Err e, o') → run_daemon registry o (Returned (Err e) o')
| run_serving w o' d :
    start_daemon registry o = (Ok w, o') → rtc daemon_step (Serving [] w) d → run_daemon registry o d.
End runner.

(** ** Theorems *)

(** Which process, if any, listens at a path, and what the calls on a socket's file do to
    it. *)
Class SocketSpec (O : Type) `{Os O, SocketOs O} := {
  listener : string → O → option N;
  remove_file_spec path o :
    match remove_file path o with
    | (None, o') => listener path o' = None
    | (Some IoError.NotFound, o') => listener path o = None ∧ listener path o' = None
    | (Some _, o') => listener path o' = listener path o
    end;
  bind_socket_spec pid path o :
    match bind_socket pid path o with
    | (None, o') => listener path o = None ∧ listener path o' = Some pid
    | (Some _, o') => listener path o' = listener path o
    end;
  create_dir_listener path dir o : listener path (create_dir_all dir o).2 = listener path o;
}.

Section socket_lemmas.
Context {O : Type} `{SocketSpec O}.

Lemma remove_socket_file_spec path o :
  match remove_socket_file path o with
  | (Ok tt, o') => listener path o' = None
  | (Err _, o') => listener path o' = listener path o
  end.
Proof.
  unfold remove_socket_file, os_call, mbind, M_bind. pose proof (remove_file_spec path o) as Hr.
  destruct (remove_file path o) as [[[|message]|] o']; [apply Hr|exact Hr..].
Qed.

Lemma socket_call_spec message (call : O → option IoError * O) o :
  match io_call message call o with
  | (Ok tt, o') => call o = (None, o')
  | (Err _, o') => ∃ e, call o = (Some e, o')
  end.
Proof.
  unfold io_call, os_call, lift, mbind, M_bind. destruct (call o) as [[e|] o'] eqn:E; cbn; [|done].
  by exists e.
Qed.

Lemma listen_spec pid path o :
  match listen pid path o with
  | (Ok tt, o') => listener path o' = Some pid
  | (Err _, o') => listener path o' = listener path o ∨ listener path o' = None
  end.
Proof.
  unfold listen, prepare_socket, mbind, M_bind, lift. destruct (parent path) as [dir|]; cbn [ok_or]; [|by left].
  pose proof (socket_call_spec ("failed to create " +:+ to_string_lossy dir) (create_dir_all dir) o) as Hc.
  pose proof (create_dir_listener path dir o) as Hd.
  destruct (io_call _ (create_dir_all dir) o) as [[[]|e] o1]; [|destruct Hc as [e' Hc]; rewrite Hc in Hd; by left].
  rewrite Hc in Hd. cbn [snd] in Hd.
  pose proof (remove_socket_file_spec path o1) as Hr. destruct (remove_socket_file path o1) as [[[]|e] o2];
    [|left; by rewrite Hr].
  pose proof (socket_call_spec ("failed to bind " +:+ to_string_lossy path) (bind_socket pid path) o2) as Hb.
  pose proof (bind_socket_spec pid path o2) as Hs.
  destruct (io_call _ (bind_socket pid path) o2) as [[[]|e] o3]; [rewrite Hb in Hs; apply Hs|].
  destruct Hb as [e' Hb]. rewrite Hb in Hs. right. by rewrite Hs.
Qed.
End socket_lemmas.

(** Two daemons on one socket. A daemon that starts takes the socket's path over from
    whatever listens there, a live daemon too: binding succeeds because the file was removed
    first. And a daemon that stops removes the file at its path without a look at who
    listens there, so that stopping the first of two daemons cuts the second off. *)
Theorem socket_taken_over {O} `{SocketSpec O} first second path o o1 o2 o3 :
  listen first path o = (Ok tt, o1) → listen second path o1 = (Ok tt, o2) →
  remove_socket_file path o2 = (Ok tt, o3) →
  listener path o1 = Some first ∧ listener path o2 = Some second ∧ listener path o3 = None.
Proof.
  intros E1 E2 E3. pose proof (listen_spec first path o) as L1. pose proof (listen_spec second path o1) as L2.
  pose proof (remove_socket_file_spec path o2) as L3. rewrite E1 in L1. rewrite E2 in L2. rewrite E3 in L3. done.
Qed.

Section life.
Context {S L O : Type}
  `{!LifecycleStore S, !StoreDiagnostics S, !StoreKeys S, !EventSink L, !EventSpec L, !Os O, !SocketOs O,
    !SocketSpec O, !External, !Json, !Build}.
Variable config : DaemonConfig.
Variable which : nat → string → WhichOutput.
Variable path_var : option string.
Variable arch : string.
Variable event_waiter_count : L → nat.
Variable path_env : RuntimePathEnv.
Variable utc_now : M O Error DateTime.
Variable timestamp_opt : Z → N → option DateTime.
Variable started_instant : N.

Notation served := (served config which path_var arch event_waiter_count path_env utc_now timestamp_opt
  started_instant).
Notation daemon_step := (daemon_step config which path_var arch event_waiter_count path_env utc_now
  timestamp_opt started_instant).

(** The steps of the loop are steps of its tasks until it returns. *)
Lemma daemon_steps tasks w d :
  rtc daemon_step (Serving tasks w) d →
  match d with
  | Serving tasks' w' => rtc (pool_step served) (tasks, w) (tasks', w')
  | Returned r o =>
      ∃ tasks' w', rtc (pool_step served) (tasks, w) (tasks', w') ∧
        ((∃ e, r = Err e ∧ o = w'.(os)) ∨ stop_daemon config w'.(os) = (r, o))
  end.
Proof.
  remember (Serving tasks w) as d0 eqn:E. intros Hs. revert tasks w E.
  induction Hs as [d|d d1 d2 Hstep Hs IH]; intros tasks w ->; [done|].
  inversion Hstep as [? ? tasks' w' Hp|? ? e|]; subst.
  - specialize (IH _ _ eq_refl). destruct d2 as [tasks2 w2|r o].
    + by eapply rtc_l.
    + destruct IH as (tasks2 & w2 & Hr & Ho). exists tasks2, w2. split; [by eapply rtc_l|done].
  - inversion Hs as [|? ? ? Hbad]; subst; [|inversion Hbad].
    exists tasks, w. split; [done|]. left. by eexists.
  - destruct (stop_daemon config (os w)) as [r o] eqn:Es. inversion Hs as [|? ? ? Hbad]; subst; [|inversion Hbad].
    exists tasks, w. split; [done|]. by right.
Qed.

(** A task alone is a schedule of its own. *)
Lemma run_steps (p : Prog (Server S L O) Error unit) tasks w :
  rtc (pool_step served) (p :: tasks, w) (Done (run p w).1 :: tasks, (run p w).2).
Proof.
  revert w. induction p as [r|B act k IH]; intros w; cbn [run]; [done|].
  destruct (act w) as [b w'] eqn:E. eapply rtc_l; [|apply IH].
  pose proof (PoolRun served [] tasks w B act k) as Hs. rewrite E in Hs. exact Hs.
Qed.

(** The startup sweep is one of the daemon's tasks. *)
Lemma startup_steps w :
  rtc (pool_step served) ([], w) ([], (run (reconcile_startup timestamp_opt utc_now) w).2).
Proof.
  set (sweep := ignore (reconcile_once utc_now (liveness timestamp_opt)) : Prog (Server S L O) Error unit).
  eapply rtc_l; [apply (PoolArrive _ _ _ sweep); constructor|].
  eapply rtc_r; [apply run_steps|].
  assert ((run sweep w).2 = (run (reconcile_startup timestamp_opt utc_now) w).2) as ->.
  { unfold sweep, ignore, reconcile_startup. rewrite run_bind_match. by destruct (run _ w) as [[]]. }
  apply (PoolDrop _ [] []).
Qed.
End life.


(** ** Concrete runs *)

Section concrete.
#[local] Existing Instance decimal_external.
#[local] Existing Instance code_json.
#[local] Existing Instance idle_os.
#[local] Existing Instances demo_store demo_diagnostics demo_sink demo_build.
#[local] Instance demo_keys : StoreKeys Db := sqlite_keys quiet_db [] [].
#[local] Instance demo_spec : EventSpec Log := log_sink_spec steady_io "/d/events.jsonl".

(** A system with room for one socket: nobody listens, or the process whose pid is one
    less than the number. *)
#[local] Instance one_socket : SocketOs N := {|
  remove_file := λ _ o, (if (o =? 0)%N then Some IoError.NotFound else None, 0%N);
  bind_socket := λ pid _ o,
    if (o =? 0)%N then (None, (pid + 1)%N) else (Some (IoError.Other "Address already in use"), o);
  println := λ _ o, o |}.
#[local, program] Instance one_socket_spec : SocketSpec N := {|
  listener := λ _ o, if (o =? 0)%N then None else Some (o - 1)%N |}.
Next Obligation. intros path o. cbn. destruct (N.eqb_spec o 0) as [->|]; cbn; [by split|done]. Qed.
Next Obligation.
  intros pid path o. cbn. destruct (N.eqb_spec o 0) as [->|Hne]; cbn; [|by apply N.eqb_neq in Hne as ->]. split; [done|].
  destruct (N.eqb_spec (pid + 1) 0); [lia|]. by rewrite N.add_sub.
Qed.
Next Obligation. done. Qed.

Lemma socket_taken_over_witness :
  let '(r1, o1) := listen 10 "/d/sock" 0%N in
  let '(r2, o2) := listen 20 "/d/sock" o1 in
  let '(r3, o3) := remove_socket_file "/d/sock" o2 in
  (r1, r2, r3) = (Ok tt, Ok tt, Ok tt) ∧ listener "/d/sock" o2 = Some 20%N ∧ listener "/d/sock" o3 = None.
Proof.
  change (remove_socket_file "/d/sock" 21%N) with (@Ok Error unit tt, 0%N).
  split; [reflexivity|]. apply (socket_taken_over 10 20 "/d/sock" 0%N 11%N 21%N 0%N); reflexivity.
Defined.

End concrete.
