(* ===== verification/ServerSpec.v ===== *)
(** * What the coordinators do to the store, the log and the pending tables

    The tasks of Server.v and Reconcile.v run alone, against the specifications of the store
    and the log (Interfaces.v): the state is a map from sessions to lifecycles and a history
    of events. *)

From S2P Require Import Prelude RustStr RustPath Types Parsers Json Launch Errors Lifecycles.
From S2P Require Import Interfaces EventLog LogSink Store Prog Platform Paths Docker Server Proto.
From S2P Require Import Kill Reconcile Handler Races.
From stdpp Require Import options.

Section steps.
Context {S L O : Type} `{!LifecycleStore S, !EventSink L, !Os O, !External}.

Notation W := (Server S L O).
Notation Task := (Prog W Error).

Lemma run_store {A B} (m : M S Error A) (f : A → Task B) (w : W) :
  run (atomic (on_store m) ≫= f) w =
    match m w.(store) with
    | (Ok a, s) => run (f a) (set_store s w)
    | (Err e, s) => (Err e, set_store s w)
    end.
Proof. rewrite run_bind_match, run_atomic. unfold on_store. by destruct (m _) as [[]]. Qed.

Lemma run_store_attempted {A B} (m : M S Error A) (f : result Error A → Task B) (w : W) :
  run (attempted (atomic (on_store m)) ≫= f) w =
    let '(r, s) := m w.(store) in run (f r) (set_store s w).
Proof.
  rewrite run_bind_match, run_attempted. unfold attempt. rewrite run_atomic. unfold on_store.
  by destruct (m _) as [[]].
Qed.

Lemma run_os {A B} (m : M O Error A) (f : A → Task B) (w : W) :
  run (atomic (on_os m) ≫= f) w =
    match m w.(os) with
    | (Ok a, o) => run (f a) (set_os o w)
    | (Err e, o) => (Err e, set_os o w)
    end.
Proof. rewrite run_bind_match, run_atomic. unfold on_os. by destruct (m _) as [[]]. Qed.

Lemma run_modify {B} (g : W → W) (f : unit → Task B) (w : W) :
  run (atomic (modify g) ≫= f) w = run (f tt) (g w).
Proof. by rewrite run_bind_match, run_atomic. Qed.

Lemma run_lift {A B} (r : result Error A) (f : A → Task B) (w : W) :
  run (lift_result r ≫= f) w = match r with Ok a => run (f a) w | Err e => (Err e, w) end.
Proof. rewrite run_bind_match. by destruct r. Qed.

Lemma run_append {B} e (f : RuntimeEvent → Task B) (w : W) :
  run (server_append_event e ≫= f) w =
    match append_event e w.(log) with
    | (Ok a, l) => run (f a) (set_log l w)
    | (Err err, l) => (Err err, set_log l w)
    end.
Proof.
  unfold server_append_event. rewrite run_bind_match, run_atomic. unfold on_log. by destruct (append_event _ _) as [[]].
Qed.
End steps.

Section coordinators.
Context {S L O : Type}
  `{!LifecycleStore S, !StoreSpec S, !EventSink L, !EventSpec L, !Os O, !External}.

Notation W := (Server S L O).
Notation Task := (Prog W Error).

Lemma get_session_run {B} s u (f : Lifecycle → Task B) (w : W) :
  store_repr s w.(store) →
  ∃ s', let w' := set_store s' w in
    store_repr s w'.(store) ∧
    (run (get_session u ≫= f) w =
       match s !! u with
       | Some l => run (f l) w'
       | None => (Err (session_not_found u), w')
       end ∨
     ∃ e, run (get_session u ≫= f) w = (Err e, w') ∧ store_failed).
Proof.
  intros Hs. pose proof (get_spec s u _ Hs) as Hg. rewrite run_bind_match.
  unfold get_session. rewrite run_store.
  destruct (get u (store w)) as [[o|e] s']; exists s'; simpl.
  - destruct Hg as [-> Hs']. split; [done|]. left. by destruct (s !! u).
  - destruct Hg as [Hs' Hf]. split; [done|]. right. by exists e.
Qed.

(** ** Terminations *)

(** The abstract effect of an exit or loss report on the sessions and the history. *)
Definition terminate (state : LifecycleState) (event : Lifecycle → RuntimeEvent) (u : Uuid)
    (s : Sessions) (terminated : gset Uuid) (h : list RuntimeEvent)
    : option RuntimeEvent * Sessions * list RuntimeEvent :=
  match s !! u with
  | Some l =>
      if is_terminal_state l.(Lifecycle.state) then (None, s, h) else
      let l' := set_state l state in
      let s' := <[u := l']> s in
      if bool_decide (u ∈ terminated) then (None, s', h) else (Some (event l'), s', h ++ [event l'])
  | None => (None, s, h)
  end.

Definition logged (h : list RuntimeEvent) (w : W) : Prop := event_all h w.(log).

Lemma finish_terminal_run u l evidence h (w : W) :
  l.(Lifecycle.session_id) = u → logged h w → event_room h →
  let e := match evidence with
           | TerminationEvidence.Lost lost => lost_event l lost
           | _ => terminated_event l evidence
           end in
  event_fits e →
  match run (finish_terminal u l evidence) w with
  | (r, w') =>
      w'.(store) = w.(store) ∧ w'.(exit_watchers) !! u = None ∧
      (∀ v, v ≠ u → w'.(exit_watchers) !! v = w.(exit_watchers) !! v) ∧
      w'.(terminated_events) = {[u]} ∪ w.(terminated_events) ∧ w'.(os) = w.(os) ∧
      if bool_decide (u ∈ w.(terminated_events)) then r = Ok None ∧ logged h w'
      else (r = Ok (Some e) ∧ logged (h ++ [e]) w') ∨ (∃ err, r = Err err) ∧ sink_failed
  end.
Proof.
  intros Hl Hh Hroom e He. unfold finish_terminal, remove_watcher. rewrite run_modify.
  rewrite run_bind_match, run_atomic.
  assert (∀ v, v ≠ u → base.delete u (exit_watchers w) !! v = exit_watchers w !! v) as Hw
    by (intros v Hv; by rewrite lookup_delete_ne).
  change (terminated_events (set_watchers _ w)) with (terminated_events w).
  destruct (decide (u ∈ terminated_events w)) as [Hin|Hin].
  - rewrite (bool_decide_eq_false_2 (u ∉ _)), bool_decide_eq_true_2 by auto.
    refine (conj eq_refl (conj (lookup_delete_eq _ _) (conj Hw (conj eq_refl (conj eq_refl _))))). done.
  - rewrite (bool_decide_eq_true_2 (u ∉ _)), bool_decide_eq_false_2 by auto. cbn [negb].
    fold e. rewrite run_append. change (log _) with (log w).
    pose proof (append_event_all h e He Hroom _ Hh) as Ha.
    destruct (append_event e (log w)) as [[e'|err] l'];
      refine (conj eq_refl (conj (lookup_delete_eq _ _) (conj Hw (conj eq_refl (conj eq_refl _))))).
    + destruct Ha as [-> Ha]. by left.
    + right. split; [by exists err|done].
Qed.

(** What a report leaves alone: the other sessions' watchers and entries. *)
Definition others_kept (u : Uuid) (w w' : W) : Prop :=
  (∀ v, v ≠ u → w'.(exit_watchers) !! v = w.(exit_watchers) !! v) ∧
  w.(terminated_events) ⊆ w'.(terminated_events) ∧
  w'.(terminated_events) ⊆ {[u]} ∪ w.(terminated_events).

(** A report alone: it has its abstract effect, or some call to the database or the log's
    file failed. *)
Definition terminal_report (state : LifecycleState) (event : Lifecycle → RuntimeEvent) (u : Uuid)
    (s : Sessions) (h : list RuntimeEvent) (w w' : W) (r : result Error (option RuntimeEvent)) : Prop :=
  let '(answer, s', h') := terminate state event u s w.(terminated_events) h in
  r = match s !! u with Some _ => Ok answer | None => Err (session_not_found u) end ∧
  store_repr s' w'.(store) ∧ logged h' w' ∧ others_kept u w w'.

Lemma record_terminal_run state event mark evidence u s h (w : W) :
  (∀ l, (mark l : Lifecycle * bool).1 = (if is_terminal_state l.(Lifecycle.state) then (mark l).1
                                         else set_state l state) ∧
        (mark l).2 = negb (is_terminal_state l.(Lifecycle.state))) →
  (∀ l, event l = match evidence with
                  | TerminationEvidence.Lost lost => lost_event l lost
                  | _ => terminated_event l evidence
                  end) →
  state_fits state → (∀ l, event_fits (event (set_state l state))) → event_room h →
  store_repr s w.(store) → logged h w →
  let '(r, w') :=
    run (lifecycle ← get_session u;
         let '(lifecycle, marked) := mark lifecycle in
         if negb marked then mret None else
         _ ← atomic (on_store (update_lifecycle lifecycle));
         finish_terminal u lifecycle evidence) w in
  terminal_report state event u s h w w' r ∨ (∃ e, r = Err e) ∧ (store_failed ∨ sink_failed).
Proof.
  intros Hmark Hevent Hfits Hev Hroom Hs Hh.
  assert (∀ w' : W, w'.(exit_watchers) = w.(exit_watchers) → w'.(terminated_events) = w.(terminated_events) →
            others_kept u w w') as Hkept.
  { intros w' Ew Et. unfold others_kept. rewrite Ew, Et. split; [done|]. clear. set_solver. }
  destruct (get_session_run s u (λ lifecycle,
    let '(lifecycle, marked) := mark lifecycle in
    if negb marked then mret None else
    _ ← atomic (on_store (update_lifecycle lifecycle));
    finish_terminal u lifecycle evidence) w Hs) as (s1 & Hs1 & [-> | (e & -> & Hf)]);
    [|right; split; [by exists e|by left]].
  unfold terminal_report, terminate. destruct (s !! u) as [l|] eqn:El; [|left; split_and!; auto].
  destruct (store_repr_ok _ _ Hs _ _ El) as (Hlu & Hst & Hstored).
  destruct (Hmark l) as [Hl' Hmarked]. destruct (mark l) as [l' marked]. simpl in Hl', Hmarked. subst marked.
  destruct (is_terminal_state (Lifecycle.state l)); cbn [negb]; [left; split_and!; auto|]. subst l'.
  rewrite run_store.
  pose proof (update_lifecycle_spec s (set_state l state) (storable_set_state l state Hst Hfits) _ Hs1) as Hu.
  change (store (set_store s1 w)) with s1. change (store (set_store s1 w)) with s1 in Hu.
  destruct (update_lifecycle (set_state l state) s1) as [[[]|e] s2].
  2:{ destruct Hu as [_ [Hf|Hn]]; [right; split; [by exists e|by left]|].
      rewrite set_state_session, Hlu in Hn. congruence. }
  destruct Hu as [_ Hs2]. rewrite set_state_session, Hlu, stored_set_state, Hstored in Hs2.
  pose proof (finish_terminal_run u (set_state l state) evidence h (set_store s2 (set_store s1 w))) as Hfin.
  specialize (Hfin (eq_trans (set_state_session _ _) Hlu) Hh Hroom). cbv zeta in Hfin.
  rewrite <- (Hevent (set_state l state)) in Hfin. specialize (Hfin (Hev _)).
  destruct (run (finish_terminal u (set_state l state) evidence) (set_store s2 (set_store s1 w))) as [r w'].
  destruct Hfin as (Est & _ & Hother & Hterm & _ & Hfin).
  change (terminated_events (set_store _ _)) with (terminated_events w) in Hfin.
  assert (others_kept u w w') as Hk.
  { split; [exact Hother|]. rewrite Hterm. simpl. clear. set_solver. }
  change (store (set_store s2 _)) with s2 in Est.
  destruct (bool_decide (u ∈ terminated_events w)); cbv iota in Hfin |- *.
  - left. destruct Hfin as [-> ?]. split_and!; [done| |done|done]. by rewrite Est.
  - destruct Hfin as [[-> ?]|[? ?]]; [left|right; auto]. split_and!; [done| |done|done]. by rewrite Est.
Qed.

(** ** Spawns *)

Lemma set_os_same (w : W) : set_os w.(os) w = w.
Proof. by destruct w. Qed.

Lemma validate_spawn_target_run {B} request (f : unit → Task B) (w : W) :
  ∃ o', let w' := set_os o' w in
    (run (validate_spawn_target request ≫= f) w = run (f tt) w' ∧
     match tmux_address request.(SpawnRequest.target) with
     | Some a => (tmux_is_alive a w.(os)).1 = Ok true
     | None => True
     end) ∨
    ∃ e, run (validate_spawn_target request ≫= f) w = (Err e, w').
Proof.
  rewrite run_bind_match. unfold validate_spawn_target, validate_target.
  destruct (tmux_address _) as [a|].
  - rewrite run_bind_match, run_os. destruct (tmux_is_alive a (os w)) as [[[]|e] o']; exists o'; simpl;
      [by left|right; by eexists..].
  - exists w.(os). rewrite set_os_same. by left.
Qed.

Definition spawn_row (request : SpawnRequest) : Lifecycle :=
  set_isolation (forking request.(SpawnRequest.session_id) request.(SpawnRequest.runtime))
    request.(SpawnRequest.isolation).

Lemma spawn_row_session request : (spawn_row request).(Lifecycle.session_id) = request.(SpawnRequest.session_id).
Proof. done. Qed.
Lemma spawn_row_stored request : stored (spawn_row request) = spawn_row request.
Proof. done. Qed.

(** The cleanup of a spawn that has registered everything but the waiter. *)
Lemma cancel_spawn_run {B} u s (f : unit → Task B) (w : W) :
  store_repr s w.(store) →
  ∃ s' c, let w' := set_ready (base.delete u w.(pending_ready)) c
                      (set_launches (base.delete u w.(pending_launches)) (set_store s' w)) in
    run (cancel_spawn u ≫= f) w = run (f tt) w' ∧
    (store_repr (base.delete u s) s' ∨ store_repr s s' ∧ store_failed).
Proof.
  intros Hs. rewrite run_bind_match. unfold cancel_spawn. rewrite run_modify.
  unfold remove_pending_ready. rewrite run_modify.
  rewrite run_store_attempted. pose proof (delete_spec s u _ Hs) as Hd.
  destruct w as [st l o pl pr ch ew te la].
  cbn [store set_store set_launches set_ready pending_launches pending_ready channels log os exit_watchers
       terminated_events launchers] in *.
  destruct (pr !! u) as [chan|] eqn:Ep; cbn [store set_store set_launches set_ready pending_launches pending_ready].
  - destruct (delete u st) as [[[]|e] s']; exists s', (drop_sender chan ch); (split; [done|auto]).
  - rewrite (delete_id pr) by done.
    destruct (delete u st) as [[[]|e] s']; exists s', ch; (split; [done|auto]).
Qed.

Definition spawn_begun (request : SpawnRequest) (launch : LaunchSpec) (s : Sessions) (chan : nat) (w w' : W) : Prop :=
  let u := request.(SpawnRequest.session_id) in
  s !! u = None ∧ w.(pending_ready) !! u = None ∧ w.(channels) !! chan = None ∧
  match tmux_address request.(SpawnRequest.target) with
  | Some a => (tmux_is_alive a w.(os)).1 = Ok true
  | None => True
  end ∧
  store_repr (<[u := spawn_row request]> s) w'.(store) ∧
  w'.(pending_launches) = <[u := launch]> w.(pending_launches) ∧
  w'.(pending_ready) = <[u := chan]> w.(pending_ready) ∧
  w'.(channels) = <[chan := Waiting]> w.(channels).

Definition spawn_refused (u : Uuid) (s : Sessions) (w w' : W) : Prop :=
  store_repr s w'.(store) ∧ w'.(pending_launches) = w.(pending_launches) ∧
  w'.(pending_ready) = w.(pending_ready) ∧ w'.(channels) = w.(channels).

(** The session already had a waiter: it is dropped, and nothing of the new spawn is left,
    unless the database could not delete the row. *)
Definition spawn_collided (request : SpawnRequest) (s : Sessions) (w w' : W) : Prop :=
  let u := request.(SpawnRequest.session_id) in
  is_Some (w.(pending_ready) !! u) ∧ s !! u = None ∧
  (store_repr s w'.(store) ∨ store_failed) ∧
  w'.(pending_launches) = base.delete u w.(pending_launches) ∧
  w'.(pending_ready) = base.delete u w.(pending_ready).

Lemma begin_spawn_run request launch s (w : W) :
  storable (spawn_row request) → store_repr s w.(store) →
  let u := request.(SpawnRequest.session_id) in
  let '(r, w') := run (begin_spawn request launch) w in
  match r with
  | Ok chan => spawn_begun request launch s chan w w'
  | Err e =>
      (is_Some (s !! u) → ¬ store_failed → e = of_failure (RuntimeFailure.SessionAlreadyExists u)) ∧
      (spawn_refused u s w w' ∨ spawn_collided request s w w')
  end.
Proof.
  intros Hst Hs u. unfold begin_spawn. fold u. rewrite run_store. pose proof (get_spec s u _ Hs) as Hg.
  destruct (get u (store w)) as [[o|e] s1].
  2:{ destruct Hg as [Hs1 Hf]. split; [by intros _ []|left; by split_and!]. }
  destruct Hg as [-> Hs1]. destruct (s !! u) as [l|] eqn:El.
  { split; [done|left; by split_and!]. }
  change (set_isolation (forking u _) _) with (spawn_row request).
  match goal with |- context [run (validate_spawn_target request ≫= ?f) ?w2] =>
    destruct (validate_spawn_target_run request f w2) as (o' & [[-> Halive]|[e ->]]) end.
  2:{ cbv beta iota zeta. split; [by intros [? ?]|left; by split_and!]. }
  rewrite run_store. change (store (set_os o' (set_store s1 w))) with s1.
  pose proof (insert_forking_spec s (spawn_row request) Hst _ Hs1) as Hi.
  destruct (insert_forking (spawn_row request) s1) as [[[]|e] s2].
  2:{ cbv beta iota zeta. split; [by intros [? ?]|left]. by destruct Hi; split_and!. }
  destruct Hi as (_ & _ & Hs2). rewrite spawn_row_stored, spawn_row_session in Hs2. fold u in Hs2.
  rewrite run_modify, run_bind_match, run_attempted. unfold attempt, begin_ready_wait.
  rewrite run_bind_match, run_atomic. cbv zeta.
  set (w1 := set_launches _ _). change (pending_ready w1) with (pending_ready w).
  change (channels w1) with (channels w).
  destruct (pending_ready w !! u) as [chan'|] eqn:Ep; cbn [fst snd].
  - cbn [run fail].
    match goal with |- context [run (cancel_spawn u ≫= ?f) ?w2] =>
      destruct (cancel_spawn_run u _ f w2 Hs2) as (s3 & c & -> & Hd) end.
    cbv beta iota zeta. split; [by intros [? ?]|right]. unfold spawn_collided. fold u.
    split; [rewrite Ep; by eexists|]. split; [done|].
    rewrite delete_insert_id in Hd by done. simpl. split_and!.
    + destruct Hd as [?|[_ ?]]; auto.
    + by rewrite delete_insert_eq.
    + by rewrite delete_insert_eq.
  - unfold spawn_begun. fold u. cbn. split_and!; try done.
    + apply not_elem_of_dom, is_fresh.
Qed.

(** The reports that end a session. *)
Inductive Report :=
| ShimExited (exit : ShimExit)
| ProcessExited (session_id : Uuid)
| WasLost (session_id : Uuid) (evidence : LostEvidence).

Definition report_task (r : Report) : Task (option RuntimeEvent) :=
  match r with
  | ShimExited exit => record_shim_exit exit
  | ProcessExited u => record_exited u (RuntimeExit.mk None None) TerminationEvidence.ProcessExit
  | WasLost u evidence => record_lost u evidence
  end.
Definition report_session (r : Report) : Uuid :=
  match r with ShimExited exit => exit.(ShimExit.session_id) | ProcessExited u | WasLost u _ => u end.
Definition report_state (r : Report) : LifecycleState :=
  match r with
  | ShimExited exit => LifecycleState.Exited exit.(ShimExit.exit)
  | ProcessExited _ => LifecycleState.Exited (RuntimeExit.mk None None)
  | WasLost _ evidence => LifecycleState.Lost evidence
  end.
Definition report_event (r : Report) (l : Lifecycle) : RuntimeEvent :=
  match r with
  | ShimExited _ => terminated_event l TerminationEvidence.ShimExit
  | ProcessExited _ => terminated_event l TerminationEvidence.ProcessExit
  | WasLost _ evidence => lost_event l evidence
  end.

Lemma report_run r s h (w : W) :
  state_fits (report_state r) → (∀ l, event_fits (report_event r (set_state l (report_state r)))) →
  event_room h →
  store_repr s w.(store) → logged h w →
  let '(a, w') := run (report_task r) w in
  terminal_report (report_state r) (report_event r) (report_session r) s h w w' a ∨
  (∃ e, a = Err e) ∧ (store_failed ∨ sink_failed).
Proof.
  assert (∀ e l, (mark_exited l e).1 = (if is_terminal_state (Lifecycle.state l) then (mark_exited l e).1
                    else set_state l (LifecycleState.Exited e)) ∧
                 (mark_exited l e).2 = negb (is_terminal_state (Lifecycle.state l))) as He.
  { intros e l. unfold mark_exited. destruct (Lifecycle.state l); simpl; repeat case_match; auto. }
  assert (∀ e l, (mark_lost l e).1 = (if is_terminal_state (Lifecycle.state l) then (mark_lost l e).1
                    else set_state l (LifecycleState.Lost e)) ∧
                 (mark_lost l e).2 = negb (is_terminal_state (Lifecycle.state l))) as Hl.
  { intros e l. unfold mark_lost. destruct (Lifecycle.state l); simpl; auto. }
  intros. destruct r as [exit|u|u evidence]; simpl in *;
    [apply (record_terminal_run _ _ (λ l, mark_exited l exit.(ShimExit.exit)) TerminationEvidence.ShimExit)
    |apply (record_terminal_run _ _ (λ l, mark_exited l (RuntimeExit.mk None None)) TerminationEvidence.ProcessExit)
    |apply (record_terminal_run _ _ (λ l, mark_lost l evidence) (TerminationEvidence.Lost evidence))]; auto.
Qed.

(** ** Sweeps *)

Section sweep.
(** What a probe finds, as a function of the record. *)
Variable lost : Lifecycle → option LostEvidence.
Variable liveness : RuntimeLiveness O.
Hypothesis probe : ∀ l o, ∃ o', liveness l o = (Ok (lost l), o').

(** The sessions after a sweep, and the events of one session. *)
Definition swept (l : Lifecycle) : Lifecycle :=
  if is_running l then
    match lost l with Some evidence => set_state l (LifecycleState.Lost evidence) | None => l end
  else l.
Definition sweep_events (terminated : gset Uuid) (ls : list Lifecycle) : list RuntimeEvent :=
  omap (λ l, if bool_decide (l.(Lifecycle.session_id) ∈ terminated) then None
             else RuntimeEvent.Lost l.(Lifecycle.session_id) <$> lost l) ls.

Fixpoint sweep_all (ls : list Lifecycle) (s : Sessions) : Sessions :=
  match ls with [] => s | l :: ls => sweep_all ls (<[l.(Lifecycle.session_id) := swept l]> s) end.

Lemma lost_event_swept l evidence :
  lost_event (set_state l (LifecycleState.Lost evidence)) evidence =
    RuntimeEvent.Lost l.(Lifecycle.session_id) evidence.
Proof. unfold lost_event. by rewrite set_state_session. Qed.

(** One session of the sweep. *)
Lemma reconcile_session_run l s h (w : W) :
  s !! l.(Lifecycle.session_id) = Some l → is_running l = true → lifecycle_wf l →
  (∀ u evidence, event_fits (RuntimeEvent.Lost u evidence)) → event_room h →
  store_repr s w.(store) → logged h w →
  let u := l.(Lifecycle.session_id) in
  let '(r, w') := run (reconcile_session liveness l) w in
  (option_list <$> r = Ok (sweep_events w.(terminated_events) [l]) ∧
   store_repr (<[u := swept l]> s) w'.(store) ∧
   logged (h ++ sweep_events w.(terminated_events) [l]) w' ∧ others_kept u w w' ∧
   (lost l = None → is_Some (w'.(exit_watchers) !! u))) ∨
  (∃ e, r = Err e) ∧ (store_failed ∨ sink_failed).
Proof using All.
  intros Hl Hrun Hwf Hfit Hroom Hs Hh u. unfold reconcile_session. rewrite run_os.
  destruct (probe l (os w)) as [o' ->]. unfold swept. rewrite Hrun.
  destruct (lost l) as [evidence|] eqn:El.
  - pose proof (report_run (WasLost u evidence) s h (set_os o' w) I) as Hr.
    cbn [report_task report_state report_event report_session] in Hr.
    assert (∀ l', event_fits (lost_event (set_state l' (LifecycleState.Lost evidence)) evidence)) as Hfit' by (intros; apply Hfit).
    specialize (Hr Hfit' Hroom Hs Hh). fold u.
    destruct (run (record_lost u evidence) (set_os o' w)) as [r w'].
    destruct Hr as [Hr|Hr]; [left|by right]. unfold terminal_report, terminate in Hr. fold u in Hl. rewrite Hl in Hr.
    assert (is_terminal_state (Lifecycle.state l) = false) as Ht.
    { unfold is_running in Hrun. apply bool_decide_eq_true in Hrun. by rewrite Hrun. }
    rewrite Ht in Hr. cbn [report_event report_state] in Hr. change (terminated_events (set_os o' w)) with (terminated_events w) in Hr.
    unfold sweep_events. simpl. fold u. rewrite El. rewrite lost_event_swept in Hr. fold u in Hr.
    destruct (bool_decide (u ∈ terminated_events w)); cbv beta iota in Hr; destruct Hr as (-> & ? & ? & Hk); simpl;
      (split_and!; [done|done| |exact Hk|done]); [by rewrite app_nil_r|done].
  - unfold lifecycle_wf in Hwf. unfold is_running in Hrun. apply bool_decide_eq_true in Hrun.
    rewrite Hrun in Hwf. cbv iota in Hwf. destruct Hwf as (_ & [pid Hpid] & _). rewrite Hpid, run_lift.
    cbn [ok_or]. unfold start_exit_watcher. rewrite run_modify. left. fold u. fold u in Hl.
    unfold sweep_events. simpl. fold u. rewrite El.
    assert ((if bool_decide (u ∈ terminated_events w) then None
             else RuntimeEvent.Lost u <$> (None : option LostEvidence)) = None) as ->
      by (by destruct (bool_decide _)).
    rewrite insert_id by done. simpl.
    destruct (exit_watchers w !! u) as [p|] eqn:Ew; simpl.
    + split_and!; [done|done|by rewrite app_nil_r| |].
      * split; [done|]. simpl. clear. set_solver.
      * intros _. rewrite Ew. by exists p.
    + split_and!; [done|done|by rewrite app_nil_r| |].
      * split; [intros v Hv; simpl; by rewrite lookup_insert_ne|]. simpl. clear. set_solver.
      * intros _. rewrite lookup_insert_eq. by exists pid.
Qed.
Lemma sweep_events_cons T l ls : sweep_events T (l :: ls) = sweep_events T [l] ++ sweep_events T ls.
Proof. unfold sweep_events. simpl. by case_match. Qed.

Lemma sweep_events_ext T T' ls :
  (∀ l, l ∈ ls → l.(Lifecycle.session_id) ∈ T ↔ l.(Lifecycle.session_id) ∈ T') →
  sweep_events T ls = sweep_events T' ls.
Proof.
  induction ls as [|l ls IH]; intros HT; [done|].
  rewrite (sweep_events_cons T), (sweep_events_cons T'). f_equal.
  - unfold sweep_events. simpl. by rewrite (bool_decide_ext _ _ (HT l (list_elem_of_here _ _))).
  - apply IH. intros l' Hl'. apply HT. by apply list_elem_of_further.
Qed.

Lemma reconcile_sessions_run ls s h (w : W) :
  NoDup (Lifecycle.session_id <$> ls) →
  (∀ l, l ∈ ls → s !! l.(Lifecycle.session_id) = Some l ∧ is_running l = true ∧ lifecycle_wf l) →
  (∀ u evidence, event_fits (RuntimeEvent.Lost u evidence)) →
  (∀ es, length es ≤ length ls → event_room (h ++ es)) →
  store_repr s w.(store) → logged h w →
  let '(r, w') := run (reconcile_sessions liveness ls) w in
  (r = Ok (sweep_events w.(terminated_events) ls) ∧ store_repr (sweep_all ls s) w'.(store) ∧
   logged (h ++ sweep_events w.(terminated_events) ls) w' ∧
   (∀ u, u ∉ Lifecycle.session_id <$> ls → w'.(exit_watchers) !! u = w.(exit_watchers) !! u) ∧
   (∀ l, l ∈ ls → lost l = None → is_Some (w'.(exit_watchers) !! l.(Lifecycle.session_id)))) ∨
  (∃ e, r = Err e) ∧ (store_failed ∨ sink_failed).
Proof using All.
  revert s h w. induction ls as [|l ls IH]; intros s h w Hnd Hls Hfit Hroom Hs Hh; cbn [reconcile_sessions].
  - left. rewrite app_nil_r. split_and!; auto. intros l Hl. by apply not_elem_of_nil in Hl.
  - rewrite fmap_cons in Hnd. apply NoDup_cons in Hnd as [Hni Hnd].
    destruct (Hls l (list_elem_of_here _ _)) as (Hl & Hrun & Hwf). rewrite run_bind_match.
    assert (event_room h) as Hroom0 by (rewrite <- (app_nil_r h); apply Hroom; simpl; lia).
    pose proof (reconcile_session_run l s h w Hl Hrun Hwf Hfit Hroom0 Hs Hh) as Hone. cbv zeta in Hone.
    destruct (run (reconcile_session liveness l) w) as [r w1].
    destruct Hone as [(Hr & Hs1 & Hh1 & (Hw1 & HT1 & HT1') & Hwatch)|[[e ->] Hf]];
      [|right; split; [by exists e|done]].
    destruct r as [o|e]; [|done]. injection Hr as Hr.
    assert (∀ l', l' ∈ ls → l'.(Lifecycle.session_id) ≠ l.(Lifecycle.session_id)) as Hne.
    { intros l' Hl' E. apply Hni. rewrite <- E. by apply list_elem_of_fmap_2. }
    rewrite run_bind_match.
    specialize (IH (<[Lifecycle.session_id l := swept l]> s) (h ++ sweep_events (terminated_events w) [l]) w1).
    assert (length (sweep_events (terminated_events w) [l]) ≤ 1) as Hlen
      by (unfold sweep_events; simpl; case_match; simpl; lia).
    assert (sweep_events (terminated_events w1) ls = sweep_events (terminated_events w) ls) as Eev.
    { apply sweep_events_ext. intros l' Hl'%Hne. clear -HT1 HT1' Hl'. set_solver. }
    rewrite Eev in IH.
    destruct (run (reconcile_sessions liveness ls) w1) as [r w'].
    destruct IH as [(-> & Hs' & Hh' & Hw' & Hwatch')|[[e ->] Hf]]; try done.
    + intros l' Hl'. rewrite lookup_insert_ne by (by apply not_eq_sym, Hne).
      apply Hls. by apply list_elem_of_further.
    + intros es Hes. rewrite <- app_assoc. apply Hroom. rewrite length_app. cbn [length]. lia.
    + left. rewrite sweep_events_cons. cbn [run mret Prog_ret]. rewrite Hr, (assoc_L (++)).
      split_and!; try done.
      * intros u Hu. rewrite fmap_cons in Hu. apply not_elem_of_cons in Hu as [Hu1 Hu2].
        rewrite Hw' by done. by apply Hw1.
      * intros l' [->|Hl']%elem_of_cons Hlost; [|by apply Hwatch'].
        rewrite Hw' by done. by apply Hwatch.
    + right. split; [by exists e|done].
Qed.

Lemma sweep_all_lookup ls s u :
  NoDup (Lifecycle.session_id <$> ls) →
  (∀ l, l ∈ ls → s !! l.(Lifecycle.session_id) = Some l) →
  sweep_all ls s !! u = if decide (u ∈ Lifecycle.session_id <$> ls) then swept <$> s !! u else s !! u.
Proof.
  revert s. induction ls as [|l ls IH]; intros s Hnd Hls; [done|].
  rewrite fmap_cons in *. apply NoDup_cons in Hnd as [Hni Hnd]. cbn [sweep_all]. rewrite IH; [|done|].
  - pose proof (Hls l (list_elem_of_here _ _)) as Hl. destruct (decide (u = l.(Lifecycle.session_id))) as [->|Hu].
    + rewrite decide_False by done. rewrite decide_True by (apply list_elem_of_here).
      rewrite lookup_insert_eq, Hl. done.
    + rewrite lookup_insert_ne by auto. destruct (decide (u ∈ _)) as [Hin|Hin];
        [rewrite decide_True by (by apply list_elem_of_further)
        |rewrite decide_False by (intros [?|?]%elem_of_cons; done)]; done.
  - intros l' Hl'. rewrite lookup_insert_ne; [apply Hls; by apply list_elem_of_further|].
    intros E. apply Hni. rewrite E. by apply list_elem_of_fmap_2.
Qed.

End sweep.
End coordinators.

(** C4. Spawns are all or nothing. [begin_spawn] succeeds only for a session the store does
    not know, that no spawn is waiting for and whose pane, if it has one, is alive; it then
    leaves a forking row, the launch for the shim to fetch and one fresh waiting channel,
    and touches no other entry. When it fails nothing of the spawn is left: the sessions and
    the tables are as before, or, if another spawn of the same session was still waiting,
    that one's entries are gone too; only a database that fails on the clean-up can leave
    the row. A session that exists is refused as such. *)
Theorem begin_spawn_all_or_nothing {S L O : Type}
    `{!LifecycleStore S, !StoreSpec S, !EventSink L, !EventSpec L, !Os O, !External}
    request launch s (w : Server S L O) :
  storable (spawn_row request) → store_repr s w.(store) →
  let u := request.(SpawnRequest.session_id) in
  let '(r, w') := run (begin_spawn request launch) w in
  match r with
  | Ok chan => spawn_begun request launch s chan w w'
  | Err e =>
      (is_Some (s !! u) → ¬ store_failed → e = of_failure (RuntimeFailure.SessionAlreadyExists u)) ∧
      (spawn_refused u s w w' ∨ spawn_collided request s w w')
  end.
Proof. apply begin_spawn_run. Qed.

(** What a check before a spawn may answer, given the outcome of the isolation preflight. *)
Definition admission {S : Type} `{!LifecycleStore S, !StoreSpec S} (preflight : result Error SpawnRequest)
    (request : SpawnRequest) (s : Sessions)
    (answer : result Error (SpawnRequest * option RuntimeResponse)) : Prop :=
  let u := request.(SpawnRequest.session_id) in
  let occupied a l :=
    tmux_address request.(SpawnRequest.target) = Some a ∧
    s !! l.(Lifecycle.session_id) = Some l ∧ occupies a l in
  match answer with
  | Ok (request', Some response) =>
      preflight = Ok request' ∧
      ((∃ l, response = RuntimeResponse.SpawnConflict SpawnConflictKind.SessionId l ∧ s !! u = Some l) ∨
       (∃ a l, response = RuntimeResponse.SpawnConflict SpawnConflictKind.TmuxPaneOccupancy l ∧
               s !! u = None ∧ request.(SpawnRequest.force) = false ∧ occupied a l))
  | Ok (request', None) =>
      preflight = Ok request' ∧ s !! u = None ∧
      (request.(SpawnRequest.force) = true ∨ ∀ a l, ¬ occupied a l)
  | Err e =>
      preflight = Err e ∨ store_failed ∨
      s !! u = None ∧ request.(SpawnRequest.force) = true ∧ ∃ a l, occupied a l
  end.

(** C14. Spawn conflicts. The check before a spawn answers with a conflict exactly when the
    session is already known (whatever its state), or else when the request does not force
    and a running session occupies the tmux pane it asks for; the conflict carries that
    session's record. When the request passes, it is as the isolation preflight left it, the
    session is unknown, and either no running session occupies its pane or it asked to take
    the pane over. The check fails only with the preflight's error, because the database
    failed, or because the occupant of a pane to take over could not be killed. *)
Theorem spawn_admission {S L O : Type}
    `{!LifecycleStore S, !StoreSpec S, !EventSink L, !EventSpec L, !Os O, !External, !Json}
    config arch request s (w : Server S L O) :
  pane_fits (tmux_address request.(SpawnRequest.target)) → store_repr s w.(store) →
  admission (check_isolation_policy config.(DaemonConfig.docker_preflight) arch request w.(os)).1
    request s (run (check config arch request) w).1.
Proof.
  intros Hpane Hs. unfold check. rewrite run_os.
  destruct (check_isolation_policy _ _ _ _) as [[request'|e] o'] eqn:Ec; [|by left].
  apply check_isolation_request in Ec as (Eu & Et & Ef & _). rewrite <- Et in Hpane.
  unfold admission. rewrite <- Eu, <- Ef, <- Et. cbn [fst].
  rewrite run_store.
  pose proof (get_spec s (SpawnRequest.session_id request') _ Hs) as Hg.
  change (store (set_os o' w)) with (store w).
  destruct (get (SpawnRequest.session_id request') (store w)) as [[o|e] s1]; [|by right; left; apply Hg].
  destruct Hg as [-> Hs1].
  destruct (s !! SpawnRequest.session_id request') as [l|] eqn:El; [split; [done|]; left; by exists l|].
  destruct (tmux_address (SpawnRequest.target request')) as [a|] eqn:Ea.
  2: { split; [done|]. split; [done|]. right. intros a l [? _]. discriminate. }
  rewrite run_store. pose proof (running_tmux_occupant_spec s a Hpane _ Hs1) as Ho.
  change (store (set_store s1 _)) with s1.
  destruct (running_tmux_occupant a s1) as [[[l|]|e] s2]; [| |right; left; by apply Ho]; destruct Ho as [Hs2 Ho].
  - destruct (SpawnRequest.force request') eqn:Eforce; cbn [negb].
    + rewrite run_bind_match. destruct (run (kill_runtime _) _) as [[] ?].
      * split; [done|]. split; [done|by left].
      * right; right. split; [done|]. split; [done|]. by exists a, l.
    + split; [done|]. right. destruct Ho as [Hl Hoc]. by exists a, l.
  - split; [done|]. split; [done|]. right. intros a' l ([= <-] & Hl & Hoc). by eapply Ho.
Qed.

(** C5. Exit and loss reports. A report about a session (the shim's exit message, the process
    watcher's, or a probe's evidence) refines its specification: an unknown session is
    refused with [SessionNotFound] and changes nothing; a session that is already terminal
    is left as it is, with no event; any other gets the reported terminal state, and the
    event is appended, unless a terminal event of the session was already issued. Nothing
    else in the store, no other watcher and no other entry changes. Otherwise the report
    ends with an error and some call to the database or to the log's file failed. *)
Theorem terminal_report_refines {S L O : Type}
    `{!LifecycleStore S, !StoreSpec S, !EventSink L, !EventSpec L, !Os O, !External}
    (report : Report) s h (w : Server S L O) :
  state_fits (report_state report) →
  (∀ l, event_fits (report_event report (set_state l (report_state report)))) → event_room h →
  store_repr s w.(store) → event_all h w.(log) →
  let '(answer, w') := run (report_task report) w in
  terminal_report (report_state report) (report_event report) (report_session report) s h w w' answer ∨
  (∃ e, answer = Err e) ∧ (store_failed ∨ sink_failed).
Proof. apply report_run. Qed.

(** C10. Sweeps. A sweep whose probes answer marks as lost exactly the running sessions with
    evidence against them, with that evidence, and no other session changes; the events
    appended and returned are one [Lost] for each of those, in the order of the store's
    list, less those whose terminal event was already issued; and every session that is
    still running afterwards has an exit watcher. Otherwise the sweep ends with an error and
    some call to the database or to the log's file failed. *)
Theorem sweep_exact {S L O : Type}
    `{!LifecycleStore S, !StoreSpec S, !EventSink L, !EventSpec L, !Os O, !External}
    (lost : Lifecycle → option LostEvidence) (liveness : RuntimeLiveness O) (utc_now : M O Error DateTime)
    s h (w : Server S L O) :
  (∀ l o, ∃ o', liveness l o = (Ok (lost l), o')) → (∀ o, ∃ t o', utc_now o = (Ok t, o')) →
  (∀ u l, s !! u = Some l → lifecycle_wf l) →
  (∀ u evidence, event_fits (RuntimeEvent.Lost u evidence)) →
  (∀ es, length es ≤ size s → event_room (h ++ es)) →
  store_repr s w.(store) → event_all h w.(log) →
  let '(answer, w') := run (reconcile_once utc_now liveness) w in
  (∃ ls, NoDup ls ∧
     (∀ l, l ∈ ls ↔ s !! l.(Lifecycle.session_id) = Some l ∧ is_running l = true) ∧
     answer = Ok (sweep_events lost w.(terminated_events) ls) ∧
     event_all (h ++ sweep_events lost w.(terminated_events) ls) w'.(log)) ∧
  store_repr (swept lost <$> s) w'.(store) ∧
  (∀ u l, (swept lost <$> s) !! u = Some l → is_running l = true → is_Some (w'.(exit_watchers) !! u)) ∨
  (∃ e, answer = Err e) ∧ (store_failed ∨ sink_failed).
Proof.
  intros Hprobe Hnow Hwf Hfit Hroom Hs Hh. unfold reconcile_once. rewrite run_store.
  pose proof (running_spec s _ Hs) as Hls.
  destruct (running (store w)) as [[ls|e] s1]; [|right; split; [by exists e|by left; apply Hls]].
  destruct Hls as (Hs1 & Hnd & Hls).
  assert (NoDup (Lifecycle.session_id <$> ls)) as Hnd'.
  { apply NoDup_fmap_2_strong; [|done]. intros l1 l2 [H1 _]%Hls [H2 _]%Hls E.
    rewrite E in H1. congruence. }
  assert (length ls ≤ size s) as Hlen.
  { rewrite <- (length_fmap Lifecycle.session_id), <- (size_list_to_set (C := gset Uuid)) by done.
    rewrite <- size_dom. apply subseteq_size. intros u. rewrite elem_of_list_to_set.
    intros (l & -> & [Hl _]%Hls)%list_elem_of_fmap. by apply elem_of_dom. }
  rewrite run_bind_match.
  pose proof (reconcile_sessions_run lost liveness Hprobe ls s h (set_store s1 w) Hnd') as Hrun.
  destruct (run (reconcile_sessions liveness ls) (set_store s1 w)) as [r w1].
  destruct Hrun as [(-> & Hs2 & Hh2 & _ & Hwatch)|[[e ->] Hf]]; auto.
  { intros l [Hl Hr]%Hls. split_and!; eauto. }
  { intros es Hes. apply Hroom. lia. }
  2:{ right. split; [by exists e|done]. }
  rewrite run_os. destruct (Hnow (os w1)) as (t & o' & ->). rewrite run_store.
  pose proof (record_probe_sweep_spec _ t _ Hs2) as Hsweep. change (store (set_os o' w1)) with (store w1).
  assert (sweep_all lost ls s = swept lost <$> s) as Eall.
  { apply map_eq. intros u. rewrite sweep_all_lookup by (auto; intros l [? _]%Hls; done).
    rewrite lookup_fmap. case_decide as Hu; [done|]. destruct (s !! u) as [l|] eqn:El; [|done]. simpl.
    f_equal. unfold swept. destruct (is_running l) eqn:Er; [|done]. exfalso. apply Hu.
    destruct (store_repr_ok _ _ Hs _ _ El) as (Hlu & _). rewrite <- Hlu. apply list_elem_of_fmap_2, Hls.
    by rewrite Hlu. }
  destruct (record_probe_sweep t (store w1)) as [[[]|e] s3];
    [left|right; split; [by exists e|by left; apply Hsweep]].
  split; [by exists ls|]. split; [by rewrite <- Eall|].
  intros u l Hu Hr. rewrite lookup_fmap in Hu. apply fmap_Some in Hu as (l0 & Hl0 & ->).
  destruct (store_repr_ok _ _ Hs _ _ Hl0) as (Hlu & _). unfold swept in Hr.
  destruct (is_running l0) eqn:Er0; [|congruence].
  destruct (lost l0) eqn:El0.
  { unfold is_running in Hr. rewrite set_state_state in Hr. by apply bool_decide_eq_true in Hr. }
  rewrite <- Hlu. apply Hwatch; [|done]. apply Hls. by rewrite Hlu.
Qed.

(** A probe that fails ends the sweep: the sessions that the store lists after it are not
    looked at, and the sweep is not recorded. The daemon's start-up sweep is the same task. *)
Theorem sweep_stops_at_probe_error {S L O : Type}
    `{!LifecycleStore S, !EventSink L, !Os O, !External}
    (liveness : RuntimeLiveness O) (utc_now : M O Error DateTime) l ls e s1 o' (w : Server S L O) :
  running w.(store) = (Ok (l :: ls), s1) → liveness l w.(os) = (Err e, o') →
  run (reconcile_once utc_now liveness) w = (Err e, set_os o' (set_store s1 w)).
Proof.
  intros Hr Hl. unfold reconcile_once. rewrite run_store, Hr, run_bind_match. cbn [reconcile_sessions].
  rewrite run_bind_match. unfold reconcile_session. rewrite run_os.
  change (os (set_store s1 w)) with (os w). by rewrite Hl.
Qed.

(** ** Concrete runs *)

Section concrete.
#[local] Existing Instance decimal_external.
#[local] Existing Instance code_json.
#[local] Existing Instance idle_os.
#[local] Existing Instances demo_store demo_sink.
#[local] Instance demo_store_spec : StoreSpec Db := sqlite_spec quiet_db.
#[local] Instance demo_sink_spec : EventSpec Log := log_sink_spec steady_io "/d/events.jsonl".

Definition sampled_server : Server Db Log N := new_server sample_db (new_log 0) 0%N (mkRegistry None None 0).

Lemma demo_serves : event_all [] sampled_server.(log).
Proof. exists 0. apply serves_new. Qed.
Lemma demo_never_fails : ¬ (store_failed ∨ sink_failed).
Proof. intros [[n Hn]|Hf]; [discriminate|]. destruct Hf as (n & [[k Hk]|Hn]); [discriminate|by vm_compute in Hn]. Qed.
Lemma demo_room es : length es ≤ 1 → event_room es.
Proof. unfold event_room. simpl. unfold u64_max. lia. Qed.
Lemma demo_wall : wall_ok steady_io.
Proof. intros n. done. Qed.

Lemma begin_spawn_all_or_nothing_witness :
  storable (spawn_row demo_spawn) ∧
  let '(r, w') := run (begin_spawn demo_spawn (LaunchSpec.mk ["claude"] [] "/w" None)) demo_server in
  r = Ok 0 ∧ spawn_begun demo_spawn (LaunchSpec.mk ["claude"] [] "/w" None) ∅ 0 demo_server w'.
Proof.
  assert (storable (spawn_row demo_spawn)) as Hst by (repeat split; discriminate || exact I).
  split; [exact Hst|].
  pose proof (begin_spawn_all_or_nothing demo_spawn (LaunchSpec.mk ["claude"] [] "/w" None) ∅ demo_server
                Hst empty_db_repr) as H. cbv zeta in H.
  assert ((run (begin_spawn demo_spawn (LaunchSpec.mk ["claude"] [] "/w" None)) demo_server).1 = Ok 0) as E
    by (vm_compute; reflexivity).
  destruct (run _ _) as [r w']. simpl in E. subst r. split; [done|exact H].
Defined.

(** Another session for the pane of a running one. *)
Lemma spawn_admission_witness :
  let request := SpawnRequest.mk (mkUuid 8) RuntimeKind.Claude IsolationPolicy.Host None [] [] "/w"
                   (SpawnTarget.Tmux (TmuxAddress.mk "work" 1 2)) false None in
  ∃ l, (run (check demo_config "x86_64" request) sampled_server).1 =
         Ok (request, Some (RuntimeResponse.SpawnConflict SpawnConflictKind.TmuxPaneOccupancy l)) ∧
       sample_sessions !! l.(Lifecycle.session_id) = Some l.
Proof.
  intros request.
  assert (pane_fits (tmux_address (SpawnRequest.target request))) as Hp.
  { unfold pane_fits, tmux_address_ok; simpl. repeat split; try done; vm_compute; done || discriminate. }
  pose proof (spawn_admission demo_config "x86_64" request sample_sessions sampled_server Hp sample_db_repr) as H.
  assert (∃ l, (run (check demo_config "x86_64" request) sampled_server).1 =
     Ok (request, Some (RuntimeResponse.SpawnConflict SpawnConflictKind.TmuxPaneOccupancy l))) as [l E]
    by (eexists; vm_compute; reflexivity).
  exists l. split; [exact E|]. rewrite E in H. cbv beta iota delta [admission] in H. clear E.
  destruct H as [_ [(l' & H & _)|(a & l' & Hl & _ & _ & _ & H & _)]]; [discriminate|].
  injection Hl as ->. exact H.
Defined.

Lemma terminal_report_refines_witness :
  let r := ShimExited (ShimExit.mk (mkUuid 7) (RuntimeExit.mk (Some 3%Z) None)) in
  let '(answer, w') := run (report_task r) sampled_server in
  answer = Ok (Some (RuntimeEvent.Terminated (mkUuid 7) (Some 3%Z) None TerminationEvidence.ShimExit)) ∧
  db_repr (<[mkUuid 7 := set_state (stored (sample_lifecycle LifecycleState.Running))
                           (LifecycleState.Exited (RuntimeExit.mk (Some 3%Z) None))]> sample_sessions)
    w'.(store).
Proof.
  intros r.
  assert (state_fits (report_state r)) as Hfit by (split; [by vm_compute|exact I]).
  assert (∀ l, event_fits (report_event r (set_state l (report_state r)))) as Hev.
  { intros l. split; [|exact demo_wall]. destruct l. split; [by vm_compute|exact I]. }
  pose proof (terminal_report_refines r sample_sessions [] sampled_server Hfit Hev
                (demo_room [] (Nat.le_0_l 1)) sample_db_repr demo_serves) as H.
  destruct (run (report_task r) sampled_server) as [answer w'].
  destruct H as [H|[_ Hf]]; [|by apply demo_never_fails in Hf]. destruct H as (-> & H & _).
  split; [done|exact H].
Defined.

Lemma sweep_exact_witness :
  let lost := λ _ : Lifecycle, Some LostEvidence.PidNotAlive in
  let '(answer, w') := run (reconcile_once (mret 0%Z) (λ l, mret (lost l))) sampled_server in
  is_ok answer = true ∧ db_repr (swept lost <$> sample_sessions) w'.(store).
Proof.
  intros lost.
  assert (∀ (l : Lifecycle) (o : N), ∃ o', (mret (lost l) : M N Error _) o = (Ok (lost l), o')) as H1
    by (intros l o; by exists o).
  assert (∀ o : N, ∃ t o', (mret 0%Z : M N Error DateTime) o = (Ok t, o')) as H2
    by (intros o; by exists 0%Z, o).
  assert (∀ u l, sample_sessions !! u = Some l → lifecycle_wf l) as H3.
  { intros u l Hl. unfold sample_sessions in Hl. apply lookup_insert_Some in Hl as [[_ <-]|[_ Hl]];
      [|by rewrite lookup_empty in Hl]. vm_compute. split; [by eexists|]. split; by eexists. }
  assert (∀ u evidence, event_fits (RuntimeEvent.Lost u evidence)) as H4
    by (intros u e; split; [exact I|exact demo_wall]).
  assert (∀ es, length es ≤ size sample_sessions → event_room ([] ++ es)) as H5.
  { intros es Hes. apply demo_room. exact Hes. }
  pose proof (sweep_exact lost (λ l, mret (lost l)) (mret 0%Z) sample_sessions [] sampled_server
                H1 H2 H3 H4 H5 sample_db_repr demo_serves) as H.
  destruct (run _ _) as [answer w'].
  destruct H as [((ls & _ & _ & -> & _) & H & _)|[_ Hf]]; [split; [done|exact H]|].
  by apply demo_never_fails in Hf.
Defined.
End concrete.
