(* ===== verification/EndToEnd.v ===== *)
(** * Clients and the daemon together

    Client.v against the tasks of Handler.v: a connection carries the bytes of a request to
    a task of the daemon and the bytes of its response back. The daemon's other tasks run
    between the actions of that task, and between the calls of a client. *)

From S2P Require Import Prelude RustStr RustPath Types Parsers Json Serde Launch Errors Lifecycles.
From S2P Require Import Interfaces EventLog LogSink Store Prog Platform Paths Docker Server Proto.
From S2P Require Import Wire Client Doctor Kill Mcp Reconcile Handler Races ServerSpec.
From stdpp Require Import options.

Section daemon.
Context {S L O : Type}
  `{!LifecycleStore S, !StoreDiagnostics S, !EventSink L, !Os O, !External, !Json, !Build}.
Variable config : DaemonConfig.
Variable which : nat → string → WhichOutput.
Variable path_var : option string.
Variable arch : string.
Variable event_waiter_count : L → nat.
Variable path_env : RuntimePathEnv.
Variable utc_now : M O Error DateTime.
Variable started_instant : N.

Notation W := (Server S L O).
Notation connection := (connection config which path_var arch event_waiter_count path_env utc_now
  started_instant).
Notation handle_rpc := (handle_rpc config which path_var arch event_waiter_count path_env utc_now
  started_instant).

(** The request in the bytes that a client sent, and the bytes of a response. *)
Definition received (sent : string) : result ProtocolError RuntimeRpc :=
  (read_json_line (dec RuntimeRpc_codec) sent).1.
Definition reply_bytes (response : RuntimeResponse) : string :=
  json_line_bytes (enc RuntimeResponse_codec) response.

(** A connection to a daemon that does nothing else meanwhile. *)
Definition connects : string → M W IoError unit := λ _, mret tt.
Definition serves_alone (notified_first : bool) (sent : string) : M W IoError string := λ w,
  let '(r, w') := run (connection (received sent) notified_first steady) w in
  (Ok (match r with Ok (Some (response, _)) => reply_bytes response | _ => EmptyString end), w').

(** What a client makes of a response. *)
Definition client_view (response : RuntimeResponse) : result ClientError RuntimeResponse :=
  match response with
  | RuntimeResponse.Error payload =>
      Err (ClientError.ErrorResponse payload.(ErrorPayload.code) payload.(ErrorPayload.message))
  | response => Ok response
  end.

Lemma received_request rpc :
  fits RuntimeRpc_codec rpc → received (json_line_bytes (enc RuntimeRpc_codec) rpc) = Ok rpc.
Proof.
  intros Hf. unfold received.
  pose proof (codec_line RuntimeRpc_codec rpc "" _ Hf) as E. rewrite str_app_nil_r in E. by rewrite E.
Qed.

Lemma request_on_stream_reply exchange rpc response (w w' : W) :
  exchange (json_line_bytes (enc RuntimeRpc_codec) rpc) w = (Ok (reply_bytes response), w') →
  fits RuntimeResponse_codec response →
  request_on_stream exchange rpc w = (client_view response, w').
Proof.
  intros Ex Hf. unfold request_on_stream, mbind at 1, M_bind at 1, map_error. rewrite Ex. cbn [map_err].
  unfold reply_bytes. unfold mbind, M_bind, lift.
  pose proof (codec_line RuntimeResponse_codec response "" _ Hf) as E. rewrite str_app_nil_r in E.
  rewrite E. cbn [fst map_err]. by destruct response.
Qed.

Lemma steady_connection nf rpc :
  handle_rpc_or_disconnect config which path_var arch event_waiter_count path_env utc_now started_instant nf
    steady rpc = Some <$> handle_rpc nf rpc.
Proof. destruct rpc; try done. cbn [handle_rpc_or_disconnect]. by destruct (_ <? _)%N. Qed.

Lemma connection_run rpc nf (w : W) :
  run (connection (Ok rpc) nf steady) w =
    let '(r, w') := run (handle_rpc nf rpc) w in
    ((λ response, Some (response, match response with RuntimeResponse.Stopping => true | _ => false end)) <$> r, w').
Proof.
  unfold connection, handle_connection. rewrite run_bind_match, steady_connection, run_fmap.
  by destruct (run _ _) as [[]].
Qed.

Lemma handle_rpc_run nf rpc (w : W) :
  run (handle_rpc nf rpc) w =
    let '(r, w') := run (handle_rpc_result config which path_var arch event_waiter_count path_env
                           utc_now started_instant nf rpc) w in
    (Ok (match r with
         | Ok response => response
         | Err e => RuntimeResponse.Error (rpc_error_response (error_context rpc) e)
         end), w').
Proof.
  unfold handle_rpc. rewrite run_bind_match, run_attempted. unfold attempt.
  by destruct (run (handle_rpc_result _ _ _ _ _ _ _ _ _ _) w) as [[]].
Qed.

(** What a call of the client is to be: the task of the daemon, with its errors as they are
    told to clients. *)
Definition remote {A} (context : RpcErrorContext) (r : result Error A) : result ClientError A :=
  map_err (λ e, ClientError.ErrorResponse (rpc_error_code context e) (display_Error e)) r.

Lemma client_request_run nf path rpc response (w w' : W) :
  fits RuntimeRpc_codec rpc → run (handle_rpc nf rpc) w = (Ok response, w') →
  fits RuntimeResponse_codec response →
  client_request connects (serves_alone nf) path rpc w = (client_view response, w').
Proof.
  intros Hf Hr Hfit. unfold client_request, mbind at 1, M_bind at 1, map_error, connects.
  cbv [mret M_ret map_err].
  eapply request_on_stream_reply; [|exact Hfit]. unfold serves_alone.
  by rewrite received_request, connection_run, Hr.
Qed.

Lemma typed_run {A B} nf path rpc (task : Prog W Error A) (wrap : A → RuntimeResponse)
    (read : RuntimeResponse → result ClientError B) (view : A → B) (w : W) :
  fits RuntimeRpc_codec rpc →
  handle_rpc_result config which path_var arch event_waiter_count path_env utc_now started_instant nf rpc =
    wrap <$> task →
  (∀ a, fits RuntimeResponse_codec (wrap a) ∧ client_view (wrap a) = Ok (wrap a) ∧
        read (wrap a) = Ok (view a)) →
  typed connects (serves_alone nf) path rpc read w =
    (remote (error_context rpc) (view <$> (run task w).1), (run task w).2).
Proof.
  intros Hf Htask Hwrap. unfold typed. pose proof (handle_rpc_run nf rpc w) as Hr.
  rewrite Htask, run_fmap in Hr. destruct (run task w) as [[a|e] w']; cbn [fst snd] in *;
    unfold mbind, M_bind.
  - destruct (Hwrap a) as (Hfit & Hview & Hread). change (Ok <$> _) with (Ok (E := Error) (wrap a)) in Hr.
    cbn in Hr. rewrite (client_request_run _ _ _ _ _ _ Hf Hr Hfit), Hview. unfold lift. by rewrite Hread.
  - cbn in Hr. by rewrite (client_request_run _ _ _ _ _ _ Hf Hr I).
Qed.

Lemma client_kill_run nf path request (w : W) :
  fits KillRequest_codec request →
  client_kill connects (serves_alone nf) path request w =
    let '(r, w') := run (kill_runtime request) w in (remote RpcErrorContext.Other r, w').
Proof.
  intros Hf. unfold client_kill.
  erewrite (typed_run _ _ _ (kill_runtime request) RuntimeResponse.Killed as_killed id);
    [|by split|done|by intros a].
  unfold fmap. by destruct (run (kill_runtime request) w) as [[] ].
Qed.
End daemon.

(** C9. Remote calls. A call of the client library over a connection to the daemon is the
    daemon's task itself, with its effect on the daemon: the value of the task, or its error
    as the code and the message that clients are told. For any request and response whose
    numbers and texts fit the wire the client sees the response that the daemon computed. *)
Theorem client_calls_transparent {S L O : Type}
    `{!LifecycleStore S, !StoreDiagnostics S, !EventSink L, !Os O, !External, !Json, !Build}
    config which path_var arch event_waiter_count path_env utc_now started_instant notified_first path
    (w : Server S L O) :
  let daemon := serves_alone config which path_var arch event_waiter_count path_env utc_now started_instant
                  notified_first in
  (∀ rpc response w', fits RuntimeRpc_codec rpc →
     run (handle_rpc config which path_var arch event_waiter_count path_env utc_now started_instant
            notified_first rpc) w = (Ok response, w') →
     fits RuntimeResponse_codec response →
     client_request connects daemon path rpc w = (client_view response, w')) ∧
  (∀ request, fits KillRequest_codec request →
     client_kill connects daemon path request w =
       let '(r, w') := run (kill_runtime request) w in (remote RpcErrorContext.Other r, w')) ∧
  (∀ request, client_nudge connects daemon path request w =
       let '(r, w') := run (nudge_runtime request) w in (remote RpcErrorContext.Other r, w')).
Proof.
  intros daemon. subst daemon. split_and!.
  - intros rpc response w' Hf Hr Hfit. by eapply client_request_run.
  - intros request Hf. by apply client_kill_run.
  - intros request. unfold client_nudge.
    erewrite (typed_run _ _ _ _ _ _ _ _ _ _ _ (nudge_runtime request) RuntimeResponse.Nudge as_nudge id);
      [|repeat split; apply uuid_parse_to_string|done|by intros a].
    by destruct (run (nudge_runtime request) w) as [[] ].
Qed.

(** ** What a received message may write *)

Section received.
Context `{External, Json}.

Lemma received_fits sent rpc : received sent = Ok rpc → fits RuntimeRpc_codec rpc.
Proof.
  unfold received, read_json_line, parse_json_line, from_str. destruct (read_until_newline sent) as [line rest].
  destruct (String.eqb line ""); [done|]. destruct (negb (utf8_valid line)); [done|].
  cbn [fst]. intros E. apply map_err_Ok, bind_Ok in E as (v & _ & E). by eapply dec_fits.
Qed.

Lemma TmuxAddress_codec_fits a : fits TmuxAddress_codec a → tmux_address_ok a.
Proof. cbn [fits TmuxAddress_codec text_codec]. intros E. inv_result. by eapply TmuxAddress_from_str_ok. Qed.

Lemma SpawnTarget_codec_fits t : fits SpawnTarget_codec t → pane_fits (tmux_address t).
Proof. destruct t; [|done]. intros [Hf _]. by apply TmuxAddress_codec_fits. Qed.

Lemma pane_codec_fits o : option_fits (fits TmuxAddress_codec) o → pane_fits o.
Proof. destruct o as [a|]; [apply TmuxAddress_codec_fits|done]. Qed.

Lemma mark_running_storable l ready :
  storable l → fits ShimReady_codec ready → storable (mark_running l ready).1.
Proof.
  intros Hl (_ & Hs & Hr & _ & Hp & _). unfold mark_running. case_decide; [|done].
  destruct l. unfold storable in *. simpl in *. destruct Hl as (? & ? & _). split_and!; try done.
  by apply pane_codec_fits.
Qed.

Lemma set_tmux_pane_storable l pane : storable l → pane_fits pane → storable (set_tmux_pane l pane).
Proof. destruct l. unfold storable. simpl. naive_solver. Qed.

Lemma mark_exited_storable l exit :
  storable l → fits RuntimeExit_codec exit → storable (mark_exited l exit).1.
Proof.
  intros Hl (Hc & Hs & _).
  assert (state_fits (LifecycleState.Exited exit)) as Hf
    by (split; [by destruct (RuntimeExit.code exit)|by destruct (RuntimeExit.signal exit)]).
  unfold mark_exited. pose proof (storable_set_state l _ Hl Hf).
  destruct (Lifecycle.state l); try case_decide; done.
Qed.
End received.

(** C21. Typed messages. Whatever bytes a client sends, what the daemon reads from them has
    values that its store can hold: the row of a spawn that passed the isolation preflight,
    the record that a shim's [ShimReady] makes running in the pane of the request, and the
    state of a shim's [ShimExit] are all storable, which is what the store's specification
    and the coordinators' theorems ask for. *)
Theorem received_messages_storable {O} `{!Os O, !External, !Json} sent :
  match received sent with
  | Ok (RuntimeRpc.Spawn request) =>
      pane_fits (tmux_address request.(SpawnRequest.target)) ∧
      ∀ config arch (o : O) request' o',
        check_isolation_policy config arch request o = (Ok request', o') →
        storable (spawn_row request') ∧
        ∀ l ready, storable l → fits ShimReady_codec ready →
          storable (set_tmux_pane (mark_running l ready).1 (tmux_address request'.(SpawnRequest.target)))
  | Ok (RuntimeRpc.ShimReady ready) => ∀ l, storable l → storable (mark_running l ready).1
  | Ok (RuntimeRpc.ShimExit exit) =>
      ∀ l, storable l → storable (mark_exited l exit.(ShimExit.exit)).1
  | _ => True
  end.
Proof.
  destruct (received sent) as [rpc|e] eqn:E; [|done]. apply received_fits in E. destruct rpc; try exact I;
    destruct E as [E _].
  - destruct E as (_ & Hrun & _ & _ & _ & _ & _ & Ht & _). apply SpawnTarget_codec_fits in Ht. split; [done|].
    intros config arch o request' o' Hc. pose proof (check_isolation_accepted _ _ _ _ _ _ Hc) as Hi.
    apply check_isolation_request in Hc as (_ & Et & _ & Er & Ei). rewrite Et. split.
    + unfold storable, spawn_row. rewrite Er, Ei.
      cbn [fits RuntimeKind_codec text_codec field_fits req field] in Hrun. apply map_err_Ok in Hrun.
      by split_and!.
    + intros l ready Hl Hr. apply set_tmux_pane_storable; [by apply mark_running_storable|done].
  - intros l Hl. by apply mark_running_storable.
  - intros l Hl. destruct E as (_ & Hf & _). by apply mark_exited_storable.
Qed.

(** ** Watching events *)

(** The batches partition the history from a position on: each is the stretch that follows
    the one before, or tells where the next one starts. *)
Fixpoint partitions (h : list RuntimeEvent) (c : nat) (bs : list EventBatch) (c' : nat) : Prop :=
  match bs with
  | [] => c' = c
  | EventBatch.Events es cursor :: bs =>
      ∃ n, cursor = N.of_nat (c + n) ∧ es = take n (drop c h) ∧ c + n ≤ length h ∧
           partitions h (c + n) bs c'
  | EventBatch.CursorExpired oldest :: bs =>
      ∃ n, oldest = N.of_nat n ∧ c < n ≤ length h ∧ partitions h n bs c'
  end.

Lemma partitions_app h h' c bs c' : partitions h c bs c' → partitions (h ++ h') c bs c'.
Proof.
  revert c. induction bs as [|[es cursor|oldest] bs IH]; intros c; [done|..]; cbn [partitions].
  - intros (n & -> & -> & Hn & Hp). exists n. split; [done|]. rewrite length_app. split; [|split; [lia|by apply IH]].
    rewrite (drop_app_le h h') by lia. by rewrite (take_app_le (drop c h) h') by (rewrite length_drop; lia).
  - intros (n & -> & Hn & Hp). exists n. rewrite length_app. split; [done|]. split; [lia|by apply IH].
Qed.

Lemma partitions_cons h c b bs c1 c2 :
  partitions h c [b] c1 → partitions h c1 bs c2 → partitions h c (b :: bs) c2.
Proof. destruct b; cbn [partitions]; naive_solver. Qed.

Lemma partitions_end h c b bs c' :
  partitions h c (b :: bs) c' → c' ≤ length h.
Proof.
  revert c b. induction bs as [|b' bs IH]; intros c b.
  - destruct b; cbn [partitions]; [intros (n & _ & _ & ? & ->); lia|intros (n & _ & ? & ->); lia].
  - destruct b; [intros (n & _ & _ & _ & ?)|intros (n & _ & _ & ?)]; by eapply IH.
Qed.

(** The events of the batches. *)
Definition batch_events (b : EventBatch) : list RuntimeEvent :=
  match b with EventBatch.Events es _ => es | EventBatch.CursorExpired _ => [] end.
Definition is_expired (b : EventBatch) : bool :=
  match b with EventBatch.CursorExpired _ => true | _ => false end.

Lemma partitions_concat h c bs c' :
  partitions h c bs c' → existsb is_expired bs = false →
  c ≤ c' ∧ concat (map batch_events bs) = take (c' - c) (drop c h).
Proof.
  revert c. induction bs as [|[es cursor|oldest] bs IH]; intros c; cbn [partitions existsb]; [| |done].
  - intros -> _. split; [done|]. by rewrite Nat.sub_diag.
  - intros (n & _ & -> & Hn & Hp) He. apply IH in Hp as (Hc & E); [|done]. split; [lia|].
    cbn [map concat batch_events]. rewrite E. replace (c' - c) with (n + (c' - (c + n))) by lia.
    rewrite <- (take_drop n (drop c h)) at 2. rewrite drop_drop.
    rewrite take_app_ge by (rewrite length_take; lia).
    rewrite length_take, length_drop. f_equal. f_equal. lia.
Qed.
Section watching.
Context {S L O : Type}
  `{!LifecycleStore S, !StoreDiagnostics S, !EventSink L, !EventSpec L, !Os O, !External, !Json, !Build}.
Variable config : DaemonConfig.
Variable which : nat → string → WhichOutput.
Variable path_var : option string.
Variable arch : string.
Variable event_waiter_count : L → nat.
Variable path_env : RuntimePathEnv.
Variable utc_now : M O Error DateTime.
Variable started_instant : N.

Notation W := (Server S L O).
Notation connection := (connection config which path_var arch event_waiter_count path_env utc_now
  started_instant).
Notation handle_rpc := (handle_rpc config which path_var arch event_waiter_count path_env utc_now
  started_instant).

(** The log stands for a history that clients can be told. *)
Definition tells (h : list RuntimeEvent) (w : W) : Prop :=
  event_all h w.(log) ∧ Forall (fits RuntimeEvent_codec) h ∧ u64_ok (N.of_nat (length h)).

(** What the daemon's other tasks may do to the log meanwhile. *)
Definition extends (w w' : W) : Prop := ∀ h, tells h w → ∃ h', tells (h ++ h') w'.

(** A connection as a client finds it in a state of the daemon: either the bytes that come
    back are the response of a task that ran among others, or the connection breaks, before
    or after the task has run. *)
Definition connection_at (w : W) (connect : string → M W IoError unit)
    (exchange : string → M W IoError string) : Prop :=
  (∀ path, extends w (connect path w).2) ∧
  ∀ path sent, let w1 := (connect path w).2 in
    match exchange sent w1 with
    | (Ok reply, w2) =>
        ∃ nf link response stop,
          among extends (connection (received sent) nf link) w1 (Ok (Some (response, stop))) w2 ∧
          reply = reply_bytes response
    | (Err _, w2) => extends w1 w2
    end.

(** The batches that a watcher gets, with anything happening in between; a call that fails
    leaves the watcher as it was. *)
Inductive watched : W → EventWatcher → list EventBatch → W → EventWatcher → Prop :=
| watched_end w watcher : watched w watcher [] w watcher
| watched_others w w1 watcher bs w' watcher' :
    extends w w1 → watched w1 watcher bs w' watcher' → watched w watcher bs w' watcher'
| watched_batch w w1 watcher watcher1 connect exchange batch bs w' watcher' :
    connection_at w connect exchange →
    next connect exchange watcher w = (Ok (batch, watcher1), w1) →
    watched w1 watcher1 bs w' watcher' → watched w watcher (batch :: bs) w' watcher'
| watched_failure w w1 watcher connect exchange e bs w' watcher' :
    connection_at w connect exchange →
    next connect exchange watcher w = (Err e, w1) →
    watched w1 watcher bs w' watcher' → watched w watcher bs w' watcher'.

Definition position (watcher : EventWatcher) : nat := N.to_nat (default 0%N watcher.(watcher_cursor)).

Lemma extends_refl w : extends w w.
Proof. intros h Hh. exists []. by rewrite app_nil_r. Qed.

#[local] Instance extends_trans : Transitive extends.
Proof.
  intros w1 w2 w3 H12 H23 h Hh. apply H12 in Hh as (h1 & Hh). apply H23 in Hh as (h2 & Hh).
  exists (h1 ++ h2). by rewrite app_assoc.
Qed.

Lemma extends_rtc w w' : rtc extends w w' → extends w w'.
Proof. induction 1 as [w|w w1 w' ? _ IH]; [apply extends_refl|by etrans]. Qed.

(** One read of the log among others: of a state between the two. *)
Definition reads (since : option N) (w w' : W) (page : result N (list RuntimeEvent * N)) : Prop :=
  ∃ wr, extends w wr ∧ page = events_page since wr.(log) ∧ extends wr w'.

Lemma reads_later since w w1 w2 page : extends w w1 → reads since w1 w2 page → reads since w w2 page.
Proof. intros Hw (wr & Hr & -> & Hw'). exists wr. split; [by etrans|done]. Qed.
Lemma reads_extends since w w' page : reads since w w' page → extends w w'.
Proof. intros (wr & Hr & _ & Hw'). by etrans. Qed.

Lemma among_read since (w w' : W) r :
  among extends (atomic (gets (λ w : W, events_page since w.(log))) : Prog W Error _) w r w' →
  ∃ page, r = Ok page ∧ reads since w w' page.
Proof.
  intros (wr & Hw & -> & Hw')%among_atomic. eexists. split; [done|]. exists wr.
  split; [by apply extends_rtc|]. split; [done|]. by apply extends_rtc.
Qed.

Lemma among_return {A} (a : A) (w w' : W) (r : result Error A) :
  among extends (mret a : Prog W Error A) w r w' → r = Ok a ∧ extends w w'.
Proof. intros [-> Hw]. split; [done|]. by apply extends_rtc. Qed.

Lemma events_among nf since wait (w w' : W) r :
  among extends (events nf since wait : Prog W Error _) w r w' →
  ∃ page, r = Ok page ∧ reads since w w' page.
Proof.
  unfold events. intros (r1 & w1 & Ha & Hr)%among_bind.
  apply among_read in Ha as (page1 & -> & R1). destruct (_ || _).
  { apply among_return in Hr as [-> Hr]. exists page1. split; [done|].
    destruct R1 as (wr & ? & ? & ?). exists wr. split_and!; [done|done|by etrans]. }
  apply reads_extends in R1. apply among_bind in Hr as (r2 & w2 & Ha & Hr).
  apply among_read in Ha as (page2 & -> & R2).
  assert (∀ w3, extends w2 w3 → reads since w w3 page2) as Hlater.
  { intros w3 R3. eapply reads_later; [exact R1|]. destruct R2 as (wr & ? & ? & ?). exists wr.
    split_and!; [done|done|by etrans]. }
  destruct (negb _); [apply among_return in Hr as [-> Hr]; eauto|].
  destruct nf; [|apply among_return in Hr as [-> Hr]; eauto].
  apply among_read in Hr as (page3 & -> & R3). exists page3. split; [done|].
  eapply reads_later; [exact R1|]. eapply reads_later; [by eapply reads_extends|done].
Qed.

(** A response that a connection has is that of its request's task. *)
Lemma answered_among nf link rpc (w w' : W) response :
  among extends (handle_rpc_or_disconnect config which path_var arch event_waiter_count path_env utc_now
    started_instant nf link rpc) w (Ok (Some response)) w' →
  among extends (handle_rpc nf rpc) w (Ok response) w'.
Proof.
  assert (∀ rpc, among extends (Some <$> handle_rpc nf rpc) w (Ok (Some response)) w' →
    among extends (handle_rpc nf rpc) w (Ok response) w') as Hall
    by (intros rpc' (a & E & Ha)%among_fmap; by injection E as <-).
  destruct rpc; try apply Hall. cbn [handle_rpc_or_disconnect]. destruct (_ <? _)%N; [|apply Hall].
  destruct (wait_for_disconnect _) as [gone|]; [|apply Hall]. intros (r & w1 & Ha & Hr)%among_bind.
  destruct r as [[answer|]|e]; [| |by destruct Hr as [? _]].
  - apply among_return in Hr as [E Hr]. injection E as ->. apply among_upto in Ha.
    eapply among_earlier; [exact Ha|by apply rtc_once].
  - apply among_bind in Hr as (r & w2 & _ & Hr). destruct r as [[]|e]; [|by destruct Hr as [? _]].
    by apply among_return in Hr as [? _].
Qed.

(** The response to a request for events. *)
Lemma connection_among nf link since wait (w w' : W) response stop :
  among extends (connection (Ok (RuntimeRpc.Events since wait)) nf link) w (Ok (Some (response, stop))) w' →
  ∃ page, reads since w w' page ∧
    response = match page with
               | Ok (es, cursor) => RuntimeResponse.Events es cursor
               | Err oldest => RuntimeResponse.CursorExpired oldest
               end.
Proof.
  unfold Races.connection, handle_connection. intros (r1 & w1 & Ha & Hr)%among_bind.
  destruct r1 as [answered|e]; [|by destruct Hr as [? _]].
  destruct answered as [answer|]; [|by apply among_return in Hr as [? _]].
  apply among_bind in Hr as (r2 & w2 & Hw & Hr). destruct r2 as [[]|e]; [|by destruct Hr as [? _]].
  apply among_return in Hr as [E Hr]. injection E as -> _.
  destruct Hw as [_ Hw%extends_rtc].
  assert (among extends (handle_rpc nf (RuntimeRpc.Events since wait)) w (Ok answer) w1) as Ha'
    by by eapply answered_among. clear Ha.
  unfold Handler.handle_rpc in Ha'. apply among_bind in Ha' as (r2 & w3 & Ha & Hr2).
  apply among_attempted in Ha as (r3 & -> & Ha). apply among_return in Hr2 as [E Hr2]. injection E as ->.
  cbn [handle_rpc_result] in Ha.
  apply among_bind in Ha as (r4 & w4 & Ha & Hr4). apply events_among in Ha as (page & -> & Hp).
  apply among_return in Hr4 as [-> Hr4]. exists page. split; [|done].
  destruct Hp as (wr & ? & ? & Hw'). exists wr. split_and!; [done|done|].
  etrans; [exact Hw'|]. etrans; [exact Hr4|]. etrans; [exact Hr2|]. by etrans.
Qed.

(** Which batch a page is, from a position on. *)
Lemma page_batch h (w w' : W) since page :
  tells h w → N.to_nat (default 0%N since) ≤ length h → reads since w w' page →
  ∃ h1, tells (h ++ h1) w' ∧
    match page with
    | Ok (es, cursor) => Forall (fits RuntimeEvent_codec) es ∧ u64_ok cursor ∧
        partitions (h ++ h1) (N.to_nat (default 0%N since)) [EventBatch.Events es cursor] (N.to_nat cursor) 
    | Err oldest => u64_ok oldest ∧
        partitions (h ++ h1) (N.to_nat (default 0%N since)) [EventBatch.CursorExpired oldest] (N.to_nat oldest)
    end.
Proof.
  clear config which path_var arch event_waiter_count path_env utc_now started_instant.
  set (c := N.to_nat (default 0%N since)). intros Hh Hc (wr & Hr & -> & Hw').
  destruct (Hr h Hh) as (h1 & Hh1). destruct (Hw' _ Hh1) as (h2 & Hh2).
  exists (h1 ++ h2). rewrite app_assoc. split; [done|]. destruct Hh1 as (Hall & Hfit & Hlen).
  assert (events_page since wr.(log) = events_page (Some (N.of_nat c)) wr.(log)) as ->.
  { unfold c. rewrite N2Nat.id. destruct since; [done|]. apply events_page_none. }
  pose proof (events_page_spec (h ++ h1) (log wr) c Hall) as Hp. rewrite length_app in Hp.
  specialize (Hp ltac:(lia)). destruct (events_page _ _) as [page|oldest].
  - subst page. split; [by apply Forall_drop|]. split; [by rewrite length_app in Hlen|].
    exists (length h + length h1 - c). rewrite !length_app. split; [lia|]. split; [|split; [lia|]].
    + rewrite (drop_app_le (h ++ h1) h2) by (rewrite ?length_app; lia). rewrite (take_app_le (drop c (h ++ h1)) h2) by (rewrite ?length_drop, ?length_app; lia).
      by rewrite firstn_all2 by (rewrite ?length_drop, ?length_app; lia).
    + cbn [partitions]. lia.
  - split; [unfold u64_ok in *; rewrite length_app in Hlen; lia|]. exists (N.to_nat oldest).
    rewrite !length_app. split; [lia|]. split; [lia|done].
Qed.

Lemma received_events since wait :
  option_fits u64_ok since → option_fits u32_ok wait →
  received (json_line_bytes (enc RuntimeRpc_codec) (RuntimeRpc.Events since wait)) =
    Ok (RuntimeRpc.Events since wait).
Proof. intros Hs Hw. apply received_request. by repeat split. Qed.

(** One call of the watcher. *)
Lemma next_spec h connect exchange watcher (w : W) :
  connection_at w connect exchange → tells h w → position watcher ≤ length h →
  option_fits u32_ok watcher.(watcher_wait_ms) →
  match next connect exchange watcher w with
  | (Ok (batch, watcher'), w') =>
      ∃ h1, tells (h ++ h1) w' ∧ watcher'.(watcher_wait_ms) = watcher.(watcher_wait_ms) ∧
        partitions (h ++ h1) (position watcher) [batch] (position watcher')
  | (Err _, w') => extends w w'
  end.
Proof.
  destruct watcher as [client since wait]. unfold position. cbn [watcher_cursor watcher_wait_ms].
  intros [Hcon Hex] Hh Hc Hwait. set (sent := json_line_bytes (enc RuntimeRpc_codec) (RuntimeRpc.Events since wait)).
  specialize (Hcon client). specialize (Hex client sent). cbv zeta in Hex.
  unfold next, client_events, typed, client_request, request_on_stream, map_error, mbind, M_bind.
  cbn [watcher_client watcher_cursor watcher_wait_ms]. fold sent.
  destruct (connect client w) as [[[]|e] w1]; cbn [map_err snd] in *; [|done].
  destruct (exchange sent w1) as [[reply|e] w2]; cbn [map_err]; [|by etrans].
  destruct Hex as (nf & link & response & stop & Ha & ->).
  unfold sent in Ha. rewrite received_events in Ha; [|clear sent|done].
  2:{ destruct since as [n|]; [|done]. destruct Hh as (_ & _ & Hlen). simpl in *. unfold u64_ok in *. lia. }
  apply connection_among in Ha as (page & Hr & Hresp).
  destruct (page_batch h w w2 since page Hh Hc) as (h1 & Hh1 & Hp); [by eapply reads_later|].
  assert (fits RuntimeResponse_codec response) as Hfit
    by (subst response; destruct page as [[es cursor]|oldest]; repeat split; apply Hp).
  unfold reply_bytes, lift. pose proof (codec_line RuntimeResponse_codec response "" _ Hfit) as El.
  rewrite str_app_nil_r in El. rewrite El. cbn [fst map_err]. clear El Hfit.
  destruct page as [[es cursor]|oldest]; subst response; cbn [as_events update_cursor seek]; exists h1;
    (split; [done|]; split; [done|]; apply Hp).
Qed.

Lemma watched_partitions w watcher bs w' watcher' :
  watched w watcher bs w' watcher' → ∀ h, tells h w → position watcher ≤ length h →
  option_fits u32_ok watcher.(watcher_wait_ms) →
  ∃ h', tells (h ++ h') w' ∧ partitions (h ++ h') (position watcher) bs (position watcher').
Proof.
  induction 1 as [w watcher|w w1 watcher bs w' watcher' He _ IH
    |w w1 watcher watcher1 connect exchange batch bs w' watcher' Hcon Hn _ IH
    |w w1 watcher connect exchange e bs w' watcher' Hcon Hn _ IH]; intros h Hh Hc Hwait.
  - exists []. rewrite app_nil_r. by split.
  - destruct (He h Hh) as (h1 & Hh1). destruct (IH _ Hh1) as (h2 & Hh2 & Hp);
      [rewrite length_app; lia|done|]. exists (h1 ++ h2). by rewrite app_assoc.
  - pose proof (next_spec h connect exchange watcher w Hcon Hh Hc Hwait) as Hnext. rewrite Hn in Hnext.
    destruct Hnext as (h1 & Hh1 & Hw1 & Hp1). destruct (IH _ Hh1) as (h2 & Hh2 & Hp2);
      [by eapply partitions_end|by rewrite Hw1|]. exists (h1 ++ h2). rewrite app_assoc. split; [done|].
    eapply partitions_cons; [by apply partitions_app|done].
  - pose proof (next_spec h connect exchange watcher w Hcon Hh Hc Hwait) as Hnext. rewrite Hn in Hnext.
    destruct (Hnext h Hh) as (h1 & Hh1). destruct (IH _ Hh1) as (h2 & Hh2 & Hp);
      [rewrite length_app; lia|done|]. exists (h1 ++ h2). by rewrite app_assoc.
Qed.


(** A daemon that does nothing else meanwhile is such a connection. *)
Lemma serves_alone_connection nf w :
  connection_at w connects
    (serves_alone config which path_var arch event_waiter_count path_env utc_now started_instant nf).
Proof.
  split; [intros path; apply extends_refl|]. intros path sent. cbv zeta. unfold serves_alone.
  change (connects path w).2 with w.
  pose proof (among_run extends (connection (received sent) nf steady) w) as Ha.
  assert (∃ response stop, (run (connection (received sent) nf steady) w).1 = Ok (Some (response, stop)))
    as (response & stop & E).
  { destruct (received sent) as [rpc|e]; [|by do 2 eexists]. rewrite connection_run, handle_rpc_run.
    destruct (run (handle_rpc_result _ _ _ _ _ _ _ _ _ _) w) as [[] ?]; by do 2 eexists. }
  rewrite E in Ha. destruct (run _ w) as [r w']. cbn [fst snd] in *. subst r.
  exists nf, steady, response, stop. by split.
Qed.
End watching.

(** C2. Watching events. Whatever the daemon's other tasks append and whatever connections
    break, the batches that an [EventWatcher] gets partition the daemon's history of events
    from the watcher's position on: each batch of events is the stretch that follows the
    batch before it, nothing is repeated after a call that failed, and the only events left
    out are those between the position and the cursor of a batch that says so. A watcher
    that is never told so has every event exactly once and in order. *)
Theorem watcher_exactly_once {S L O : Type}
    `{!LifecycleStore S, !StoreDiagnostics S, !EventSink L, !EventSpec L, !Os O, !External, !Json, !Build}
    config which path_var arch event_waiter_count path_env utc_now started_instant h
    (w w' : Server S L O) watcher watcher' batches :
  tells h w → position watcher ≤ length h → option_fits u32_ok watcher.(watcher_wait_ms) →
  watched config which path_var arch event_waiter_count path_env utc_now started_instant
    w watcher batches w' watcher' →
  ∃ h', tells (h ++ h') w' ∧
    partitions (h ++ h') (position watcher) batches (position watcher') ∧
    (existsb is_expired batches = false →
     concat (map batch_events batches) =
       take (position watcher' - position watcher) (drop (position watcher) (h ++ h'))).
Proof.
  intros Hh Hc Hw Hs. destruct (watched_partitions _ _ _ _ _ _ _ _ _ _ _ _ _ Hs h Hh Hc Hw) as (h' & Hh' & Hp).
  exists h'. split; [done|]. split; [done|]. intros He. by apply partitions_concat.
Qed.

(** ** Concrete runs *)

Section concrete.
#[local] Existing Instance decimal_external.
#[local] Existing Instance code_json.
#[local] Existing Instance idle_os.
#[local] Existing Instances demo_store demo_diagnostics demo_sink demo_build.
#[local] Instance demo_events_spec : EventSpec Log := log_sink_spec steady_io "/d/events.jsonl".

Definition demo_daemon : string → M (Server Db Log N) IoError string :=
  serves_alone demo_config (λ _ binary, Ok (true, "/bin/" +:+ binary)) None "x86_64" (λ _, 0)
    (RuntimePathEnv.mk None None None None None None) (mret 0%Z) 0 true.
Definition demo_watcher : EventWatcher := build_watcher builder_default "/d/sock".
Definition demo_lost : RuntimeEvent := RuntimeEvent.Lost (mkUuid 7) LostEvidence.PidNotAlive.
Definition demo_told : Server Db Log N := (run (server_append_event demo_lost) demo_server).2.

Lemma client_calls_transparent_witness :
  let request := KillRequest.mk (mkUuid 9) RuntimeSignal.Term 1 in
  fits KillRequest_codec request ∧
  (client_kill connects demo_daemon "/d/sock" request demo_server).1 =
    remote RpcErrorContext.Other (run (kill_runtime request) demo_server).1.
Proof.
  intros request. assert (fits KillRequest_codec request) as Hf by (repeat split; vm_compute; discriminate).
  split; [exact Hf|].
  pose proof (client_calls_transparent demo_config (λ _ binary, Ok (true, "/bin/" +:+ binary)) None "x86_64" (λ _, 0)
    (RuntimePathEnv.mk None None None None None None) (mret 0%Z) 0 true "/d/sock" demo_server) as (_ & Hk & _).
  specialize (Hk request Hf). unfold demo_daemon. rewrite Hk. by destruct (run (kill_runtime request) demo_server).
Defined.

Lemma demo_tells_nil : tells [] demo_server.
Proof. split; [exact demo_serves|]. split; [constructor|]. by vm_compute. Qed.

(** The empty log stands for no other history. *)
Lemma demo_extends : extends demo_server demo_told.
Proof.
  intros h (Hall & _ & _).
  pose proof (events_page_spec h (log demo_server) 0 Hall (Nat.le_0_l _)) as Hp.
  change (events_page (Some (N.of_nat 0)) (log demo_server)) with (Ok ([], 0%N) : result N (list RuntimeEvent * N)) in Hp.
  injection Hp as Eh _. rewrite drop_0 in Eh. subst h. exists [demo_lost].
  assert (event_fits demo_lost) as Hfit by (split; [exact I|exact demo_wall]).
  pose proof (append_event_all [] demo_lost Hfit (demo_room [] (Nat.le_0_l 1)) _ Hall) as Ha.
  split; [|split; [constructor; [vm_compute; repeat split|constructor]|by vm_compute]].
  unfold demo_told, server_append_event. rewrite run_atomic. unfold on_log.
  destruct (append_event demo_lost (log demo_server)) as [[e|e] l]; [exact (proj2 Ha)|].
  exfalso. apply demo_never_fails. by right.
Qed.

Lemma watcher_exactly_once_witness :
  ∃ watcher' w', 
    (next connects demo_daemon demo_watcher demo_told) = (Ok (EventBatch.Events [demo_lost] 1, watcher'), w') ∧
    ∃ h', tells ([] ++ h') w' ∧ partitions ([] ++ h') 0 [EventBatch.Events [demo_lost] 1] 1.
Proof.
  assert (∃ watcher' w', next connects demo_daemon demo_watcher demo_told =
            (Ok (EventBatch.Events [demo_lost] 1, watcher'), w') ∧ position watcher' = 1) as (watcher' & w' & En & Ep)
    by (do 2 eexists; split; [vm_compute; reflexivity|reflexivity]).
  exists watcher', w'. split; [exact En|].
  destruct (watcher_exactly_once demo_config (λ _ binary, Ok (true, "/bin/" +:+ binary)) None "x86_64" (λ _, 0)
    (RuntimePathEnv.mk None None None None None None) (mret 0%Z) 0 [] demo_server w' demo_watcher watcher'
    [EventBatch.Events [demo_lost] 1] demo_tells_nil (Nat.le_0_l _)) as (h' & Hh & Hp & _).
  - vm_compute. discriminate.
  - eapply watched_others; [exact demo_extends|].
    eapply watched_batch; [apply (serves_alone_connection demo_config (λ _ binary, Ok (true, "/bin/" +:+ binary)) None
      "x86_64" (λ _, 0) (RuntimePathEnv.mk None None None None None None) (mret 0%Z) 0 true)|exact En|constructor].
  - exists h'. split; [exact Hh|]. by rewrite Ep in Hp.
Defined.
End concrete.
