(* ===== verification/Session.v ===== *)
(** * A session from its spawn to the report of its exit

    The shim of Shim.v against the daemon: the calls of the shim go through the bytes of a
    connection to the tasks of Handler.v, and the spawn that waits for the shim goes on once
    the shim has reported. Everything that the shim does besides happens on its own system,
    of which the daemon sees nothing. *)

From S2P Require Import Prelude RustStr RustPath Types Parsers Json Serde Launch Errors Lifecycles.
From S2P Require Import Interfaces EventLog LogSink Store Prog Platform Paths Docker Server Proto.
From S2P Require Import Wire Client Shim Doctor Kill Mcp Reconcile Handler Races ServerSpec EndToEnd.
From stdpp Require Import options.

(** ** The spawn after the shim's report *)

Section running.
Context {S L O : Type}
  `{!LifecycleStore S, !StoreSpec S, !EventSink L, !EventSpec L, !Os O, !External}.
Variable config : DaemonConfig.

Notation W := (Server S L O).
Notation Task := (Prog W Error).

(** The tables of pending spawns and of issued terminal events. *)
Definition same_tables (w w' : W) : Prop :=
  w'.(pending_launches) = w.(pending_launches) ∧ w'.(pending_ready) = w.(pending_ready) ∧
  w'.(channels) = w.(channels) ∧ w'.(terminated_events) = w.(terminated_events).

Lemma populate_run {B} l (f : Lifecycle → Task B) (w : W) :
  ∃ a o', run (populate_log_availability config l ≫= f) w =
          run (f (set_log_availability l (Some a))) (set_os o' w).
Proof.
  unfold populate_log_availability. destruct (Lifecycle.tmux_pane l) as [address|].
  - rewrite run_bind_match, run_bind_match, run_bind_match, run_attempted. unfold attempt. rewrite run_atomic.
    unfold on_os. destruct (tmux_is_alive address (os w)) as [r o']. cbn. by do 2 eexists.
  - rewrite run_bind_match, run_bind_match. cbn. do 2 eexists. by rewrite set_os_same.
Qed.

(** The record of a session whose shim reported ready. *)
Definition running_row (request : SpawnRequest) (ready : ShimReady) : Lifecycle :=
  set_tmux_pane (mark_running (spawn_row request) ready).1 (tmux_address request.(SpawnRequest.target)).

Lemma record_running_run request ready s h (w : W) :
  let u := request.(SpawnRequest.session_id) in
  let event := RuntimeEvent.Running u ready.(ShimReady.runtime_pid) ready.(ShimReady.start_time) in
  s !! u = Some (spawn_row request) → storable (running_row request ready) →
  event_fits event → event_room h → store_repr s w.(store) → logged h w →
  let '(r, w') := run (record_running config request ready) w in
  (∃ a, r = Ok (set_log_availability (running_row request ready) (Some a), event)) ∧
  store_repr (<[u := running_row request ready]> s) w'.(store) ∧ logged (h ++ [event]) w' ∧
  same_tables w w' ∧ (∀ v, v ≠ u → w'.(exit_watchers) !! v = w.(exit_watchers) !! v) ∨
  (∃ e, r = Err e) ∧ (store_failed ∨ sink_failed).
Proof.
  intros u event Hu Hst Hfit Hroom Hs Hh. unfold record_running. fold u.
  match goal with |- context [get_session u ≫= ?f] =>
    destruct (get_session_run s u f w Hs) as (s1 & Hs1 & [-> | (e & -> & Hf)]) end;
    [|right; split; [by exists e|by left]].
  rewrite Hu. rewrite bool_decide_eq_true_2 by done. cbn [negb]. rewrite (surjective_pairing (mark_running _ _)).
  change ((mark_running (spawn_row request) ready).2) with true. cbn [negb].
  fold (running_row request ready).
  match goal with |- context [populate_log_availability config ?l ≫= ?f] =>
    destruct (populate_run l f (set_store s1 w)) as (a & o' & ->) end.
  rewrite run_store. cbv zeta in Hs1.
  pose proof (update_lifecycle_spec s (set_log_availability (running_row request ready) (Some a))) as Hup.
  specialize (Hup Hst _ Hs1). change (store (set_os o' (set_store s1 w))) with s1.
  change (store (set_store s1 w)) with s1 in Hup.
  destruct (update_lifecycle _ s1) as [[[]|e] s2].
  2:{ destruct Hup as [_ [Hf|Hn]]; [right; split; [by exists e|by left]|].
      exfalso. change (s !! u = None) in Hn. congruence. }
  destruct Hup as [_ Hs2].
  rewrite run_lift.
  change (running_event (set_log_availability (running_row request ready) (Some a))) with (Ok (E := Error) event).
  unfold start_exit_watcher. rewrite run_modify, run_append.
  set (w2 := match exit_watchers _ !! u with Some _ => _ | None => _ end).
  assert (log w2 = log w ∧ store w2 = s2 ∧ same_tables w w2 ∧
          ∀ v, v ≠ u → exit_watchers w2 !! v = exit_watchers w !! v) as (El & Es & Ht & Hw).
  { unfold w2. change (exit_watchers (set_store _ _)) with (exit_watchers w).
    destruct (exit_watchers w !! u); (split_and!; [done..|intros v Hv; cbn; by rewrite ?lookup_insert_ne]). }
  clearbody w2. pose proof (append_event_all h event Hfit Hroom (log w2)) as Ha. rewrite El in Ha |- *.
  specialize (Ha Hh). destruct (append_event event (log w)) as [[e'|e] l']; [left|right; split; [by exists e|by right]].
  destruct Ha as [-> Ha]. split; [by exists a|]. cbn. rewrite Es. split_and!; try done; by apply Ht.
Qed.
End running.

(** ** The shim's system and the daemon side by side *)

(** The daemon, the channel that the spawn waits on, what the spawn was answered, and the
    shim's own system. *)
Record Host (W P : Type) := mkHost {
  daemon : W; waiting : option nat; answered : option (result Error RuntimeResponse); desk : P }.
Arguments mkHost {W P}.
Arguments daemon {W P}.
Arguments waiting {W P}.
Arguments answered {W P}.
Arguments desk {W P}.

Section lifting.
Context {W P : Type} `{!Os P, !ShimOs P, !External}.

Definition set_desk (p : P) (h : Host W P) : Host W P := mkHost h.(daemon) h.(waiting) h.(answered) p.
Definition at_desk {A} (f : P → A * P) (h : Host W P) : A * Host W P :=
  let '(a, p) := f h.(desk) in (a, set_desk p h).

#[export] Instance host_os : Os (Host W P) := {|
  exec := λ program args, at_desk (exec program args);
  sys_kill := λ pid signal, at_desk (sys_kill pid signal);
  read_to_string := λ path, at_desk (read_to_string path);
  canonicalize := λ path, at_desk (canonicalize path);
  is_file := λ path, at_desk (is_file path);
  create_dir_all := λ path, at_desk (create_dir_all path);
  create_file := λ path, at_desk (create_file path);
  spawn_child := λ program args env, at_desk (spawn_child program args env);
  clock_ticks := at_desk clock_ticks;
  os_instant := at_desk os_instant;
  os_epoch_ms := at_desk os_epoch_ms;
  os_sleep := λ ms h, set_desk (os_sleep ms h.(desk)) h |}.
#[export] Instance host_shim_os : ShimOs (Host W P) := {|
  sys_signal := λ signal handler, at_desk (sys_signal signal handler);
  command_spawn := λ command, at_desk (command_spawn command);
  command_exec := λ command, at_desk (command_exec command);
  child_try_wait := λ pid, at_desk (child_try_wait pid);
  child_wait := λ pid, at_desk (child_wait pid);
  sigterm_swap := at_desk sigterm_swap;
  process_id := at_desk process_id;
  utc_now_os := at_desk utc_now_os |}.

(** What the shim does on its own system is done there and nowhere else. *)
Definition lifted {E A} (m' : M (Host W P) E A) (m : M P E A) : Prop :=
  ∀ h, m' h = let '(r, p) := m h.(desk) in (r, set_desk p h).

Lemma set_desk_same h : set_desk h.(desk) h = h.
Proof. by destruct h. Qed.

Lemma lifted_bind {E A B} (m' : M (Host W P) E A) (m : M P E A) f' f :
  lifted m' m → (∀ a, lifted (f' a : M (Host W P) E B) (f a)) → lifted (m' ≫= f') (m ≫= f).
Proof.
  intros Hm Hf h. unfold mbind, M_bind. rewrite Hm. destruct (m (desk h)) as [[a|e] p]; [|done]. rewrite Hf.
  change (desk (set_desk p h)) with p. by destruct (f a p).
Qed.
Lemma lifted_ret {E A} (a : A) : lifted (E := E) (mret a) (mret a).
Proof. intros h. cbn. by rewrite set_desk_same. Qed.
Lemma lifted_lift {E A} (r : result E A) : lifted (lift r) (lift r).
Proof. intros h. unfold lift. by rewrite set_desk_same. Qed.
Lemma lifted_throw {E A} (e : E) : lifted (A := A) (throw e) (throw e).
Proof. intros h. unfold throw. by rewrite set_desk_same. Qed.
Lemma lifted_call {A} (f : P → A * P) : lifted (os_call (at_desk f)) (os_call f).
Proof. intros h. unfold os_call, at_desk. by destruct (f (desk h)). Qed.
Lemma lifted_sleep ms : lifted (os_call (λ h : Host W P, (tt, os_sleep ms h))) (os_call (λ p, (tt, os_sleep ms p))).
Proof. intros h. reflexivity. Qed.
Lemma lifted_context {A} message (f : P → result IoError A * P) :
  lifted (io_context message (at_desk f)) (io_context message f).
Proof. intros h. unfold io_context, at_desk. by destruct (f (desk h)). Qed.
Lemma lifted_unit message (f : P → option IoError * P) :
  lifted (io_unit message (at_desk f)) (io_unit message f).
Proof. intros h. unfold io_unit, io_context, at_desk. by destruct (f (desk h)) as [[] p]. Qed.
Lemma lifted_shim_sleep ms : lifted (sleep (O := Host W P) ms) (sleep ms).
Proof. intros h. reflexivity. Qed.
Lemma lifted_with_context {A} message (m' : M (Host W P) Error A) (m : M P Error A) :
  lifted m' m → lifted (with_context message m') (with_context message m).
Proof. intros Hm h. unfold with_context. rewrite Hm. by destruct (m (desk h)). Qed.

Ltac lifted :=
  repeat first
    [ apply lifted_bind; [|intros ?] | apply lifted_ret | apply lifted_lift | apply lifted_throw
    | apply lifted_sleep | apply lifted_call | apply lifted_context | apply lifted_unit
    | apply lifted_shim_sleep | apply lifted_with_context | case_match ].

Lemma lifted_pid_alive pid : lifted (pid_alive pid) (pid_alive pid).
Proof. unfold pid_alive. lifted. Qed.

Lemma lifted_send_signal pid signal : lifted (Platform.send_signal pid signal) (Platform.send_signal pid signal).
Proof. unfold Platform.send_signal, send_raw_signal, send_raw_signal_result. lifted. Qed.

Lemma lifted_start_time ts pid : lifted (start_time_for_pid ts pid) (start_time_for_pid ts pid).
Proof.
  unfold start_time_for_pid, start_time_probe_for_pid. apply lifted_bind; [|intros ?; lifted].
  generalize START_TIME_READ_ATTEMPTS as n. induction n as [|n IH]; cbn [probe_attempts]; [lifted|].
  apply lifted_bind.
  { unfold read_start_time_probe_for_pid, linux_boot_time, start_time_from_ticks. lifted. }
  intros probe. case_match; [lifted|]. apply lifted_bind; [apply lifted_pid_alive|]. intros alive.
  case_match; [lifted|]. apply lifted_bind; [lifted|done].
Qed.

Lemma lifted_ignore : lifted (ignore_user_interrupts (O := Host W P)) ignore_user_interrupts.
Proof. unfold ignore_user_interrupts, set_user_interrupt_disposition, set_signal_disposition. lifted. Qed.

Lemma lifted_wait fuel pid : lifted (wait_for_runtime fuel pid) (wait_for_runtime fuel pid).
Proof.
  unfold wait_for_runtime, install_sigterm_handler. apply lifted_bind; [lifted|intros _].
  induction fuel as [|fuel IH]; cbn [poll_loop]; [lifted|]. apply lifted_bind.
  { unfold poll_runtime. apply lifted_bind; [lifted|]. intros [status|]; [lifted|].
    apply lifted_bind; [lifted|]. intros []; [|lifted]. apply lifted_bind; [apply lifted_send_signal|intros _; lifted]. }
  intros [status|]; [lifted|done].
Qed.

Lemma lifted_resume resume : lifted (exec_shell_resume (O := Host W P) resume) (exec_shell_resume resume).
Proof. unfold exec_shell_resume. lifted. Qed.

(** *** What the shim does for its runtime *)

Definition start_runtime (ts : Z → N → option DateTime) (launch : LaunchSpec) {O} `{!Os O, !ShimOs O}
    : M O Error (N * N * DateTime) :=
  command ← lift (runtime_command launch);
  runtime_pid ← io_context "failed to spawn runtime" (command_spawn command);
  shim_pid ← os_call process_id;
  start_time ← start_time_for_pid ts runtime_pid;
  start_time ← match start_time with Some t => mret t | None => os_call utc_now_os end;
  mret (runtime_pid, shim_pid, start_time).

Definition resume_shell (launch : LaunchSpec) {O} `{!ShimOs O} : M O Error unit :=
  match launch.(LaunchSpec.shell_resume) with
  | Some shell_resume => exec_shell_resume shell_resume
  | None => mret tt
  end.

Lemma lifted_start_runtime ts launch : lifted (start_runtime ts launch) (start_runtime ts launch).
Proof.
  unfold start_runtime. apply lifted_bind; [lifted|]. intros command. apply lifted_bind; [lifted|]. intros pid.
  apply lifted_bind; [lifted|]. intros shim. apply lifted_bind; [apply lifted_start_time|]. intros t. lifted.
Qed.

(** [run_for_session_blocking] says it in line. *)
Lemma start_runtime_steps ts launch {O B} `{!Os O, !ShimOs O} (f : N → N → DateTime → M O Error B) (o : O) :
  (command ← lift (runtime_command launch);
   runtime_pid ← io_context "failed to spawn runtime" (command_spawn command);
   shim_pid ← os_call process_id;
   start_time ← start_time_for_pid ts runtime_pid;
   start_time ← match start_time with Some t => mret t | None => os_call utc_now_os end;
   f runtime_pid shim_pid start_time) o =
  ('(runtime_pid, shim_pid, start_time) ← start_runtime ts launch; f runtime_pid shim_pid start_time) o.
Proof.
  unfold start_runtime, mbind, M_bind. repeat (case_match; simplify_eq/=; try done).
Qed.

Lemma lifted_step {E A B} (m' : M (Host W P) E A) (m : M P E A) (f : A → M (Host W P) E B) a p h :
  lifted m' m → m h.(desk) = (Ok a, p) → (m' ≫= f) h = f a (set_desk p h).
Proof. intros Hm E0. unfold mbind, M_bind. by rewrite Hm, E0. Qed.

Lemma step_ok {E A B X} (m : M X E A) (f : A → M X E B) a x x' :
  m x = (Ok a, x') → (m ≫= f) x = f a x'.
Proof. intros Em. unfold mbind, M_bind. by rewrite Em. Qed.

Lemma lifted_resume_shell launch : lifted (resume_shell launch) (resume_shell launch).
Proof. unfold resume_shell. case_match; [apply lifted_resume|lifted]. Qed.
End lifting.

(** ** The shim against the daemon *)

Section session.
Context {S L O P : Type}
  `{!LifecycleStore S, !StoreDiagnostics S, !StoreSpec S, !EventSink L, !EventSpec L, !Os O, !Os P, !ShimOs P,
    !External, !Json, !Build}.
Variable config : DaemonConfig.
Variable which : nat → string → WhichOutput.
Variable path_var : option string.
Variable arch : string.
Variable event_waiter_count : L → nat.
Variable path_env : RuntimePathEnv.
Variable utc_now : M O Error DateTime.
Variable started_instant : N.
Variable notified_first : bool.
Variables (request : SpawnRequest) (evidence : SpawnEvidence).

Notation W := (Server S L O).
Notation Host := (Host W P).
Notation handle_rpc := (handle_rpc config which path_var arch event_waiter_count path_env utc_now started_instant
  notified_first).
Notation daemon_alone := (serves_alone config which path_var arch event_waiter_count path_env utc_now
  started_instant notified_first).

(** A spawn that waits goes on as soon as its channel has something to tell. *)
Definition woken (h : Host) : Host :=
  match h.(waiting) with
  | Some chan =>
      match h.(daemon).(channels) !! chan with
      | Some Waiting => h
      | _ => let '(r, w) := run (finish_spawn config request chan evidence) h.(daemon) in
             mkHost w None (Some r) h.(desk)
      end
  | None => h
  end.

(** The shim's connections. *)
Definition reaches : string → M Host IoError unit := λ _, mret tt.
Definition asks (sent : string) : M Host IoError string := λ h,
  let '(reply, w) := daemon_alone sent h.(daemon) in
  (reply, woken (mkHost w h.(waiting) h.(answered) h.(desk))).

Lemma shim_request_run path rpc response w' (h : Host) :
  fits RuntimeRpc_codec rpc → run (handle_rpc rpc) h.(daemon) = (Ok response, w') →
  fits RuntimeResponse_codec response →
  shim_request reaches asks path rpc h =
    (Ok response, woken (mkHost w' h.(waiting) h.(answered) h.(desk))).
Proof.
  intros Hf Hr Hfit. unfold shim_request, io_context, io_result, mbind, M_bind, reaches, asks, serves_alone.
  cbn [mret M_ret map_err context]. unfold mret, M_ret.
  change (write_json_line_blocking (enc RuntimeRpc_codec) "" rpc) with
    ("" +:+ json_line_bytes (enc RuntimeRpc_codec) rpc).
  rewrite str_app_nil_l, received_request by done. rewrite connection_run, Hr. cbn [map_err].
  change (((λ response : RuntimeResponse, _) <$> Ok response)) with
    (Ok (E := Error) (Some (response, match response with RuntimeResponse.Stopping => true | _ => false end))).
  cbn [map_err]. unfold read_json_line_blocking, reply_bytes.
  pose proof (codec_line RuntimeResponse_codec response "" _ Hfit) as E. rewrite str_app_nil_r in E.
  unfold lift. by rewrite E.
Qed.

Lemma reconnecting_at_once {T} label (operation : M Host Error T) v h h' :
  operation h = (Ok v, h') → reconnecting label operation h = (Ok v, h').
Proof. intros E. unfold reconnecting. cbn. unfold attempt, mbind, M_bind. by rewrite E. Qed.

(** A spawn that has begun: its row, the launch for its shim and its waiter. *)
Definition awaiting (launch : LaunchSpec) (chan : nat) (s : Sessions) (h : list RuntimeEvent) (w : W) : Prop :=
  let u := request.(SpawnRequest.session_id) in
  store_repr (<[u := spawn_row request]> s) w.(store) ∧ logged h w ∧
  w.(pending_launches) !! u = Some launch ∧ w.(pending_ready) !! u = Some chan ∧
  w.(channels) !! chan = Some Waiting ∧ u ∉ w.(terminated_events).

Lemma spawn_begun_awaiting launch chan s h w0 (w : W) :
  spawn_begun request launch s chan w0 w → logged h w →
  request.(SpawnRequest.session_id) ∉ w.(terminated_events) → awaiting launch chan s h w.
Proof.
  intros (_ & _ & _ & _ & Hs & Hl & Hr & Hc) Hh Ht. unfold awaiting. rewrite Hl, Hr, Hc.
  split_and!; try done; apply lookup_insert_eq.
Qed.
(** The three calls of the shim, as tasks of the daemon. *)
Notation u := request.(SpawnRequest.session_id).

Lemma launch_call launch (w : W) :
  w.(pending_launches) !! u = Some launch →
  run (handle_rpc (RuntimeRpc.ShimLaunch u)) w =
    (Ok (RuntimeResponse.ShimLaunch launch), set_launches (base.delete u w.(pending_launches)) w).
Proof.
  intros Hl. rewrite handle_rpc_run. cbn [handle_rpc_result]. rewrite run_fmap.
  unfold take_launch_spec. rewrite run_bind_match, run_atomic, Hl. reflexivity.
Qed.

Lemma ready_call chan ready (w : W) :
  w.(pending_ready) !! u = Some chan → w.(channels) !! chan = Some Waiting → ready.(ShimReady.session_id) = u →
  run (handle_rpc (RuntimeRpc.ShimReady ready)) w =
    (Ok RuntimeResponse.Ack,
     set_ready (base.delete u w.(pending_ready)) (<[chan := Sent ready]> w.(channels)) w).
Proof.
  intros Hr Hc Hu. rewrite handle_rpc_run. cbn [handle_rpc_result].
  rewrite run_bind_match. unfold complete_shim_ready. rewrite run_bind_match, run_atomic, Hu, Hr.
  cbv beta iota zeta. rewrite run_bind_match, run_atomic.
  change (channels (set_ready _ _ w)) with (channels w). rewrite Hc. reflexivity.
Qed.

(** The answer of the spawn and what it leaves, once the ready report is there. *)
Lemma woken_ready ready chan s h (w : W) (p : P) :
  ¬ (store_failed ∨ sink_failed) → storable (spawn_row request) → fits ShimReady_codec ready →
  pane_fits (tmux_address request.(SpawnRequest.target)) →
  let event := RuntimeEvent.Running u ready.(ShimReady.runtime_pid) ready.(ShimReady.start_time) in
  event_fits event → event_room h →
  store_repr (<[u := spawn_row request]> s) w.(store) → logged h w →
  w.(channels) !! chan = Some (Sent ready) →
  ∃ a w', woken (mkHost w (Some chan) None p) =
      mkHost w' None
        (Some (Ok (spawned_response (set_log_availability (running_row request ready) (Some a)) event
                     evidence.(log_paths)))) p ∧
    store_repr (<[u := running_row request ready]> s) w'.(store) ∧ logged (h ++ [event]) w' ∧
    w'.(terminated_events) = w.(terminated_events).
Proof.
  intros Hnf Hst Hready Hpane event Hev Hroom Hs Hh Hc. unfold woken. cbn [waiting daemon desk]. rewrite Hc.
  unfold finish_spawn. rewrite run_bind_match, run_atomic. unfold await_ready. rewrite Hc.
  cbv beta iota zeta. rewrite run_bind_match.
  assert (storable (running_row request ready)) as Hrow
    by (apply set_tmux_pane_storable; [by apply mark_running_storable|done]).
  pose proof (record_running_run config request ready _ h w (lookup_insert_eq _ _ _) Hrow Hev Hroom Hs Hh) as Hrec.
  destruct (run (record_running config request ready) w) as [r w'].
  destruct Hrec as [((a & ->) & Hs' & Hh' & (_ & _ & _ & Ht) & _)|[_ Hf]]; [|by destruct Hnf].
  rewrite insert_insert_eq in Hs'. by exists a, w'.
Qed.

Lemma exit_call exit l s h (w : W) :
  ¬ (store_failed ∨ sink_failed) → exit.(ShimExit.session_id) = u →
  fits RuntimeExit_codec exit.(ShimExit.exit) →
  l.(Lifecycle.session_id) = u → is_running l = true → u ∉ w.(terminated_events) →
  let event v := RuntimeEvent.Terminated v exit.(ShimExit.exit).(RuntimeExit.code)
                   exit.(ShimExit.exit).(RuntimeExit.signal) TerminationEvidence.ShimExit in
  (∀ v, event_fits (event v)) → event_room h →
  store_repr (<[u := l]> s) w.(store) → logged h w →
  ∃ w', run (handle_rpc (RuntimeRpc.ShimExit exit)) w = (Ok RuntimeResponse.Ack, w') ∧
    store_repr (<[u := set_state l (LifecycleState.Exited exit.(ShimExit.exit))]> s) w'.(store) ∧
    logged (h ++ [event u]) w'.
Proof.
  intros Hnf Hu Hfit Hl Hrun Ht event Hev Hroom Hs Hh.
  assert (∀ l, report_event (ShimExited exit) (set_state l (LifecycleState.Exited exit.(ShimExit.exit))) =
     RuntimeEvent.Terminated l.(Lifecycle.session_id) exit.(ShimExit.exit).(RuntimeExit.code)
       exit.(ShimExit.exit).(RuntimeExit.signal) TerminationEvidence.ShimExit) as Ee by by intros [].
  pose proof (report_run (ShimExited exit) (<[u := l]> s) h w) as Hrep.
  cbn [report_state report_session report_task] in Hrep. rewrite Hu in Hrep.
  rewrite handle_rpc_run. cbn [handle_rpc_result]. rewrite run_bind_match.
  destruct (run (record_shim_exit exit) w) as [r w'].
  destruct Hrep as [Hrep|[_ Hf]]; [..|by destruct Hnf]; try done.
  { destruct Hfit as (? & ? & _). split; [by destruct (RuntimeExit.code _)|by destruct (RuntimeExit.signal _)]. }
  { intros l'. rewrite Ee. apply Hev. }
  unfold terminal_report, terminate in Hrep. rewrite lookup_insert_eq in Hrep.
  assert (is_terminal_state l.(Lifecycle.state) = false) as Hterm.
  { unfold is_running in Hrun. apply bool_decide_eq_true in Hrun. by rewrite Hrun. }
  rewrite Hterm, bool_decide_eq_false_2, insert_insert_eq, Ee, Hl in Hrep by done.
  destruct Hrep as (-> & Hs' & Hh' & _). by exists w'.
Qed.

Lemma typed_call {A} label path rpc response (read : RuntimeResponse → result Error A) a (w w' : W) c b (p : P) :
  run (handle_rpc rpc) w = (Ok response, w') → fits RuntimeRpc_codec rpc →
  fits RuntimeResponse_codec response → read response = Ok a →
  reconnecting label (response ← shim_request reaches asks path rpc; lift (read response)) (mkHost w c b p) =
    (Ok a, woken (mkHost w' c b p)).
Proof.
  intros Hr Hf Hfit Ha. apply reconnecting_at_once. unfold mbind, M_bind.
  rewrite (shim_request_run path rpc response w' (mkHost w c b p) Hf Hr Hfit). unfold lift. by rewrite Ha.
Qed.
(** What the shim comes upon on its own system: it starts the runtime, which ends with
    [status], and puts the shell back. *)
Definition shim_runs ts launch fuel (p : P) (pid shim : N) (t : DateTime) (status : ExitStatus) (p' : P) : Prop :=
  ∃ p1 p2 p3, ignore_user_interrupts p = (Ok tt, p1) ∧
    start_runtime ts launch p1 = (Ok (pid, shim, t), p2) ∧
    wait_for_runtime fuel pid p2 = (Ok (Some status), p3) ∧ resume_shell launch p3 = (Ok tt, p').

End session.

(** ** A concrete session *)

Section concrete.
#[local] Existing Instance decimal_external.
#[local] Existing Instance code_json.
#[local] Existing Instance idle_os.
#[local] Existing Instances demo_store demo_diagnostics demo_sink demo_build desk_os.
#[local] Instance demo_store_spec : StoreSpec Db := sqlite_spec quiet_db.
#[local] Instance demo_sink_spec : EventSpec Log := log_sink_spec steady_io "/d/events.jsonl".
(** The runtime runs for a tenth of a second. *)
#[local] Instance demo_desk : ShimOs Desk := desk_shim 100 1000.

Definition demo_launch : LaunchSpec := LaunchSpec.mk ["claude"] [] "/w" None.
Definition demo_begun : Server Db Log N := (run (begin_spawn demo_spawn demo_launch) demo_server).2.

Lemma demo_awaiting : awaiting demo_spawn demo_launch 0 ∅ [] demo_begun.
Proof.
  assert (storable (spawn_row demo_spawn)) as Hst by (repeat split; discriminate || exact I).
  pose proof (begin_spawn_run demo_spawn demo_launch ∅ demo_server Hst empty_db_repr) as Hrun. cbv zeta in Hrun.
  assert ((run (begin_spawn demo_spawn demo_launch) demo_server).1 = Ok 0) as Ev by (vm_compute; reflexivity).
  assert (logged [] demo_begun) as Hh by exact demo_serves.
  assert (demo_begun.(terminated_events) = ∅) as Et by (vm_compute; reflexivity).
  unfold demo_begun in *. destruct (run (begin_spawn demo_spawn demo_launch) demo_server) as [r w'].
  cbn [fst snd] in *. subst r. eapply spawn_begun_awaiting; [exact Hrun|exact Hh|]. rewrite Et. apply not_elem_of_empty.
Qed.

(** The desk once the session is over: the start time was asked for five times. *)
Definition demo_closed : Desk :=
  mkDesk 140 [(200%Z, 0%Z); (200%Z, 0%Z); (200%Z, 0%Z); (200%Z, 0%Z); (200%Z, 0%Z)].

End concrete.
