(* ===== verification/Company.v ===== *)
(** * A session in company

    The life of one session, from its begun spawn to the report of its exit, while the tasks
    of other sessions do anything between any two of its actions. What the daemon knows of
    the session goes from [stage] to [stage]; that the others leave each of them as it is
    comes from Isolation.v. *)

From S2P Require Import Prelude RustStr RustPath Types Parsers Json Serde Launch Errors Lifecycles.
From S2P Require Import Interfaces EventLog LogSink Store Prog Platform Paths Docker Server Proto.
From S2P Require Import Wire Doctor Kill Mcp Reconcile Handler Frames Races ServerSpec EndToEnd Session Isolation.
From stdpp Require Import options.

Section company.
Context {S L O : Type}
  `{!LifecycleStore S, !StoreDiagnostics S, !StoreKeys S, !StoreRecords S, !EventSink L, !EventSpec L,
    !Os O, !External, !Json, !Build}.

Notation W := (Server S L O).
Notation Task := (Prog W Error).

(** The session, the channel its spawn waits on, and the history before. *)
Variables (u : Uuid) (chan : nat) (h0 : list RuntimeEvent).

Notation apart := (apart u (Some chan) (λ _ : W, True)).

(** ** What the daemon knows of the session *)

Definition told (h : list RuntimeEvent) : list RuntimeEvent := filter (λ e, event_session e = u) h.

Record stage (row : Lifecycle) (launch : option LaunchSpec) (ready : option nat) (channel : Channel)
    (terminated : bool) (events : list RuntimeEvent) (w : W) : Prop := {
  stage_row : decoded (record_of u w.(store)) = Ok (Some row);
  stage_launch : w.(pending_launches) !! u = launch;
  stage_ready : w.(pending_ready) !! u = ready;
  stage_channel : w.(channels) !! chan = Some channel;
  stage_terminated : u ∈ w.(terminated_events) ↔ terminated = true;
  stage_events : ∃ h, event_repr (h0 ++ h) w.(log) ∧ told h = events }.

(** A condition on what the daemon knows of the session. *)
Definition own (φ : W → Prop) : Prop := ∀ w w', φ w → untouched u (Some chan) w w' → φ w'.

Lemma told_others h : Forall (λ e, event_session e ≠ u) h → told h = [].
Proof.
  unfold told. induction 1 as [|e h He _ IH]; [done|]. rewrite filter_cons. by rewrite decide_False.
Qed.

Lemma own_stage row launch ready channel terminated events :
  own (stage row launch ready channel terminated events).
Proof.
  intros w w' [Hrow Hl Hr Hc Ht (h & Hh & He)] [].
  split; [congruence|congruence|congruence|by rewrite same_channel|by rewrite same_terminated|].
  destruct (same_events _ Hh) as (h' & Hh' & Ho). exists (h ++ h'). rewrite app_assoc. split; [done|].
  unfold told. rewrite filter_app. fold (told h) (told h'). rewrite (told_others h') by done. by rewrite app_nil_r.
Qed.

(** What every state has in which the session's spawn has begun. *)
Definition sound (w : W) : Prop := keyed w.(store) ∧ channel_apart u (Some chan) w.

Lemma untouched_refl (w : W) : untouched u (Some chan) w w.
Proof. split; try done. intros h Hh. exists []. by rewrite app_nil_r. Qed.

Lemma sound_apart T (w : W) : sound w → apart w T w.
Proof. intros [Hk Hc]. split; [done|]. split; [done|]. split; [apply untouched_refl|done]. Qed.

(** ** The tasks of the session among others *)

Variable other : Task unit → Prop.
Hypothesis other_safe : ∀ p, other p → safe apart ∅ p.
#[local] Set Default Proof Using "Type* other_safe".

(** [φ] held when the others started on what they are at. *)
Definition held (φ : W → Prop) (c : list (Task unit) * W) : Prop :=
  ∃ w, φ w ∧ pool_ok apart w c.

Definition company {A} (φ : W → Prop) (p : Task A) (Q : result Error A → W → Prop) : Prop :=
  ∀ c r c', held φ c → amid other p c r c' → held (Q r) c'.

Lemma held_steps φ c c' : held φ c → rtc (pool_step other) c c' → held φ c'.
Proof.
  intros (w & Hw & Hp) Hs. exists w. split; [done|]. eapply pool_reachable_ok; [|exact other_safe|exact Hp|exact Hs].
  by intros w0 T G w1.
Qed.

Lemma company_conseq {A} (φ φ' : W → Prop) (p : Task A) (Q Q' : result Error A → W → Prop) :
  company φ' p Q' → (∀ w, φ w → φ' w) → (∀ r w, Q' r w → Q r w) → company φ p Q.
Proof.
  intros Hp Hφ HQ c r c' (w & Hw & Hc) Ha. destruct (Hp c r c') as (w' & Hw' & Hc'); [by exists w; auto|done|].
  exists w'. auto.
Qed.

Lemma company_done {A} φ (r : result Error A) (Q : result Error A → W → Prop) :
  (∀ w, φ w → Q r w) → company φ (Done r) Q.
Proof.
  intros HQ c r' c' Hc [-> Hs]. eapply held_steps in Hs as (w & Hw & Hp); [|exact Hc]. exists w. auto.
Qed.
Lemma company_ret {A} φ (a : A) (Q : result Error A → W → Prop) :
  (∀ w, φ w → Q (Ok a) w) → company φ (mret a) Q.
Proof. apply company_done. Qed.

Lemma company_bind {A B} φ (ψ : result Error A → W → Prop) (p : Task A) (f : A → Task B) Q :
  company φ p ψ → (∀ a, company (ψ (Ok a)) (f a) Q) → (∀ e w, ψ (Err e) w → Q (Err e) w) →
  company φ (p ≫= f) Q.
Proof.
  intros Hp Hf He c r c' Hc (r1 & c1 & Ha & Hr)%amid_bind. apply Hp in Ha; [|done].
  destruct r1 as [a|e]; [by eapply Hf|]. destruct Hr as [-> <-]. destruct Ha as (w & Hw & Hpo). exists w. auto.
Qed.

Lemma company_pure {A} (P : Prop) φ (p : Task A) Q :
  (P → company φ p Q) → company (λ w, P ∧ φ w) p Q.
Proof. intros Hp c r c' (w & [HP Hw] & Hc) Ha. apply (Hp HP c r c'); [by exists w|done]. Qed.
Lemma company_exists {A B} (φ : B → W → Prop) (p : Task A) Q :
  (∀ b, company (φ b) p Q) → company (λ w, ∃ b, φ b w) p Q.
Proof. intros Hp c r c' (w & [b Hw] & Hc) Ha. apply (Hp b c r c'); [by exists w|done]. Qed.

Lemma company_value {A B} (a b : A) φ (p : Task B) Q :
  (a = b → company φ p Q) → company (λ w, Ok (E := Error) a = Ok b ∧ φ w) p Q.
Proof. intros Hp c r c' (w & [[= E] Hw] & Hc) Ha. apply (Hp E c r c'); [by exists w|done]. Qed.
Lemma company_map {A B} φ (f : A → B) (p : Task A) Q :
  company φ p Q → company φ (a ← p; mret (f a)) (λ r w, ∃ r0, r = f <$> r0 ∧ Q r0 w).
Proof.
  intros Hp. eapply company_bind; [exact Hp| |by intros e w Hw; exists (Err e)].
  intros a. apply company_ret. intros w Hw. by exists (Ok a).
Qed.
Lemma company_fmap {A B} φ (f : A → B) (p : Task A) Q :
  company φ p Q → company φ (f <$> p) (λ r w, ∃ r0, r = f <$> r0 ∧ Q r0 w).
Proof. apply company_map. Qed.

Lemma company_attempted {A} φ (p : Task A) Q :
  company φ p (λ r, Q (Ok r)) → company φ (attempted p) Q.
Proof. intros Hp c r c' Hc (r0 & -> & Ha)%amid_attempted. by eapply Hp. Qed.

(** An action of the session finds what the session's last one left. *)
Lemma company_atomic {A} φ (m : M W Error A) (Q : result Error A → W → Prop) :
  own φ → (∀ w, φ w → sound w → let '(r, w') := m w in Q r w' ∧ sound w') → company φ (atomic m) Q.
Proof.
  intros Ho Hm c r c' Hc (l & w & Hs & Ha). eapply held_steps in Hs as (w0 & Hw0 & Ts & Hsafe & Hx & Hi); [|exact Hc].
  destruct Hi as (_ & Hk & Hun & Hch). cbn [snd] in *.
  specialize (Hm w (Ho _ _ Hw0 Hun) (conj Hk Hch)). destruct (m w) as [r' w'] eqn:Em. cbn [fst snd amid] in Ha.
  destruct Ha as [-> Hs']. destruct Hm as [HQ Hsound]. eapply held_steps; [|exact Hs'].
  exists w'. split; [done|]. exists Ts. split; [done|]. split; [done|]. by apply sound_apart.
Qed.

(** ** Actions *)

(** Some append to the log returned an error. *)
Definition append_failed : Prop := ∃ e (l : L), is_ok (append_event e l).1 = false.

Section actions.
Variables (row : Lifecycle) (launch : option LaunchSpec) (ready : option nat) (channel : Channel)
  (terminated : bool) (events : list RuntimeEvent).
Notation here := (stage row launch ready channel terminated events).

Lemma company_get_session :
  company here (get_session u) (λ r w, match r with Ok l => l = row ∧ here w | Err _ => records_failed end).
Proof.
  unfold get_session. apply (company_bind _ (λ r w, match r with Ok o => o = Some row ∧ here w | Err _ => records_failed end)).
  - apply company_atomic; [apply own_stage|]. intros w [] [Hk Hc]. unfold on_store.
    pose proof (kept_get u _ (store w) eq_refl) as Hg. pose proof (keyed_get u _ Hk) as Hk'.
    destruct (get u (store w)) as [[o|e] s].
    + destruct Hg as [Hg Hd], Hk' as [Hk' _]. rewrite stage_row0 in Hd. injection Hd as <-.
      split; [|by split]. split; [done|]. split; try done. cbn. congruence.
    + destruct Hg as [Hg [Hf|Hd]]; [|by destruct (Hd _ stage_row0)]. by split; [|split].
  - intros o. destruct o as [l|]; (apply company_done; intros w [? Hw]); simplify_eq. by split.
  - done.
Qed.

Lemma company_update (row' : Lifecycle) :
  storable row' → row'.(Lifecycle.session_id) = u →
  company here (atomic (on_store (update_lifecycle row')))
    (λ r w, match r with
            | Ok _ => stage (stored row') launch ready channel terminated events w
            | Err _ => records_failed
            end).
Proof.
  intros Hst Hu. apply company_atomic; [apply own_stage|]. intros w [] [Hk Hc]. unfold on_store.
  rewrite <- Hu in stage_row0.
  pose proof (written_update_lifecycle row' row _ Hst stage_row0 (store w) eq_refl) as Hw.
  pose proof (keyed_update_lifecycle row' _ Hk) as Hk'. cbv beta in Hw, Hk'. rewrite Hu in Hw.
  destruct (update_lifecycle row' (store w)) as [[[]|e] s]; [by split; [|split]|].
  by split; [apply Hw|split].
Qed.

Lemma company_populate config l :
  company here (populate_log_availability config l)
    (λ r w, ∃ a, r = Ok (set_log_availability l (Some a)) ∧ here w).
Proof.
  unfold populate_log_availability.
  apply (company_bind _ (λ r w, is_ok r = true ∧ here w)); [|intros a; apply company_ret; intros w [_ Hw]; by exists a|by intros e w [? _]].
  destruct (Lifecycle.tmux_pane l) as [address|]; [|by apply company_ret].
  apply (company_bind _ (λ r w, is_ok r = true ∧ here w)); [|intros r; by apply company_ret; intros w [_ Hw]|by intros e w [? _]].
  apply company_attempted. apply company_atomic; [apply own_stage|]. intros w [] Hs. unfold on_os.
  by destruct (tmux_is_alive address (os w)) as [r o].
Qed.

Lemma company_modify (f : W → W) :
  (∀ w, (f w).(store) = w.(store) ∧ (f w).(log) = w.(log) ∧ (f w).(pending_launches) = w.(pending_launches) ∧
        (f w).(pending_ready) = w.(pending_ready) ∧ (f w).(channels) = w.(channels) ∧
        (f w).(terminated_events) = w.(terminated_events)) →
  company here (atomic (modify f)) (λ r w, r = Ok tt ∧ here w).
Proof.
  intros Hf. apply company_atomic; [apply own_stage|]. intros w [] [Hk Hc].
  destruct (Hf w) as (Es & El & Ep & Er & Ec & Et). unfold modify. unfold sound, channel_apart.
  rewrite Es, Er, Ec. split; [|done]. split; [done|].
  split; rewrite ?Es, ?El, ?Ep, ?Er, ?Ec, ?Et; done.
Qed.

Lemma company_append e :
  event_session e = u →
  company here (server_append_event e)
    (λ r w, match r with
            | Ok e' => e' = e ∧ stage row launch ready channel terminated (events ++ [e]) w
            | Err _ => append_failed
            end).
Proof.
  intros He. apply company_atomic; [apply own_stage|]. intros w [Hrow Hl Hr Hc Ht (h & Hh & <-)] Hs. unfold on_log.
  pose proof (append_event_spec (h0 ++ h) e (log w) Hh) as Ha.
  destruct (append_event e (log w)) as [[e'|err] l] eqn:E; (split; [|done]).
  - destruct Ha as [-> Ha]. split; [done|]. split; try done. exists (h ++ [e]). rewrite app_assoc. split; [done|].
    unfold told. by rewrite filter_app, filter_cons, decide_True.
  - exists e, (log w). by rewrite E.
Qed.
End actions.

(** ** The calls of the session *)

Lemma company_take_launch row launch ready channel terminated events :
  company (stage row (Some launch) ready channel terminated events) (take_launch_spec u)
    (λ r w, r = Ok launch ∧ stage row None ready channel terminated events w).
Proof.
  unfold take_launch_spec.
  apply (company_bind _ (λ r w, r = Ok (Some launch) ∧ stage row None ready channel terminated events w)).
  - apply company_atomic; [apply own_stage|]. intros w [] [Hk Hc]. split; [|by split].
    split; [by rewrite stage_launch0|]. split; try done. apply lookup_delete_eq.
  - intros o. apply company_value. intros ->. by apply company_done.
  - by intros e w [? _].
Qed.

Lemma company_ready_reported row launch report terminated events :
  report.(ShimReady.session_id) = u →
  company (stage row launch (Some chan) Waiting terminated events) (complete_shim_ready report)
    (λ r w, r = Ok tt ∧ stage row launch None (Sent report) terminated events w).
Proof.
  intros Hu. unfold complete_shim_ready. rewrite Hu.
  apply (company_bind _ (λ r w, r = Ok (Some chan) ∧ stage row launch None Waiting terminated events w)).
  - apply company_atomic; [apply own_stage|]. intros w [] [Hk Hc]. split; [|split; [done|]].
    + split; [by rewrite stage_ready0|]. split; try done. apply lookup_delete_eq.
    + intros c Hchan. destruct (Hc c Hchan) as [Hs Hv]. split; [done|]. intros v Hne. cbn.
      rewrite lookup_delete_ne by done. by apply Hv.
  - intros sender. apply company_value. intros ->.
    apply (company_bind _ (λ r w, r = Ok true ∧ stage row launch None (Sent report) terminated events w)).
    + apply company_atomic; [apply own_stage|]. intros w [] [Hk Hc].
      rewrite stage_channel0. split; [|split; [done|]].
      * split; [done|]. split; try done. apply lookup_insert_eq.
      * intros c' [= <-]. cbn. split; [by rewrite lookup_insert_eq|]. by apply (Hc chan).
    + intros b. apply company_value. intros ->. by apply company_ret.
    + by intros e w [? _].
  - by intros e w [? _].
Qed.

(** What can fail besides. *)
Definition failed : Prop := records_failed ∨ append_failed.

Lemma company_finish_spawn config request evidence launch report :
  request.(SpawnRequest.session_id) = u → storable (spawn_row request) → fits ShimReady_codec report →
  pane_fits (tmux_address request.(SpawnRequest.target)) →
  let row := running_row request report in
  let started := RuntimeEvent.Running u report.(ShimReady.runtime_pid) report.(ShimReady.start_time) in
  company (stage (spawn_row request) launch None (Sent report) false [])
    (finish_spawn config request chan evidence)
    (λ r w, match r with
            | Ok response =>
                (∃ a, response = spawned_response (set_log_availability row (Some a)) started evidence.(log_paths)) ∧
                stage row launch None (Sent report) false [started] w
            | Err _ => failed
            end).
Proof.
  intros Hu Hst Hfit Hpane row started. assert (storable row) as Hrow
    by (apply set_tmux_pane_storable; [by apply mark_running_storable|done]).
  set (forking := stage (spawn_row request) launch None (Sent report) false []).
  set (running := stage row launch None (Sent report) false).
  unfold finish_spawn. apply (company_bind _ (λ r w, r = Ok report ∧ forking w)); [| |by intros e w [? _]].
  { apply company_atomic; [apply own_stage|]. intros w Hw Hs. unfold await_ready. by rewrite (stage_channel _ _ _ _ _ _ _ Hw). }
  intros report'. apply company_value. intros ->.
  apply (company_bind _ (λ r w, match r with
            | Ok res => (∃ a, res = (set_log_availability row (Some a), started)) ∧ running [started] w
            | Err _ => failed end)); [| |done].
  2:{ intros res. apply company_ret. intros w [[a ->] Hw]. split; [by exists a|done]. }
  unfold record_running. rewrite Hu.
  apply (company_bind _ _ _ _ _ (company_get_session _ _ _ _ _ _)); [|by left].
  intros l. apply company_pure. intros ->. rewrite bool_decide_eq_true_2 by done. cbn [negb].
  rewrite (surjective_pairing (mark_running _ _)). change ((mark_running (spawn_row request) report).2) with true.
  cbn [negb]. fold row.
  apply (company_bind _ _ _ _ _ (company_populate _ _ _ _ _ _ config row)); [|by intros e w (a & ? & _)].
  intros l'. apply company_exists. intros a. apply company_value. intros ->.
  eapply company_bind; [by apply company_update|intros []|by left].
  assert (running_event (set_log_availability row (Some a)) = Ok started) as ->
    by (unfold started; rewrite <- Hu; reflexivity).
  change (lift_result (Ok started) ≫= ?f) with (f started). cbv beta.
  eapply company_bind; [apply company_modify| |by intros e w [? _]].
  { intros w. by destruct (exit_watchers w !! u). }
  intros []. apply company_value. intros _.
  eapply company_bind; [by apply company_append| |by right].
  intros e. apply company_ret. intros w [-> Hw]. split; [by exists a|done].
Qed.

Lemma company_exit_reported row launch ready channel events exit :
  exit.(ShimExit.session_id) = u → row.(Lifecycle.session_id) = u → is_running row = true →
  storable row → stored row = row → fits RuntimeExit_codec exit.(ShimExit.exit) →
  let ended := RuntimeEvent.Terminated u exit.(ShimExit.exit).(RuntimeExit.code)
                 exit.(ShimExit.exit).(RuntimeExit.signal) TerminationEvidence.ShimExit in
  company (stage row launch ready channel false events) (record_shim_exit exit)
    (λ r w, match r with
            | Ok _ => stage (set_state row (LifecycleState.Exited exit.(ShimExit.exit))) launch ready channel true
                        (events ++ [ended]) w
            | Err _ => failed
            end).
Proof.
  intros Hu Hs Hrun Hst Hsto Hfit ended. unfold record_shim_exit, record_exited. rewrite Hu.
  apply (company_bind _ _ _ _ _ (company_get_session _ _ _ _ _ _)); [|by left].
  intros l. apply company_pure. intros ->. set (row' := set_state row _).
  unfold is_running in Hrun. apply bool_decide_eq_true in Hrun as Hr.
  assert (storable row') as Hst'.
  { pose proof (mark_exited_storable row exit.(ShimExit.exit) Hst Hfit) as Hm. unfold mark_exited in Hm. by rewrite Hr in Hm. }
  assert (mark_exited row exit.(ShimExit.exit) = (row', true)) as -> by (unfold mark_exited; by rewrite Hr).
  cbn [negb]. assert (stored row' = row') as Hsto' by (unfold row'; rewrite stored_set_state; by rewrite Hsto).
  assert (row'.(Lifecycle.session_id) = u) as Hs' by (rewrite <- Hs; by destruct row).
  eapply company_bind; [by apply company_update|intros []|by left]. rewrite Hsto'.
  unfold finish_terminal. eapply company_bind; [by apply company_modify| |by intros e w [? _]].
  intros []. apply company_value. intros _.
  eapply (company_bind _ (λ r w, r = Ok true ∧ stage row' launch ready channel true events w)); [| |by intros e w [? _]].
  { apply company_atomic; [apply own_stage|]. intros w [] [Hk Hc]. split; [|done].
    rewrite bool_decide_eq_true_2; [|by rewrite stage_terminated0]. split; [done|]. split; try done.
    cbn. split; [done|]. intros _. set_solver. }
  intros inserted. apply company_value. intros ->. cbn [negb]. cbv zeta.
  assert (terminated_event row' TerminationEvidence.ShimExit = ended) as ->
    by (unfold terminated_event; rewrite Hs'; by destruct row).
  eapply company_bind; [by apply company_append| |by right].
  intros e. apply company_ret. by intros w [_ Hw].
Qed.

(** ** The session from end to end *)

Section session.
Variables (config : DaemonConfig) (which : nat → string → WhichOutput) (path_var : option string)
  (arch : string) (event_waiter_count : L → nat) (path_env : RuntimePathEnv)
  (utc_now : M O Error DateTime) (started_instant : N) (notified_first : bool).
Variables (request : SpawnRequest) (evidence : SpawnEvidence) (report : ShimReady) (exit : ShimExit).

Notation handle_rpc_result := (handle_rpc_result config which path_var arch event_waiter_count path_env utc_now
  started_instant notified_first).
Notation handle_rpc := (handle_rpc config which path_var arch event_waiter_count path_env utc_now started_instant
  notified_first).

(** The calls of the shim, each made once the one before is answered, and the spawn, which
    goes on when its shim has reported ready and before the exit is reported. *)
Definition session_tasks : Task (RuntimeResponse * RuntimeResponse * RuntimeResponse * RuntimeResponse) :=
  launched ← handle_rpc (RuntimeRpc.ShimLaunch u);
  ready ← handle_rpc (RuntimeRpc.ShimReady report);
  spawned ← finish_spawn config request chan evidence;
  exited ← handle_rpc (RuntimeRpc.ShimExit exit);
  mret (launched, ready, spawned, exited).

Lemma company_handle_rpc φ rpc (Q : result Error RuntimeResponse → W → Prop) :
  company φ (handle_rpc_result rpc) Q →
  company φ (handle_rpc rpc)
    (λ r w, ∃ r0, r = Ok (match r0 with
                          | Ok response => response
                          | Err e => RuntimeResponse.Error (rpc_error_response (error_context rpc) e)
                          end) ∧ Q r0 w).
Proof.
  intros Hp. unfold Handler.handle_rpc.
  apply (company_bind _ (λ r w, ∃ r0, r = Ok r0 ∧ Q r0 w)); [| |by intros e w (? & ? & _)].
  { apply company_attempted. eapply company_conseq; [exact Hp|done|]. intros r w Hw. by exists r. }
  intros r. apply company_ret. intros w (r0 & [= ->] & Hw). by exists r0.
Qed.

Definition is_error (response : RuntimeResponse) : bool :=
  match response with RuntimeResponse.Error _ => true | _ => false end.

Lemma company_session launch :
  let row := running_row request report in
  let started := RuntimeEvent.Running u report.(ShimReady.runtime_pid) report.(ShimReady.start_time) in
  let ended := RuntimeEvent.Terminated u exit.(ShimExit.exit).(RuntimeExit.code)
                 exit.(ShimExit.exit).(RuntimeExit.signal) TerminationEvidence.ShimExit in
  request.(SpawnRequest.session_id) = u → report.(ShimReady.session_id) = u → exit.(ShimExit.session_id) = u →
  storable (spawn_row request) → pane_fits (tmux_address request.(SpawnRequest.target)) →
  fits ShimReady_codec report → fits RuntimeExit_codec exit.(ShimExit.exit) →
  company (stage (spawn_row request) (Some launch) (Some chan) Waiting false []) session_tasks
    (λ r w, match r with
            | Ok (launched, ready, spawned, exited) =>
                launched = RuntimeResponse.ShimLaunch launch ∧ ready = RuntimeResponse.Ack ∧
                (∃ a, spawned = spawned_response (set_log_availability row (Some a)) started evidence.(log_paths)) ∧
                (exited = RuntimeResponse.Ack ∧
                   stage (set_state row (LifecycleState.Exited exit.(ShimExit.exit))) None None (Sent report) true
                     [started; ended] w ∨
                 is_error exited = true ∧ failed)
            | Err _ => failed
            end).
Proof.
  intros row started ended Hu Hr He Hst Hpane Hready Hexit. unfold session_tasks.
  set (begun := spawn_row request). assert (storable row) as Hrow
    by (apply set_tmux_pane_storable; [by apply mark_running_storable|done]).
  eapply (company_bind _ (λ r w, r = Ok (RuntimeResponse.ShimLaunch launch) ∧
    stage begun None (Some chan) Waiting false [] w)); [| |by intros e w [? _]].
  { eapply company_conseq; [apply company_handle_rpc; cbn [Handler.handle_rpc_result];
      eapply company_fmap, company_take_launch|done|]. by intros r w (? & -> & ? & -> & -> & Hw). }
  intros launched. apply company_value. intros ->.
  eapply (company_bind _ (λ r w, r = Ok RuntimeResponse.Ack ∧ stage begun None None (Sent report) false [] w));
    [| |by intros e w [? _]].
  { eapply company_conseq; [apply company_handle_rpc; cbn [Handler.handle_rpc_result];
      eapply company_map, company_ready_reported, Hr|done|]. by intros r w (? & -> & ? & -> & -> & Hw). }
  intros ready. apply company_value. intros ->.
  eapply company_bind; [by apply company_finish_spawn| |done].
  intros spawned. apply company_pure. intros [a ->].
  eapply (company_bind _ (λ r w, ∃ exited, r = Ok exited ∧ (exited = RuntimeResponse.Ack ∧
      stage (set_state row (LifecycleState.Exited exit.(ShimExit.exit))) None None (Sent report) true [started; ended] w ∨
      is_error exited = true ∧ failed))); [| |by intros e w (? & ? & _)].
  { eapply company_conseq; [apply company_handle_rpc; cbn [Handler.handle_rpc_result];
      eapply company_map, (company_exit_reported row _ _ _ _ exit He); done|done|].
    intros r w (? & -> & r0 & -> & Hw). destruct r0 as [event|e]; (eexists; split; [reflexivity|]); [by left|by right]. }
  intros exited. apply company_exists. intros exited'. apply company_value. intros <-.
  apply company_ret. intros w Hw. split_and!; [done|done|by exists a|done].
Qed.
End session.
End company.


(** ** A concrete session in company

    Session 9 is spawned, runs and ends while session 7 does. *)

Section concrete.
#[local] Existing Instance decimal_external.
#[local] Existing Instance code_json.
#[local] Existing Instance idle_os.
#[local] Existing Instances demo_store demo_diagnostics demo_sink demo_build.
#[local] Instance demo_keys : StoreKeys Db := sqlite_keys quiet_db [] [].
#[local] Instance demo_records : StoreRecords Db := sqlite_records quiet_db [] [].
#[local] Instance demo_events : EventSpec Log := log_sink_spec steady_io "/d/events.jsonl".

Definition demo_report : ShimReady := ShimReady.mk (mkUuid 7) 100 200 0 None.
Definition demo_exit : ShimExit := ShimExit.mk (mkUuid 7) (RuntimeExit.mk (Some 0%Z) None).
Definition demo_session : Prog (Server Db Log N) Error (RuntimeResponse * RuntimeResponse * RuntimeResponse * RuntimeResponse) :=
  session_tasks (mkUuid 7) 0 demo_config (λ _ binary, Ok (true, "/bin/" +:+ binary)) None "x86_64" (λ _, 0)
    (RuntimePathEnv.mk None None None None None None) (mret 0%Z) 0 true demo_spawn (mkEvidence None)
    demo_report demo_exit.
(** What the other connections do before each action of the session. *)
Definition demo_schedule : list (list nat) :=
  [repeat 0 4; repeat 0 3; repeat 0 2; repeat 1 4; repeat 2 2; repeat 2 4; repeat 0 6; repeat 0 6; repeat 3 4;
   repeat 4 2; repeat 4 2; repeat 4 2; repeat 3 5].
Definition demo_company := amid_run demo_schedule demo_session (demo_others, demo_waiting).

Definition demo_launch : LaunchSpec :=
  LaunchSpec.mk ["/bin/claude"]
    [LaunchEnv.mk "HELIOY_SESSION_ID" "7"; LaunchEnv.mk "HELIOY_RUNTIME" "claude"; LaunchEnv.mk "RTM_SESSION_ID" "7";
     LaunchEnv.mk "RTM_RUNTIME_KIND" "claude"] "/w" None.

Lemma demo_stage : stage (mkUuid 7) 0 [] (spawn_row demo_spawn) (Some demo_launch) (Some 0) Waiting false [] demo_waiting.
Proof.
  split; [vm_compute; reflexivity..| |].
  - assert (demo_waiting.(terminated_events) = ∅) as -> by (vm_compute; reflexivity). split; [set_solver|done].
  - exists []. split; [|done]. assert (demo_waiting.(log) = new_log 0) as -> by (vm_compute; reflexivity). constructor.
Qed.

End concrete.
