(* ===== verification/CliEndToEnd.v ===== *)
(** * Commands and the daemon together

    The commands of Cli.v over connections to the tasks of Handler.v: what is printed and the
    exit status are those of the daemon's task. *)

From S2P Require Import Prelude RustStr RustPath Types Parsers Json Serde Launch Errors Lifecycles.
From S2P Require Import Interfaces EventLog LogSink Store Prog Platform Paths CliSpawn Docker Server Proto.
From S2P Require Import Wire CliOutput Client CliFormat Cli Doctor Kill Mcp Handler Races EndToEnd.
From stdpp Require Import options.

(** The daemon's task over the world of a terminal. *)
Definition with_world {W} (w : W) (t : Terminal W) : Terminal W :=
  Terminal.mk w t.(Terminal.stdin) t.(Terminal.stdout) t.(Terminal.stderr).
Definition printed {W} (out err : string) (t : Terminal W) : Terminal W :=
  Terminal.mk t.(Terminal.world) t.(Terminal.stdin) (t.(Terminal.stdout) +:+ out) (t.(Terminal.stderr) +:+ err).

Section commands.
Context {S L O : Type}
  `{!LifecycleStore S, !StoreDiagnostics S, !EventSink L, !Os O, !External, !Json, !Build}
  `{!CliOs (Server S L O)}.
Variable config : DaemonConfig.
Variable which : nat → string → WhichOutput.
Variable path_var : option string.
Variable arch : string.
Variable event_waiter_count : L → nat.
Variable path_env : RuntimePathEnv.
Variable utc_now : M O Error DateTime.
Variable started_instant : N.
Variable notified_first : bool.

Notation W := (Server S L O).
Notation daemon := (serves_alone config which path_var arch event_waiter_count path_env utc_now started_instant
  notified_first).

(** ** One MCP session *)

(** What the bridge prints for the lines of its input, and what becomes of the daemon. *)
Fixpoint mcp_session (lines : list string) (w : W) : string * W :=
  match lines with
  | [] => (EmptyString, w)
  | line :: lines =>
      let request := trim_end line in
      if String.eqb request "" then mcp_session lines w else
      let '(answer, w1) := run (handle_line config event_waiter_count request) w in
      let '(out, w2) := mcp_session lines w1 in
      (match answer with Ok (Some text) => ln text +:+ out | _ => out end, w2)
  end.

Variable debug : RuntimeResponse → string.

(** What a request of a command gives. *)
Lemma shared_request_run path rpc response w' (t : Terminal W) :
  fits RuntimeRpc_codec rpc →
  run (handle_rpc config which path_var arch event_waiter_count path_env utc_now started_instant
         notified_first rpc) t.(Terminal.world) = (Ok response, w') →
  fits RuntimeResponse_codec response →
  shared_request connects daemon path rpc t =
    (map_err (λ e, Failed (OfClient e)) (client_view response), with_world w' t).
Proof.
  intros Hf Hr Hfit. unfold shared_request, in_client, on_world.
  by rewrite (client_request_run _ _ _ _ _ _ _ _ _ _ _ _ _ _ Hf Hr Hfit).
Qed.

Lemma bridge_line_run path line (t : Terminal W) :
  bridge_line connects daemon debug path line t =
    let '(answer, w') := run (handle_line config event_waiter_count line) t.(Terminal.world) in
    (match answer with Ok answer => Ok answer | Err _ => Ok None end, with_world w' t).
Proof.
  destruct (handle_line_total config event_waiter_count line t.(Terminal.world)) as (answer & w' & E & _).
  unfold bridge_line, mbind, M_bind. erewrite shared_request_run; [|by repeat split| |].
  3:{ instantiate (1 := RuntimeResponse.McpBridge answer). by repeat split; destruct answer. }
  2:{ rewrite handle_rpc_run. cbn [handle_rpc_result]. rewrite run_fmap, E. reflexivity. }
  by rewrite E.
Qed.

Lemma bridge_turn_run path line rest (t : Terminal W) :
  read_until_newline t.(Terminal.stdin) = (line, rest) → utf8_valid line = true → line ≠ "" →
  bridge_turn connects daemon debug path t =
    let '(out, w') := mcp_session [line] t.(Terminal.world) in
    (Ok true, Terminal.mk w' rest (t.(Terminal.stdout) +:+ out) t.(Terminal.stderr)).
Proof.
  intros E Hu Hl. unfold bridge_turn, read_stdin_line, mbind at 1, M_bind at 1. rewrite E, Hu.
  destruct (String.eqb_spec line "") as [|_]; [done|]. cbn [mcp_session].
  destruct (String.eqb (trim_end line) ""); [by rewrite str_app_nil_r|].
  unfold mbind at 1, M_bind at 1. rewrite bridge_line_run. cbn [Terminal.world].
  destruct (handle_line_total config event_waiter_count (trim_end line) t.(Terminal.world)) as (answer & w' & -> & _).
  destruct answer as [text|]; cbn; by rewrite ?str_app_nil_r.
Qed.

Lemma mcp_session_cons line lines (w : W) :
  mcp_session (line :: lines) w =
    let '(out1, w1) := mcp_session [line] w in
    let '(out2, w2) := mcp_session lines w1 in (out1 +:+ out2, w2).
Proof.
  cbn [mcp_session]. destruct (String.eqb (trim_end line) "").
  { destruct (mcp_session lines w) as [out w2]. done. }
  destruct (run _ _) as [answer w1]. destruct (mcp_session lines w1) as [out w2].
  destruct answer as [[text|]|]; [|done..]. by rewrite str_app_nil_r.
Qed.

Lemma run_stdio_run fuel path (t : Terminal W) :
  String.length t.(Terminal.stdin) < fuel →
  Forall (λ line, utf8_valid line = true) (stdin_lines fuel t.(Terminal.stdin)) →
  run_stdio connects daemon debug fuel path t =
    let '(out, w') := mcp_session (stdin_lines fuel t.(Terminal.stdin)) t.(Terminal.world) in
    (Ok true, Terminal.mk w' EmptyString (t.(Terminal.stdout) +:+ out) t.(Terminal.stderr)).
Proof.
  revert t. induction fuel as [|fuel IH]; intros [w input so se]; cbn [Terminal.stdin]; [lia|].
  intros Hf. cbn [stdin_lines run_stdio]. destruct (read_until_newline input) as [line rest] eqn:E.
  pose proof (read_until_newline_rest _ _ _ E) as [Hi Hl].
  destruct (String.eqb_spec line "") as [->|Hne].
  - intros _. assert (input = "") as -> by (by apply Hl). injection E as <-.
    cbn. by rewrite str_app_nil_r.
  - intros [Hu Hall]%Forall_cons. rewrite mcp_session_cons. unfold mbind, M_bind.
    rewrite (bridge_turn_run path line rest) by done. cbn [Terminal.world].
    destruct (mcp_session [line] w) as [out1 w1]. rewrite IH; cbn [Terminal.stdin Terminal.world].
    + destruct (mcp_session _ w1) as [out2 w2]. cbn. by rewrite str_app_assoc.
    + subst input. rewrite length_app_str in Hf. destruct line; [done|]. cbn in Hf. lia.
    + done.
Qed.

Variable environ : Environ.
Variable canonical_path : string → result IoError string.
Variable is_dir : string → bool.
Variable current_dir : result IoError string.
Variable to_string_pretty : Value → string.
Variable debug_conflict : SpawnConflictKind → Lifecycle → string.
Variable debug_capture : CaptureError → string.
Variable debug_nudge : NudgeResponse → string.
Variable run_daemon : M (Terminal W) Halt unit.
Variable open_store : string → M (Terminal W) Halt unit.
Variable run_shim : Uuid → M (Terminal W) Halt unit.

Notation run_main := (run_main connects daemon environ canonical_path is_dir current_dir to_string_pretty
  debug_conflict debug debug_capture debug_nudge run_daemon open_store run_shim).

(** The command finds a socket path. *)
Definition has_socket : Prop :=
  is_ok (unix_socket_path (env_from_process (var_os environ))) = true.

Lemma cli_socket_path_run (t : Terminal W) :
  has_socket → ∃ path, cli_socket_path environ t = (Ok path, t).
Proof.
  unfold has_socket, cli_socket_path, of_result, lift. destruct (unix_socket_path _) as [path|]; [|done].
  by exists path.
Qed.

(** How a command of the daemon's tasks ends. *)
Definition finished (format : OutputFormat) (r : result ClientError (Value * string)) (t : Terminal W)
    : option Z * Terminal W :=
  match r with
  | Ok (json, human) => (Some 0%Z, printed (emit to_string_pretty format json human) "" t)
  | Err e => (Some 1%Z, printed "" (emit_error debug_conflict to_string_pretty format (OfClient e)) t)
  end.

Lemma printed_world (w : W) (t : Terminal W) out err :
  printed out err (with_world w t) = with_world w (printed out err t).
Proof. done. Qed.

Lemma kill_run fuel args format request (t : Terminal W) :
  has_socket → fits KillRequest_codec request → requested_format (drop 1 args) = format →
  run_main fuel args (CliCommand.Kill format
      (KillArgs.mk (Some request.(KillRequest.session_id)) None request.(KillRequest.signal)
         request.(KillRequest.grace_secs))) t =
    let '(r, w') := run (kill_runtime request) t.(Terminal.world) in
    finished format
      (remote RpcErrorContext.Other
         ((λ outcome, (enc KilledPayload_codec outcome, render_KilledPayload outcome)) <$> r)) (with_world w' t).
Proof.
  intros Hs Hf Hfmt. destruct (cli_socket_path_run t Hs) as (path & Ep).
  pose proof (client_kill_run config which path_var arch event_waiter_count path_env utc_now started_instant
                notified_first path request t.(Terminal.world) Hf) as Hk.
  unfold Cli.run_main. cbn [run_command]. unfold run_kill. cbn [KillArgs.pid KillArgs.session_id KillArgs.signal
    KillArgs.grace_secs]. unfold mbind, M_bind, of_result at 1, lift. cbn [ok_or map_err]. rewrite Ep.
  unfold in_client, on_world. replace (KillRequest.mk _ _ _) with request by (by destruct request). rewrite Hk.
  destruct (run (kill_runtime request) _) as [[outcome|e] w']; cbn; rewrite ?Hfmt; unfold printed, with_world; cbn;
    by rewrite str_app_nil_r.
Qed.

(** The error of a nudge that was not delivered. *)
Definition nudge_refused (session_id : Uuid) (outcome : NudgeOutcome) : option string :=
  match outcome with
  | NudgeOutcome.Delivered => None
  | NudgeOutcome.Unsupported reason =>
      Some ("nudge unsupported; reason=" +:+ NudgeFailureReason_as_str reason +:+ " session_id=" +:+
            uuid_to_string session_id)
  | NudgeOutcome.Failed reason => Some (nudge_failed_message reason session_id)
  end.

(** The flag of a response of the daemon is that of its outcome. *)
Lemma nudge_runtime_flag request (w : W) :
  match run (nudge_runtime request) w with
  | (Ok response, _) =>
      response.(NudgeResponse.delivered) = bool_decide (response.(NudgeResponse.outcome) = NudgeOutcome.Delivered)
  | (Err _, _) => True
  end.
Proof.
  unfold nudge_runtime. rewrite run_bind_match. destruct (run (get_session _) w) as [[l|e] w1]; [|done].
  destruct (Lifecycle.tmux_pane l) as [pane|]; [|done]. rewrite run_bind_match.
  destruct (run (is_terminal _) w1) as [[[]|e] w2]; [done| |done].
  rewrite run_bind_match. destruct (run (atomic _) w2) as [[[]|e] w3]; done.
Qed.

Lemma nudge_run fuel args format request (t : Terminal W) :
  has_socket → requested_format (drop 1 args) = format →
  run_main fuel args (CliCommand.Nudge format request.(NudgeRequest.session_id) request.(NudgeRequest.content)) t =
    let '(r, w') := run (nudge_runtime request) t.(Terminal.world) in
    match (λ response, (response, nudge_refused request.(NudgeRequest.session_id) response.(NudgeResponse.outcome))) <$> r with
    | Ok (_, Some message) =>
        (Some 1%Z, printed "" (emit_error debug_conflict to_string_pretty format (OfError (anyhow message)))
                     (with_world w' t))
    | Ok (response, None) =>
        finished format (Ok (enc NudgeResponse_codec response, render_NudgeResponse response)) (with_world w' t)
    | Err e =>
        finished format (remote RpcErrorContext.Other (Err e)) (with_world w' t)
    end.
Proof.
  intros Hs Hfmt. destruct (cli_socket_path_run t Hs) as (path & Ep).
  pose proof (nudge_runtime_flag request t.(Terminal.world)) as Hflag.
  unfold Cli.run_main. cbn [run_command]. unfold run_nudge, mbind, M_bind. rewrite Ep.
  replace (NudgeRequest.mk _ _) with request by (by destruct request).
  destruct (run (nudge_runtime request) t.(Terminal.world)) as [[response|e] w'] eqn:Er.
  - erewrite (shared_request_run _ _ (RuntimeResponse.Nudge response) w');
      [|by repeat split; apply uuid_parse_to_string| |by repeat split].
    2:{ rewrite handle_rpc_run. cbn [handle_rpc_result]. by rewrite run_fmap, Er. }
    cbn. rewrite Hflag. destruct (NudgeResponse.outcome response); cbn; rewrite ?Hfmt;
      unfold printed, with_world; cbn; by rewrite str_app_nil_r.
  - erewrite (shared_request_run _ _ (RuntimeResponse.Error (rpc_error_response RpcErrorContext.Other e)) w');
      [|by repeat split; apply uuid_parse_to_string| |done].
    2:{ rewrite handle_rpc_run. cbn [handle_rpc_result]. by rewrite run_fmap, Er. }
    cbn. rewrite Hfmt. unfold printed, with_world. cbn. by rewrite str_app_nil_r.
Qed.

Lemma mcp_run fuel args (t : Terminal W) :
  has_socket → String.length t.(Terminal.stdin) < fuel →
  Forall (λ line, utf8_valid line = true) (stdin_lines fuel t.(Terminal.stdin)) →
  run_main fuel args CliCommand.Mcp t =
    let '(out, w') := mcp_session (stdin_lines fuel t.(Terminal.stdin)) t.(Terminal.world) in
    (Some 0%Z, Terminal.mk w' EmptyString (t.(Terminal.stdout) +:+ out) t.(Terminal.stderr)).
Proof.
  intros Hs Hf Hu. destruct (cli_socket_path_run t Hs) as (path & Ep).
  unfold Cli.run_main. cbn [run_command]. unfold run_mcp, mbind, M_bind. rewrite Ep.
  rewrite run_stdio_run by done. by destruct (mcp_session _ _) as [out w'].
Qed.
End commands.

(** C12. Commands and the daemon. What [rtm kill] and [rtm nudge] print and how they exit is
    the outcome of the daemon's task, whose effect on the daemon is the command's: status 0
    and the payload when the task succeeds (for a nudge, when it was delivered), status 1 and
    the report of its error or of the reason otherwise. [rtm mcp] passes every line of its
    input that is not blank to the daemon's bridge, in order, prints the answers a line each,
    and ends with its input. *)
Theorem commands_report_daemon {S L O : Type}
    `{!LifecycleStore S, !StoreDiagnostics S, !EventSink L, !Os O, !External, !Json, !Build}
    `{!CliOs (Server S L O)}
    config which path_var arch event_waiter_count path_env utc_now started_instant notified_first
    environ canonical_path is_dir current_dir to_string_pretty debug_conflict debug debug_capture debug_nudge
    run_daemon open_store run_shim fuel args (t : Terminal (Server S L O)) :
  has_socket environ →
  let format := requested_format (drop 1 args) in
  let rtm command :=
    run_main connects (serves_alone config which path_var arch event_waiter_count path_env utc_now
                         started_instant notified_first)
      environ canonical_path is_dir current_dir to_string_pretty debug_conflict debug debug_capture debug_nudge
      run_daemon open_store run_shim fuel args command t in
  let finished := finished to_string_pretty debug_conflict format in
  (∀ request, fits KillRequest_codec request →
     rtm (CliCommand.Kill format
            (KillArgs.mk (Some request.(KillRequest.session_id)) None request.(KillRequest.signal)
               request.(KillRequest.grace_secs))) =
       let '(r, w') := run (kill_runtime request) t.(Terminal.world) in
       finished (remote RpcErrorContext.Other
                   ((λ outcome, (enc KilledPayload_codec outcome, render_KilledPayload outcome)) <$> r))
         (with_world w' t)) ∧
  (∀ request,
     rtm (CliCommand.Nudge format request.(NudgeRequest.session_id) request.(NudgeRequest.content)) =
       let '(r, w') := run (nudge_runtime request) t.(Terminal.world) in
       match (λ response, (response, nudge_refused request.(NudgeRequest.session_id)
                                       response.(NudgeResponse.outcome))) <$> r with
       | Ok (_, Some message) =>
           (Some 1%Z, printed "" (emit_error debug_conflict to_string_pretty format (OfError (anyhow message)))
                        (with_world w' t))
       | Ok (response, None) =>
           finished (Ok (enc NudgeResponse_codec response, render_NudgeResponse response)) (with_world w' t)
       | Err e => finished (remote RpcErrorContext.Other (Err e)) (with_world w' t)
       end) ∧
  (String.length t.(Terminal.stdin) < fuel →
   Forall (λ line, utf8_valid line = true) (stdin_lines fuel t.(Terminal.stdin)) →
   join EmptyString (stdin_lines fuel t.(Terminal.stdin)) = t.(Terminal.stdin) ∧
   rtm CliCommand.Mcp =
     let '(out, w') := mcp_session config event_waiter_count (stdin_lines fuel t.(Terminal.stdin)) t.(Terminal.world) in
     (Some 0%Z, Terminal.mk w' EmptyString (t.(Terminal.stdout) +:+ out) t.(Terminal.stderr))).
Proof.
  intros Hs format rtm finished. subst format rtm finished. split_and!.
  - intros request Hf. by apply kill_run.
  - intros request. by apply nudge_run.
  - intros Hf Hu. split; [by apply stdin_lines_concat|by apply mcp_run].
Qed.

Section concrete.
#[local] Existing Instance decimal_external.
#[local] Existing Instance code_json.
#[local] Existing Instance idle_os.
#[local] Existing Instances demo_store demo_diagnostics demo_sink demo_build.
#[local] Instance demo_cli : CliOs (Server Db Log N) := {|
  path_exists := λ _ w, (true, w);
  cli_instant := λ w, (0%N, w);
  cli_sleep := λ _ w, w |}.

(** A nudge of a session that the daemon does not know, and an input of two lines. *)
Lemma commands_report_daemon_witness :
  let input := "
{}
" in
  let t := Terminal.mk demo_server input "" "" in
  let rtm command := run_main connects demo_daemon [("RTM_SOCKET_PATH", "/d/sock")] (λ p, Ok p) (λ _, true)
    (Ok "/") json_to_string (λ _ _, "") (λ _, "") (λ _, "") (λ _, "") (mret tt) (λ _, mret tt) (λ _, mret tt)
    5 ["rtm"] command t in
  (rtm CliCommand.Mcp).1 = Some 0%Z ∧ (rtm CliCommand.Mcp).2.(Terminal.stdin) = "" ∧
  (rtm (CliCommand.Nudge OutputFormat.Json (mkUuid 9) "x")).1 = Some 1%Z.
Proof.
  intros input t rtm.
  destruct (commands_report_daemon demo_config (λ _ binary, Ok (true, "/bin/" +:+ binary)) None "x86_64" (λ _, 0)
    (RuntimePathEnv.mk None None None None None None) (mret 0%Z) 0 true
    [("RTM_SOCKET_PATH", "/d/sock")] (λ p, Ok p) (λ _, true) (Ok "/") json_to_string (λ _ _, "") (λ _, "") (λ _, "")
    (λ _, "") (mret tt) (λ _, mret tt) (λ _, mret tt) 5 ["rtm"] t eq_refl) as (_ & Hn & Hm).
  destruct Hm as [_ Hm]; [cbn; lia|repeat constructor|].
  specialize (Hn (NudgeRequest.mk (mkUuid 9) "x")).
  assert ((run (nudge_runtime (NudgeRequest.mk (mkUuid 9) "x")) demo_server).1 =
            Err (session_not_found (mkUuid 9))) as E by (vm_compute; reflexivity).
  match type of Hm with _ = ?r => change (rtm CliCommand.Mcp = r) in Hm end.
  match type of Hn with _ = ?r =>
    change (rtm (CliCommand.Nudge OutputFormat.Json (mkUuid 9) "x") = r) in Hn end.
  rewrite Hm, Hn. split_and!; [by destruct (mcp_session _ _ _ _)..|].
  cbn [Terminal.world t]. destruct (run (nudge_runtime _) _) as [r w']. cbn [fst] in E. by subst r.
Defined.
End concrete.
